(* ===== verification/_CoqProject ===== *)
-Q . S2P
Prelude.v
Endian.v
Intset.v
Util.v
Crc.v
Lzf.v
Dict.v
Adlist.v
Sds.v
SdsText.v
Glob.v
Zipmap.v
Scores.v
Skiplist.v
SkiplistInv.v
SkiplistSpec.v
SkiplistRange.v
SkiplistCmds.v
Ziplist.v
ZiplistSpec.v
ZiplistOps.v
ZiplistCmds.v
Request.v
RequestSpec.v
RequestSafe.v
RequestStream.v
RequestCmds.v
