(* ===== verification/Prelude.v ===== *)
(** Verification of the data structures and codecs of the Redis server bundled
    with nanotwitter ([redis-stable/src]).

    * The program

    nanotwitter is a Ruby application that keeps its timelines in Redis; the
    C code of the repository is that server.  Requests arrive in a query buffer
    per client, from which the parser of [networking.c] extracts commands; the
    commands (not modelled) operate on values stored in the data structures
    below.  Strings are [sds] buffers;
    the key space, hashes and sets are [dict] hash tables, with [intset] for small
    sets of integers; lists of clients, replies and the like are [adlist] linked
    lists; sorted sets are skip lists beside a [dict]; [zipmap] and [ziplist]
    pack small collections in one block; numbers, patterns, checksums and
    compression are the routines of [util.c], [crc16.c], [crc64.c], [lzf_c.c] and
    [lzf_d.c].

    * Files

    - [Prelude.v] (this file): machine integers, memory blocks with checked byte
      accesses ([load8], [store8], [memcpy], [memmove], [zrealloc]), C strings
      ([at_]), generic lemmas, the [redis] hint database and tactics.
    - [Endian.v]: [endianconv.c]; byte order of the host as a class.
    - [Intset.v]: [intset.c]; [intset] record, every function.
    - [Util.v]: number conversions of [util.c].  [Glob.v]: [stringmatchlen].
    - [Crc.v]: [crc16.c], [crc64.c], [keyHashSlot] of [cluster.c].
    - [Lzf.v]: [lzf_c.c], [lzf_d.c].
    - [Dict.v]: [dict.c] (tables, incremental rehashing, cursor scan, hashes).
    - [Adlist.v]: [adlist.c] on a heap of nodes.
    - [Sds.v], [SdsText.v]: [sds.c] (buffers; text functions).
    - [Zipmap.v]: [zipmap.c] on a memory block.
    - [Ziplist.v]: [ziplist.c] on a memory block; [ZiplistSpec.v] the layout of
      entries, [ZiplistOps.v] the specifications of the operations,
      [ZiplistCmds.v] its theorems.
    - [Scores.v]: comparisons and ranges of [t_zset.c] and [object.c].
      [Skiplist.v]: the [zsl] functions of [t_zset.c]; [SkiplistInv.v] its pointer
      invariant, [SkiplistSpec.v] and [SkiplistRange.v] its operations over sorted
      items, [SkiplistCmds.v] its theorems.
    - [Request.v]: the request parser of [networking.c], from
      [readQueryFromClient] to the call of [processCommand]; [RequestSpec.v] its
      steps on the contents of the query buffer, [RequestSafe.v] its invariant on
      arbitrary input, [RequestStream.v] well-formed streams, [RequestCmds.v] its
      theorems.  [CommandLaw] and [Executes] are the classes of what it requires of the
      command interpreter.

    A definition has the name of the C function or type it models; a loop of a
    function is a separate [Fixpoint], and the manifest gives the source lines of
    each.  State is passed explicitly; [None] is undefined behaviour, a failed
    assertion or exhausted fuel, so a theorem that ends in [= Some _] states
    that the C code returns and does nothing undefined on the way.  Error returns of the
    C code are values of the result type.

    * Theorems

    - refinement: scripts of operations on [intset], [dict], [adlist], [sds],
      [zipmap], [ziplist] and skip lists behave like the same scripts on sets, finite maps,
      lists, byte strings and sorted lists, and keep the representation
      invariants (sortedness, header fields, links both ways, spans, sizes); a
      stream of requests whose commands complete is executed in order however the
      network cuts it;
    - round trips: numbers to text and back, LZF, quoted arguments, splitting and
      joining;
    - equivalence: table driven checksums and their bit-serial definitions, the
      glob matcher and a matching relation, the memory image a script of [intset]
      operations leaves on hosts of either byte order;
    - safety and bounds: decompression and request parsing of arbitrary input, room of the
      compressor's output, the size at which [intset] allocation wraps;
    - termination and liveness: rehashing finishes, a scan ends and reports every
      key present throughout;
    - failures of the code on inputs it does not exclude, each stated for every
      input of its kind: [dictScan] after a shrink (an existence statement),
      [stringmatchlen] past the terminator of the pattern or of an empty string,
      lexicographic ranges that name a sentinel, a ziplist insertion that truncates
      the list before it moves the tail, a ziplist merge with an empty list, request
      lines that end in a newline alone, length lines behind 64 kB of their own
      request, big arguments complete while clients are paused.

    * Bounds and fuel

    Fuel is always a function of the input ([S len] for a loop that advances in a
    buffer, the number of nodes or buckets for a traversal, 64 for the bits of a
    cursor), and the theorems prove it sufficient.  Integers wrap at their C
    width; theorems that need room state the bound (for instance fewer than
    2^32 skip list nodes, because spans are [unsigned int]).  Allocation never
    fails: [zmalloc] aborts the server.  Uninitialised memory is a parameter.

    * Not modelled

    The Ruby application; the server core, event loop, reply buffers, persistence,
    replication, cluster, sentinel and scripting code; the tools; the libraries
    under [deps].  Within the modelled files: dict iterators and random sampling,
    formatted output with variadic arguments ([sdscatprintf], [sdscatfmt]), code
    that calls [strtod], debugging printers and test mains.  Next in the plan: the
    length encodings of [rdb.c], [quicklist.c], the ziplist form of sorted sets, and
    dict iterators. *)

From Stdlib Require Export ZArith Lia List.
From stdpp Require Export base tactics numbers list option gmap.
From stdpp Require Import options.

(** ** Scope, hint databases *)

Declare Scope redis_scope.
Delimit Scope redis_scope with redis.
Create HintDb redis.

Global Open Scope Z_scope.

(** ** Machine integers

    A C integer of width [w] is a [Z]; the conversions below are applied
    wherever the source converts or lets an operation wrap. *)

Definition wrapu (w x : Z) : Z := x mod 2 ^ w.
Definition wraps (w x : Z) : Z := (x + 2 ^ (w - 1)) mod 2 ^ w - 2 ^ (w - 1).

Abbreviation u8 := (wrapu 8).
Abbreviation u16 := (wrapu 16).
Abbreviation u32 := (wrapu 32).
Abbreviation u64 := (wrapu 64).
Abbreviation s8 := (wraps 8).
Abbreviation s16 := (wraps 16).
Abbreviation s32 := (wraps 32).
Abbreviation s64 := (wraps 64).

Definition INT16_MIN : Z := - 2 ^ 15.
Definition INT16_MAX : Z := 2 ^ 15 - 1.
Definition INT32_MIN : Z := - 2 ^ 31.
Definition INT32_MAX : Z := 2 ^ 31 - 1.
Definition INT64_MIN : Z := - 2 ^ 63.
Definition INT64_MAX : Z := 2 ^ 63 - 1.
Definition UINT32_MAX : Z := 2 ^ 32 - 1.
Definition UINT64_MAX : Z := 2 ^ 64 - 1.

Lemma wrapu_range w x : 0 <= w -> 0 <= wrapu w x < 2 ^ w.
Proof. intros. apply Z.mod_pos_bound. lia. Qed.

Lemma wrapu_id w x : 0 <= x < 2 ^ w -> wrapu w x = x.
Proof. apply Z.mod_small. Qed.

Lemma wraps_range w x : 1 <= w -> - 2 ^ (w - 1) <= wraps w x < 2 ^ (w - 1).
Proof.
  intros. unfold wraps.
  pose proof (Z.mod_pos_bound (x + 2 ^ (w - 1)) (2 ^ w) ltac:(lia)).
  assert (2 ^ w = 2 * 2 ^ (w - 1)) by (rewrite <- Z.pow_succ_r by lia; f_equal; lia).
  lia.
Qed.

Lemma wraps_id w x : 1 <= w -> - 2 ^ (w - 1) <= x < 2 ^ (w - 1) -> wraps w x = x.
Proof.
  intros. unfold wraps.
  assert (2 ^ w = 2 * 2 ^ (w - 1)) by (rewrite <- Z.pow_succ_r by lia; f_equal; lia).
  rewrite Z.mod_small; lia.
Qed.

(** Reading a value back as signed after it was stored as unsigned. *)
Lemma wraps_wrapu w x : 1 <= w -> - 2 ^ (w - 1) <= x < 2 ^ (w - 1) ->
  wraps w (wrapu w x) = x.
Proof.
  intros. unfold wraps, wrapu.
  rewrite Zplus_mod_idemp_l. apply (wraps_id w x); lia.
Qed.

(** ** Bytes and byte strings *)

Definition is_byte (b : Z) : Prop := 0 <= b < 256.
Definition is_byteb (b : Z) : bool := (0 <=? b) && (b <? 256).

#[export] Instance is_byte_dec b : Decision (is_byte b).
Proof. unfold is_byte. apply _. Defined.

(** Little-endian encoding of [v] on [n] bytes, and its inverse. *)
Fixpoint le_bytes (n : nat) (v : Z) : list Z :=
  match n with
  | O => []
  | S n => v mod 256 :: le_bytes n (v / 256)
  end.

Fixpoint le_val (bs : list Z) : Z :=
  match bs with
  | [] => 0
  | b :: bs => b + 256 * le_val bs
  end.

Lemma length_le_bytes n v : length (le_bytes n v) = n.
Proof. revert v; induction n; intros; simpl; auto. Qed.

Lemma le_bytes_is_byte n v : Forall is_byte (le_bytes n v).
Proof.
  revert v; induction n; intros; simpl; constructor; auto.
  apply Z.mod_pos_bound. lia.
Qed.

Lemma pow256_succ n : 256 ^ Z.of_nat (S n) = 256 * 256 ^ Z.of_nat n.
Proof. rewrite Nat2Z.inj_succ, Z.pow_succ_r; lia. Qed.

Lemma le_val_bytes n v : le_val (le_bytes n v) = v mod 256 ^ Z.of_nat n.
Proof.
  revert v; induction n as [|n IH]; intros v.
  { simpl. by rewrite Z.mod_1_r. }
  cbn [le_bytes le_val]. rewrite IH, pow256_succ.
  rewrite Z.rem_mul_r by lia. lia.
Qed.

Lemma le_val_range bs : Forall is_byte bs -> 0 <= le_val bs < 256 ^ Z.of_nat (length bs).
Proof.
  induction 1 as [|b bs Hb _ IH]; [simpl; lia|].
  cbn [le_val length]. rewrite pow256_succ. unfold is_byte in Hb. lia.
Qed.

Lemma le_bytes_val bs : Forall is_byte bs -> le_bytes (length bs) (le_val bs) = bs.
Proof.
  induction 1 as [|b bs Hb _ IH]; [done|]. unfold is_byte in Hb.
  cbn [le_val length le_bytes]. f_equal.
  - rewrite Z.mul_comm, Z_mod_plus_full, Z.mod_small; lia.
  - rewrite Z.mul_comm, Z_div_plus_full by lia. rewrite Z.div_small by lia. done.
Qed.

Arguments le_bytes : simpl never.
Arguments le_val : simpl never.

(** ** Memory blocks

    A heap block is a list of cells; a cell that was never written ([None])
    is indeterminate.  Every access is checked: an access outside the block
    and a read of an indeterminate cell are [None], the model's undefined
    behaviour.  A theorem that an operation returns [Some] is a memory-safety
    theorem. *)

Abbreviation cell := (option Z).
Abbreviation block := (list (option Z)).

Definition blen (m : block) : Z := Z.of_nat (length m).

Definition in_block (m : block) (off n : Z) : bool :=
  (0 <=? off) && (0 <=? n) && (off + n <=? blen m).

Definition slice {A} (l : list A) (off n : Z) : list A :=
  take (Z.to_nat n) (drop (Z.to_nat off) l).

Definition load (m : block) (off n : Z) : option (list Z) :=
  if in_block m off n then mapM (fun c => c) (slice m off n) else None.

Definition overwrite (m : block) (off : Z) (cs : block) : block :=
  take (Z.to_nat off) m ++ cs ++ drop (Z.to_nat off + length cs) m.

Definition store (m : block) (off : Z) (bs : list Z) : option block :=
  if in_block m off (Z.of_nat (length bs)) then Some (overwrite m off (Some <$> bs)) else None.

(** [memmove] copies cells, indeterminate ones included. *)
Definition memmove (m : block) (dst src n : Z) : option block :=
  if in_block m src n && in_block m dst n then Some (overwrite m dst (slice m src n)) else None.

Definition load8 (m : block) (off : Z) : option Z :=
  bs ← load m off 1; head bs.

Definition store8 (m : block) (off v : Z) : option block := store m off [u8 v].

Definition malloc (n : Z) : block := replicate (Z.to_nat n) None.

(** [zrealloc]: the common prefix is kept, new cells are indeterminate. *)
Definition zrealloc (m : block) (n : Z) : block :=
  take (Z.to_nat n) m ++ replicate (Z.to_nat n - length m) None.

(** *** Laws of the block operations, in split form *)

Lemma mapM_id_fmap_Some (bs : list Z) : mapM (fun c : cell => c) (Some <$> bs) = Some bs.
Proof. apply mapM_Some. induction bs; constructor; auto. Qed.

Lemma slice_app {A} (a b c : list A) off n :
  off = Z.of_nat (length a) -> n = Z.of_nat (length b) -> slice (a ++ b ++ c) off n = b.
Proof.
  intros -> ->. unfold slice. rewrite !Nat2Z.id, drop_app_length, take_app_length. done.
Qed.

Lemma in_block_app (a b c : block) off n :
  off = Z.of_nat (length a) -> n = Z.of_nat (length b) -> in_block (a ++ b ++ c) off n = true.
Proof.
  intros -> ->. unfold in_block, blen. rewrite !length_app.
  rewrite !andb_true_iff, !Z.leb_le. lia.
Qed.

Lemma load_app (a c : block) (bs : list Z) off n :
  off = Z.of_nat (length a) -> n = Z.of_nat (length bs) ->
  load (a ++ (Some <$> bs) ++ c) off n = Some bs.
Proof.
  intros Ho Hn. unfold load.
  rewrite in_block_app, slice_app by (rewrite ?length_fmap; done).
  apply mapM_id_fmap_Some.
Qed.

Lemma overwrite_app (a b c cs : block) off :
  off = Z.of_nat (length a) -> length b = length cs ->
  overwrite (a ++ b ++ c) off cs = a ++ cs ++ c.
Proof.
  intros -> Hl. unfold overwrite. rewrite Nat2Z.id, take_app_length.
  do 2 f_equal. rewrite <- Hl, drop_app_add, drop_app_length. done.
Qed.

Lemma store_app (a b c : block) (bs : list Z) off :
  off = Z.of_nat (length a) -> length b = length bs ->
  store (a ++ b ++ c) off bs = Some (a ++ (Some <$> bs) ++ c).
Proof.
  intros Ho Hl. unfold store. rewrite in_block_app by (lia || done).
  f_equal. apply overwrite_app; [done|]. by rewrite length_fmap.
Qed.

(** A move whose source and target are given by two splits of the block. *)
Lemma memmove_app (m a b c a' b' c' : block) dst src n :
  m = a ++ b ++ c -> m = a' ++ b' ++ c' ->
  src = Z.of_nat (length a) -> n = Z.of_nat (length b) ->
  dst = Z.of_nat (length a') -> n = Z.of_nat (length b') ->
  memmove m dst src n = Some (a' ++ b ++ c').
Proof.
  intros E E' Hs Hn Hd Hn'. unfold memmove.
  assert (in_block m src n = true) as -> by (rewrite E; by apply in_block_app).
  assert (in_block m dst n = true) as -> by (rewrite E'; by apply in_block_app).
  simpl. f_equal. rewrite E at 2. rewrite (slice_app a b c) by done.
  rewrite E'. apply overwrite_app; [done|lia].
Qed.

Lemma length_malloc n : length (malloc n) = Z.to_nat n.
Proof. apply length_replicate. Qed.

Lemma length_zrealloc m n : length (zrealloc m n) = Z.to_nat n.
Proof. unfold zrealloc. rewrite length_app, length_take, length_replicate. lia. Qed.

Lemma zrealloc_grow m n : Z.of_nat (length m) <= n ->
  zrealloc m n = m ++ replicate (Z.to_nat (n - Z.of_nat (length m))) None.
Proof.
  intros. unfold zrealloc. rewrite take_ge by lia. do 2 f_equal. lia.
Qed.

Lemma zrealloc_shrink a b n : n = Z.of_nat (length a) -> zrealloc (a ++ b) n = a.
Proof.
  intros ->. unfold zrealloc. rewrite Nat2Z.id, take_app_length, length_app.
  replace (_ - _)%nat with 0%nat by lia. by rewrite app_nil_r.
Qed.

Lemma load_oob m off n : off < 0 \/ n < 0 \/ blen m < off + n -> load m off n = None.
Proof.
  intros H. unfold load, in_block.
  destruct (Z.leb_spec 0 off), (Z.leb_spec 0 n), (Z.leb_spec (off + n) (blen m));
    simpl; try done; lia.
Qed.

Lemma store_oob m off bs : off < 0 \/ blen m < off + Z.of_nat (length bs) -> store m off bs = None.
Proof.
  intros H. unfold store, in_block.
  destruct (Z.leb_spec 0 off), (Z.leb_spec 0 (Z.of_nat (length bs))),
    (Z.leb_spec (off + Z.of_nat (length bs)) (blen m)); simpl; try done; lia.
Qed.

(** *** Checked signed arithmetic

    Signed overflow is undefined behaviour: [i32] and [i64] are applied to
    the exact result of an [int] or [long long] operation. *)

Definition i32 (x : Z) : option Z :=
  if (INT32_MIN <=? x) && (x <=? INT32_MAX) then Some x else None.
Definition i64 (x : Z) : option Z :=
  if (INT64_MIN <=? x) && (x <=? INT64_MAX) then Some x else None.

Lemma i32_ok x : INT32_MIN <= x <= INT32_MAX -> i32 x = Some x.
Proof.
  intros H. unfold i32. destruct (Z.leb_spec INT32_MIN x), (Z.leb_spec x INT32_MAX); simpl; lia || done.
Qed.

Lemma i64_ok x : INT64_MIN <= x <= INT64_MAX -> i64 x = Some x.
Proof.
  intros H. unfold i64. destruct (Z.leb_spec INT64_MIN x), (Z.leb_spec x INT64_MAX); simpl; lia || done.
Qed.

(** Boolean comparisons on [Z]: case analysis in the goal. *)
Ltac zcase :=
  match goal with
  | |- context [?x <? ?y] => destruct (Z.ltb_spec x y)
  | |- context [?x <=? ?y] => destruct (Z.leb_spec x y)
  | |- context [?x >? ?y] => rewrite (Z.gtb_ltb x y); destruct (Z.ltb_spec y x)
  | |- context [?x >=? ?y] => rewrite (Z.geb_leb x y); destruct (Z.leb_spec y x)
  | |- context [?x =? ?y] => destruct (Z.eqb_spec x y)
  end.

Ltac zcases := repeat zcase; try lia; simpl.

(** [Z] constants of the development, for [lia]. *)
Ltac unfold_limits :=
  unfold INT16_MIN, INT16_MAX, INT32_MIN, INT32_MAX, INT64_MIN, INT64_MAX,
    UINT32_MAX, UINT64_MAX in *.

(** *** Constant byte strings

    A [const char *] argument is a list of bytes; reading it is checked. *)

Definition rd (l : list Z) (i : Z) : option Z :=
  if 0 <=? i then l !! Z.to_nat i else None.

Lemma rd_app (a l : list Z) (c : Z) i : i = Z.of_nat (length a) -> rd (a ++ c :: l) i = Some c.
Proof.
  intros ->. unfold rd. destruct (Z.leb_spec 0 (Z.of_nat (length a))); [|lia].
  rewrite Nat2Z.id, lookup_app_r by lia. by rewrite Nat.sub_diag.
Qed.

Lemma rd_lookup (l : list Z) i : rd l (Z.of_nat i) = l !! i.
Proof. unfold rd. destruct (Z.leb_spec 0 (Z.of_nat i)); [|lia]. by rewrite Nat2Z.id. Qed.

Lemma rd_None (l : list Z) i : i < 0 \/ Z.of_nat (length l) <= i -> rd l i = None.
Proof.
  intros H. unfold rd. destruct (Z.leb_spec 0 i); [|done]. apply lookup_ge_None_2. lia.
Qed.

Abbreviation Zlen l := (Z.of_nat (length l)).

(** Reducing a bind by rewriting keeps the continuation folded. *)
Lemma bind_Some {A B} (f : A -> option B) (x : A) : Some x ≫= f = f x.
Proof. reflexivity. Qed.

(** *** C strings

    A C string is the list of its bytes before the terminator; reading it at
    its end gives the zero byte. *)

Definition at_ (line : list Z) (i : Z) : option Z := rd (line ++ [0]) i.

Lemma at_app (a l : list Z) c k i : i = Zlen a + Z.of_nat k -> l !! k = Some c -> at_ (a ++ l) i = Some c.
Proof.
  intros -> Hk. unfold at_. rewrite <- Nat2Z.inj_add, rd_lookup, <- app_assoc.
  rewrite lookup_app_r by lia. replace (length a + k - length a)%nat with k by lia.
  apply lookup_app_l_Some. done.
Qed.

Lemma at_end line : at_ line (Zlen line) = Some 0.
Proof. unfold at_. by apply rd_app. Qed.

(** *** Single cells *)

Lemma store8_app (a c : block) x v off : off = Zlen a -> is_byte v ->
  store8 (a ++ x :: c) off v = Some (a ++ Some v :: c).
Proof.
  intros -> Hv. unfold store8. rewrite (wrapu_id 8) by done.
  change (a ++ x :: c) with (a ++ [x] ++ c). by rewrite store_app.
Qed.

Lemma load8_app (a b : block) v off : off = Zlen a -> load8 (a ++ Some v :: b) off = Some v.
Proof.
  intros Ho. unfold load8. change (a ++ Some v :: b) with (a ++ (Some <$> [v]) ++ b).
  by rewrite (load_app a b [v]).
Qed.

(** Splitting off the first cells of a block. *)
Lemma block_split (b : block) n : 0 <= n <= Zlen b -> exists x y, b = x ++ y /\ Zlen x = n.
Proof.
  intros Hn. exists (take (Z.to_nat n) b), (drop (Z.to_nat n) b). rewrite take_drop, length_take. split; [done|lia].
Qed.

Lemma snoc_len {A} (a : list A) x : Zlen (a ++ [x]) = Zlen a + 1.
Proof. rewrite length_app. simpl. lia. Qed.

(** *** Disjoint bits *)

Lemma add_disjoint a b : Z.land a b = 0 -> a + b = Z.lor a b.
Proof. intros E. rewrite Z.add_nocarry_lxor, Z.lxor_lor by done. done. Qed.

Lemma lor_low a b n : 0 <= n -> 0 <= b < 2 ^ n -> Z.lor (a * 2 ^ n) b = a * 2 ^ n + b.
Proof.
  intros Hn Hb. symmetry. apply add_disjoint. apply Z.bits_inj'. intros i Hi.
  rewrite Z.land_spec, Z.bits_0, <- Z.shiftl_mul_pow2 by lia. destruct (Z.lt_ge_cases i n).
  - by rewrite Z.shiftl_spec_low by lia.
  - assert (Z.testbit b i = false) as ->; [|by rewrite andb_false_r].
    rewrite <- (Z.mod_small b (2 ^ n)) by done. by apply Z.mod_pow2_bits_high.
Qed.

Lemma div_mod_pow v n : 0 <= n -> v = v / 2 ^ n * 2 ^ n + v mod 2 ^ n.
Proof. intros. pose proof (Z.div_mod v (2 ^ n) ltac:(lia)). lia. Qed.

(** An [unsigned int] difference read as an [int]. *)
Lemma s32_u32_small x : - 2 ^ 31 <= x < 2 ^ 31 -> s32 (u32 x) = x.
Proof. intros. by apply (wraps_wrapu 32). Qed.
