(* ===== verification/Endian.v ===== *)
(** Byte-order conversion: [endianconv.c] and the [...ifbe] macros of
    [endianconv.h].

    The byte order of the host is a class parameter: [host_bytes] and
    [host_val] are how a host of that order stores and reads an integer.  The
    theorems hold for both orders, so the serialized formats built on these
    conversions (intset, ziplist) have one byte layout on every host. *)

From S2P Require Import Prelude.

(** [BYTE_ORDER == BIG_ENDIAN] on this host. *)
Class Host := big_endian : bool.

Section Endian.
Context {HOST : Host}.

Definition host_bytes (n : nat) (v : Z) : list Z :=
  if big_endian then rev (le_bytes n v) else le_bytes n v.

Definition host_val (bs : list Z) : Z :=
  le_val (if big_endian then rev bs else bs).

(** [t = x[i]; x[i] = x[j]; x[j] = t;] *)
Definition swap_bytes (x : list Z) (i j : nat) : option (list Z) :=
  t ← x !! i; u ← x !! j; Some (<[j := t]> (<[i := u]> x)).

Definition memrev16 (x : list Z) : option (list Z) :=
  swap_bytes x 0 1.

Definition memrev32 (x : list Z) : option (list Z) :=
  x ← swap_bytes x 0 3; swap_bytes x 1 2.

Definition memrev64 (x : list Z) : option (list Z) :=
  x ← swap_bytes x 0 7; x ← swap_bytes x 1 6;
  x ← swap_bytes x 2 5; swap_bytes x 3 4.

Definition intrev16 (v : Z) : option Z := host_val <$> memrev16 (host_bytes 2 v).
Definition intrev32 (v : Z) : option Z := host_val <$> memrev32 (host_bytes 4 v).
Definition intrev64 (v : Z) : option Z := host_val <$> memrev64 (host_bytes 8 v).

(** The conditional variants: the conversion on a big endian host only. *)
Definition memrev16ifbe (x : list Z) : option (list Z) := if big_endian then memrev16 x else Some x.
Definition memrev32ifbe (x : list Z) : option (list Z) := if big_endian then memrev32 x else Some x.
Definition memrev64ifbe (x : list Z) : option (list Z) := if big_endian then memrev64 x else Some x.
Definition intrev16ifbe (v : Z) : option Z := if big_endian then intrev16 v else Some v.
Definition intrev32ifbe (v : Z) : option Z := if big_endian then intrev32 v else Some v.

(** ** The reversals are list reversal *)

Lemma memrev16_rev (x : list Z) : length x = 2%nat -> memrev16 x = Some (rev x).
Proof. intros. by destruct x as [|a [|b [|]]]. Qed.

Lemma memrev32_rev (x : list Z) : length x = 4%nat -> memrev32 x = Some (rev x).
Proof. intros. by destruct x as [|a [|b [|c [|d [|]]]]]. Qed.

Lemma memrev64_rev (x : list Z) : length x = 8%nat -> memrev64 x = Some (rev x).
Proof. intros. by destruct x as [|a [|b [|c [|d [|e [|f [|g [|h [|]]]]]]]]]. Qed.

Lemma length_host_bytes n v : length (host_bytes n v) = n.
Proof. unfold host_bytes. destruct big_endian; rewrite ?length_rev; apply length_le_bytes. Qed.

Lemma Forall_rev_byte (bs : list Z) : Forall is_byte bs -> Forall is_byte (rev bs).
Proof. rewrite !List.Forall_forall. intros H b. rewrite <- in_rev. auto. Qed.

Lemma host_bytes_is_byte n v : Forall is_byte (host_bytes n v).
Proof.
  unfold host_bytes. destruct big_endian; [apply Forall_rev_byte|]; apply le_bytes_is_byte.
Qed.

Lemma host_val_bytes n v : host_val (host_bytes n v) = v mod 256 ^ Z.of_nat n.
Proof.
  unfold host_val, host_bytes. destruct big_endian; rewrite ?rev_involutive; apply le_val_bytes.
Qed.

Lemma host_val_rev_range bs :
  Forall is_byte bs -> 0 <= host_val bs < 256 ^ Z.of_nat (length bs).
Proof.
  intros H. unfold host_val. destruct big_endian.
  - rewrite <- (length_rev bs). by apply le_val_range, Forall_rev_byte.
  - by apply le_val_range.
Qed.

(** The bytes of the reversed value are the reversed bytes. *)
Lemma host_bytes_val n bs : length bs = n -> Forall is_byte bs -> host_bytes n (host_val bs) = bs.
Proof.
  intros <- H. unfold host_bytes, host_val. destruct big_endian.
  - rewrite <- (length_rev bs), le_bytes_val, rev_involutive by (by apply Forall_rev_byte). done.
  - by apply le_bytes_val.
Qed.

Definition revn (n : nat) (v : Z) : Z := host_val (rev (host_bytes n v)).

Lemma revn_range n v : 0 <= revn n v < 256 ^ Z.of_nat n.
Proof.
  unfold revn. rewrite <- (length_host_bytes n v) at 3. rewrite <- length_rev.
  apply host_val_rev_range, Forall_rev_byte, host_bytes_is_byte.
Qed.

Lemma revn_involutive n v : 0 <= v < 256 ^ Z.of_nat n -> revn n (revn n v) = v.
Proof.
  intros Hv. unfold revn. rewrite host_bytes_val.
  2: { rewrite length_rev. apply length_host_bytes. }
  2: { apply Forall_rev_byte, host_bytes_is_byte. }
  rewrite rev_involutive, host_val_bytes, Z.mod_small by done. done.
Qed.

(** What a big endian host computes with [intrev] on an integer it read
    directly from memory is the little endian reading of those bytes. *)
Lemma revn_le n v : big_endian = true -> 0 <= v < 256 ^ Z.of_nat n ->
  revn n v = le_val (host_bytes n v).
Proof.
  intros Hbe Hv. unfold revn, host_val. rewrite Hbe, rev_involutive. done.
Qed.

Lemma intrev16_eq v : intrev16 v = Some (revn 2 v).
Proof. unfold intrev16. rewrite memrev16_rev by apply length_host_bytes. done. Qed.

Lemma intrev32_eq v : intrev32 v = Some (revn 4 v).
Proof. unfold intrev32. rewrite memrev32_rev by apply length_host_bytes. done. Qed.

Lemma intrev64_eq v : intrev64 v = Some (revn 8 v).
Proof. unfold intrev64. rewrite memrev64_rev by apply length_host_bytes. done. Qed.

(** The value [intrev32ifbe] computes. *)
Definition ifbe32 (v : Z) : Z := if big_endian then revn 4 v else v.

Lemma intrev32ifbe_eq v : intrev32ifbe v = Some (ifbe32 v).
Proof. unfold intrev32ifbe, ifbe32. destruct big_endian; [apply intrev32_eq | done]. Qed.

Lemma ifbe32_involutive v : 0 <= v < 2 ^ 32 -> ifbe32 (ifbe32 v) = v.
Proof. intros. unfold ifbe32. destruct big_endian; [by apply revn_involutive | done]. Qed.

Lemma ifbe32_range v : 0 <= v < 2 ^ 32 -> 0 <= ifbe32 v < 2 ^ 32.
Proof. intros. unfold ifbe32. destruct big_endian; [apply (revn_range 4) | done]. Qed.

(** An integer in memory, read or written through [intrevNifbe]: the bytes are
    little endian on every host. *)
Lemma intrev16ifbe_val bs : length bs = 2%nat -> Forall is_byte bs -> intrev16ifbe (host_val bs) = Some (le_val bs).
Proof.
  intros Hl Hb. unfold intrev16ifbe. destruct (big_endian) eqn:E.
  - rewrite intrev16_eq, revn_le, host_bytes_val by (done || (rewrite <- Hl; by apply host_val_rev_range)). done.
  - unfold host_val. by rewrite E.
Qed.

Lemma intrev32ifbe_val bs : length bs = 4%nat -> Forall is_byte bs -> intrev32ifbe (host_val bs) = Some (le_val bs).
Proof.
  intros Hl Hb. unfold intrev32ifbe. destruct (big_endian) eqn:E.
  - rewrite intrev32_eq, revn_le, host_bytes_val by (done || (rewrite <- Hl; by apply host_val_rev_range)). done.
  - unfold host_val. by rewrite E.
Qed.

Lemma host_bytes_revn n v : big_endian = true -> host_bytes n (revn n v) = le_bytes n v.
Proof.
  intros E. unfold revn. rewrite host_bytes_val.
  - unfold host_bytes. by rewrite E, rev_involutive.
  - rewrite length_rev. apply length_host_bytes.
  - apply Forall_rev_byte, host_bytes_is_byte.
Qed.

Lemma intrev16ifbe_bytes v : exists v', intrev16ifbe v = Some v' /\ host_bytes 2 v' = le_bytes 2 v.
Proof.
  unfold intrev16ifbe. destruct big_endian eqn:E.
  - rewrite intrev16_eq. eexists. split; [done|]. by apply host_bytes_revn.
  - eexists. split; [done|]. unfold host_bytes. by rewrite E.
Qed.

Lemma intrev32ifbe_bytes v : exists v', intrev32ifbe v = Some v' /\ host_bytes 4 v' = le_bytes 4 v.
Proof.
  unfold intrev32ifbe. destruct big_endian eqn:E.
  - rewrite intrev32_eq. eexists. split; [done|]. by apply host_bytes_revn.
  - eexists. split; [done|]. unfold host_bytes. by rewrite E.
Qed.

(** Loading bytes into a variable, [memrevNifbe] on it, and using its value. *)
Lemma memrevifbe_val n bs (memrev : list Z -> option (list Z)) :
  (forall x, length x = n -> memrev x = Some (rev x)) -> length bs = n ->
  (host_val <$> (if big_endian then memrev bs else Some bs)) = Some (le_val bs).
Proof.
  intros Hm Hl. unfold host_val. destruct big_endian.
  - rewrite Hm by done. simpl. by rewrite rev_involutive.
  - done.
Qed.

(** Storing a variable, then [memrevNifbe] on the stored bytes. *)
Lemma memrevifbe_bytes n v (memrev : list Z -> option (list Z)) :
  (forall x, length x = n -> memrev x = Some (rev x)) ->
  (if big_endian then memrev (host_bytes n v) else Some (host_bytes n v)) = Some (le_bytes n v).
Proof.
  intros Hm. unfold host_bytes. destruct big_endian.
  - rewrite Hm by (rewrite length_rev; apply length_le_bytes). by rewrite rev_involutive.
  - done.
Qed.

End Endian.
