(* ===== verification/Intset.v ===== *)
(** The integer set of [intset.c]: a sorted array of 16, 32 or 64 bit
    integers, stored little endian, which widens its encoding when a value
    does not fit.  [is_contents] is the heap block behind the flexible array
    member, at byte granularity; [intsetResize] goes through [zrealloc]. *)

From stdpp Require Import sorting.
From S2P Require Import Prelude Endian.

Record intset := Intset {
  is_encoding : Z;   (* uint32_t, stored with intrev32ifbe *)
  is_length : Z;     (* uint32_t, stored with intrev32ifbe *)
  is_contents : block
}.

Definition INTSET_ENC_INT16 : Z := 2.
Definition INTSET_ENC_INT32 : Z := 4.
Definition INTSET_ENC_INT64 : Z := 8.

Section Ops.
Context {HOST : Host}.

Definition _intsetValueEncoding (v : Z) : Z :=
  if (v <? INT32_MIN) || (v >? INT32_MAX) then INTSET_ENC_INT64
  else if (v <? INT16_MIN) || (v >? INT16_MAX) then INTSET_ENC_INT32
  else INTSET_ENC_INT16.

Definition _intsetGetEncoded (s : intset) (pos enc : Z) : option Z :=
  if enc =? INTSET_ENC_INT64 then
    v64 ← load (is_contents s) (pos * 8) 8; v64 ← memrev64ifbe v64; Some (s64 (host_val v64))
  else if enc =? INTSET_ENC_INT32 then
    v32 ← load (is_contents s) (pos * 4) 4; v32 ← memrev32ifbe v32; Some (s32 (host_val v32))
  else
    v16 ← load (is_contents s) (pos * 2) 2; v16 ← memrev16ifbe v16; Some (s16 (host_val v16)).

Definition _intsetGet (s : intset) (pos : Z) : option Z :=
  enc ← intrev32ifbe (is_encoding s); _intsetGetEncoded s pos (u8 enc).

(** [p[pos] = value; memrevNifbe(p+pos);] on an array of [n]-byte integers. *)
Definition set_elem (memrev : list Z -> option (list Z)) (n : nat) (m : block) (pos value : Z)
    : option block :=
  m ← store m (pos * Z.of_nat n) (host_bytes n value);
  x ← load m (pos * Z.of_nat n) (Z.of_nat n);
  x ← memrev x;
  store m (pos * Z.of_nat n) x.

Definition _intsetSet (s : intset) (pos value : Z) : option intset :=
  encoding ← intrev32ifbe (is_encoding s);
  m ← (if encoding =? INTSET_ENC_INT64 then set_elem memrev64ifbe 8 (is_contents s) pos value
       else if encoding =? INTSET_ENC_INT32 then set_elem memrev32ifbe 4 (is_contents s) pos value
       else set_elem memrev16ifbe 2 (is_contents s) pos value);
  Some (Intset (is_encoding s) (is_length s) m).

Definition intsetNew : option intset :=
  enc ← intrev32ifbe INTSET_ENC_INT16; Some (Intset enc 0 (malloc 0)).

Definition intsetResize (s : intset) (len : Z) : option intset :=
  enc ← intrev32ifbe (is_encoding s);
  let size := u32 (len * enc) in
  Some (Intset (is_encoding s) (is_length s) (zrealloc (is_contents s) size)).

(** The [while(max >= min)] loop; the result is [(min, mid, cur)]. *)
Fixpoint intsetSearch_loop (fuel : nat) (s : intset) (value min max mid cur : Z)
    : option (Z * Z * Z) :=
  match fuel with
  | O => None
  | S fuel =>
    if max >=? min then
      let mid := s32 (Z.shiftr (u32 (u32 min + u32 max)) 1) in
      cur ← _intsetGet s mid;
      if value >? cur then min ← i32 (mid + 1); intsetSearch_loop fuel s value min max mid cur
      else if value <? cur then max ← i32 (mid - 1); intsetSearch_loop fuel s value min max mid cur
      else Some (min, mid, cur)
    else Some (min, mid, cur)
  end.

(** The result is the returned flag and [*pos]. *)
Definition intsetSearch (s : intset) (value : Z) : option (bool * Z) :=
  len ← intrev32ifbe (is_length s);
  let min := 0 in let max := s32 (u32 (len - 1)) in
  if len =? 0 then Some (false, 0) else
  last ← _intsetGet s (s32 (u32 (len - 1)));
  if value >? last then Some (false, len) else
  first ← _intsetGet s 0;
  if value <? first then Some (false, 0) else
  '(min, mid, cur) ← intsetSearch_loop (S (Z.to_nat len)) s value min max (-1) (-1);
  if value =? cur then Some (true, u32 mid) else Some (false, u32 min).

(** [while(length--) _intsetSet(is,length+prepend,_intsetGetEncoded(is,length,curenc));] *)
Fixpoint intsetUpgrade_loop (fuel : nat) (s : intset) (length prepend curenc : Z) : option intset :=
  match fuel with
  | O => None
  | S fuel =>
    if length =? 0 then Some s else
    length ← i32 (length - 1);
    v ← _intsetGetEncoded s length curenc;
    s ← _intsetSet s (length + prepend) v;
    intsetUpgrade_loop fuel s length prepend curenc
  end.

Definition intsetUpgradeAndAdd (s : intset) (value : Z) : option intset :=
  enc ← intrev32ifbe (is_encoding s);
  let curenc := u8 enc in
  let newenc := _intsetValueEncoding value in
  len ← intrev32ifbe (is_length s);
  let length := s32 len in
  let prepend := if value <? 0 then 1 else 0 in
  enc' ← intrev32ifbe newenc;
  s ← intsetResize (Intset enc' (is_length s) (is_contents s)) (u32 (len + 1));
  s ← intsetUpgrade_loop (S (Z.to_nat length)) s length prepend curenc;
  s ← (if prepend =? 1 then _intsetSet s 0 value else _intsetSet s (s32 len) value);
  len' ← intrev32ifbe (u32 (len + 1));
  Some (Intset (is_encoding s) len' (is_contents s)).

Definition intsetMoveTail (s : intset) (from to : Z) : option intset :=
  len ← intrev32ifbe (is_length s);
  let bytes := u32 (len - from) in
  encoding ← intrev32ifbe (is_encoding s);
  let esize := if encoding =? INTSET_ENC_INT64 then 8
               else if encoding =? INTSET_ENC_INT32 then 4 else 2 in
  m ← memmove (is_contents s) (to * esize) (from * esize) (u32 (bytes * esize));
  Some (Intset (is_encoding s) (is_length s) m).

(** The result is the set and [*success]. *)
Definition intsetAdd (s : intset) (value : Z) : option (intset * bool) :=
  let valenc := _intsetValueEncoding value in
  enc ← intrev32ifbe (is_encoding s);
  if valenc >? enc then s ← intsetUpgradeAndAdd s value; Some (s, true)
  else
    '(found, pos) ← intsetSearch s value;
    if found : bool then Some (s, false) else
    len ← intrev32ifbe (is_length s);
    s ← intsetResize s (u32 (len + 1));
    len ← intrev32ifbe (is_length s);
    s ← (if pos <? len then intsetMoveTail s pos (u32 (pos + 1)) else Some s);
    s ← _intsetSet s (s32 pos) value;
    len' ← intrev32ifbe (u32 (len + 1));
    Some (Intset (is_encoding s) len' (is_contents s), true).

Definition intsetRemove (s : intset) (value : Z) : option (intset * bool) :=
  let valenc := _intsetValueEncoding value in
  enc ← intrev32ifbe (is_encoding s);
  if valenc <=? enc then
    '(found, pos) ← intsetSearch s value;
    if found : bool then
      len ← intrev32ifbe (is_length s);
      s ← (if pos <? u32 (len - 1) then intsetMoveTail s (u32 (pos + 1)) pos else Some s);
      s ← intsetResize s (u32 (len - 1));
      len' ← intrev32ifbe (u32 (len - 1));
      Some (Intset (is_encoding s) len' (is_contents s), true)
    else Some (s, false)
  else Some (s, false).

Definition intsetFind (s : intset) (value : Z) : option bool :=
  let valenc := _intsetValueEncoding value in
  enc ← intrev32ifbe (is_encoding s);
  if valenc <=? enc then '(found, _) ← intsetSearch s value; Some found else Some false.

(** [r] is the value [rand()] returned; a zero divisor is undefined. *)
Definition intsetRandom (s : intset) (r : Z) : option Z :=
  len ← intrev32ifbe (is_length s);
  if len =? 0 then None else _intsetGet s (s32 (u32 r mod len)).

Definition intsetGet (s : intset) (pos : Z) : option (option Z) :=
  len ← intrev32ifbe (is_length s);
  if pos <? len then v ← _intsetGet s (s32 pos); Some (Some v) else Some None.

Definition intsetLen (s : intset) : option Z := intrev32ifbe (is_length s).

Definition intsetBlobLen (s : intset) : option Z :=
  len ← intrev32ifbe (is_length s); enc ← intrev32ifbe (is_encoding s);
  Some (8 + u32 (len * enc)).

End Ops.

(** ** Representation

    [repr s e vs]: the set [s], with encoding [e], holds the values [vs]. *)

Definition is_enc (e : Z) : Prop := e = 2 \/ e = 4 \/ e = 8.

Definition fits (e v : Z) : Prop := - 2 ^ (8 * e - 1) <= v < 2 ^ (8 * e - 1).

Definition encode (e : Z) (vs : list Z) : list Z := concat (le_bytes (Z.to_nat e) <$> vs).

Section Repr.
Context {HOST : Host}.

Record repr (s : intset) (e : Z) (vs : list Z) : Prop := {
  repr_enc : is_enc e;
  repr_encoding : is_encoding s = ifbe32 e;
  repr_length : is_length s = ifbe32 (Zlen vs);
  repr_contents : is_contents s = Some <$> encode e vs;
  repr_fits : Forall (fits e) vs;
  repr_sorted : StronglySorted Z.lt vs
}.

Lemma encode_app e l1 l2 : encode e (l1 ++ l2) = encode e l1 ++ encode e l2.
Proof. unfold encode. by rewrite fmap_app, concat_app. Qed.

Lemma encode_cons e v l : encode e (v :: l) = le_bytes (Z.to_nat e) v ++ encode e l.
Proof. done. Qed.

Lemma length_encode e vs : 0 <= e -> Zlen (encode e vs) = e * Zlen vs.
Proof.
  intros He. induction vs as [|v vs IH]; [simpl; lia|].
  rewrite encode_cons, length_app, length_le_bytes. simpl length. lia.
Qed.

Lemma is_enc_range e : is_enc e -> 2 <= e <= 8.
Proof. unfold is_enc. lia. Qed.

Lemma fits_s64 e v : is_enc e -> fits e v -> INT64_MIN <= v <= INT64_MAX.
Proof. unfold_limits. intros [->|[->| ->]]; unfold fits; simpl; lia. Qed.

Lemma fits_mono e e' v : e <= e' -> fits e v -> fits e' v.
Proof.
  intros He. unfold fits. intros.
  pose proof (Z.pow_le_mono_r 2 (8 * e - 1) (8 * e' - 1) ltac:(lia) ltac:(lia)). lia.
Qed.

Lemma ValueEncoding_enc v : is_enc (_intsetValueEncoding v).
Proof. unfold _intsetValueEncoding, is_enc. destruct (_ || _); [|destruct (_ || _)]; auto. Qed.

(** The encoding chosen for a value is the least one the value fits. *)
Lemma ValueEncoding_fits v e : is_enc e -> INT64_MIN <= v <= INT64_MAX ->
  (fits e v <-> _intsetValueEncoding v <= e).
Proof.
  unfold_limits. intros He Hv. unfold _intsetValueEncoding.
  rewrite !Z.gtb_ltb. unfold_limits.
  unfold INTSET_ENC_INT16, INTSET_ENC_INT32, INTSET_ENC_INT64.
  destruct He as [->|[->| ->]]; unfold fits; simpl Z.pow;
    repeat zcase; simpl; lia.
Qed.

(** *** Element access *)

Lemma get_encoded s e pos v A C : is_enc e -> fits e v ->
  is_contents s = A ++ (Some <$> le_bytes (Z.to_nat e) v) ++ C -> pos * e = Zlen A ->
  _intsetGetEncoded s pos e = Some v.
Proof.
  intros He Hf Hc Hp. unfold _intsetGetEncoded. rewrite Hc.
  destruct He as [->|[->| ->]]; simpl Z.eqb; cbv iota;
    (rewrite load_app by (rewrite ?length_le_bytes; done || lia)); cbn [mbind option_bind].
  - pose proof (memrevifbe_val 2 (le_bytes 2 v) memrev16 memrev16_rev (length_le_bytes 2 v)) as E.
    unfold memrev16ifbe. destruct (if big_endian then _ else _); [|done].
    injection E as E. simpl. rewrite E, (le_val_bytes 2). f_equal. by apply (wraps_wrapu 16).
  - pose proof (memrevifbe_val 4 (le_bytes 4 v) memrev32 memrev32_rev (length_le_bytes 4 v)) as E.
    unfold memrev32ifbe. destruct (if big_endian then _ else _); [|done].
    injection E as E. simpl. rewrite E, (le_val_bytes 4). f_equal. by apply (wraps_wrapu 32).
  - pose proof (memrevifbe_val 8 (le_bytes 8 v) memrev64 memrev64_rev (length_le_bytes 8 v)) as E.
    unfold memrev64ifbe. destruct (if big_endian then _ else _); [|done].
    injection E as E. simpl. rewrite E, (le_val_bytes 8). f_equal. by apply (wraps_wrapu 64).
Qed.

Lemma set_elem_spec memrev n pos v A B C :
  (forall x, length x = n -> memrev x = Some (rev x)) ->
  length B = n -> pos * Z.of_nat n = Zlen A ->
  set_elem (fun x => if big_endian then memrev x else Some x) n (A ++ B ++ C) pos v
    = Some (A ++ (Some <$> le_bytes n v) ++ C).
Proof.
  intros Hm HB Hp. unfold set_elem.
  rewrite store_app by (rewrite ?length_host_bytes; done). cbn [mbind option_bind].
  rewrite load_app by (rewrite ?length_host_bytes; done). cbn [mbind option_bind].
  rewrite (memrevifbe_bytes n v memrev Hm). cbn [mbind option_bind].
  rewrite store_app by (rewrite ?length_fmap, ?length_host_bytes, ?length_le_bytes; done).
  done.
Qed.

Lemma set_spec s e pos v A B C : is_enc e -> is_encoding s = ifbe32 e ->
  is_contents s = A ++ B ++ C -> length B = Z.to_nat e -> pos * e = Zlen A ->
  _intsetSet s pos v =
    Some (Intset (is_encoding s) (is_length s) (A ++ (Some <$> le_bytes (Z.to_nat e) v) ++ C)).
Proof.
  intros He Henc Hc HB Hp. unfold _intsetSet. rewrite Henc, Hc, intrev32ifbe_eq.
  cbn [mbind option_bind].
  rewrite ifbe32_involutive by (pose proof (is_enc_range e He); lia).
  destruct He as [->|[->| ->]]; simpl Z.eqb; cbv iota.
  - change memrev16ifbe with (fun x => if big_endian then memrev16 x else Some x).
    by rewrite set_elem_spec by (apply memrev16_rev || done).
  - change memrev32ifbe with (fun x => if big_endian then memrev32 x else Some x).
    by rewrite set_elem_spec by (apply memrev32_rev || done).
  - change memrev64ifbe with (fun x => if big_endian then memrev64 x else Some x).
    by rewrite set_elem_spec by (apply memrev64_rev || done).
Qed.

Lemma ifbe32_enc e : is_enc e -> ifbe32 (ifbe32 e) = e.
Proof. intros He%is_enc_range. apply ifbe32_involutive. lia. Qed.

Lemma get_spec s e vs l1 v l2 pos : repr s e vs -> vs = l1 ++ v :: l2 -> pos = Zlen l1 ->
  _intsetGet s pos = Some v.
Proof.
  intros [He Henc Hlen Hc Hf Hs] -> ->. unfold _intsetGet.
  pose proof (is_enc_range e He).
  rewrite Henc, intrev32ifbe_eq. cbn [mbind option_bind]. rewrite ifbe32_enc by done.
  rewrite (wrapu_id 8) by lia.
  apply Forall_app in Hf as [_ [Hv _]%Forall_cons].
  eapply (get_encoded s e _ v (Some <$> encode e l1)); [done|done| |].
  - rewrite Hc, encode_app, encode_cons, !fmap_app. done.
  - rewrite length_fmap, length_encode by lia. lia.
Qed.

Lemma get_lookup s e vs v pos : repr s e vs -> 0 <= pos -> vs !! Z.to_nat pos = Some v ->
  _intsetGet s pos = Some v.
Proof.
  intros Hr Hp (l1 & l2 & -> & Hl)%list_elem_of_split_length. eapply get_spec; [done..|]. lia.
Qed.

(** *** Binary search *)

Lemma sorted_lookup_lt (vs : list Z) i j a b : StronglySorted Z.lt vs ->
  vs !! i = Some a -> vs !! j = Some b -> (i < j)%nat -> a < b.
Proof.
  intros Hs Ha Hb Hij.
  pose proof (list_elem_of_split_length vs i a Ha) as (l1 & l2 & -> & ->).
  rewrite lookup_app_r in Hb by lia.
  replace (j - length l1)%nat with (S (j - S (length l1))) in Hb by lia.
  apply StronglySorted_app_1_r, StronglySorted_inv in Hs as [_ Hs].
  simpl in Hb. by eapply Forall_lookup_1 in Hs.
Qed.

(** What [intsetSearch] promises: the position of the value, or its
    insertion point. *)
Definition search_result (vs : list Z) (v : Z) (found : bool) (pos : Z) : Prop :=
  if found then 0 <= pos /\ vs !! Z.to_nat pos = Some v
  else exists l1 l2, vs = l1 ++ l2 /\ pos = Zlen l1 /\
    Forall (fun x => x < v) l1 /\ Forall (fun x => v < x) l2.

Lemma insertion_point (vs : list Z) v p : 0 <= p <= Zlen vs ->
  (forall i x, vs !! i = Some x -> Z.of_nat i < p -> x < v) ->
  (forall i x, vs !! i = Some x -> p <= Z.of_nat i -> v < x) ->
  search_result vs v false p.
Proof.
  intros Hp Hlo Hhi. exists (take (Z.to_nat p) vs), (drop (Z.to_nat p) vs). split_and!.
  - by rewrite take_drop.
  - rewrite length_take. lia.
  - apply Forall_lookup_2. intros i x [Hi ?]%lookup_take_Some. apply (Hlo i x Hi). lia.
  - apply Forall_lookup_2. intros i x Hi. rewrite lookup_drop in Hi. apply (Hhi _ x Hi). lia.
Qed.

Lemma lookup_Z (vs : list Z) p : 0 <= p < Zlen vs -> exists x, vs !! Z.to_nat p = Some x.
Proof. intros. apply lookup_lt_is_Some_2. lia. Qed.

Lemma search_loop_spec s e vs v : repr s e vs -> Zlen vs <= INT32_MAX ->
  forall fuel min max mid cur, 0 <= min -> max < Zlen vs -> min <= max + 1 ->
  max - min + 1 < Z.of_nat fuel -> (max < min -> cur <> v) ->
  (forall i x, vs !! i = Some x -> Z.of_nat i < min -> x < v) ->
  (forall i x, vs !! i = Some x -> max < Z.of_nat i -> v < x) ->
  exists min' mid' cur', intsetSearch_loop fuel s v min max mid cur = Some (min', mid', cur') /\
    if v =? cur' then 0 <= mid' <= INT32_MAX /\ vs !! Z.to_nat mid' = Some v
    else 0 <= min' <= Zlen vs /\ search_result vs v false min'.
Proof.
  intros Hr Hlen. unfold_limits. induction fuel as [|fuel IH];
    intros min max mid cur Hmin Hmax Hmm Hfuel Hcur Hlo Hhi; [lia|].
  cbn [intsetSearch_loop]. rewrite Z.geb_leb. destruct (Z.leb_spec min max).
  2: { exists min, mid, cur. split; [done|]. destruct (Z.eqb_spec v cur); [naive_solver lia|].
       split; [lia|]. apply insertion_point; [lia|done|]. intros i x Hi ?. apply (Hhi i x Hi). lia. }
  assert (s32 (Z.shiftr (u32 (u32 min + u32 max)) 1) = (min + max) / 2) as ->.
  { rewrite (wrapu_id 32 min), (wrapu_id 32 max), wrapu_id, Z.shiftr_div_pow2 by lia.
    apply wraps_id; [lia|]. change (2 ^ 1) with 2. simpl Z.pow. Z.to_euclidean_division_equations. lia. }
  set (m := (min + max) / 2). assert (min <= m <= max) by (subst m; Z.to_euclidean_division_equations; lia).
  clearbody m. destruct (lookup_Z vs m ltac:(lia)) as [c Hc].
  rewrite (get_lookup s e vs c m) by (done || lia). cbn [mbind option_bind].
  rewrite Z.gtb_ltb. destruct (Z.ltb_spec c v) as [Hcv|Hcv]; [|destruct (Z.ltb_spec v c) as [Hvc|Hvc]].
  - rewrite i32_ok by (unfold_limits; lia). apply IH; try lia; try done.
    intros i x Hi ?. destruct (decide (i = Z.to_nat m)) as [->|]; [congruence|].
    pose proof (sorted_lookup_lt vs i (Z.to_nat m) x c (repr_sorted _ _ _ Hr) Hi Hc). lia.
  - rewrite i32_ok by (unfold_limits; lia). apply IH; try lia; try done.
    intros i x Hi ?. destruct (decide (i = Z.to_nat m)) as [->|]; [congruence|].
    pose proof (sorted_lookup_lt vs (Z.to_nat m) i c x (repr_sorted _ _ _ Hr) Hc Hi). lia.
  - assert (c = v) as -> by lia. exists min, m, v. rewrite Z.eqb_refl. split; [done|]. split; [lia|done].
Qed.

Lemma search_spec s e vs v : repr s e vs -> Zlen vs <= INT32_MAX ->
  exists found pos, intsetSearch s v = Some (found, pos) /\ 0 <= pos <= Zlen vs /\
    search_result vs v found pos.
Proof.
  intros Hr Hlen. unfold intsetSearch. unfold_limits.
  rewrite (repr_length _ _ _ Hr), intrev32ifbe_eq. cbn [mbind option_bind].
  rewrite ifbe32_involutive by lia.
  destruct (Z.eqb_spec (Zlen vs) 0) as [H0|H0].
  { exists false, 0. split_and!; [done|lia|lia|]. destruct vs; [by exists [], [] | done]. }
  rewrite (wrapu_id 32), wraps_id by lia.
  destruct (lookup_Z vs (Zlen vs - 1) ltac:(lia)) as [la Hla].
  rewrite (get_lookup s e vs la (Zlen vs - 1)) by (done || lia). cbn [mbind option_bind].
  pose proof (repr_sorted _ _ _ Hr) as Hs.
  rewrite Z.gtb_ltb. destruct (Z.ltb_spec la v).
  { exists false, (Zlen vs). split_and!; [done|lia|lia|]. apply insertion_point; [lia| |].
    - intros i x Hi ?. destruct (decide (i = Z.to_nat (Zlen vs - 1))) as [->|]; [congruence|].
      pose proof (sorted_lookup_lt vs _ _ x la Hs Hi Hla). lia.
    - intros i x Hi%lookup_lt_Some. lia. }
  destruct (lookup_Z vs 0 ltac:(lia)) as [fi Hfi]. change (Z.to_nat 0) with 0%nat in Hfi.
  rewrite (get_lookup s e vs fi 0) by (done || lia). cbn [mbind option_bind].
  destruct (Z.ltb_spec v fi).
  { exists false, 0. split_and!; [done|lia|lia|]. apply insertion_point; [lia|lia|].
    intros i x Hi ?. destruct (decide (i = 0%nat)) as [->|]; [congruence|].
    pose proof (sorted_lookup_lt vs _ _ fi x Hs Hfi Hi). lia. }
  destruct (search_loop_spec s e vs v Hr ltac:(done) (S (Z.to_nat (Zlen vs))) 0 (Zlen vs - 1) (-1) (-1))
    as (mn & md & cu & -> & Hres); try lia.
  { intros i x Hi%lookup_lt_Some. lia. }
  cbn [mbind option_bind]. destruct (Z.eqb_spec v cu).
  - destruct Hres as [Hmd Hv]. exists true, md. rewrite (wrapu_id 32) by (unfold_limits; lia).
    pose proof (lookup_lt_Some _ _ _ Hv). split_and!; [done|lia|lia|]. split; [lia|done].
  - destruct Hres as [Hmn Hv]. exists false, mn. rewrite (wrapu_id 32) by lia. done.
Qed.

(** *** Insertion and removal *)

Lemma sorted_insert (l1 l2 : list Z) v : StronglySorted Z.lt (l1 ++ l2) ->
  Forall (fun x => x < v) l1 -> Forall (fun x => v < x) l2 -> StronglySorted Z.lt (l1 ++ v :: l2).
Proof.
  intros Hs H1 H2. induction H1 as [|x l1 Hx H1 IH]; simpl in *.
  - by constructor.
  - apply StronglySorted_inv in Hs as [Hs Hf]. constructor; [by apply IH|].
    apply Forall_app in Hf as [Hf1 Hf2]. apply Forall_app. split; [done|]. by constructor.
Qed.

Lemma sorted_delete (l1 l2 : list Z) v :
  StronglySorted Z.lt (l1 ++ v :: l2) -> StronglySorted Z.lt (l1 ++ l2).
Proof.
  induction l1 as [|x l1 IH]; simpl; intros [Hs Hf]%StronglySorted_inv; [done|].
  constructor; [by apply IH|]. apply Forall_app in Hf as [? [? ?]%Forall_cons].
  by apply Forall_app.
Qed.

Lemma sorted_split_notin (l1 l2 : list Z) v : StronglySorted Z.lt (l1 ++ v :: l2) -> v ∉ l1 ++ l2.
Proof.
  intros Hs [Hin|Hin]%elem_of_app.
  - eapply StronglySorted_app_1_elem_of in Hs; [|done|by left]. simpl in Hs. lia.
  - apply StronglySorted_app_1_r, StronglySorted_inv in Hs as [_ Hf].
    rewrite Forall_forall in Hf. apply Hf in Hin. lia.
Qed.

Lemma upgrade_loop_spec e e' prepend : is_enc e -> is_enc e' -> e <= e' -> 0 <= prepend <= 1 ->
  forall vs1 vs2 s G T fuel, Zlen vs1 <= INT32_MAX -> Forall (fits e) vs1 ->
  is_encoding s = ifbe32 e' -> (length vs1 < fuel)%nat ->
  is_contents s = (Some <$> encode e vs1) ++ G ++ (Some <$> encode e' vs2) ++ T ->
  e * Zlen vs1 + Zlen G = (Zlen vs1 + prepend) * e' ->
  exists G', intsetUpgrade_loop fuel s (Zlen vs1) prepend e =
      Some (Intset (is_encoding s) (is_length s) (G' ++ (Some <$> encode e' (vs1 ++ vs2)) ++ T)) /\
    Zlen G' = prepend * e'.
Proof.
  intros He He' Hee Hpre vs1. pose proof (is_enc_range e He). pose proof (is_enc_range e' He').
  induction vs1 as [|v vs1 IH] using rev_ind; intros vs2 s G T fuel Hlen Hfit Henc Hfuel Hc HG;
    (destruct fuel as [|fuel]; [lia|]); cbn [intsetUpgrade_loop].
  { simpl. exists G. split; [|simpl in HG; lia]. destruct s; simpl in *. by rewrite Hc. }
  rewrite length_app in *. cbn [length] in *. unfold_limits.
  destruct (Z.eqb_spec (Z.of_nat (length vs1 + 1)) 0) as [?|_]; [lia|].
  rewrite i32_ok by (unfold_limits; lia). cbn [mbind option_bind].
  replace (Z.of_nat (length vs1 + 1) - 1) with (Zlen vs1) in * by lia.
  apply Forall_app in Hfit as [Hfit [Hv _]%Forall_cons].
  rewrite encode_app in Hc. unfold encode in Hc at 2. cbn in Hc.
  rewrite app_nil_r, fmap_app, <- app_assoc in Hc.
  rewrite (get_encoded s e (Zlen vs1) v _ _ He Hv Hc) by (rewrite length_fmap, length_encode by lia; lia).
  cbn [mbind option_bind].
  set (X := (Some <$> le_bytes (Z.to_nat e) v) ++ G) in *.
  assert (Zlen X = e + Zlen G) as HX.
  { subst X. rewrite length_app, length_fmap, length_le_bytes. lia. }
  set (k := Z.to_nat ((Zlen vs1 + prepend) * e' - e * Zlen vs1)).
  assert (is_contents s = ((Some <$> encode e vs1) ++ take k X) ++ drop k X ++
    (Some <$> encode e' vs2) ++ T) as Hc'.
  { rewrite Hc. rewrite <- app_assoc, (app_assoc (take k X)), take_drop. subst X.
    by rewrite <- !app_assoc. }
  assert (Zlen vs1 * e <= Zlen vs1 * e') by nia.
  assert (Z.of_nat k = (Zlen vs1 + prepend) * e' - e * Zlen vs1) as Hk by (subst k; nia).
  rewrite (set_spec s e' _ v _ _ _ He' Henc Hc').
  2: { rewrite length_drop. nia. }
  2: { rewrite length_app, length_fmap, length_take, Nat2Z.inj_add, length_encode by lia. nia. }
  cbn [mbind option_bind]. rewrite <- app_assoc.
  destruct (IH (v :: vs2) (Intset (is_encoding s) (is_length s)
    ((Some <$> encode e vs1) ++ take k X ++ (Some <$> le_bytes (Z.to_nat e') v) ++
     (Some <$> encode e' vs2) ++ T)) (take k X) T fuel) as (G' & -> & HG'); simpl; try done; try lia.
  { by rewrite encode_cons, fmap_app, <- app_assoc. }
  { rewrite length_take. nia. }
  exists G'. by rewrite <- app_assoc.
Qed.

#[local] Arguments intsetUpgrade_loop : simpl never.

Lemma resize_grow s e l : is_enc e -> is_encoding s = ifbe32 e ->
  Zlen (is_contents s) <= e * l -> (0 <= l /\ l * e < 2 ^ 32) ->
  intsetResize s l = Some (Intset (is_encoding s) (is_length s)
    (is_contents s ++ replicate (Z.to_nat (e * l - Zlen (is_contents s))) None)).
Proof.
  intros He Henc Hl Hb. unfold intsetResize. rewrite Henc, intrev32ifbe_eq.
  cbn [mbind option_bind]. rewrite ifbe32_enc by done. pose proof (is_enc_range e He).
  rewrite (wrapu_id 32) by nia. rewrite zrealloc_grow by lia. do 5 f_equal. lia.
Qed.

Lemma length_contents s e vs : repr s e vs -> Zlen (is_contents s) = e * Zlen vs.
Proof.
  intros Hr. rewrite (repr_contents _ _ _ Hr), length_fmap. apply length_encode.
  pose proof (is_enc_range e (repr_enc _ _ _ Hr)). lia.
Qed.

Lemma upgrade_spec s e vs v : repr s e vs -> INT64_MIN <= v <= INT64_MAX ->
  e < _intsetValueEncoding v -> (Zlen vs + 1) * 8 < 2 ^ 32 ->
  exists s', intsetUpgradeAndAdd s v = Some s' /\
    repr s' (_intsetValueEncoding v) (if v <? 0 then v :: vs else vs ++ [v]) /\
    (if v <? 0 then Forall (fun x => v < x) vs else Forall (fun x => x < v) vs).
Proof.
  intros Hr Hv He Hlen. pose proof (repr_enc _ _ _ Hr) as Hee.
  pose proof (is_enc_range e Hee).
  pose proof (ValueEncoding_enc v) as He'. set (e' := _intsetValueEncoding v) in *.
  pose proof (is_enc_range e' He').
  assert (~ fits e v) as Hnf by (rewrite ValueEncoding_fits by done; fold e'; lia).
  assert (fits e' v) as Hfv by (apply ValueEncoding_fits; done).
  assert (if v <? 0 then Forall (fun x => v < x) vs else Forall (fun x => x < v) vs) as Hord.
  { destruct (Z.ltb_spec v 0); (eapply Forall_impl; [apply (repr_fits _ _ _ Hr)|]);
      intros x Hx; unfold fits in *; lia. }
  unfold intsetUpgradeAndAdd. fold e'.
  rewrite (repr_encoding _ _ _ Hr), (repr_length _ _ _ Hr), !intrev32ifbe_eq. cbn [mbind option_bind].
  rewrite (ifbe32_enc e), (ifbe32_involutive (Zlen vs)) by (done || lia).
  rewrite (wrapu_id 8), wraps_id, (wrapu_id 32) by lia.
  pose proof (length_contents _ _ _ Hr) as Hcl.
  erewrite (resize_grow _ e') by (simpl; done || nia). cbn [mbind option_bind is_encoding is_length is_contents].
  set (prepend := if v <? 0 then 1 else 0).
  set (T := if v <? 0 then [] else replicate (Z.to_nat e') (None : cell)).
  destruct (upgrade_loop_spec e e' prepend Hee He' ltac:(lia) ltac:(subst prepend; destruct (v <? 0); lia)
    vs [] (Intset (ifbe32 e') (ifbe32 (Zlen vs))
      (is_contents s ++ replicate (Z.to_nat (e' * (Zlen vs + 1) - Zlen (is_contents s))) None))
    (replicate (Z.to_nat (e' * (Zlen vs + prepend) - e * Zlen vs)) None) T (S (Z.to_nat (Zlen vs))))
    as (G' & Hloop & HG'); simpl; try done; try (unfold_limits; lia).
  { apply (repr_fits _ _ _ Hr). }
  { rewrite (repr_contents _ _ _ Hr) at 1. f_equal. subst T prepend. destruct (v <? 0).
    - rewrite !app_nil_r. f_equal. lia.
    - simpl. rewrite <- replicate_add. f_equal. nia. }
  { rewrite length_replicate. subst prepend; destruct (v <? 0); nia. }
  rewrite Hloop. cbn [mbind option_bind]. subst prepend T. rewrite app_nil_r in *.
  destruct (Z.ltb_spec v 0); cbn [Z.eqb Pos.eqb].
  - erewrite (set_spec _ e' 0 v [] G' ((Some <$> encode e' vs) ++ [])); [|done|done|done|lia|simpl;lia].
    cbn [mbind option_bind]. rewrite intrev32ifbe_eq. cbn [mbind option_bind].
    eexists. split; [done|]. split; [|done]. constructor; simpl; try done.
    + f_equal. lia.
    + by rewrite encode_cons, fmap_app, app_nil_r.
    + constructor; [done|]. eapply Forall_impl; [apply (repr_fits _ _ _ Hr)|].
      intros x. apply fits_mono. lia.
    + constructor; [apply (repr_sorted _ _ _ Hr)|done].
  - assert (G' = []) as -> by (destruct G'; [done|simpl in HG'; lia]).
    erewrite (set_spec _ e' (Zlen vs) v (Some <$> encode e' vs) (replicate (Z.to_nat e') None) []);
      [|done|done|by rewrite app_nil_r|by rewrite length_replicate|rewrite length_fmap, length_encode by lia; lia].
    cbn [mbind option_bind]. rewrite intrev32ifbe_eq. cbn [mbind option_bind].
    eexists. split; [done|]. split; [|done]. constructor; simpl; try done.
    + rewrite length_app. f_equal. simpl. lia.
    + rewrite encode_app, fmap_app, app_nil_r. unfold encode at 3. simpl. by rewrite app_nil_r.
    + apply Forall_app. split; [|by constructor]. eapply Forall_impl; [apply (repr_fits _ _ _ Hr)|].
      intros x. apply fits_mono. lia.
    + apply sorted_insert; [|done|done]. rewrite app_nil_r. apply (repr_sorted _ _ _ Hr).
Qed.

(** The stored length and encoding, read back. *)
Lemma read_length s e vs : repr s e vs -> Zlen vs < 2 ^ 32 -> intrev32ifbe (is_length s) = Some (Zlen vs).
Proof. intros Hr ?. rewrite (repr_length _ _ _ Hr), intrev32ifbe_eq. f_equal. apply ifbe32_involutive. lia. Qed.

Lemma read_encoding s e vs : repr s e vs -> intrev32ifbe (is_encoding s) = Some e.
Proof.
  intros Hr. rewrite (repr_encoding _ _ _ Hr), intrev32ifbe_eq. f_equal.
  apply ifbe32_enc, (repr_enc _ _ _ Hr).
Qed.

Lemma esize_enc e : is_enc e ->
  (if e =? INTSET_ENC_INT64 then 8 else if e =? INTSET_ENC_INT32 then 4 else 2) = e.
Proof. by intros [->|[->| ->]]. Qed.

(** Moving the tail [l2] by [d] elements: the cells [R] it lands on follow. *)
Lemma move_tail_spec s e x l2 from to A B C A' B' C' : is_enc e ->
  is_encoding s = ifbe32 e -> is_length s = ifbe32 x -> 0 <= from <= x -> x * e < 2 ^ 32 -> 0 <= to ->
  x - from = Zlen l2 ->
  is_contents s = A ++ B ++ C -> is_contents s = A' ++ B' ++ C' -> B = Some <$> encode e l2 ->
  Zlen A = from * e -> Zlen A' = to * e -> length B' = length B ->
  intsetMoveTail s from to = Some (Intset (is_encoding s) (is_length s) (A' ++ B ++ C')).
Proof.
  intros He Henc Hlen Hf Hx Hto Hxf HS HS' HB HA HA' HBB. pose proof (is_enc_range e He).
  unfold intsetMoveTail. rewrite Henc, Hlen, !intrev32ifbe_eq. cbn [mbind option_bind].
  rewrite ifbe32_enc, ifbe32_involutive, esize_enc by (done || nia).
  assert (u32 (u32 (x - from) * e) = Zlen B) as ->.
  { rewrite HB, length_fmap, length_encode by lia. rewrite (wrapu_id 32 (x - from)) by nia. rewrite wrapu_id by nia. nia. }
  rewrite (memmove_app _ A B C A' B' C') by (done || lia). done.
Qed.

Lemma add_spec s e vs v : repr s e vs -> INT64_MIN <= v <= INT64_MAX -> (Zlen vs + 1) * 8 < 2 ^ 32 ->
  exists s' ok vs', intsetAdd s v = Some (s', ok) /\
    repr s' (Z.max e (_intsetValueEncoding v)) vs' /\
    ((ok = false /\ vs' = vs /\ s' = s /\ v ∈ vs) \/
     (ok = true /\ v ∉ vs /\ exists l1 l2, vs = l1 ++ l2 /\ vs' = l1 ++ v :: l2)).
Proof.
  intros Hr Hv Hlen. pose proof (repr_enc _ _ _ Hr) as Hee. pose proof (is_enc_range e Hee).
  unfold intsetAdd. rewrite (read_encoding _ _ _ Hr). cbn [mbind option_bind].
  rewrite Z.gtb_ltb. destruct (Z.ltb_spec e (_intsetValueEncoding v)) as [He|He].
  { destruct (upgrade_spec s e vs v Hr Hv He Hlen) as (s' & -> & Hr' & Hord). cbn [mbind option_bind].
    eexists s', true, _. split; [done|]. split; [by rewrite Z.max_r by lia|]. right. split; [done|].
    destruct (Z.ltb_spec v 0); rewrite Forall_forall in Hord.
    - split; [intros Hin%Hord; lia|]. by exists [], vs.
    - split; [intros Hin%Hord; lia|]. exists vs, []. by rewrite app_nil_r. }
  destruct (search_spec s e vs v Hr ltac:(unfold_limits; lia)) as (found & pos & -> & Hpos & Hres).
  rewrite Z.max_l by lia. cbn [mbind option_bind]. destruct found.
  { eexists s, false, vs. split_and!; [done..|]. left. split_and!; try done.
    destruct Hres as [_ Hin]. by eapply list_elem_of_lookup_2. }
  destruct Hres as (l1 & l2 & -> & -> & Hlo & Hhi).
  assert (fits e v) as Hfv by (apply ValueEncoding_fits; done || lia).
  rewrite (read_length _ _ _ Hr) by lia. cbn [mbind option_bind].
  pose proof (length_contents _ _ _ Hr) as Hcl. rewrite length_app in *.
  rewrite (wrapu_id 32 (Z.of_nat (length l1 + length l2) + 1)) by lia.
  rewrite (resize_grow s e); [|done|apply (repr_encoding _ _ _ Hr)|lia|split; [lia|nia]].
  cbn [mbind option_bind is_length is_encoding is_contents].
  rewrite (read_length _ _ _ Hr) by (rewrite length_app; lia).
  cbn [mbind option_bind]. rewrite length_app.
  replace (e * _ - _) with e by lia.
  set (R := replicate (Z.to_nat e) None). pose proof (length_replicate (Z.to_nat e) (None : cell)) as HR.
  fold R in HR.
  assert (exists s1, (if Z.of_nat (length l1) <? Z.of_nat (length l1 + length l2) then
      intsetMoveTail {| is_encoding := is_encoding s; is_length := is_length s;
        is_contents := is_contents s ++ R |} (Zlen l1) (u32 (Zlen l1 + 1))
      else Some {| is_encoding := is_encoding s; is_length := is_length s;
        is_contents := is_contents s ++ R |}) = Some s1 /\
      is_encoding s1 = is_encoding s /\ is_length s1 = is_length s /\
      exists B, length B = Z.to_nat e /\
        is_contents s1 = (Some <$> encode e l1) ++ B ++ (Some <$> encode e l2))
    as (s1 & -> & Henc1 & Hlen1 & B & HB & Hc1).
  { rewrite (repr_contents _ _ _ Hr), encode_app, fmap_app, <- app_assoc. case_match eqn:Hlt.
    2: { apply Z.ltb_ge in Hlt. destruct l2; [|cbn [length] in Hlt; lia]. eexists. split_and!; [done..|]. exists R. split; [done|].
         simpl. by rewrite app_nil_r. }
    apply Z.ltb_lt in Hlt. rewrite (wrapu_id 32) by lia.
    set (L2 := Some <$> encode e l2).
    assert (Zlen L2 = e * Zlen l2) as HL2 by (subst L2; rewrite length_fmap; apply length_encode; lia).
    assert (Z.to_nat e <= length (L2 ++ R))%nat by (rewrite length_app; nia).
    erewrite (move_tail_spec _ e _ l2 _ _ (Some <$> encode e l1) L2 R
      ((Some <$> encode e l1) ++ take (Z.to_nat e) (L2 ++ R)) (drop (Z.to_nat e) (L2 ++ R)) []);
      cbn [is_encoding is_length is_contents]; try done; try lia.
    - eexists. split_and!; [done..|]. exists (take (Z.to_nat e) (L2 ++ R)).
      rewrite length_take. split; [lia|]. simpl. by rewrite app_nil_r, <- app_assoc.
    - apply (repr_encoding _ _ _ Hr).
    - rewrite (repr_length _ _ _ Hr). by rewrite length_app.
    - nia.
    - by rewrite app_nil_r, <- app_assoc, take_drop.
    - rewrite length_fmap, length_encode by lia. lia.
    - rewrite length_app, length_fmap, length_take, Nat2Z.inj_add, length_encode by lia. lia.
    - rewrite length_drop, length_app. lia. }
  cbn [mbind option_bind]. rewrite wraps_id by lia.
  rewrite (set_spec s1 e _ v _ B _ Hee) with (3 := HB) by
    (rewrite ?Henc1; try apply (repr_encoding _ _ _ Hr); try done;
     rewrite length_fmap, length_encode by lia; lia).
  cbn [mbind option_bind]. rewrite (wrapu_id 32), intrev32ifbe_eq by lia. cbn [mbind option_bind].
  eexists _, true, (l1 ++ v :: l2). split; [done|]. split.
  - constructor; simpl; try done.
    + rewrite Henc1. apply (repr_encoding _ _ _ Hr).
    + rewrite length_app. f_equal. simpl. lia.
    + by rewrite encode_app, encode_cons, !fmap_app.
    + pose proof (repr_fits _ _ _ Hr) as [? ?]%Forall_app. apply Forall_app. split; [done|]. by constructor.
    + apply sorted_insert; [apply (repr_sorted _ _ _ Hr)|done|done].
  - right. split; [done|]. split; [|by exists l1, l2].
    rewrite Forall_forall in Hlo, Hhi. intros [Hin%Hlo|Hin%Hhi]%elem_of_app; lia.
Qed.

Lemma remove_spec s e vs v : repr s e vs -> INT64_MIN <= v <= INT64_MAX -> Zlen vs * 8 < 2 ^ 32 ->
  exists s' ok vs', intsetRemove s v = Some (s', ok) /\ repr s' e vs' /\
    ((ok = false /\ vs' = vs /\ s' = s /\ v ∉ vs) \/
     (ok = true /\ exists l1 l2, vs = l1 ++ v :: l2 /\ vs' = l1 ++ l2)).
Proof.
  intros Hr Hv Hlen. pose proof (repr_enc _ _ _ Hr) as Hee. pose proof (is_enc_range e Hee).
  unfold intsetRemove. rewrite (read_encoding _ _ _ Hr). cbn [mbind option_bind].
  destruct (Z.leb_spec (_intsetValueEncoding v) e) as [He|He].
  2: { eexists s, false, vs. split_and!; [done..|]. left. split_and!; try done. intros Hin.
       pose proof (repr_fits _ _ _ Hr) as Hf. rewrite Forall_forall in Hf.
       apply Hf, ValueEncoding_fits in Hin; done || lia. }
  destruct (search_spec s e vs v Hr ltac:(unfold_limits; lia)) as (found & pos & -> & Hpos & Hres).
  cbn [mbind option_bind]. destruct found.
  2: { eexists s, false, vs. split_and!; [done..|]. left. split_and!; try done.
       destruct Hres as (l1 & l2 & -> & -> & Hlo & Hhi). rewrite Forall_forall in Hlo, Hhi.
       intros [Hin%Hlo|Hin%Hhi]%elem_of_app; lia. }
  destruct Hres as [Hp0 (l1 & l2 & -> & Hl1)%list_elem_of_split_length].
  assert (pos = Zlen l1) as -> by lia. clear Hl1.
  rewrite (read_length _ _ _ Hr) by lia. cbn [mbind option_bind].
  pose proof (length_contents _ _ _ Hr) as Hcl. rewrite length_app in *. cbn [length] in *.
  rewrite (wrapu_id 32 (_ - 1)) by lia.
  pose proof (repr_contents _ _ _ Hr) as Hc.
  rewrite encode_app, encode_cons, !fmap_app in Hc.
  set (E1 := Some <$> encode e l1) in *. set (E2 := Some <$> encode e l2) in *.
  set (EV := Some <$> le_bytes (Z.to_nat e) v) in *.
  assert (Zlen E1 = e * Zlen l1) as HE1 by (subst E1; rewrite length_fmap; apply length_encode; lia).
  assert (Zlen E2 = e * Zlen l2) as HE2 by (subst E2; rewrite length_fmap; apply length_encode; lia).
  assert (Zlen EV = e) as HEV by (subst EV; rewrite length_fmap, length_le_bytes; lia).
  assert (exists T, (if Zlen l1 <? Z.of_nat (length l1 + S (length l2)) - 1 then
      intsetMoveTail s (u32 (Zlen l1 + 1)) (Zlen l1) else Some s) =
      Some (Intset (is_encoding s) (is_length s) (E1 ++ E2 ++ T))) as (T & ->).
  { case_match eqn:Hlt.
    2: { apply Z.ltb_ge in Hlt. destruct l2; [|cbn [length] in Hlt; lia]. exists EV.
         destruct s; simpl in *. rewrite Hc. subst E2. simpl. by rewrite app_nil_r. }
    rewrite (wrapu_id 32) by lia.
    assert (length EV <= length (EV ++ E2))%nat by (rewrite length_app; lia).
    exists (drop (length E2) (EV ++ E2)).
    erewrite (move_tail_spec s e (Z.of_nat (length l1 + S (length l2))) l2 _ _ (E1 ++ EV) E2 [] E1
      (take (length E2) (EV ++ E2)) (drop (length E2) (EV ++ E2))); try done; try lia.
    - apply (repr_encoding _ _ _ Hr).
    - rewrite (repr_length _ _ _ Hr). f_equal. by rewrite length_app.
    - nia.
    - by rewrite Hc, app_nil_r, app_assoc.
    - by rewrite Hc, take_drop.
    - rewrite length_app. lia.
    - rewrite length_take, length_app. lia. }
  cbn [mbind option_bind]. unfold intsetResize. cbn [is_encoding is_length is_contents].
  rewrite (read_encoding _ _ _ Hr). cbn [mbind option_bind]. rewrite (wrapu_id 32) by nia.
  rewrite app_assoc, zrealloc_shrink by (rewrite length_app; nia).
  rewrite intrev32ifbe_eq. cbn [mbind option_bind is_encoding is_length is_contents].
  eexists _, true, (l1 ++ l2). split; [done|]. split; [|right; by eauto].
  constructor; simpl; try done.
  - apply (repr_encoding _ _ _ Hr).
  - f_equal. rewrite length_app. lia.
  - by rewrite encode_app, fmap_app.
  - pose proof (repr_fits _ _ _ Hr) as [? [? ?]%Forall_cons]%Forall_app. by apply Forall_app.
  - eapply sorted_delete, (repr_sorted _ _ _ Hr).
Qed.

Lemma find_spec s e vs v : repr s e vs -> INT64_MIN <= v <= INT64_MAX -> Zlen vs * 8 < 2 ^ 32 ->
  intsetFind s v = Some (bool_decide (v ∈ vs)).
Proof.
  intros Hr Hv Hlen. unfold intsetFind. rewrite (read_encoding _ _ _ Hr). cbn [mbind option_bind].
  destruct (Z.leb_spec (_intsetValueEncoding v) e) as [He|He].
  2: { f_equal. symmetry. apply bool_decide_eq_false. intros Hin.
       pose proof (repr_fits _ _ _ Hr) as Hf. rewrite Forall_forall in Hf.
       apply Hf, ValueEncoding_fits in Hin; [lia|apply (repr_enc _ _ _ Hr)|done]. }
  destruct (search_spec s e vs v Hr ltac:(unfold_limits; lia)) as (found & pos & -> & Hpos & Hres).
  cbn [mbind option_bind]. f_equal. symmetry. destruct found; simpl in Hres.
  - apply bool_decide_eq_true. destruct Hres as [_ Hin]. by eapply list_elem_of_lookup_2.
  - apply bool_decide_eq_false. destruct Hres as (l1 & l2 & -> & -> & Hlo & Hhi).
    rewrite Forall_forall in Hlo, Hhi. intros [Hin%Hlo|Hin%Hhi]%elem_of_app; lia.
Qed.

Lemma new_spec : exists s, intsetNew = Some s /\ repr s 2 [].
Proof.
  unfold intsetNew. rewrite intrev32ifbe_eq. eexists. split; [done|].
  constructor; simpl; try done; [by left| |constructor].
  unfold ifbe32. destruct big_endian; [|done]. unfold revn, host_val, host_bytes. by destruct big_endian.
Qed.

End Repr.

(** ** The set as a finite set of integers: the interface's promises *)

Section Interface.
Context {HOST : Host}.

(** The abstract state: a finite set of integers. *)
Definition is_set (s : intset) (X : gset Z) : Prop :=
  exists e vs, repr s e vs /\ X = list_to_set vs.

(** [intsetSearch] is a correct binary search on any well-formed set: it
    terminates within [length + 1] iterations without an out-of-bounds read,
    and returns the position of the value when it is present, else the
    position that separates the smaller elements from the larger ones. *)
Theorem intsetSearch_correct s e vs v : repr s e vs -> Zlen vs <= INT32_MAX ->
  exists found pos, intsetSearch s v = Some (found, pos) /\ 0 <= pos <= Zlen vs /\
    if found : bool then vs !! Z.to_nat pos = Some v
    else Forall (fun x => x < v) (take (Z.to_nat pos) vs) /\
         Forall (fun x => v < x) (drop (Z.to_nat pos) vs).
Proof.
  intros Hr Hlen. destruct (search_spec s e vs v Hr Hlen) as (found & pos & Hs & Hp & Hres).
  exists found, pos. split_and!; try done; [lia|lia|]. destruct found; [apply Hres|].
  destruct Hres as (l1 & l2 & -> & -> & ? & ?).
  by rewrite Nat2Z.id, take_app_length, drop_app_length.
Qed.

(** C9. [intsetAdd] refines set insertion, for every 64 bit value and whether
    or not the encoding has to be upgraded: it never accesses memory outside
    the reallocated block, [*success] says whether the value was new, the
    values stay strictly sorted, and the encoding becomes the wider of the old
    one and the one the value needs.  The bound is the largest length whose
    byte size still fits the [uint32_t] of [intsetResize]. *)
Theorem intsetAdd_refines s e vs v : repr s e vs -> INT64_MIN <= v <= INT64_MAX ->
  (Zlen vs + 1) * 8 < 2 ^ 32 ->
  exists s' vs', intsetAdd s v = Some (s', bool_decide (v ∉ vs)) /\
    repr s' (Z.max e (_intsetValueEncoding v)) vs' /\
    list_to_set vs' =@{gset Z} {[v]} ∪ list_to_set vs.
Proof.
  intros Hr Hv Hlen.
  destruct (add_spec s e vs v Hr Hv Hlen) as (s' & ok & vs' & Ha & Hr' & Hok).
  exists s', vs'. destruct Hok as [(-> & -> & -> & Hin)|(-> & Hnin & l1 & l2 & -> & ->)].
  - rewrite bool_decide_eq_false_2 by (by intros []). split_and!; try done. set_solver.
  - rewrite bool_decide_eq_true_2 by done. split_and!; try done.
    rewrite !list_to_set_app_L, list_to_set_cons. set_solver.
Qed.

(** [intsetRemove] refines set deletion: it stays inside the block,
    [*success] says whether the value was present, and the encoding is kept. *)
Theorem intsetRemove_refines s e vs v : repr s e vs -> INT64_MIN <= v <= INT64_MAX ->
  Zlen vs * 8 < 2 ^ 32 ->
  exists s' vs', intsetRemove s v = Some (s', bool_decide (v ∈ vs)) /\
    repr s' e vs' /\ list_to_set vs' =@{gset Z} list_to_set vs ∖ {[v]}.
Proof.
  intros Hr Hv Hlen.
  destruct (remove_spec s e vs v Hr Hv Hlen) as (s' & ok & vs' & Ha & Hr' & Hok).
  exists s', vs'. destruct Hok as [(-> & -> & -> & Hin)|(-> & l1 & l2 & -> & ->)].
  - rewrite bool_decide_eq_false_2 by done. split_and!; try done. set_solver.
  - rewrite bool_decide_eq_true_2 by set_solver. split_and!; try done.
    rewrite !list_to_set_app_L, list_to_set_cons.
    pose proof (sorted_split_notin _ _ _ (repr_sorted _ _ _ Hr)). set_solver.
Qed.

(** Scripts of set operations, as a client issues them. *)
Inductive set_op := OpAdd (v : Z) | OpRemove (v : Z).

Definition op_value (o : set_op) : Z := match o with OpAdd v | OpRemove v => v end.

Definition exec_op (s : intset) (o : set_op) : option intset :=
  match o with
  | OpAdd v => '(s, _) ← intsetAdd s v; Some s
  | OpRemove v => '(s, _) ← intsetRemove s v; Some s
  end.

Fixpoint exec_ops (s : intset) (ops : list set_op) : option intset :=
  match ops with [] => Some s | o :: ops => s ← exec_op s o; exec_ops s ops end.

Definition spec_op (X : gset Z) (o : set_op) : gset Z :=
  match o with OpAdd v => {[v]} ∪ X | OpRemove v => X ∖ {[v]} end.

(** The width in bytes a value needs, and the width a script leaves: the
    widest one any inserted value needed, since removals never narrow a set. *)
Definition value_width (v : Z) : Z :=
  if bool_decide (- 2 ^ 15 <= v < 2 ^ 15) then 2
  else if bool_decide (- 2 ^ 31 <= v < 2 ^ 31) then 4 else 8.

Definition width_op (e : Z) (o : set_op) : Z :=
  match o with OpAdd v => Z.max e (value_width v) | OpRemove _ => e end.

Lemma ValueEncoding_width v : _intsetValueEncoding v = value_width v.
Proof.
  unfold _intsetValueEncoding, value_width. rewrite !Z.gtb_ltb. unfold_limits. simpl Z.pow.
  repeat case_bool_decide; repeat zcase; simpl; done || lia.
Qed.

Lemma sorted_size (vs : list Z) : StronglySorted Z.lt vs -> size (list_to_set vs : gset Z) = length vs.
Proof.
  intros Hs. apply size_list_to_set.
  induction Hs as [|a l _ IH Hf]; constructor; [|done].
  intros Hin. rewrite Forall_forall in Hf. apply Hf in Hin. lia.
Qed.

Lemma exec_op_spec s e vs o n : repr s e vs -> INT64_MIN <= op_value o <= INT64_MAX ->
  Zlen vs <= n -> (n + 1) * 8 < 2 ^ 32 ->
  exists s' vs', exec_op s o = Some s' /\ repr s' (width_op e o) vs' /\ Zlen vs' <= n + 1 /\
    list_to_set vs' =@{gset Z} spec_op (list_to_set vs) o.
Proof.
  intros Hr Hv Hn Hb. destruct o as [v|v]; simpl in Hv |- *.
  - destruct (add_spec s e vs v Hr Hv ltac:(lia)) as (s' & ok & vs' & -> & Hr' & Hok).
    rewrite ValueEncoding_width in Hr'. exists s', vs'. split; [done|]. split; [done|].
    destruct Hok as [(_ & -> & _ & Hin)|(_ & Hnin & l1 & l2 & -> & ->)].
    + split; [lia|set_solver].
    + rewrite length_app in *. simpl. split; [lia|set_solver].
  - destruct (remove_spec s e vs v Hr Hv ltac:(lia)) as (s' & ok & vs' & -> & Hr' & Hok).
    exists s', vs'. split; [done|]. split; [done|].
    destruct Hok as [(_ & -> & _ & Hin)|(_ & l1 & l2 & -> & ->)]; [split; [lia|set_solver]|].
    pose proof (sorted_split_notin _ _ _ (repr_sorted _ _ _ Hr)).
    rewrite length_app in *. simpl in Hn. split; [lia|set_solver].
Qed.

Lemma exec_ops_spec ops s e vs n : repr s e vs -> Zlen vs <= n ->
  Forall (fun o => INT64_MIN <= op_value o <= INT64_MAX) ops -> (n + Zlen ops + 1) * 8 < 2 ^ 32 ->
  exists s' vs', exec_ops s ops = Some s' /\ repr s' (foldl width_op e ops) vs' /\
    Zlen vs' <= n + Zlen ops /\ list_to_set vs' =@{gset Z} foldl spec_op (list_to_set vs) ops.
Proof.
  revert s e vs n. induction ops as [|o ops IH]; intros s e vs n Hr Hn Hf Hb.
  { exists s, vs. split_and!; try done. simpl. lia. }
  apply Forall_cons in Hf as [Ho Hf]. cbn [length] in Hb |- *.
  destruct (exec_op_spec s e vs o n Hr Ho Hn ltac:(lia)) as (s1 & vs1 & E & Hr1 & Hn1 & Hset).
  destruct (IH s1 _ vs1 (n + 1) Hr1 Hn1 Hf ltac:(lia)) as (s' & vs' & E' & Hr' & Hn' & Hset').
  exists s', vs'. simpl. rewrite E. simpl. split_and!; [done|done|lia|]. by rewrite Hset', Hset.
Qed.

(** C14. Any script of insertions and removals of 64 bit values, started from
    [intsetNew], runs to completion without undefined behaviour and leaves a
    well-formed set that holds exactly the values the script describes, as long
    as it is shorter than the length where [intsetResize] overflows. *)
Theorem intset_script_correct ops :
  Forall (fun o => INT64_MIN <= op_value o <= INT64_MAX) ops -> (Zlen ops + 1) * 8 < 2 ^ 32 ->
  exists s0 s, intsetNew = Some s0 /\ exec_ops s0 ops = Some s /\ is_set s (foldl spec_op ∅ ops).
Proof.
  intros Hf Hb. destruct new_spec as (s0 & -> & Hr).
  destruct (exec_ops_spec ops s0 2 [] 0 Hr) as (s & vs & Hs & Hr' & _ & Hset); try done.
  exists s0, s. split_and!; try done. exists (foldl width_op 2 ops), vs. by rewrite Hset.
Qed.

(** C23. Queries on a well-formed set: [intsetFind] decides membership for
    every 64 bit value (also one too wide for the encoding, without reading
    the array), [intsetGet] returns the value at every position and refuses
    the positions past the end, [intsetLen] is the number of elements, and
    [intsetRandom] returns an element of a non-empty set whatever [rand()] gives. *)
Theorem intset_queries_correct s e vs : repr s e vs -> Zlen vs * 8 < 2 ^ 32 ->
  (forall v, INT64_MIN <= v <= INT64_MAX -> intsetFind s v = Some (bool_decide (v ∈ vs))) /\
  (forall pos, 0 <= pos < 2 ^ 32 -> intsetGet s pos = Some (vs !! Z.to_nat pos)) /\
  intsetLen s = Some (Zlen vs) /\
  (forall r, 0 <= r <= INT32_MAX -> vs <> [] -> exists v, intsetRandom s r = Some v /\ v ∈ vs).
Proof.
  intros Hr Hb. split_and!.
  - intros v Hv. by apply (find_spec s e).
  - intros pos Hp. unfold intsetGet. rewrite (read_length _ _ _ Hr) by lia. simpl.
    destruct (Z.ltb_spec pos (Zlen vs)).
    + destruct (lookup_Z vs pos ltac:(lia)) as [v Hv].
      rewrite wraps_id, (get_lookup s e vs v) by (done || lia). by rewrite Hv.
    + rewrite lookup_ge_None_2 by lia. done.
  - unfold intsetLen. apply (read_length _ _ _ Hr). lia.
  - intros r Hrr Hne. unfold_limits. assert (0 < Zlen vs) by (destruct vs; [done|simpl length; lia]).
    unfold intsetRandom. rewrite (read_length _ _ _ Hr) by lia. simpl.
    destruct (Z.eqb_spec (Zlen vs) 0); [lia|]. rewrite (wrapu_id 32) by lia.
    pose proof (Z.mod_pos_bound r (Zlen vs) ltac:(lia)).
    destruct (lookup_Z vs (r mod Zlen vs) ltac:(lia)) as [v Hv].
    rewrite wraps_id, (get_lookup s e vs v) by (done || lia).
    exists v. split; [done|]. by eapply list_elem_of_lookup_2.
Qed.

(** The bytes of the whole [intset] structure as they lie in the host's
    memory, its two [uint32_t] fields first: what RDB and DUMP write. *)
Definition intset_blob (s : intset) : block :=
  (Some <$> (host_bytes 4 (is_encoding s) ++ host_bytes 4 (is_length s))) ++ is_contents s.

Lemma host_bytes_ifbe32 v : host_bytes 4 (ifbe32 v) = le_bytes 4 v.
Proof.
  unfold ifbe32. destruct big_endian eqn:Hbe.
  - unfold revn. rewrite host_bytes_val.
    + unfold host_bytes. by rewrite Hbe, rev_involutive.
    + rewrite length_rev. apply length_host_bytes.
    + apply Forall_rev_byte, host_bytes_is_byte.
  - unfold host_bytes. by rewrite Hbe.
Qed.

Lemma blob_spec s e vs : repr s e vs ->
  intset_blob s = Some <$> (le_bytes 4 e ++ le_bytes 4 (Zlen vs) ++ encode e vs).
Proof.
  intros Hr. unfold intset_blob.
  rewrite (repr_encoding _ _ _ Hr), (repr_length _ _ _ Hr), (repr_contents _ _ _ Hr).
  by rewrite !host_bytes_ifbe32, <- fmap_app, <- app_assoc.
Qed.

Lemma bloblen_spec s e vs : repr s e vs -> Zlen vs * 8 < 2 ^ 32 ->
  intsetBlobLen s = Some (8 + e * Zlen vs).
Proof.
  intros Hr Hb. pose proof (is_enc_range e (repr_enc _ _ _ Hr)).
  unfold intsetBlobLen. rewrite (read_length _ _ _ Hr), (read_encoding _ _ _ Hr) by lia. simpl.
  rewrite (wrapu_id 32) by nia. f_equal. lia.
Qed.

(** The elements of a finite set in increasing order. *)
Definition in_order (X : gset Z) : list Z := merge_sort Z.le (elements X).

Lemma in_order_sorted vs : StronglySorted Z.lt vs -> in_order (list_to_set vs) = vs.
Proof.
  intros Hs. apply (StronglySorted_unique Z.le).
  - apply (StronglySorted_merge_sort Z.le).
  - clear -Hs. induction Hs as [|a l _ IH Hf]; constructor; [done|].
    eapply Forall_impl; [exact Hf|]. intros; simpl in *; lia.
  - unfold in_order. rewrite merge_sort_Permutation. apply elements_list_to_set.
    clear -Hs. induction Hs as [|a l _ IH Hf]; constructor; [|done].
    intros Hin. rewrite Forall_forall in Hf. apply Hf in Hin. lia.
Qed.

(** C24. What any script of insertions and removals leaves in memory, on a
    host of either byte order: run from [intsetNew], it ends with a structure
    whose bytes are the encoding width (the widest one an inserted value
    needed), the number of elements and the elements of the described set in
    increasing order, each in little endian two's complement of that width,
    all initialised; [intsetBlobLen] is the number of those bytes.  The right
    hand sides do not mention the host, so the image one host writes is the
    image any other host computes from the same operations. *)
Theorem intset_image_portable ops :
  Forall (fun o => INT64_MIN <= op_value o <= INT64_MAX) ops -> (Zlen ops + 1) * 8 < 2 ^ 32 ->
  exists s0 s, intsetNew = Some s0 /\ exec_ops s0 ops = Some s /\
    let e := foldl width_op 2 ops in
    let X := foldl spec_op ∅ ops in
    intset_blob s = Some <$>
      (le_bytes 4 e ++ le_bytes 4 (Z.of_nat (size X)) ++ concat (le_bytes (Z.to_nat e) <$> in_order X)) /\
    intsetBlobLen s = Some (8 + e * Z.of_nat (size X)).
Proof.
  intros Hf Hb. destruct new_spec as (s0 & -> & Hr).
  destruct (exec_ops_spec ops s0 2 [] 0 Hr) as (s & vs & Hs & Hr' & Hn & Hset); try done.
  exists s0, s. split_and!; try done. cbv zeta. change (list_to_set []) with (∅ : gset Z) in Hset.
  rewrite <- Hset, in_order_sorted, sorted_size by apply (repr_sorted _ _ _ Hr').
  split; [by rewrite (blob_spec _ _ _ Hr')|]. apply (bloblen_spec _ _ _ Hr'). lia.
Qed.

(** C25. The limit is real: on a 64 bit encoded set of [2^29 - 1] elements,
    inserting a new maximum computes the byte size [2^29 * 8] in a [uint32_t],
    reallocates the array to zero bytes and then stores outside it. *)
Theorem intsetAdd_overflow s vs v : repr s 8 vs -> Zlen vs = 2 ^ 29 - 1 ->
  INT64_MIN <= v <= INT64_MAX -> Forall (fun x => x < v) vs -> intsetAdd s v = None.
Proof.
  intros Hr Hlen Hv Hmax. unfold intsetAdd. rewrite (read_encoding _ _ _ Hr). cbn [mbind option_bind].
  assert (_intsetValueEncoding v <= 8) by (pose proof (is_enc_range _ (ValueEncoding_enc v)); lia).
  rewrite Z.gtb_ltb. destruct (Z.ltb_spec 8 (_intsetValueEncoding v)); [lia|].
  destruct (search_spec s 8 vs v Hr ltac:(unfold_limits; lia)) as (found & pos & -> & Hpos & Hres).
  rewrite Forall_forall in Hmax. cbn [mbind option_bind]. destruct found.
  { destruct Hres as [_ Hin%list_elem_of_lookup_2%Hmax]. lia. }
  destruct Hres as (l1 & l2 & -> & -> & _ & Hhi).
  assert (l2 = []) as ->.
  { destruct l2 as [|x l2]; [done|]. apply Forall_cons in Hhi as [Hx _].
    specialize (Hmax x ltac:(set_solver)). lia. }
  rewrite app_nil_r in *. rewrite (read_length _ _ _ Hr) by lia. cbn [mbind option_bind].
  unfold intsetResize. rewrite (read_encoding _ _ _ Hr). cbn [mbind option_bind is_length].
  rewrite Hlen. change (u32 (u32 (2 ^ 29 - 1 + 1) * 8)) with 0.
  rewrite (read_length _ _ _ Hr) by lia. cbn [mbind option_bind]. rewrite Hlen, Z.ltb_irrefl.
  cbn [mbind option_bind]. unfold _intsetSet. cbn [is_encoding is_contents].
  rewrite (read_encoding _ _ _ Hr). cbn [mbind option_bind].
  change (8 =? INTSET_ENC_INT64) with true. cbv iota. unfold set_elem.
  rewrite store_oob; [done|]. right. unfold blen. rewrite length_zrealloc, length_host_bytes.
  by vm_compute.
Qed.

End Interface.

(** ** Witnesses *)

Definition small_set : intset := Intset 2 3 (Some <$> encode 2 [-4; 7; 300]).

Lemma small_set_repr : repr (HOST := false) small_set 2 [-4; 7; 300].
Proof.
  constructor; try done; [by left| |].
  - repeat constructor; unfold fits; simpl; lia.
  - repeat constructor; lia.
Qed.

Lemma intsetSearch_correct_witness : exists found pos,
  intsetSearch (HOST := false) small_set 7 = Some (found, pos) /\ 0 <= pos <= 3.
Proof.
  destruct (intsetSearch_correct (HOST := false) small_set 2 _ 7 small_set_repr ltac:(done))
    as (f & p & H & Hp & _). by exists f, p.
Defined.

Lemma intsetAdd_refines_witness : exists s' vs',
  intsetAdd (HOST := false) small_set 70000 = Some (s', true) /\ repr (HOST := false) s' 4 vs'.
Proof.
  destruct (intsetAdd_refines (HOST := false) small_set 2 _ 70000 small_set_repr ltac:(done) ltac:(done))
    as (s' & vs' & H & Hr & _). exists s', vs'. split; [exact H | exact Hr].
Defined.

Lemma intsetRemove_refines_witness : exists s' vs',
  intsetRemove (HOST := false) small_set 7 = Some (s', true) /\ repr (HOST := false) s' 2 vs'.
Proof.
  destruct (intsetRemove_refines (HOST := false) small_set 2 _ 7 small_set_repr ltac:(done) ltac:(done))
    as (s' & vs' & H & Hr & _). exists s', vs'. split; [exact H | exact Hr].
Defined.

Lemma intset_script_correct_witness : exists s0 s, intsetNew (HOST := true) = Some s0 /\
  exec_ops (HOST := true) s0 [OpAdd 5; OpAdd (-70000); OpRemove 5] = Some s.
Proof.
  destruct (intset_script_correct (HOST := true) [OpAdd 5; OpAdd (-70000); OpRemove 5]) as (s0 & s & H0 & H1 & _).
  - repeat constructor; done.
  - done.
  - by exists s0, s.
Defined.

Lemma intset_queries_correct_witness : intsetLen (HOST := false) small_set = Some 3.
Proof.
  apply (intset_queries_correct (HOST := false) small_set 2 _ small_set_repr ltac:(done)).
Defined.

Definition image_script : list set_op := [OpAdd 300; OpAdd (-70000); OpAdd 7; OpRemove 300; OpAdd (-1)].

(** One script on a little and on a big endian host: the same 20 bytes. *)
Lemma intset_image_portable_witness :
  let image := Some <$> [4; 0; 0; 0; 3; 0; 0; 0; 144; 238; 254; 255; 255; 255; 255; 255; 7; 0; 0; 0] in
  let ends_in (host : Host) := exists s0 s,
    intsetNew (HOST := host) = Some s0 /\ exec_ops (HOST := host) s0 image_script = Some s /\
    intset_blob (HOST := host) s = image /\ intsetBlobLen (HOST := host) s = Some 20 in
  ends_in false /\ ends_in true.
Proof.
  intros image ends_in. split.
  - apply (intset_image_portable (HOST := false) image_script); [|done].
    repeat constructor; done.
  - apply (intset_image_portable (HOST := true) image_script); [|done].
    repeat constructor; done.
Defined.

(** A set of [2^29 - 1] consecutive integers. *)
Definition huge_set : intset := Intset 8 (2 ^ 29 - 1) (Some <$> encode 8 (seqZ 0 (2 ^ 29 - 1))).

Lemma seqZ_sorted m n : StronglySorted Z.lt (seqZ m n).
Proof.
  destruct (Z.leb_spec 0 n) as [Hn|Hn]; [|rewrite seqZ_nil by lia; constructor].
  revert m. pattern n. apply natlike_ind; [intros m; constructor| |done].
  clear. intros n Hn IH m. rewrite seqZ_cons by lia.
  replace (Z.pred (Z.succ n)) with n by lia. constructor; [apply IH|].
  apply Forall_forall. intros x Hx%elem_of_seqZ. lia.
Qed.

Lemma intsetAdd_overflow_witness : intsetAdd (HOST := false) huge_set (2 ^ 40) = None.
Proof.
  assert (Zlen (seqZ 0 (2 ^ 29 - 1)) = 2 ^ 29 - 1) as Hl by (rewrite length_seqZ; lia).
  apply (intsetAdd_overflow (HOST := false) huge_set (seqZ 0 (2 ^ 29 - 1))).
  - constructor.
    + by right; right.
    + reflexivity.
    + rewrite Hl. reflexivity.
    + reflexivity.
    + apply Forall_forall. intros x Hx%elem_of_seqZ. unfold fits. simpl Z.pow. lia.
    + apply seqZ_sorted.
  - exact Hl.
  - unfold_limits. lia.
  - apply Forall_forall. intros x Hx%elem_of_seqZ. lia.
Defined.
