(* ===== verification/Util.v ===== *)
(** The number conversions of [util.c]: [digits10], [sdigits10], [ll2string],
    [string2ll], [string2l] and [memtoll].

    Strings are lists of bytes ('0' is 48, '-' is 45).  [ll2string] writes into
    a checked block; the parsers return [Some None] when the C function
    returns 0 and [None] only for undefined behaviour. *)

From S2P Require Import Prelude.

(** ** The code *)

Fixpoint digits10_rec (fuel : nat) (v : Z) : Z :=
  match fuel with
  | O => 0
  | S fuel =>
    if v <? 10 then 1 else
    if v <? 100 then 2 else
    if v <? 1000 then 3 else
    if v <? 1000000000000 then
      if v <? 100000000 then
        if v <? 1000000 then
          if v <? 10000 then 4 else 5 + (if v >=? 100000 then 1 else 0)
        else 7 + (if v >=? 10000000 then 1 else 0)
      else if v <? 10000000000 then 9 + (if v >=? 1000000000 then 1 else 0)
      else 11 + (if v >=? 100000000000 then 1 else 0)
    else 12 + digits10_rec fuel (v / 1000000000000)
  end.

(** Two levels are enough for 64 bits: [2^64 / 10^12 < 10^12]. *)
Definition digits10 (v : Z) : Z := digits10_rec 2 v.

(** The magnitude of a [long long], with the special case of [LLONG_MIN]. *)
Definition magnitude (v : Z) : Z :=
  if negb (v =? INT64_MIN) then u64 (- v) else u64 (INT64_MAX + 1).

Definition sdigits10 (v : Z) : Z :=
  if v <? 0 then digits10 (magnitude v) + 1 else digits10 v.

(** The table [digits]: "00" "01" ... "99". *)
Definition digits : list Z :=
  [48;48;48;49;48;50;48;51;48;52;48;53;48;54;48;55;48;56;48;57;
   49;48;49;49;49;50;49;51;49;52;49;53;49;54;49;55;49;56;49;57;
   50;48;50;49;50;50;50;51;50;52;50;53;50;54;50;55;50;56;50;57;
   51;48;51;49;51;50;51;51;51;52;51;53;51;54;51;55;51;56;51;57;
   52;48;52;49;52;50;52;51;52;52;52;53;52;54;52;55;52;56;52;57;
   53;48;53;49;53;50;53;51;53;52;53;53;53;54;53;55;53;56;53;57;
   54;48;54;49;54;50;54;51;54;52;54;53;54;54;54;55;54;56;54;57;
   55;48;55;49;55;50;55;51;55;52;55;53;55;54;55;55;55;56;55;57;
   56;48;56;49;56;50;56;51;56;52;56;53;56;54;56;55;56;56;56;57;
   57;48;57;49;57;50;57;51;57;52;57;53;57;54;57;55;57;56;57;57].

(** [while (value >= 100)]: two digits per iteration, written backwards. *)
Fixpoint ll2string_loop (fuel : nat) (dst : block) (value next : Z) : option (block * Z * Z) :=
  match fuel with
  | O => None
  | S fuel =>
    if value >=? 100 then
      let i := (value mod 100) * 2 in
      let value := value / 100 in
      c1 ← rd digits (i + 1); dst ← store8 dst next c1;
      c0 ← rd digits i; dst ← store8 dst (u32 (next - 1)) c0;
      ll2string_loop fuel dst value (u32 (next - 2))
    else Some (dst, value, next)
  end.

Definition ll2string (dst : block) (dstlen svalue : Z) : option (block * Z) :=
  let '(value, negative) :=
    if svalue <? 0 then (magnitude svalue, 1) else (svalue, 0) in
  let length := u32 (digits10 value + negative) in
  if length >=? dstlen then Some (dst, 0) else
  let next := length in
  dst ← store8 dst next 0;
  let next := u32 (next - 1) in
  '(dst, value, next) ← ll2string_loop 11 dst value next;
  dst ← (if value <? 10 then store8 dst next (48 + value)
         else
           let i := value * 2 in
           c1 ← rd digits (i + 1); dst ← store8 dst next c1;
           c0 ← rd digits i; store8 dst (u32 (next - 1)) c0);
  dst ← (if negb (negative =? 0) then store8 dst 0 45 else Some dst);
  Some (dst, length).

(** [while (plen < slen && p[0] >= '0' && p[0] <= '9')]: [Some None] is the
    early [return 0] on overflow, else the value and [plen]. *)
Fixpoint string2ll_loop (fuel : nat) (s : list Z) (slen plen v : Z) : option (option (Z * Z)) :=
  match fuel with
  | O => None
  | S fuel =>
    if plen <? slen then
      c ← rd s plen;
      if (c >=? 48) && (c <=? 57) then
        if v >? UINT64_MAX / 10 then Some None else
        let v := u64 (v * 10) in
        if v >? UINT64_MAX - (c - 48) then Some None else
        string2ll_loop fuel s slen (plen + 1) (u64 (v + (c - 48)))
      else Some (Some (v, plen))
    else Some (Some (v, plen))
  end.

Definition string2ll (s : list Z) (slen : Z) : option (option Z) :=
  if 0 =? slen then Some None else
  c0 ← rd s 0;
  if (slen =? 1) && (c0 =? 48) then Some (Some 0) else
  let negative := c0 =? 45 in
  let plen := if negative then 1 else 0 in
  if negative && (plen =? slen) then Some None else
  c ← rd s plen;
  if (c >=? 49) && (c <=? 57) then
    r ← string2ll_loop (S (Z.to_nat slen)) s slen (plen + 1) (u64 (c - 48));
    match r with
    | None => Some None
    | Some (v, plen) =>
      if plen <? slen then Some None else
      if negative then
        if v >? u64 (- (INT64_MIN + 1) + 1) then Some None else Some (Some (s64 (u64 (- v))))
      else
        if v >? INT64_MAX then Some None else Some (Some (s64 v))
    end
  else if (c =? 48) && (slen =? 1) then Some (Some 0)
  else Some None.

(** [long] has [lbits] bits on this platform. *)
Definition string2l (lbits : Z) (s : list Z) (slen : Z) : option (option Z) :=
  r ← string2ll s slen;
  match r with
  | None => Some None
  | Some llval =>
    if (llval <? - 2 ^ (lbits - 1)) || (llval >? 2 ^ (lbits - 1) - 1) then Some None
    else Some (Some llval)
  end.

(** ** Reference: canonical decimal strings *)

Fixpoint udec_fuel (fuel : nat) (n : Z) : list Z :=
  match fuel with
  | O => []
  | S fuel => if n <? 10 then [48 + n] else udec_fuel fuel (n / 10) ++ [48 + n mod 10]
  end.

Definition udec (n : Z) : list Z := udec_fuel (S (Z.to_nat (Z.log2 n))) n.

Definition sdec (v : Z) : list Z := if v <? 0 then 45 :: udec (- v) else udec v.

Lemma log2_div10 n : 10 <= n -> Z.log2 (n / 10) < Z.log2 n.
Proof.
  intros. apply Z.lt_le_trans with (Z.log2 n - 2); [|lia].
  assert (n / 10 <= n / 2 ^ 3) by (change (2 ^ 3) with 8; Z.to_euclidean_division_equations; lia).
  apply Z.log2_le_mono in H0. rewrite <- Z.shiftr_div_pow2, Z.log2_shiftr in H0 by lia.
  pose proof (Z.log2_le_mono 8 n ltac:(lia)). change (Z.log2 8) with 3 in *. lia.
Qed.

Lemma udec_fuel_irrel f1 f2 n : 0 <= n -> Z.log2 n < Z.of_nat f1 -> Z.log2 n < Z.of_nat f2 ->
  udec_fuel f1 n = udec_fuel f2 n.
Proof.
  revert f2 n. induction f1 as [|f1 IH]; intros f2 n Hn H1 H2;
    [pose proof (Z.log2_nonneg n); lia|].
  destruct f2 as [|f2]; [pose proof (Z.log2_nonneg n); lia|]. cbn [udec_fuel].
  destruct (Z.ltb_spec n 10); [done|]. f_equal. pose proof (log2_div10 n ltac:(lia)).
  apply IH; [apply Z.div_pos; lia|lia|lia].
Qed.

Lemma udec_eq n : 0 <= n -> udec n = if n <? 10 then [48 + n] else udec (n / 10) ++ [48 + n mod 10].
Proof.
  intros Hn. unfold udec at 1. cbn [udec_fuel]. destruct (Z.ltb_spec n 10); [done|]. f_equal.
  pose proof (log2_div10 n ltac:(lia)). pose proof (Z.log2_nonneg (n / 10)).
  apply udec_fuel_irrel; [apply Z.div_pos; lia|lia|lia].
Qed.

Lemma udec_snoc q r : 0 < q -> 0 <= r < 10 -> udec (10 * q + r) = udec q ++ [48 + r].
Proof.
  intros. rewrite udec_eq by lia. destruct (Z.ltb_spec (10 * q + r) 10); [lia|].
  replace ((10 * q + r) / 10) with q by (Z.to_euclidean_division_equations; lia).
  by replace ((10 * q + r) mod 10) with r by (Z.to_euclidean_division_equations; lia).
Qed.

(** Numbers in base 10: induction on the decimal representation. *)
Lemma dec_ind (P : Z -> Prop) : (forall n, 0 <= n < 10 -> P n) ->
  (forall q r, 0 < q -> 0 <= r < 10 -> P q -> P (10 * q + r)) -> forall n, 0 <= n -> P n.
Proof.
  intros Hs Hr. apply Zlt_0_ind. intros n IH Hn. destruct (Z.ltb_spec n 10); [apply Hs; lia|].
  rewrite (Z.div_mod n 10) by lia. apply Hr.
  - Z.to_euclidean_division_equations; lia.
  - apply Z.mod_pos_bound. lia.
  - apply IH. Z.to_euclidean_division_equations; lia.
Qed.

(** The number a digit string denotes. *)
Definition dval_from (a : Z) (ds : list Z) : Z := fold_left (fun a c => a * 10 + (c - 48)) ds a.
Definition dval (ds : list Z) : Z := dval_from 0 ds.

Definition is_digit (c : Z) : Prop := 48 <= c <= 57.

(** No leading zero, except "0" itself. *)
Definition canonical (ds : list Z) : Prop :=
  Forall is_digit ds /\ exists c ds', ds = c :: ds' /\ (c = 48 -> ds' = []).

Lemma dval_from_app a ds1 ds2 : dval_from a (ds1 ++ ds2) = dval_from (dval_from a ds1) ds2.
Proof. apply fold_left_app. Qed.

Lemma dval_from_ge a ds : 0 <= a -> Forall is_digit ds -> a <= dval_from a ds.
Proof.
  intros Ha Hf. revert a Ha. induction Hf as [|c ds Hc Hf IH]; intros a Ha; [unfold dval_from; simpl; lia|].
  unfold is_digit in Hc. change (dval_from a (c :: ds)) with (dval_from (a * 10 + (c - 48)) ds).
  specialize (IH (a * 10 + (c - 48)) ltac:(lia)). lia.
Qed.

Lemma udec_canonical n : 0 <= n -> canonical (udec n) /\ (0 < n -> head (udec n) <> Some 48).
Proof.
  revert n. apply dec_ind.
  - intros n Hn. rewrite udec_eq by lia. destruct (Z.ltb_spec n 10); [|lia]. split.
    + split; [repeat constructor; lia|]. by eexists _, [].
    + simpl. intros ? [= ?]. lia.
  - intros q r Hq Hr [[Hf (c & ds' & E & Hc)] Hh]. rewrite udec_snoc by lia. split.
    + split; [apply Forall_app; split; [done|repeat constructor; lia]|].
      rewrite E. exists c, (ds' ++ [48 + r]). split; [done|]. intros ->. rewrite E in Hh.
      by specialize (Hh Hq).
    + rewrite E in *. intros _. by apply Hh.
Qed.

Lemma dval_udec n : 0 <= n -> dval (udec n) = n.
Proof.
  revert n. apply dec_ind.
  - intros n Hn. rewrite udec_eq by lia. destruct (Z.ltb_spec n 10); [|lia]. unfold dval, dval_from. simpl. lia.
  - intros q r Hq Hr IH. rewrite udec_snoc by lia. unfold dval in *. rewrite dval_from_app, IH.
    unfold dval_from. simpl. lia.
Qed.

Lemma udec_dval_pos c ds : 49 <= c <= 57 -> Forall is_digit ds -> udec (dval (c :: ds)) = c :: ds.
Proof.
  intros Hc. induction ds as [|d ds IH] using rev_ind; intros Hf.
  - replace (dval [c]) with (c - 48) by (unfold dval, dval_from; simpl; lia).
    rewrite udec_eq by lia. destruct (Z.ltb_spec (c - 48) 10); [|lia].
    replace (48 + (c - 48)) with c by lia. done.
  - apply Forall_app in Hf as [Hf [Hd _]%Forall_cons]. unfold is_digit in Hd.
    change (c :: ds ++ [d]) with ((c :: ds) ++ [d]). unfold dval in *. rewrite dval_from_app.
    assert (0 < dval_from 0 (c :: ds)).
    { pose proof (dval_from_ge (c - 48) ds ltac:(lia) Hf) as H.
      change (dval_from 0 (c :: ds)) with (dval_from (0 * 10 + (c - 48)) ds).
      replace (0 * 10 + (c - 48)) with (c - 48) by lia. lia. }
    set (q := dval_from 0 (c :: ds)) in *. unfold dval_from at 1. simpl.
    replace (q * 10 + (d - 48)) with (10 * q + (d - 48)) by lia.
    rewrite udec_snoc, IH by (lia || done). by replace (48 + (d - 48)) with d by lia.
Qed.

Lemma udec_nonempty n : 0 <= n -> udec n <> [].
Proof. intros Hn E. destruct (udec_canonical n Hn) as [[_ (c & ds & E' & _)] _]. congruence. Qed.

(** ** Lengths *)

Lemma length_udec n k : 0 <= k -> 0 < n -> 10 ^ k <= n < 10 ^ (k + 1) -> Zlen (udec n) = k + 1.
Proof.
  intros Hk Hn. revert k Hk. revert Hn. assert (0 <= n -> 0 < n -> forall k, 0 <= k ->
    10 ^ k <= n < 10 ^ (k + 1) -> Zlen (udec n) = k + 1) as H; [|intros; apply H; lia].
  revert n. apply (dec_ind (fun n => 0 < n -> forall k, 0 <= k ->
    10 ^ k <= n < 10 ^ (k + 1) -> Zlen (udec n) = k + 1)).
  - intros n Hn Hp k Hk Hb. assert (k = 0) as ->.
    { destruct (Z.eq_dec k 0); [done|]. pose proof (Z.pow_le_mono_r 10 1 k ltac:(lia) ltac:(lia)). lia. }
    rewrite udec_eq by lia. by destruct (Z.ltb_spec n 10); [|lia].
  - intros q r Hq Hr IH _ k Hk Hb. rewrite udec_snoc, length_app by lia. simpl length.
    destruct (Z.eq_dec k 0) as [->|]; [simpl in Hb; lia|].
    replace (k + 1) with (Z.succ k) in Hb by lia. replace k with (Z.succ (k - 1)) in Hb at 1 by lia.
    rewrite !Z.pow_succ_r in Hb by lia.
    replace k with (Z.succ (k - 1)) in Hb at 2 by lia. rewrite Z.pow_succ_r in Hb by lia.
    specialize (IH Hq (k - 1) ltac:(lia)). replace (k - 1 + 1) with (Z.succ (k - 1)) in IH by lia.
    rewrite Z.pow_succ_r in IH by lia. lia.
Qed.

Lemma digits10_rec_spec fuel v : 0 < v < 10 ^ (12 * Z.of_nat fuel) ->
  1 <= digits10_rec fuel v /\ 10 ^ (digits10_rec fuel v - 1) <= v < 10 ^ (digits10_rec fuel v).
Proof.
  revert v. induction fuel as [|fuel IH]; intros v Hv; [simpl in Hv; lia|]. cbn [digits10_rec].
  rewrite !Z.geb_leb.
  destruct (Z.ltb_spec v 1000000000000).
  - repeat zcase; try lia; cbn [Z.add Z.sub Z.opp Pos.add Z.pos_sub Pos.succ]; (split; [lia|]);
      match goal with |- ?a <= _ < ?b => let a' := eval vm_compute in a in
        let b' := eval vm_compute in b in change a with a'; change b with b' end; lia.
  - destruct (Z.ltb_spec v 10); [lia|]. destruct (Z.ltb_spec v 100); [lia|].
    destruct (Z.ltb_spec v 1000); [lia|].
    assert (v / 1000000000000 < 10 ^ (12 * Z.of_nat fuel)).
    { apply Z.div_lt_upper_bound; [lia|]. change 1000000000000 with (10 ^ 12).
      rewrite <- Z.pow_add_r by lia. replace (12 + 12 * Z.of_nat fuel) with (12 * Z.of_nat (S fuel)) by lia. lia. }
    assert (0 < v / 1000000000000) by (apply Z.div_str_pos; lia).
    destruct (IH (v / 1000000000000) ltac:(lia)) as [Hd1 Hd2]. split; [lia|].
    set (d := digits10_rec fuel (v / 1000000000000)) in *.
    replace (12 + d - 1) with (12 + (d - 1)) by lia. rewrite !Z.pow_add_r by lia.
    change (10 ^ 12) with 1000000000000.
    pose proof (Z.div_mod v 1000000000000 ltac:(lia)).
    pose proof (Z.mod_pos_bound v 1000000000000 ltac:(lia)). nia.
Qed.

Lemma digits10_udec v : 0 <= v < 2 ^ 64 -> digits10 v = Zlen (udec v).
Proof.
  intros Hv. destruct (Z.eq_dec v 0) as [->|]; [done|].
  destruct (digits10_rec_spec 2 v) as [H1 H2]; [simpl Z.pow; lia|].
  fold (digits10 v) in *. symmetry.
  rewrite (length_udec v (digits10 v - 1)); try lia.
  by replace (digits10 v - 1 + 1) with (digits10 v) by lia.
Qed.

Lemma udec_length_bound v : 0 <= v < 2 ^ 64 -> 1 <= Zlen (udec v) <= 20.
Proof.
  intros Hv. destruct (Z.eq_dec v 0) as [->|]; [done|].
  destruct (digits10_rec_spec 2 v) as [H1 H2]; [simpl Z.pow; lia|].
  rewrite <- digits10_udec by done. fold (digits10 v) in *. split; [lia|].
  destruct (Z.leb_spec (digits10 v) 20); [done|exfalso].
  pose proof (Z.pow_le_mono_r 10 20 (digits10 v - 1) ltac:(lia) ltac:(lia)). simpl Z.pow in *. lia.
Qed.

(** ** [ll2string] *)

Lemma digits_table k : 0 <= k < 100 ->
  rd digits (k * 2) = Some (48 + k / 10) /\ rd digits (k * 2 + 1) = Some (48 + k mod 10).
Proof.
  assert (Forall (fun k => rd digits (k * 2) = Some (48 + k / 10) /\
    rd digits (k * 2 + 1) = Some (48 + k mod 10)) (seqZ 0 100)) as H.
  { change (seqZ 0 100) with (Z.of_nat <$> seq 0 100).
    apply Forall_fmap. repeat (constructor; [done|]). constructor. }
  rewrite Forall_forall in H. intros Hk. apply H, elem_of_seqZ. lia.
Qed.

Lemma udec_100 v : 100 <= v ->
  udec v = udec (v / 100) ++ [48 + v mod 100 / 10; 48 + v mod 100 mod 10].
Proof.
  intros Hv. rewrite (udec_eq v) by lia. destruct (Z.ltb_spec v 10); [lia|].
  rewrite (udec_eq (v / 10)) by (Z.to_euclidean_division_equations; lia).
  destruct (Z.ltb_spec (v / 10) 10); [Z.to_euclidean_division_equations; lia|].
  rewrite <- app_assoc. simpl. rewrite Z.div_div by lia. change (10 * 10) with 100.
  replace ((v / 10) mod 10) with (v mod 100 / 10) by (Z.to_euclidean_division_equations; lia).
  by replace (v mod 10) with (v mod 100 mod 10) by (Z.to_euclidean_division_equations; lia).
Qed.

Lemma split_last2 {A} (X : list A) k : length X = S (S k) ->
  exists X0 x1 x2, X = X0 ++ [x1; x2] /\ length X0 = k.
Proof.
  intros H. destruct X as [|x2 X _] using rev_ind; [done|].
  destruct X as [|x1 X0 _] using rev_ind; [done|].
  exists X0, x1, x2. rewrite !length_app in H. simpl in H. rewrite <- app_assoc. split; [done|lia].
Qed.

Lemma ll2string_loop_eq fuel dst value next :
  ll2string_loop (S fuel) dst value next =
    if value >=? 100 then
      c1 ← rd digits (value mod 100 * 2 + 1); dst ← store8 dst next c1;
      c0 ← rd digits (value mod 100 * 2); dst ← store8 dst (u32 (next - 1)) c0;
      ll2string_loop fuel dst (value / 100) (u32 (next - 2))
    else Some (dst, value, next).
Proof. done. Qed.

#[local] Arguments ll2string_loop : simpl never.

Lemma ll2string_loop_spec fuel : forall value A X suffix C,
  0 <= value < 100 * 100 ^ Z.of_nat fuel -> length X = length (udec value) ->
  Zlen A + Zlen X < 2 ^ 32 ->
  exists value' X' suffix',
    ll2string_loop (S fuel) (A ++ X ++ (Some <$> suffix) ++ C) value (Zlen A + Zlen X - 1)
      = Some (A ++ X' ++ (Some <$> suffix') ++ C, value', Zlen A + Zlen X' - 1) /\
    0 <= value' < 100 /\ length X' = length (udec value') /\ (length X' <= length X)%nat /\
    udec value ++ suffix = udec value' ++ suffix'.
Proof.
  induction fuel as [|fuel IH]; intros value A X suffix C Hv HX Hb; rewrite ll2string_loop_eq, Z.geb_leb;
    (destruct (Z.leb_spec 100 value) as [Hge|Hlt];
     [|exists value, X, suffix; split_and!; try done; lia]); [simpl in Hv; lia|].
  pose proof (udec_100 value Hge) as HU. rewrite HU, length_app in HX. simpl in HX.
  destruct (split_last2 X (length (udec (value / 100))) ltac:(lia)) as (X0 & x1 & x2 & -> & HX0).
  rewrite length_app in *. simpl in HX, Hb |- *.
  assert (length X0 <> 0)%nat.
  { rewrite HX0. intros ?%nil_length_inv. by apply (udec_nonempty (value / 100)); [apply Z.div_pos; lia|]. }
  pose proof (Z.mod_pos_bound value 100 ltac:(lia)) as Hm.
  destruct (digits_table (value mod 100) Hm) as [-> ->]. cbn [mbind option_bind].
  assert (is_byte (48 + value mod 100 mod 10)) by (unfold is_byte; Z.to_euclidean_division_equations; lia).
  assert (is_byte (48 + value mod 100 / 10)) by (unfold is_byte; Z.to_euclidean_division_equations; lia).
  replace (A ++ (X0 ++ [x1; x2]) ++ (Some <$> suffix) ++ C)
    with ((A ++ X0 ++ [x1]) ++ x2 :: (Some <$> suffix) ++ C) by (by rewrite <- !app_assoc).
  rewrite store8_app by (rewrite ?length_app; simpl; lia || done). cbn [mbind option_bind].
  rewrite !(wrapu_id 32) by lia.
  replace ((A ++ X0 ++ [x1]) ++ Some (48 + value mod 100 mod 10) :: (Some <$> suffix) ++ C)
    with ((A ++ X0) ++ x1 :: Some (48 + value mod 100 mod 10) :: (Some <$> suffix) ++ C)
    by (by rewrite <- !app_assoc).
  rewrite store8_app by (rewrite ?length_app; simpl; lia || done). cbn [mbind option_bind].
  destruct (IH (value / 100) A X0 (48 + value mod 100 / 10 :: 48 + value mod 100 mod 10 :: suffix) C)
    as (v' & X' & suf' & Hl & Hv' & HX' & HXl & HE); try lia.
  { rewrite Nat2Z.inj_succ, Z.pow_succ_r in Hv by lia. split; [apply Z.div_pos; lia|].
    apply Z.div_lt_upper_bound; lia. }
  exists v', X', suf'. rewrite <- Hl. split.
  - f_equal; [by rewrite <- !app_assoc|lia].
  - split_and!; try done; try lia. rewrite HU, <- app_assoc. simpl. done.
Qed.

(** The characters [ll2string] writes for a value below 100. *)
Lemma udec_lt10 v : 0 <= v < 10 -> udec v = [48 + v].
Proof. intros. rewrite udec_eq by lia. by destruct (Z.ltb_spec v 10); [|lia]. Qed.

Lemma udec_lt100 v : 10 <= v < 100 -> udec v = [48 + v / 10; 48 + v mod 10].
Proof.
  intros. rewrite udec_eq by lia. destruct (Z.ltb_spec v 10); [lia|].
  rewrite udec_lt10 by (Z.to_euclidean_division_equations; lia). done.
Qed.

Lemma magnitude_abs v : INT64_MIN <= v < 0 -> magnitude v = - v.
Proof.
  unfold_limits. intros Hv. unfold magnitude. unfold_limits.
  destruct (Z.eqb_spec v (- 2 ^ 63)) as [->|]; [done|]. simpl. apply wrapu_id. lia.
Qed.

(** Writing the decimal digits of [value] over the [length X] cells at [A]. *)
Lemma ll2string_digits value A X C : 0 <= value < 2 ^ 64 -> length X = length (udec value) ->
  Zlen A + Zlen X < 2 ^ 32 ->
  ('(dst, value, next) ← ll2string_loop 11 (A ++ X ++ C) value (Zlen A + Zlen X - 1);
   if value <? 10 then store8 dst next (48 + value)
   else
     let i := value * 2 in
     c1 ← rd digits (i + 1); dst ← store8 dst next c1;
     c0 ← rd digits i; store8 dst (u32 (next - 1)) c0)
  = Some (A ++ (Some <$> udec value) ++ C).
Proof.
  intros Hv HX Hb.
  destruct (ll2string_loop_spec 10 value A X [] C) as (v' & X' & suf & Hl & Hv' & HX' & HXl & HE);
    [simpl Z.pow; lia|done|done|].
  simpl in Hl. rewrite Hl. cbn [mbind option_bind]. rewrite app_nil_r in HE. rewrite HE.
  rewrite fmap_app. destruct (Z.ltb_spec v' 10).
  - rewrite udec_lt10 in HX' |- * by lia. destruct X' as [|x [|]]; try done. simpl.
    rewrite store8_app by (lia || (unfold is_byte; lia)). done.
  - rewrite udec_lt100 in HX' |- * by lia. destruct X' as [|x1 [|x2 [|]]]; try done.
    destruct (digits_table v' ltac:(lia)) as [-> ->]. cbn [mbind option_bind]. simpl.
    assert (is_byte (48 + v' / 10)) by (unfold is_byte; Z.to_euclidean_division_equations; lia).
    assert (is_byte (48 + v' mod 10)) by (unfold is_byte; Z.to_euclidean_division_equations; lia).
    change (A ++ x1 :: x2 :: (Some <$> suf) ++ C) with (A ++ [x1] ++ x2 :: (Some <$> suf) ++ C).
    rewrite app_assoc, store8_app by (rewrite ?length_app; simpl; lia || done). cbn [mbind option_bind].
    rewrite (wrapu_id 32) by lia. rewrite <- app_assoc. simpl. rewrite store8_app by (lia || done). done.
Qed.

Lemma sdec_length v : INT64_MIN <= v <= INT64_MAX -> 1 <= Zlen (sdec v) <= 21.
Proof.
  unfold_limits. intros Hv. unfold sdec. destruct (Z.ltb_spec v 0).
  - pose proof (udec_length_bound (- v) ltac:(lia)). simpl length. lia.
  - pose proof (udec_length_bound v ltac:(lia)). lia.
Qed.

Lemma ll2string_spec v dst dstlen : INT64_MIN <= v <= INT64_MAX -> 0 <= dstlen <= blen dst ->
  ll2string dst dstlen v =
    if Zlen (sdec v) >=? dstlen then Some (dst, 0)
    else Some ((Some <$> sdec v) ++ Some 0 :: drop (S (length (sdec v))) dst, Zlen (sdec v)).
Proof.
  intros Hv Hd. pose proof (sdec_length v Hv) as Hlen. unfold ll2string, blen in *. unfold_limits.
  rewrite Z.geb_leb. set (L := length (sdec v)) in *.
  assert (forall value negative, 0 <= value < 2 ^ 64 -> L = (length (udec value) + Z.to_nat negative)%nat ->
    0 <= negative <= 1 -> u32 (digits10 value + negative) = Z.of_nat L) as HL.
  { intros value neg Hval HLv Hneg. rewrite digits10_udec by done.
    pose proof (udec_length_bound value Hval). rewrite wrapu_id by lia. lia. }
  assert (dstlen <= Z.of_nat L \/ Z.of_nat L < dstlen /\ exists x X C, dst = X ++ x :: C /\ length X = L)
    as [Hsmall|[Hbig Hfit]].
  { destruct (Z.leb_spec dstlen (Z.of_nat L)); [by left|right]. split; [lia|].
    destruct (lookup_lt_is_Some_2 dst L ltac:(lia)) as [x Hx].
    destruct (list_elem_of_split_length _ _ _ Hx) as (X & C & -> & HX). by exists x, X, C. }
  - destruct (Z.leb_spec dstlen (Z.of_nat L)); [|lia].
    unfold sdec in L. destruct (Z.ltb_spec v 0); simpl in L.
    + rewrite magnitude_abs by (unfold_limits; lia). rewrite HL by (lia || (subst L; lia)).
      rewrite Z.geb_leb. by destruct (Z.leb_spec dstlen (Z.of_nat L)); [|lia].
    + rewrite HL by (lia || (subst L; lia)). rewrite Z.geb_leb.
      by destruct (Z.leb_spec dstlen (Z.of_nat L)); [|lia].
  - destruct Hfit as (x & X & C & -> & HX).
    destruct (Z.leb_spec dstlen (Z.of_nat L)); [lia|].
    replace (drop (S L) (X ++ x :: C)) with C
      by (change (X ++ x :: C) with (X ++ [x] ++ C); rewrite app_assoc, drop_app_length'; [done|];
          rewrite length_app; simpl; lia).
    unfold sdec in *. destruct (Z.ltb_spec v 0).
    + rewrite magnitude_abs by (unfold_limits; lia). simpl length in *.
      rewrite HL by (lia || (subst L; lia)). rewrite Z.geb_leb.
      destruct (Z.leb_spec dstlen (Z.of_nat L)); [lia|].
      rewrite store8_app by (lia || (unfold is_byte; lia)). cbn [mbind option_bind].
      destruct X as [|y X]; [simpl in HX; subst L; lia|].
      rewrite (wrapu_id 32) by lia.
      pose proof (ll2string_digits (- v) [y] X (Some 0 :: C) ltac:(lia) ltac:(subst L; simpl in HX; lia)
        ltac:(simpl length in *; lia)) as Hdig.
      replace (Zlen [y] + Zlen X - 1) with (Z.of_nat L - 1) in Hdig by (simpl length in *; lia).
      simpl app in *. destruct (ll2string_loop _ _ _ _) as [[[d1 v1] n1]|]; [|done].
      cbn [mbind option_bind] in *. rewrite Hdig. cbn [mbind option_bind].
      change (negb (1 =? 0)) with true. cbv iota.
      pose proof (store8_app [] ((Some <$> udec (- v)) ++ Some 0 :: C) y 45 0 eq_refl ltac:(done)) as Hs.
      simpl app in Hs. by rewrite Hs.
    + rewrite HL by (lia || (subst L; lia)). rewrite Z.geb_leb.
      destruct (Z.leb_spec dstlen (Z.of_nat L)); [lia|].
      rewrite store8_app by (lia || (unfold is_byte; lia)). cbn [mbind option_bind].
      rewrite (wrapu_id 32) by lia.
      pose proof (ll2string_digits v [] X (Some 0 :: C) ltac:(lia) ltac:(subst L; lia)
        ltac:(simpl length in *; lia)) as Hdig.
      replace (Zlen (@nil cell) + Zlen X - 1) with (Z.of_nat L - 1) in Hdig by (simpl length in *; lia).
      simpl app in *. destruct (ll2string_loop _ _ _ _) as [[[d1 v1] n1]|]; [|done].
      cbn [mbind option_bind] in *. rewrite Hdig. done.
Qed.

(** ** [string2ll] *)

Lemma string2ll_loop_spec fuel : forall pre rest v, 0 < v < 2 ^ 64 -> (length rest < fuel)%nat ->
  exists r ds rest', string2ll_loop fuel (pre ++ rest) (Zlen (pre ++ rest)) (Zlen pre) v = Some r /\
    rest = ds ++ rest' /\ Forall is_digit ds /\
    match r with
    | None => 2 ^ 64 <= dval_from v ds
    | Some (v', plen) => v' = dval_from v ds /\ 0 < v' < 2 ^ 64 /\ plen = Zlen (pre ++ ds) /\
        match rest' with [] => True | c :: _ => ~ is_digit c end
    end.
Proof.
  induction fuel as [|fuel IH]; intros pre rest v Hv Hfuel; [lia|]. cbn [string2ll_loop].
  rewrite length_app. destruct rest as [|c rest].
  { rewrite Nat.add_0_r, Z.ltb_irrefl. exists (Some (v, Zlen pre)), [], [].
    rewrite !app_nil_r. split_and!; done || lia. }
  simpl length. destruct (Z.ltb_spec (Zlen pre) (Z.of_nat (length pre + S (length rest)))); [|lia].
  rewrite rd_app by done. cbn [mbind option_bind]. rewrite Z.geb_leb.
  destruct (decide (is_digit c)) as [Hc|Hc]; unfold is_digit in Hc.
  2: { exists (Some (v, Zlen pre)), [], (c :: rest). rewrite app_nil_r.
       split; [|split_and!; try done; lia].
       destruct (Z.leb_spec 48 c), (Z.leb_spec c 57); simpl; done || lia. }
  destruct (Z.leb_spec 48 c), (Z.leb_spec c 57); try lia. simpl andb. cbv iota.
  rewrite !Z.gtb_ltb. change (UINT64_MAX / 10) with 1844674407370955161.
  destruct (Z.ltb_spec 1844674407370955161 v).
  { exists None, [c], rest. split_and!; try done; [repeat constructor; done|].
    unfold dval_from. simpl. lia. }
  rewrite (wrapu_id 64) by lia. change UINT64_MAX with 18446744073709551615.
  destruct (Z.ltb_spec (18446744073709551615 - (c - 48)) (v * 10)).
  { exists None, [c], rest. split_and!; try done; [repeat constructor; done|].
    unfold dval_from. simpl. lia. }
  rewrite (wrapu_id 64) by lia.
  destruct (IH (pre ++ [c]) rest (v * 10 + (c - 48)) ltac:(lia) ltac:(simpl in Hfuel; lia))
    as (r & ds & rest' & Hl & -> & Hds & Hr).
  exists r, (c :: ds), rest'. split_and!.
  - rewrite <- Hl. rewrite <- !app_assoc. cbn [app]. f_equal; rewrite ?length_app; cbn [length]; rewrite ?length_app; lia.
  - done.
  - by constructor.
  - rewrite <- app_assoc in Hr. exact Hr.
Qed.

(** A string of the form [sign? c ds] with a nonzero first digit [c]. *)
Definition signed_digits (neg : bool) (c : Z) (ds : list Z) : list Z :=
  if neg then 45 :: c :: ds else c :: ds.

Lemma sdec_signed v c ds (neg : bool) : 49 <= c <= 57 -> Forall is_digit ds ->
  (signed_digits neg c ds = sdec v <-> v = (if neg then - dval (c :: ds) else dval (c :: ds))).
Proof.
  intros Hc Hds. pose proof (udec_dval_pos c ds Hc Hds) as HU.
  assert (0 < dval (c :: ds)) as Hpos.
  { change (dval (c :: ds)) with (dval_from (0 * 10 + (c - 48)) ds).
    pose proof (dval_from_ge (0 * 10 + (c - 48)) ds ltac:(lia) Hds). lia. }
  unfold sdec. split.
  - intros E. destruct (Z.ltb_spec v 0); destruct neg; simpl in E.
    + injection E as E. rewrite E, dval_udec; lia.
    + injection E as E1 E2. lia.
    + exfalso. destruct (udec_canonical v ltac:(lia)) as [[Hf _] _]. rewrite <- E in Hf.
      apply Forall_cons in Hf as [Hf _]. unfold is_digit in Hf. lia.
    + rewrite E, dval_udec; lia.
  - intros ->. destruct neg; simpl.
    + destruct (Z.ltb_spec (- dval (c :: ds)) 0); [|lia]. by rewrite Z.opp_involutive, HU.
    + destruct (Z.ltb_spec (dval (c :: ds)) 0); [lia|]. by rewrite HU.
Qed.

(** The shape of canonical decimal strings. *)
Lemma sdec_shape v : sdec v = [48] /\ v = 0 \/
  exists neg c ds, 49 <= c <= 57 /\ Forall is_digit ds /\ sdec v = signed_digits neg c ds.
Proof.
  assert (forall n, 0 < n -> exists c ds, 49 <= c <= 57 /\ Forall is_digit ds /\ udec n = c :: ds) as H.
  { intros n Hn. destruct (udec_canonical n ltac:(lia)) as [[Hf (c & ds & E & _)] Hh].
    specialize (Hh Hn). rewrite E in *. apply Forall_cons in Hf as [Hc Hf]. unfold is_digit in Hc.
    exists c, ds. split_and!; try done; [|lia]. destruct (Z.eq_dec c 48) as [->|]; [done|lia]. }
  unfold sdec. destruct (Z.ltb_spec v 0).
  - right. destruct (H (- v) ltac:(lia)) as (c & ds & ? & ? & ->). by exists true, c, ds.
  - destruct (Z.eq_dec v 0) as [->|]; [by left|right].
    destruct (H v ltac:(lia)) as (c & ds & ? & ? & ->). by exists false, c, ds.
Qed.

(** Whatever follows the sign and a nonzero digit: the loop and the checks after it. *)
Lemma string2ll_tail neg c rest : 49 <= c <= 57 -> let s := signed_digits neg c rest in
  exists r,
    (r ← string2ll_loop (S (Z.to_nat (Zlen s))) s (Zlen s) ((if neg then 1 else 0) + 1) (u64 (c - 48));
     match r with
     | None => Some None
     | Some (v, plen) =>
       if plen <? Zlen s then Some None else
       if neg then
         if v >? u64 (- (INT64_MIN + 1) + 1) then Some None else Some (Some (s64 (u64 (- v))))
       else
         if v >? INT64_MAX then Some None else Some (Some (s64 v))
     end) = Some r /\
    forall v, r = Some v <-> INT64_MIN <= v <= INT64_MAX /\ s = sdec v.
Proof.
  intros Hc s. set (pre := if neg then [45; c] else [c]).
  assert (s = pre ++ rest) as Hs by (subst s pre; by destruct neg).
  assert ((if neg then 1 else 0) + 1 = Zlen pre) as -> by (subst pre; by destruct neg).
  rewrite (wrapu_id 64 (c - 48)) by lia. rewrite Hs.
  destruct (string2ll_loop_spec (S (Z.to_nat (Zlen (pre ++ rest)))) pre rest (c - 48))
    as (r & ds & rest' & -> & -> & Hds & Hr); [lia|rewrite length_app; lia|]. cbn [mbind option_bind].
  assert (forall w, s = sdec w -> Forall is_digit (ds ++ rest') /\
    w = (if neg then - dval (c :: ds ++ rest') else dval (c :: ds ++ rest'))) as Hinv.
  { intros w Hw. assert (Forall is_digit (ds ++ rest')) as Hf; [|split; [done|by apply sdec_signed]].
    unfold s in Hw. destruct (sdec_shape w) as [[E _]|(n & c' & ds' & Hc' & Hds' & E)]; rewrite E in Hw.
    - destruct neg; simplify_eq/=; lia.
    - destruct neg, n; simpl in Hw; try (injection Hw as ? ?; lia); by simplify_eq. }
  assert (dval_from (c - 48) ds = dval (c :: ds)) as Edv.
  { change (dval (c :: ds)) with (dval_from (0 * 10 + (c - 48)) ds). by f_equal. }
  rewrite Edv in Hr.
  assert (forall w, s = sdec w -> 2 ^ 64 <= dval (c :: ds) -> ~ (INT64_MIN <= w <= INT64_MAX)) as Hbig.
  { intros w Hw Hov. destruct (Hinv w Hw) as [Hf ->]. unfold_limits.
    apply Forall_app in Hf as [_ Hf].
    pose proof (dval_from_ge (dval (c :: ds)) rest' ltac:(lia) Hf) as Hge.
    unfold dval in Hge at 2. rewrite <- dval_from_app in Hge.
    change (dval (c :: ds ++ rest')) with (dval_from 0 ((c :: ds) ++ rest')). destruct neg; lia. }
  rewrite <- Hs. destruct r as [[v plen]|].
  2: { exists None. split; [done|]. intros w. split; [done|]. intros [Hw Hsw]. by apply (Hbig w) in Hsw. }
  destruct Hr as (-> & Hv & -> & Hrest). destruct rest' as [|d rest'].
  - assert (s = signed_digits neg c ds) as Es by (subst s; by rewrite app_nil_r).
    rewrite app_nil_r in Hs. rewrite Hs, Z.ltb_irrefl, !Z.gtb_ltb, <- Hs.
    pose proof (fun w => sdec_signed w c ds neg Hc Hds) as Hiff. rewrite <- Es in Hiff.
    clear Hs Es Hinv Hbig. clearbody s.
    change (u64 (- (INT64_MIN + 1) + 1)) with (2 ^ 63). unfold_limits.
    assert (s64 (u64 (- dval (c :: ds))) = - dval (c :: ds) \/ 2 ^ 63 < dval (c :: ds)) as Hneg.
    { destruct (Z.ltb_spec (2 ^ 63) (dval (c :: ds))); [by right|left]. apply (wraps_wrapu 64); simpl; lia. }
    set (D := dval (c :: ds)) in *. destruct neg.
    + destruct (Z.ltb_spec (2 ^ 63) D); [exists None|exists (Some (- D))].
      * split; [done|]. intros w. rewrite Hiff. split; [done|]. lia.
      * split; [do 2 f_equal; lia|]. intros w. rewrite Hiff. split; [intros [= <-]; lia|].
        intros [? ->]. done.
    + destruct (Z.ltb_spec (2 ^ 63 - 1) D); [exists None|exists (Some D)].
      * split; [done|]. intros w. rewrite Hiff. split; [done|]. lia.
      * split; [do 2 f_equal; apply wraps_id; simpl; lia|]. intros w. rewrite Hiff.
        split; [intros [= <-]; lia|]. intros [? ->]. done.
  - destruct (Z.ltb_spec (Zlen (pre ++ ds)) (Zlen s)).
    + exists None. split; [done|]. intros w. split; [done|]. intros [_ Hsw].
      destruct (Hinv w Hsw) as [[_ [Hd _]%Forall_cons]%Forall_app _]. done.
    + exfalso. rewrite Hs in *. rewrite !length_app in *. simpl length in *. lia.
Qed.

Lemma string2ll_signed neg c rest : 49 <= c <= 57 -> let s := signed_digits neg c rest in
  exists r, string2ll s (Zlen s) = Some r /\
    forall v, r = Some v <-> INT64_MIN <= v <= INT64_MAX /\ s = sdec v.
Proof.
  intros Hc s. destruct (string2ll_tail neg c rest Hc) as (r & Hr & Hiff).
  exists r. subst s. split; [|done]. rewrite <- Hr. unfold string2ll.
  destruct neg; simpl signed_digits.
  + destruct (Z.eqb_spec 0 (Zlen (45 :: c :: rest))); [done|].
    change (rd (45 :: c :: rest) 0) with (Some 45). cbn [mbind option_bind].
    change (45 =? 48) with false. change (45 =? 45) with true. rewrite andb_false_r. cbv iota.
    destruct (Z.eqb_spec 1 (Zlen (45 :: c :: rest))); [simpl length in *; lia|]. simpl andb. cbv iota.
    change (rd (45 :: c :: rest) 1) with (Some c). cbn [mbind option_bind]. rewrite Z.geb_leb.
    destruct (Z.leb_spec 49 c), (Z.leb_spec c 57); try lia. done.
  + destruct (Z.eqb_spec 0 (Zlen (c :: rest))); [done|].
    change (rd (c :: rest) 0) with (Some c). cbn [mbind option_bind].
    destruct (Z.eqb_spec c 48); [lia|]. rewrite andb_false_r.
    destruct (Z.eqb_spec c 45); [lia|]. simpl andb. cbv iota.
    change (rd (c :: rest) 0) with (Some c). cbn [mbind option_bind]. rewrite Z.geb_leb.
    by destruct (Z.leb_spec 49 c), (Z.leb_spec c 57); try lia.
Qed.

Lemma string2ll_spec s : exists r, string2ll s (Zlen s) = Some r /\
  forall v, r = Some v <-> INT64_MIN <= v <= INT64_MAX /\ s = sdec v.
Proof.
  assert (forall (P : Prop), (s = [48] -> P) ->
    (forall neg c rest, 49 <= c <= 57 -> s = signed_digits neg c rest -> P) ->
    (string2ll s (Zlen s) = Some None -> P) -> P) as Hcases.
  { intros P H0 H1 H2. destruct s as [|c0 s]; [by apply H2|].
    unfold string2ll in H2. change (rd (c0 :: s) 0) with (Some c0) in H2.
    destruct (Z.eqb_spec 0 (Zlen (c0 :: s))); [done|]. cbn [mbind option_bind] in H2.
    destruct (decide (c0 = 48)) as [->|H48].
    { destruct s as [|c1 s]; [by apply H0|]. apply H2.
      destruct (Z.eqb_spec (Zlen (48 :: c1 :: s)) 1); [simpl length in *; lia|done]. }
    destruct (Z.eqb_spec c0 48); [done|]. rewrite andb_false_r in H2.
    destruct (Z.eqb_spec c0 45) as [->|H45].
    - destruct s as [|c1 s]; [by apply H2|].
      change (rd (45 :: c1 :: s) 1) with (Some c1) in H2. cbn [mbind option_bind andb] in H2.
      destruct (Z.eqb_spec 1 (Zlen (45 :: c1 :: s))); [simpl length in *; lia|].
      destruct (decide (49 <= c1 <= 57)) as [Hc|Hc]; [by eapply (H1 true)|].
      apply H2. rewrite Z.geb_leb.
      destruct (Z.leb_spec 49 c1), (Z.leb_spec c1 57); try lia; cbn [andb].
      all: destruct (Z.eqb_spec (Zlen (45 :: c1 :: s)) 1); [simpl length in *; lia|].
      all: by rewrite andb_false_r.
    - simpl andb in H2. cbv iota in H2. change (rd (c0 :: s) 0) with (Some c0) in H2.
      cbn [mbind option_bind] in H2. destruct (decide (49 <= c0 <= 57)) as [Hc|Hc]; [by eapply (H1 false)|].
      apply H2. rewrite Z.geb_leb.
      destruct (Z.leb_spec 49 c0), (Z.leb_spec c0 57); try lia; simpl andb; cbv iota.
      all: destruct (Z.eqb_spec c0 48); done. }
  apply Hcases; clear Hcases.
  - intros ->. exists (Some 0). split; [done|]. intros w. split; [by intros [= <-]|].
    intros [_ E]. destruct (sdec_shape w) as [[_ ->]|(n & c & ds & Hc & _ & E')]; [done|].
    rewrite E' in E. destruct n; simpl in E; [done|]. injection E as ? ?. lia.
  - intros neg c rest Hc ->. by apply string2ll_signed.
  - intros Hn. exists None. split; [done|]. intros w. split; [done|]. intros [Hw E].
    destruct (sdec_shape w) as [[E' _]|(n & c & ds & Hc & _ & E')]; rewrite E' in E; subst s; [done|].
    destruct (string2ll_signed n c ds Hc) as (r & Hr & Hiff). rewrite Hr in Hn. injection Hn as ->.
    by apply Hiff.
Qed.

(** ** [memtoll] *)

(** A NUL-terminated string without NUL bytes: its characters, then 0. *)
Definition rdz (p : list Z) (i : Z) : option Z :=
  if i =? Zlen p then Some 0 else rd p i.

Definition isdigit (c : Z) : bool := (48 <=? c) && (c <=? 57).
Definition tolower (c : Z) : Z := if (65 <=? c) && (c <=? 90) then c + 32 else c.

Definition strcaseeq (s t : list Z) : bool := bool_decide (tolower <$> s = tolower <$> t).

(** The loop that skips the digits. *)
Fixpoint skip_digits (s : list Z) : list Z :=
  match s with
  | c :: s' => if negb (c =? 0) && isdigit c then skip_digits s' else s
  | [] => []
  end.

Definition clamp64 (v : Z) : Z := Z.max INT64_MIN (Z.min INT64_MAX v).

(** A leading '-', and what follows it. *)
Definition split_minus (p : list Z) : bool * list Z :=
  match p with c :: p' => if c =? 45 then (true, p') else (false, p) | [] => (false, []) end.

(** [strtoll(buf,&endptr,10)] on an optional '-' followed by digits only: the
    value (saturated) and whether [*endptr] is the terminator. With no digit it
    returns 0 with [endptr = buf]. *)
Definition strtoll_digits (buf : list Z) : Z * bool :=
  let '(neg, ds) := split_minus buf in
  match ds with
  | [] => (0, negb neg)
  | _ => (clamp64 (if neg then - dval ds else dval ds), true)
  end.

Section Memtoll.
(** Whether the C library sets [errno] to [EINVAL] when no digit was found:
    both behaviours are allowed. *)
Variable einval : bool.

Definition memtoll_unit (u : list Z) : option Z :=
  if bool_decide (u = []) || strcaseeq u [98] then Some 1
  else if strcaseeq u [107] then Some 1000
  else if strcaseeq u [107; 98] then Some 1024
  else if strcaseeq u [109] then Some (1000 * 1000)
  else if strcaseeq u [109; 98] then Some (1024 * 1024)
  else if strcaseeq u [103] then Some (1000 * 1000 * 1000)
  else if strcaseeq u [103; 98] then Some (1024 * 1024 * 1024)
  else None.

(** [Some None] is [*err = 1]; the product is a signed multiplication. *)
Definition memtoll (p : list Z) : option (option Z) :=
  let u := skip_digits (split_minus p).2 in
  match memtoll_unit u with
  | None => Some None
  | Some mul =>
    let digits := Zlen p - Zlen u in
    if digits >=? 128 then Some None else
    let '(val, at_end) := strtoll_digits (take (Z.to_nat digits) p) in
    if ((val =? 0) && einval && bool_decide (take (Z.to_nat digits) p = [])) || negb at_end
    then Some None
    else v ← i64 (val * mul); Some (Some v)
  end.
End Memtoll.

Lemma skip_digits_app ds u : Forall is_digit ds ->
  match u with [] => True | c :: _ => ~ is_digit c end -> skip_digits (ds ++ u) = u.
Proof.
  intros Hf Hu. induction Hf as [|c ds Hc _ IH]; simpl.
  - destruct u as [|c u]; [done|]. simpl. unfold isdigit, is_digit in *.
    destruct (Z.eqb_spec c 0), (Z.leb_spec 48 c), (Z.leb_spec c 57); simpl; done || lia.
  - unfold isdigit, is_digit in *.
    destruct (Z.eqb_spec c 0), (Z.leb_spec 48 c), (Z.leb_spec c 57); simpl; done || lia.
Qed.

(** The units [memtoll] documents, as a table of their own: a prefix letter in
    either case for the power (k, m, g), decimal when it stands alone and
    binary when a b follows. *)
Definition letter (d c : Z) : Prop := c = d \/ c = d - 32.

Inductive unit_prefix : Z -> Z -> Prop :=
  | prefix_k : unit_prefix 107 1
  | prefix_m : unit_prefix 109 2
  | prefix_g : unit_prefix 103 3.

Inductive unit_factor : list Z -> Z -> Prop :=
  | unit_none : unit_factor [] 1
  | unit_byte b : letter 98 b -> unit_factor [b] 1
  | unit_decimal d n c : unit_prefix d n -> letter d c -> unit_factor [c] (1000 ^ n)
  | unit_binary d n c b : unit_prefix d n -> letter d c -> letter 98 b ->
      unit_factor [c; b] (1024 ^ n).

Lemma tolower_letter d c : 97 <= d <= 122 -> (tolower c = d <-> letter d c).
Proof.
  intros Hd. unfold tolower, letter.
  destruct (Z.leb_spec 65 c), (Z.leb_spec c 90); simpl; lia.
Qed.

Lemma strcaseeq_1 u d : 97 <= d <= 122 -> (strcaseeq u [d] = true <-> exists c, u = [c] /\ letter d c).
Proof.
  intros Hd. unfold strcaseeq. rewrite bool_decide_eq_true. simpl.
  assert (tolower d = d) as -> by (apply tolower_letter; [done|by left]). split.
  - destruct u as [|c [|? ?]]; try done. intros [= E]. exists c. split; [done|]. by apply tolower_letter.
  - intros (c & -> & Hc). simpl. f_equal. by apply tolower_letter.
Qed.

Lemma strcaseeq_2 u d e : 97 <= d <= 122 -> 97 <= e <= 122 ->
  (strcaseeq u [d; e] = true <-> exists c b, u = [c; b] /\ letter d c /\ letter e b).
Proof.
  intros Hd He. unfold strcaseeq. rewrite bool_decide_eq_true. simpl.
  assert (tolower d = d) as -> by (apply tolower_letter; [done|by left]).
  assert (tolower e = e) as -> by (apply tolower_letter; [done|by left]). split.
  - destruct u as [|c [|b [|? ?]]]; try done. intros [= E1 E2]. exists c, b.
    split; [done|]. by split; apply tolower_letter.
  - intros (c & b & -> & Hc & Hb). simpl. f_equal; [|f_equal]; by apply tolower_letter.
Qed.

(** The chain of comparisons of the code decides that table. *)
Lemma memtoll_unit_factor u mul : memtoll_unit u = Some mul <-> unit_factor u mul.
Proof.
  unfold memtoll_unit. split.
  - destruct (bool_decide_reflect (u = [])) as [->|_]; [intros [= <-]; constructor|]. simpl orb.
    destruct (strcaseeq u [98]) eqn:E; [apply strcaseeq_1 in E as (c & -> & ?); [|lia];
      intros [= <-]; by constructor|clear E].
    destruct (strcaseeq u [107]) eqn:E; [apply strcaseeq_1 in E as (c & -> & ?); [|lia];
      intros [= <-]; by apply (unit_decimal 107 1); [constructor|]|clear E].
    destruct (strcaseeq u [107; 98]) eqn:E; [apply strcaseeq_2 in E as (c & b & -> & ? & ?); [|lia..];
      intros [= <-]; by apply (unit_binary 107 1); [constructor|..]|clear E].
    destruct (strcaseeq u [109]) eqn:E; [apply strcaseeq_1 in E as (c & -> & ?); [|lia];
      intros [= <-]; by apply (unit_decimal 109 2); [constructor|]|clear E].
    destruct (strcaseeq u [109; 98]) eqn:E; [apply strcaseeq_2 in E as (c & b & -> & ? & ?); [|lia..];
      intros [= <-]; by apply (unit_binary 109 2); [constructor|..]|clear E].
    destruct (strcaseeq u [103]) eqn:E; [apply strcaseeq_1 in E as (c & -> & ?); [|lia];
      intros [= <-]; by apply (unit_decimal 103 3); [constructor|]|clear E].
    destruct (strcaseeq u [103; 98]) eqn:E; [|done].
    apply strcaseeq_2 in E as (c & b & -> & ? & ?); [|lia..].
    intros [= <-]; by apply (unit_binary 103 3); [constructor|..].
  - intros [|b [-> | ->]|d n c [] [-> | ->]|d n c b [] [-> | ->] [-> | ->]]; reflexivity.
Qed.

Definition no_digit_first (u : list Z) : Prop :=
  match u with [] => True | c :: _ => ~ is_digit c end.

Lemma unit_factor_head u mul : unit_factor u mul -> no_digit_first u.
Proof.
  unfold no_digit_first, is_digit.
  intros [|b Hb|d n c [] Hc|d n c b [] Hc Hb]; unfold letter in *; done || lia.
Qed.

Lemma split_minus_signed neg c ds u : 49 <= c <= 57 ->
  split_minus (signed_digits neg c ds ++ u) = (neg, (c :: ds) ++ u).
Proof.
  intros Hc. destruct neg; [done|]. simpl. destruct (Z.eqb_spec c 45); [lia|done].
Qed.

Lemma strtoll_sdec v : INT64_MIN <= v <= INT64_MAX -> strtoll_digits (sdec v) = (v, true).
Proof.
  unfold_limits. intros Hv. unfold strtoll_digits.
  destruct (sdec_shape v) as [[-> ->]|(neg & c & ds & Hc & Hds & E)]; [done|].
  pose proof (proj1 (sdec_signed v c ds neg Hc Hds) (eq_sym E)) as Ev.
  pose proof (split_minus_signed neg c ds [] Hc) as Hs. rewrite !app_nil_r in Hs.
  rewrite E, Hs. f_equal. rewrite <- Ev. unfold clamp64. unfold_limits. lia.
Qed.

Lemma memtoll_skip v u : no_digit_first u -> skip_digits (split_minus (sdec v ++ u)).2 = u.
Proof.
  intros Hh. destruct (sdec_shape v) as [[-> ->]|(neg & c & ds & Hc & Hds & ->)].
  - by apply (skip_digits_app [48]); [repeat constructor|].
  - rewrite split_minus_signed by done.
    apply (skip_digits_app (c :: ds)); [constructor; [unfold is_digit; lia|done]|done].
Qed.

Lemma memtoll_spec einval v u : INT64_MIN <= v <= INT64_MAX -> no_digit_first u ->
  memtoll einval (sdec v ++ u) =
    match memtoll_unit u with Some mul => w ← i64 (v * mul); Some (Some w) | None => Some None end.
Proof.
  intros Hv Hu. pose proof (sdec_length v Hv) as Hlen. unfold memtoll. rewrite memtoll_skip by done.
  destruct (memtoll_unit u) as [mul|]; [|done].
  replace (Zlen (sdec v ++ u) - Zlen u) with (Zlen (sdec v)) by (rewrite length_app; lia).
  rewrite Z.geb_leb. destruct (Z.leb_spec 128 (Zlen (sdec v))); [lia|].
  rewrite Nat2Z.id, take_app_length, strtoll_sdec by done.
  rewrite bool_decide_eq_false_2 by (intros E; rewrite E in Hlen; simpl in Hlen; lia).
  by rewrite andb_false_r.
Qed.

(** ** What the conversions promise *)

(** C26. [ll2string] formats every [long long], [LLONG_MIN] included, as its
    canonical decimal string followed by a NUL, returns its length, touches no
    other byte, and returns 0 with the buffer unchanged when [dstlen] does not
    leave room for the string and its terminator. *)
Theorem ll2string_correct v dst dstlen : INT64_MIN <= v <= INT64_MAX -> 0 <= dstlen <= blen dst ->
  ll2string dst dstlen v =
    if Zlen (sdec v) >=? dstlen then Some (dst, 0)
    else Some ((Some <$> sdec v) ++ Some 0 :: drop (S (length (sdec v))) dst, Zlen (sdec v)).
Proof. apply ll2string_spec. Qed.

Lemma ll2string_correct_witness :
  ll2string (malloc 21) 21 (- 2 ^ 63) = Some ((Some <$> sdec (- 2 ^ 63)) ++ [Some 0], 20).
Proof.
  rewrite (ll2string_correct (- 2 ^ 63) (malloc 21) 21) by (vm_compute; intuition congruence).
  vm_compute. reflexivity.
Defined.

(** C18. [string2ll] never reads outside its input and accepts exactly the
    canonical decimal strings of the 64 bit integers, with the value they
    denote: no sign other than '-', no leading zero, no trailing byte, no
    overflow.  Its two overflow tests and the range test are exact. *)
Theorem string2ll_exact s : exists r, string2ll s (Zlen s) = Some r /\
  forall v, r = Some v <-> INT64_MIN <= v <= INT64_MAX /\ s = sdec v.
Proof. apply string2ll_spec. Qed.

(** C27. Printing then parsing is the identity on [long long]: whatever
    [ll2string] wrote into a buffer it accepted is parsed back to the value by
    [string2ll], and [sdigits10] is the length that was written. *)
Theorem ll2string_string2ll v dst dstlen dst' n : INT64_MIN <= v <= INT64_MAX ->
  0 <= dstlen <= blen dst -> ll2string dst dstlen v = Some (dst', n) -> 0 < n ->
  exists s, load dst' 0 n = Some s /\ string2ll s n = Some (Some v) /\ sdigits10 v = n.
Proof.
  intros Hv Hd Hl Hn. rewrite ll2string_spec in Hl by done. revert Hl.
  rewrite Z.geb_leb. destruct (Z.leb_spec dstlen (Zlen (sdec v))) as [|_]; intros [= <- <-]; [lia|].
  exists (sdec v). split_and!.
  - apply (load_app [] _ (sdec v)); done.
  - destruct (string2ll_spec (sdec v)) as (r & -> & Hr). f_equal. by apply Hr.
  - unfold sdigits10, sdec. unfold_limits. destruct (Z.ltb_spec v 0).
    + rewrite magnitude_abs, digits10_udec by (unfold_limits; lia). simpl length. lia.
    + apply digits10_udec. lia.
Qed.

Lemma ll2string_string2ll_witness : exists s,
  load ((Some <$> [45; 49; 48; 50; 52]) ++ [Some 0; None]) 0 5 = Some s /\
  string2ll s 5 = Some (Some (-1024)) /\ sdigits10 (-1024) = 5.
Proof.
  apply (ll2string_string2ll (-1024) (malloc 7) 7); [done|done|vm_compute; reflexivity|lia].
Defined.

(** C28. [memtoll] on a 64 bit number followed by a unit of the table (b, k,
    kb, m, mb, g, gb in any case, or none) is the number times the factor the
    table gives, decimal for k, m, g and binary for kb, mb, gb; when that
    product does not fit a [long long] the multiplication overflows, which is
    undefined.  Any other text behind the number is reported through [*err]. *)
Theorem memtoll_correct einval v u : INT64_MIN <= v <= INT64_MAX ->
  (forall mul, unit_factor u mul ->
     memtoll einval (sdec v ++ u) =
       if (INT64_MIN <=? v * mul) && (v * mul <=? INT64_MAX) then Some (Some (v * mul)) else None) /\
  (0 ∉ u -> no_digit_first u -> (forall mul, ~ unit_factor u mul) ->
     memtoll einval (sdec v ++ u) = Some None).
Proof.
  intros Hv. split.
  - intros mul Hu. rewrite memtoll_spec by (done || by eapply unit_factor_head).
    apply memtoll_unit_factor in Hu as ->. unfold i64. by destruct (_ && _).
  - intros _ Hh Hn. rewrite memtoll_spec by done.
    destruct (memtoll_unit u) as [mul|] eqn:E; [|done]. by apply memtoll_unit_factor, Hn in E.
Qed.

(** "1Gb", "999999999999GB", "-3k" and "5kx". *)
Lemma memtoll_correct_witness :
  memtoll false [49; 71; 98] = Some (Some 1073741824) /\
  memtoll false ([57;57;57;57;57;57;57;57;57;57;57;57] ++ [71; 66]) = None /\
  memtoll true [45; 51; 107] = Some (Some (-3000)) /\
  memtoll false [53; 107; 120] = Some None.
Proof.
  split_and!.
  - refine (proj1 (memtoll_correct false 1 [71; 98] _) (1024 ^ 3) _); [done|].
    apply (unit_binary 103 3); [constructor|by right|by left].
  - refine (proj1 (memtoll_correct false 999999999999 [71; 66] _) (1024 ^ 3) _); [done|].
    apply (unit_binary 103 3); [constructor|by right|by right].
  - refine (proj1 (memtoll_correct true (-3) [107] _) (1000 ^ 1) _); [done|].
    apply (unit_decimal 107 1); [constructor|by left].
  - refine (proj2 (memtoll_correct false 5 [107; 120] _) _ _ _).
    + done.
    + set_solver.
    + by intros [_ ?].
    + intros mul H. inversion H as [| | |d n c b Hp Hc [?|?]]; lia.
Defined.
