(* ===== verification/Crc.v ===== *)
(** The checksums: [crc16.c] (keys to cluster slots), [crc64.c] (RDB files and
    DUMP payloads), and [keyHashSlot] of [cluster.c].

    Both routines are table driven; the references below are the bit-serial
    definitions their header comments name (CRC-16/XMODEM, polynomial 0x1021;
    CRC-64/Jones, polynomial 0xad93d23594c935a9, reflected). *)

From S2P Require Import Prelude.

Module Crc16.

Definition crc16tab : list Z :=
  [0x0000; 0x1021; 0x2042; 0x3063; 0x4084; 0x50a5; 0x60c6; 0x70e7;
   0x8108; 0x9129; 0xa14a; 0xb16b; 0xc18c; 0xd1ad; 0xe1ce; 0xf1ef;
   0x1231; 0x0210; 0x3273; 0x2252; 0x52b5; 0x4294; 0x72f7; 0x62d6;
   0x9339; 0x8318; 0xb37b; 0xa35a; 0xd3bd; 0xc39c; 0xf3ff; 0xe3de;
   0x2462; 0x3443; 0x0420; 0x1401; 0x64e6; 0x74c7; 0x44a4; 0x5485;
   0xa56a; 0xb54b; 0x8528; 0x9509; 0xe5ee; 0xf5cf; 0xc5ac; 0xd58d;
   0x3653; 0x2672; 0x1611; 0x0630; 0x76d7; 0x66f6; 0x5695; 0x46b4;
   0xb75b; 0xa77a; 0x9719; 0x8738; 0xf7df; 0xe7fe; 0xd79d; 0xc7bc;
   0x48c4; 0x58e5; 0x6886; 0x78a7; 0x0840; 0x1861; 0x2802; 0x3823;
   0xc9cc; 0xd9ed; 0xe98e; 0xf9af; 0x8948; 0x9969; 0xa90a; 0xb92b;
   0x5af5; 0x4ad4; 0x7ab7; 0x6a96; 0x1a71; 0x0a50; 0x3a33; 0x2a12;
   0xdbfd; 0xcbdc; 0xfbbf; 0xeb9e; 0x9b79; 0x8b58; 0xbb3b; 0xab1a;
   0x6ca6; 0x7c87; 0x4ce4; 0x5cc5; 0x2c22; 0x3c03; 0x0c60; 0x1c41;
   0xedae; 0xfd8f; 0xcdec; 0xddcd; 0xad2a; 0xbd0b; 0x8d68; 0x9d49;
   0x7e97; 0x6eb6; 0x5ed5; 0x4ef4; 0x3e13; 0x2e32; 0x1e51; 0x0e70;
   0xff9f; 0xefbe; 0xdfdd; 0xcffc; 0xbf1b; 0xaf3a; 0x9f59; 0x8f78;
   0x9188; 0x81a9; 0xb1ca; 0xa1eb; 0xd10c; 0xc12d; 0xf14e; 0xe16f;
   0x1080; 0x00a1; 0x30c2; 0x20e3; 0x5004; 0x4025; 0x7046; 0x6067;
   0x83b9; 0x9398; 0xa3fb; 0xb3da; 0xc33d; 0xd31c; 0xe37f; 0xf35e;
   0x02b1; 0x1290; 0x22f3; 0x32d2; 0x4235; 0x5214; 0x6277; 0x7256;
   0xb5ea; 0xa5cb; 0x95a8; 0x8589; 0xf56e; 0xe54f; 0xd52c; 0xc50d;
   0x34e2; 0x24c3; 0x14a0; 0x0481; 0x7466; 0x6447; 0x5424; 0x4405;
   0xa7db; 0xb7fa; 0x8799; 0x97b8; 0xe75f; 0xf77e; 0xc71d; 0xd73c;
   0x26d3; 0x36f2; 0x0691; 0x16b0; 0x6657; 0x7676; 0x4615; 0x5634;
   0xd94c; 0xc96d; 0xf90e; 0xe92f; 0x99c8; 0x89e9; 0xb98a; 0xa9ab;
   0x5844; 0x4865; 0x7806; 0x6827; 0x18c0; 0x08e1; 0x3882; 0x28a3;
   0xcb7d; 0xdb5c; 0xeb3f; 0xfb1e; 0x8bf9; 0x9bd8; 0xabbb; 0xbb9a;
   0x4a75; 0x5a54; 0x6a37; 0x7a16; 0x0af1; 0x1ad0; 0x2ab3; 0x3a92;
   0xfd2e; 0xed0f; 0xdd6c; 0xcd4d; 0xbdaa; 0xad8b; 0x9de8; 0x8dc9;
   0x7c26; 0x6c07; 0x5c64; 0x4c45; 0x3ca2; 0x2c83; 0x1ce0; 0x0cc1;
   0xef1f; 0xff3e; 0xcf5d; 0xdf7c; 0xaf9b; 0xbfba; 0x8fd9; 0x9ff8;
   0x6e17; 0x7e36; 0x4e55; 0x5e74; 0x2e93; 0x3eb2; 0x0ed1; 0x1ef0].

(** [for (counter = 0; counter < len; counter++)], from offset [counter]. *)
Fixpoint crc16_loop (n : nat) (buf : list Z) (counter crc : Z) : option Z :=
  match n with
  | O => Some crc
  | S n =>
    b ← rd buf counter;
    t ← rd crc16tab (Z.land (Z.lxor (Z.shiftr crc 8) b) 0x00FF);
    crc16_loop n buf (counter + 1) (u16 (Z.lxor (Z.shiftl crc 8) t))
  end.

Definition crc16 (buf : list Z) (len : Z) : option Z := crc16_loop (Z.to_nat len) buf 0 0.

End Crc16.

Module Crc64.

Definition crc64_tab : list Z :=
  [0x0000000000000000; 0x7ad870c830358979; 0xf5b0e190606b12f2; 0x8f689158505e9b8b;
   0xc038e5739841b68f; 0xbae095bba8743ff6; 0x358804e3f82aa47d; 0x4f50742bc81f2d04;
   0xab28ecb46814fe75; 0xd1f09c7c5821770c; 0x5e980d24087fec87; 0x24407dec384a65fe;
   0x6b1009c7f05548fa; 0x11c8790fc060c183; 0x9ea0e857903e5a08; 0xe478989fa00bd371;
   0x7d08ff3b88be6f81; 0x07d08ff3b88be6f8; 0x88b81eabe8d57d73; 0xf2606e63d8e0f40a;
   0xbd301a4810ffd90e; 0xc7e86a8020ca5077; 0x4880fbd87094cbfc; 0x32588b1040a14285;
   0xd620138fe0aa91f4; 0xacf86347d09f188d; 0x2390f21f80c18306; 0x594882d7b0f40a7f;
   0x1618f6fc78eb277b; 0x6cc0863448deae02; 0xe3a8176c18803589; 0x997067a428b5bcf0;
   0xfa11fe77117cdf02; 0x80c98ebf2149567b; 0x0fa11fe77117cdf0; 0x75796f2f41224489;
   0x3a291b04893d698d; 0x40f16bccb908e0f4; 0xcf99fa94e9567b7f; 0xb5418a5cd963f206;
   0x513912c379682177; 0x2be1620b495da80e; 0xa489f35319033385; 0xde51839b2936bafc;
   0x9101f7b0e12997f8; 0xebd98778d11c1e81; 0x64b116208142850a; 0x1e6966e8b1770c73;
   0x8719014c99c2b083; 0xfdc17184a9f739fa; 0x72a9e0dcf9a9a271; 0x08719014c99c2b08;
   0x4721e43f0183060c; 0x3df994f731b68f75; 0xb29105af61e814fe; 0xc849756751dd9d87;
   0x2c31edf8f1d64ef6; 0x56e99d30c1e3c78f; 0xd9810c6891bd5c04; 0xa3597ca0a188d57d;
   0xec09088b6997f879; 0x96d1784359a27100; 0x19b9e91b09fcea8b; 0x636199d339c963f2;
   0xdf7adabd7a6e2d6f; 0xa5a2aa754a5ba416; 0x2aca3b2d1a053f9d; 0x50124be52a30b6e4;
   0x1f423fcee22f9be0; 0x659a4f06d21a1299; 0xeaf2de5e82448912; 0x902aae96b271006b;
   0x74523609127ad31a; 0x0e8a46c1224f5a63; 0x81e2d7997211c1e8; 0xfb3aa75142244891;
   0xb46ad37a8a3b6595; 0xceb2a3b2ba0eecec; 0x41da32eaea507767; 0x3b024222da65fe1e;
   0xa2722586f2d042ee; 0xd8aa554ec2e5cb97; 0x57c2c41692bb501c; 0x2d1ab4dea28ed965;
   0x624ac0f56a91f461; 0x1892b03d5aa47d18; 0x97fa21650afae693; 0xed2251ad3acf6fea;
   0x095ac9329ac4bc9b; 0x7382b9faaaf135e2; 0xfcea28a2faafae69; 0x8632586aca9a2710;
   0xc9622c4102850a14; 0xb3ba5c8932b0836d; 0x3cd2cdd162ee18e6; 0x460abd1952db919f;
   0x256b24ca6b12f26d; 0x5fb354025b277b14; 0xd0dbc55a0b79e09f; 0xaa03b5923b4c69e6;
   0xe553c1b9f35344e2; 0x9f8bb171c366cd9b; 0x10e3202993385610; 0x6a3b50e1a30ddf69;
   0x8e43c87e03060c18; 0xf49bb8b633338561; 0x7bf329ee636d1eea; 0x012b592653589793;
   0x4e7b2d0d9b47ba97; 0x34a35dc5ab7233ee; 0xbbcbcc9dfb2ca865; 0xc113bc55cb19211c;
   0x5863dbf1e3ac9dec; 0x22bbab39d3991495; 0xadd33a6183c78f1e; 0xd70b4aa9b3f20667;
   0x985b3e827bed2b63; 0xe2834e4a4bd8a21a; 0x6debdf121b863991; 0x1733afda2bb3b0e8;
   0xf34b37458bb86399; 0x8993478dbb8deae0; 0x06fbd6d5ebd3716b; 0x7c23a61ddbe6f812;
   0x3373d23613f9d516; 0x49aba2fe23cc5c6f; 0xc6c333a67392c7e4; 0xbc1b436e43a74e9d;
   0x95ac9329ac4bc9b5; 0xef74e3e19c7e40cc; 0x601c72b9cc20db47; 0x1ac40271fc15523e;
   0x5594765a340a7f3a; 0x2f4c0692043ff643; 0xa02497ca54616dc8; 0xdafce7026454e4b1;
   0x3e847f9dc45f37c0; 0x445c0f55f46abeb9; 0xcb349e0da4342532; 0xb1eceec59401ac4b;
   0xfebc9aee5c1e814f; 0x8464ea266c2b0836; 0x0b0c7b7e3c7593bd; 0x71d40bb60c401ac4;
   0xe8a46c1224f5a634; 0x927c1cda14c02f4d; 0x1d148d82449eb4c6; 0x67ccfd4a74ab3dbf;
   0x289c8961bcb410bb; 0x5244f9a98c8199c2; 0xdd2c68f1dcdf0249; 0xa7f41839ecea8b30;
   0x438c80a64ce15841; 0x3954f06e7cd4d138; 0xb63c61362c8a4ab3; 0xcce411fe1cbfc3ca;
   0x83b465d5d4a0eece; 0xf96c151de49567b7; 0x76048445b4cbfc3c; 0x0cdcf48d84fe7545;
   0x6fbd6d5ebd3716b7; 0x15651d968d029fce; 0x9a0d8ccedd5c0445; 0xe0d5fc06ed698d3c;
   0xaf85882d2576a038; 0xd55df8e515432941; 0x5a3569bd451db2ca; 0x20ed197575283bb3;
   0xc49581ead523e8c2; 0xbe4df122e51661bb; 0x3125607ab548fa30; 0x4bfd10b2857d7349;
   0x04ad64994d625e4d; 0x7e7514517d57d734; 0xf11d85092d094cbf; 0x8bc5f5c11d3cc5c6;
   0x12b5926535897936; 0x686de2ad05bcf04f; 0xe70573f555e26bc4; 0x9ddd033d65d7e2bd;
   0xd28d7716adc8cfb9; 0xa85507de9dfd46c0; 0x273d9686cda3dd4b; 0x5de5e64efd965432;
   0xb99d7ed15d9d8743; 0xc3450e196da80e3a; 0x4c2d9f413df695b1; 0x36f5ef890dc31cc8;
   0x79a59ba2c5dc31cc; 0x037deb6af5e9b8b5; 0x8c157a32a5b7233e; 0xf6cd0afa9582aa47;
   0x4ad64994d625e4da; 0x300e395ce6106da3; 0xbf66a804b64ef628; 0xc5bed8cc867b7f51;
   0x8aeeace74e645255; 0xf036dc2f7e51db2c; 0x7f5e4d772e0f40a7; 0x05863dbf1e3ac9de;
   0xe1fea520be311aaf; 0x9b26d5e88e0493d6; 0x144e44b0de5a085d; 0x6e963478ee6f8124;
   0x21c640532670ac20; 0x5b1e309b16452559; 0xd476a1c3461bbed2; 0xaeaed10b762e37ab;
   0x37deb6af5e9b8b5b; 0x4d06c6676eae0222; 0xc26e573f3ef099a9; 0xb8b627f70ec510d0;
   0xf7e653dcc6da3dd4; 0x8d3e2314f6efb4ad; 0x0256b24ca6b12f26; 0x788ec2849684a65f;
   0x9cf65a1b368f752e; 0xe62e2ad306bafc57; 0x6946bb8b56e467dc; 0x139ecb4366d1eea5;
   0x5ccebf68aecec3a1; 0x2616cfa09efb4ad8; 0xa97e5ef8cea5d153; 0xd3a62e30fe90582a;
   0xb0c7b7e3c7593bd8; 0xca1fc72bf76cb2a1; 0x45775673a732292a; 0x3faf26bb9707a053;
   0x70ff52905f188d57; 0x0a2722586f2d042e; 0x854fb3003f739fa5; 0xff97c3c80f4616dc;
   0x1bef5b57af4dc5ad; 0x61372b9f9f784cd4; 0xee5fbac7cf26d75f; 0x9487ca0fff135e26;
   0xdbd7be24370c7322; 0xa10fceec0739fa5b; 0x2e675fb4576761d0; 0x54bf2f7c6752e8a9;
   0xcdcf48d84fe75459; 0xb71738107fd2dd20; 0x387fa9482f8c46ab; 0x42a7d9801fb9cfd2;
   0x0df7adabd7a6e2d6; 0x772fdd63e7936baf; 0xf8474c3bb7cdf024; 0x829f3cf387f8795d;
   0x66e7a46c27f3aa2c; 0x1c3fd4a417c62355; 0x935745fc4798b8de; 0xe98f353477ad31a7;
   0xa6df411fbfb21ca3; 0xdc0731d78f8795da; 0x536fa08fdfd90e51; 0x29b7d047efec8728].

Fixpoint crc64_loop (n : nat) (s : list Z) (j crc : Z) : option Z :=
  match n with
  | O => Some crc
  | S n =>
    byte ← rd s j;
    t ← rd crc64_tab (Z.lxor (u8 crc) byte);
    crc64_loop n s (j + 1) (Z.lxor t (Z.shiftr crc 8))
  end.

Definition crc64 (crc : Z) (s : list Z) (l : Z) : option Z := crc64_loop (Z.to_nat l) s 0 crc.

End Crc64.

(** ** Cluster slots *)

Module Slot.

(** [for (i = ...; i < keylen; i++) if (key[i] == c) break;] *)
Fixpoint scan_char (fuel : nat) (key : list Z) (keylen c i : Z) : option Z :=
  match fuel with
  | O => None
  | S fuel =>
    if i <? keylen then
      k ← rd key i; if k =? c then Some i else scan_char fuel key keylen c (i + 1)
    else Some i
  end.

(** '{' is 123 and '}' is 125. *)
Definition keyHashSlot (key : list Z) (keylen : Z) : option Z :=
  s ← scan_char (S (Z.to_nat keylen)) key keylen 123 0;
  if s =? keylen then h ← Crc16.crc16 key keylen; Some (Z.land h 0x3FFF) else
  e ← scan_char (S (Z.to_nat keylen)) key keylen 125 (s + 1);
  if (e =? keylen) || (e =? s + 1) then h ← Crc16.crc16 key keylen; Some (Z.land h 0x3FFF) else
  h ← Crc16.crc16 (drop (Z.to_nat (s + 1)) key) (e - s - 1); Some (Z.land h 0x3FFF).

End Slot.

(** ** Bit-serial references *)

(** One bit of a most-significant-bit-first CRC register of 16 bits. *)
Definition bit16 (x : Z) : Z :=
  if Z.testbit x 15 then Z.lxor (u16 (Z.shiftl x 1)) 0x1021 else u16 (Z.shiftl x 1).

Definition crc16_byte (crc b : Z) : Z := Nat.iter 8 bit16 (Z.lxor crc (Z.shiftl b 8)).
Definition crc16_ref (bs : list Z) : Z := fold_left crc16_byte bs 0.

(** One bit of a least-significant-bit-first register of 64 bits; the constant
    is 0xad93d23594c935a9 with its bits reversed. *)
Definition bit64 (x : Z) : Z :=
  if Z.odd x then Z.lxor (Z.shiftr x 1) 0x95ac9329ac4bc9b5 else Z.shiftr x 1.

Definition crc64_byte (crc b : Z) : Z := Nat.iter 8 bit64 (Z.lxor crc b).
Definition crc64_ref (crc : Z) (bs : list Z) : Z := fold_left crc64_byte bs crc.

(** *** Exclusive or and truncation *)

Lemma wrapu_land w x : 0 <= w -> wrapu w x = Z.land x (Z.ones w).
Proof. intros. unfold wrapu. by rewrite Z.land_ones. Qed.

Lemma wrapu_lxor w x y : 0 <= w -> wrapu w (Z.lxor x y) = Z.lxor (wrapu w x) (wrapu w y).
Proof.
  intros. rewrite !wrapu_land by done. apply Z.bits_inj'. intros i Hi.
  rewrite Z.land_spec, !Z.lxor_spec, !Z.land_spec.
  by destruct (Z.testbit x i), (Z.testbit y i), (Z.testbit (Z.ones w) i).
Qed.

Lemma lxor_range w x y : 0 <= w -> 0 <= x < 2 ^ w -> 0 <= y < 2 ^ w -> 0 <= Z.lxor x y < 2 ^ w.
Proof.
  intros Hw Hx Hy. assert (Z.lxor x y = wrapu w (Z.lxor x y)) as -> by (by rewrite wrapu_lxor, !wrapu_id).
  by apply wrapu_range.
Qed.

Lemma lxor_cancel_l x y z : Z.lxor x y = Z.lxor x z -> y = z.
Proof.
  intros H. apply (f_equal (Z.lxor x)) in H.
  by rewrite <- !Z.lxor_assoc, !Z.lxor_nilpotent, !Z.lxor_0_l in H.
Qed.

Lemma shiftr_range w k x : 0 <= k <= w -> 0 <= x < 2 ^ w -> 0 <= Z.shiftr x k < 2 ^ (w - k).
Proof.
  intros Hk Hx. rewrite Z.shiftr_div_pow2 by lia. split; [apply Z.div_pos; lia|].
  apply Z.div_lt_upper_bound; [lia|]. rewrite <- Z.pow_add_r by lia.
  replace (k + (w - k)) with w by lia. lia.
Qed.

(** A register is its high part shifted, exclusive or its low byte. *)
Lemma split_byte x : x = Z.lxor (Z.shiftl (Z.shiftr x 8) 8) (u8 x).
Proof.
  rewrite wrapu_land by lia. apply Z.bits_inj'. intros i Hi.
  rewrite Z.lxor_spec, Z.land_spec, Z.shiftl_spec by done. destruct (Z.ltb_spec i 8).
  - rewrite (Z.testbit_neg_r _ (i - 8)), Z.ones_spec_low by lia. by rewrite andb_true_r, xorb_false_l.
  - rewrite Z.shiftr_spec, Z.ones_spec_high by lia. rewrite andb_false_r, xorb_false_r. f_equal. lia.
Qed.

(** A property of all bytes is checked on the 256 of them. *)
Lemma byte_cases (P : Z -> Prop) : Forall P (seqZ 0 256) -> forall b, is_byte b -> P b.
Proof. intros H b Hb. rewrite Forall_forall in H. apply H, elem_of_seqZ. unfold is_byte in Hb. lia. Qed.

(** A table of 256 entries that agrees with a function. *)
Definition table_okb (tab : list Z) (f : Z -> Z) : bool :=
  forallb (fun i => bool_decide (rd tab i = Some (f i))) (seqZ 0 256).

Lemma table_ok tab f : table_okb tab f = true -> forall b, is_byte b -> rd tab b = Some (f b).
Proof.
  intros H. apply byte_cases. apply Forall_forall. intros i Hi.
  unfold table_okb in H. rewrite forallb_forall in H. apply list_elem_of_In in Hi.
  by apply H, bool_decide_eq_true in Hi.
Qed.

(** *** CRC-16 *)

Lemma bit16_lxor x y : bit16 (Z.lxor x y) = Z.lxor (bit16 x) (bit16 y).
Proof.
  unfold bit16. rewrite Z.lxor_spec, Z.shiftl_lxor, wrapu_lxor by lia.
  set (a := u16 (Z.shiftl x 1)). set (b := u16 (Z.shiftl y 1)).
  destruct (Z.testbit x 15), (Z.testbit y 15); simpl; apply Z.bits_inj'; intros i _;
    rewrite ?Z.lxor_spec; by destruct (Z.testbit a i), (Z.testbit b i), (Z.testbit 4129 i).
Qed.

Lemma iter_lxor (f : Z -> Z) n x y : (forall x y, f (Z.lxor x y) = Z.lxor (f x) (f y)) ->
  Nat.iter n f (Z.lxor x y) = Z.lxor (Nat.iter n f x) (Nat.iter n f y).
Proof. intros Hf. induction n as [|n IH]; [done|]. simpl. by rewrite IH, Hf. Qed.

Lemma crc16tab_ok b : is_byte b -> rd Crc16.crc16tab b = Some (Nat.iter 8 bit16 (Z.shiftl b 8)).
Proof. apply (table_ok _ (fun b => Nat.iter 8 bit16 (Z.shiftl b 8))). vm_compute. reflexivity. Qed.

(** Eight shifts of a register whose high byte is clear. *)
Lemma iter_bit16_low b : is_byte b -> Nat.iter 8 bit16 b = Z.shiftl b 8.
Proof.
  intros Hb. assert (forallb (fun b => Nat.iter 8 bit16 b =? Z.shiftl b 8) (seqZ 0 256) = true) as H
    by (vm_compute; reflexivity).
  rewrite forallb_forall in H. apply Z.eqb_eq, H, list_elem_of_In, elem_of_seqZ. unfold is_byte in Hb. lia.
Qed.

Lemma crc16_step crc b : 0 <= crc < 2 ^ 16 -> is_byte b ->
  exists t, rd Crc16.crc16tab (Z.land (Z.lxor (Z.shiftr crc 8) b) 0x00FF) = Some t /\
    u16 (Z.lxor (Z.shiftl crc 8) t) = crc16_byte crc b /\ 0 <= crc16_byte crc b < 2 ^ 16.
Proof.
  intros Hc Hb. unfold is_byte in Hb.
  pose proof (shiftr_range 16 8 crc ltac:(lia) Hc) as Hh. change (2 ^ (16 - 8)) with (2 ^ 8) in Hh.
  pose proof (lxor_range 8 _ b ltac:(lia) Hh Hb) as Hi.
  change 0x00FF with (Z.ones 8). rewrite Z.land_ones, Z.mod_small by lia.
  rewrite crc16tab_ok by done. eexists. split; [done|].
  assert (crc16_byte crc b = Z.lxor (Nat.iter 8 bit16 (Z.shiftl (Z.lxor (Z.shiftr crc 8) b) 8))
    (Z.shiftl (u8 crc) 8)) as E.
  { unfold crc16_byte. rewrite (split_byte crc) at 1.
    replace (Z.lxor (Z.lxor (Z.shiftl (Z.shiftr crc 8) 8) (u8 crc)) (Z.shiftl b 8))
      with (Z.lxor (Z.shiftl (Z.lxor (Z.shiftr crc 8) b) 8) (u8 crc)).
    - rewrite iter_lxor by apply bit16_lxor. f_equal. apply iter_bit16_low, (wrapu_range 8). lia.
    - rewrite Z.shiftl_lxor, !Z.lxor_assoc. f_equal. apply Z.lxor_comm. }
  assert (forall x, 0 <= Nat.iter 8 bit16 x < 2 ^ 16) as Hr.
  { intros x. change (Nat.iter 8 bit16 x) with (bit16 (Nat.iter 7 bit16 x)). unfold bit16 at 1 3.
    destruct (Z.testbit _ 15); [apply lxor_range; [lia| |lia]|]; apply wrapu_range; lia. }
  rewrite E. set (I := Nat.iter 8 bit16 _) in *. pose proof (Hr (Z.shiftl (Z.lxor (Z.shiftr crc 8) b) 8)).
  fold I in H. rewrite wrapu_lxor, (wrapu_id 16 I), Z.lxor_comm by lia.
  assert (u16 (Z.shiftl crc 8) = Z.shiftl (u8 crc) 8) as ->.
  { rewrite !wrapu_land by lia. apply Z.bits_inj'. intros i Hi'.
    rewrite Z.land_spec, !Z.shiftl_spec by lia. destruct (Z.ltb_spec i 8).
    - by rewrite !(Z.testbit_neg_r _ (i - 8)) by lia.
    - rewrite Z.land_spec. f_equal. rewrite !Z.testbit_ones_nonneg by lia.
      destruct (Z.ltb_spec i 16), (Z.ltb_spec (i - 8) 8); lia || done. }
  split; [done|]. apply lxor_range; [lia|done|].
  pose proof (wrapu_range 8 crc ltac:(lia)). rewrite Z.shiftl_mul_pow2 by lia. lia.
Qed.

Lemma crc16_loop_spec bs : forall pre crc, 0 <= crc < 2 ^ 16 -> Forall is_byte bs ->
  forall post, Crc16.crc16_loop (length bs) (pre ++ bs ++ post) (Zlen pre) crc
    = Some (fold_left crc16_byte bs crc) /\ 0 <= fold_left crc16_byte bs crc < 2 ^ 16.
Proof.
  induction bs as [|b bs IH]; intros pre crc Hc Hf post; [done|].
  apply Forall_cons in Hf as [Hb Hf]. simpl.
  change (pre ++ b :: bs ++ post) with (pre ++ b :: (bs ++ post)). rewrite rd_app by done. simpl.
  destruct (crc16_step crc b Hc Hb) as (t & -> & Ht & Hr). simpl. rewrite Ht.
  destruct (IH (pre ++ [b]) (crc16_byte crc b) Hr Hf post) as [E E'].
  rewrite <- app_assoc in E. simpl in E. rewrite <- E. split; [|done]. f_equal.
  rewrite length_app. simpl. lia.
Qed.

(** *** CRC-64 *)

Lemma bit64_lxor x y : bit64 (Z.lxor x y) = Z.lxor (bit64 x) (bit64 y).
Proof.
  unfold bit64. rewrite <- !Z.bit0_odd, Z.lxor_spec, Z.shiftr_lxor.
  set (c := 0x95ac9329ac4bc9b5). clearbody c.
  destruct (Z.testbit x 0), (Z.testbit y 0); simpl; apply Z.bits_inj'; intros i _; rewrite ?Z.lxor_spec;
    by destruct (Z.testbit (Z.shiftr x 1) i), (Z.testbit (Z.shiftr y 1) i),
      (Z.testbit c i).
Qed.

Lemma iter_bit64_high y : Nat.iter 8 bit64 (Z.shiftl y 8) = y.
Proof.
  assert (forall z, bit64 (2 * z) = z) as H.
  { intros z. unfold bit64. rewrite Z.odd_mul. simpl.
    rewrite Z.shiftr_div_pow2 by lia. change (2 ^ 1) with 2. rewrite Z.mul_comm. apply Z.div_mul. lia. }
  replace (Z.shiftl y 8) with (2 * (2 * (2 * (2 * (2 * (2 * (2 * (2 * y))))))))
    by (rewrite Z.shiftl_mul_pow2 by lia; lia).
  simpl Nat.iter. by rewrite !H.
Qed.

Lemma crc64_tab_ok b : is_byte b -> rd Crc64.crc64_tab b = Some (Nat.iter 8 bit64 b).
Proof. apply (table_ok _ (Nat.iter 8 bit64)). vm_compute. reflexivity. Qed.

Lemma crc64_step crc b : 0 <= crc < 2 ^ 64 -> is_byte b ->
  exists t, rd Crc64.crc64_tab (Z.lxor (u8 crc) b) = Some t /\
    Z.lxor t (Z.shiftr crc 8) = crc64_byte crc b /\ 0 <= t < 2 ^ 64 /\ 0 <= crc64_byte crc b < 2 ^ 64.
Proof.
  intros Hc Hb. unfold is_byte in Hb. pose proof (wrapu_range 8 crc ltac:(lia)) as Hl.
  pose proof (lxor_range 8 _ b ltac:(lia) Hl Hb) as Hi. rewrite crc64_tab_ok by done.
  eexists. split; [done|]. assert (Z.lxor (Nat.iter 8 bit64 (Z.lxor (u8 crc) b)) (Z.shiftr crc 8)
    = crc64_byte crc b) as E.
  { unfold crc64_byte. replace (Z.lxor crc b) with
      (Z.lxor (Z.shiftl (Z.shiftr crc 8) 8) (Z.lxor (u8 crc) b))
      by (by rewrite <- Z.lxor_assoc, <- split_byte).
    rewrite (iter_lxor bit64 8 (Z.shiftl (Z.shiftr crc 8) 8)) by apply bit64_lxor. rewrite iter_bit64_high. apply Z.lxor_comm. }
  assert (0 <= Nat.iter 8 bit64 (Z.lxor (u8 crc) b) < 2 ^ 64) as Ht.
  { assert (forallb (fun i => (0 <=? Nat.iter 8 bit64 i) && (Nat.iter 8 bit64 i <? 2 ^ 64)) (seqZ 0 256)
      = true) as H by (vm_compute; reflexivity).
    rewrite forallb_forall in H. specialize (H (Z.lxor (u8 crc) b)).
    rewrite <- list_elem_of_In, elem_of_seqZ, andb_true_iff, Z.leb_le, Z.ltb_lt in H. lia. }
  split; [done|]. split; [done|]. rewrite <- E. apply lxor_range; [lia|done|].
  pose proof (shiftr_range 64 8 crc ltac:(lia) Hc). lia.
Qed.

Lemma crc64_byte_range crc b : 0 <= crc < 2 ^ 64 -> is_byte b -> 0 <= crc64_byte crc b < 2 ^ 64.
Proof. intros Hc Hb. by destruct (crc64_step crc b Hc Hb) as (? & _ & _ & _ & ?). Qed.

Lemma crc64_loop_spec bs : forall pre crc post, 0 <= crc < 2 ^ 64 -> Forall is_byte bs ->
  Crc64.crc64_loop (length bs) (pre ++ bs ++ post) (Zlen pre) crc = Some (crc64_ref crc bs) /\
  0 <= crc64_ref crc bs < 2 ^ 64.
Proof.
  induction bs as [|b bs IH]; intros pre crc post Hc Hf; [done|].
  apply Forall_cons in Hf as [Hb Hf]. simpl.
  change (pre ++ b :: bs ++ post) with (pre ++ b :: (bs ++ post)). rewrite rd_app by done. simpl.
  destruct (crc64_step crc b Hc Hb) as (t & -> & Ht & _ & Hr). simpl. rewrite Ht.
  destruct (IH (pre ++ [b]) (crc64_byte crc b) post Hr Hf) as [E E'].
  rewrite <- app_assoc in E. simpl in E. split; [|done]. rewrite <- E. f_equal.
  rewrite length_app. simpl. lia.
Qed.

(** The high bytes of the table's entries are pairwise distinct. *)
Lemma crc64_tab_high i j : is_byte i -> is_byte j ->
  Z.shiftr (Nat.iter 8 bit64 i) 56 = Z.shiftr (Nat.iter 8 bit64 j) 56 -> i = j.
Proof.
  intros Hi Hj E.
  set (inv := (fun i => (Z.shiftr (Nat.iter 8 bit64 i) 56, i)) <$> seqZ 0 256).
  assert (forallb (fun i => bool_decide (snd <$> list_find (fun p : Z * Z => p.1 = Z.shiftr (Nat.iter 8 bit64 i) 56) inv
    = Some (Z.shiftr (Nat.iter 8 bit64 i) 56, i))) (seqZ 0 256) = true) as H by (vm_compute; reflexivity).
  rewrite forallb_forall in H. unfold is_byte in *.
  pose proof (H i ltac:(apply list_elem_of_In, elem_of_seqZ; lia)) as H1%bool_decide_eq_true.
  pose proof (H j ltac:(apply list_elem_of_In, elem_of_seqZ; lia)) as H2%bool_decide_eq_true.
  rewrite E in H1. rewrite H1 in H2. by injection H2.
Qed.

Lemma crc64_byte_eq crc b : 0 <= crc < 2 ^ 64 -> is_byte b ->
  crc64_byte crc b = Z.lxor (Nat.iter 8 bit64 (Z.lxor (u8 crc) b)) (Z.shiftr crc 8) /\
  is_byte (Z.lxor (u8 crc) b).
Proof.
  intros Hc Hb. assert (is_byte (Z.lxor (u8 crc) b)) as Hi
    by (apply (lxor_range 8); [lia|apply (wrapu_range 8); lia|done]).
  destruct (crc64_step crc b Hc Hb) as (t & Ht & <- & _). rewrite crc64_tab_ok in Ht by done.
  by injection Ht as <-.
Qed.

(** The byte step is injective in the register and in the byte. *)
Lemma crc64_byte_inj crc crc' b b' : 0 <= crc < 2 ^ 64 -> 0 <= crc' < 2 ^ 64 ->
  is_byte b -> is_byte b' -> crc64_byte crc b = crc64_byte crc' b' ->
  Z.shiftr crc 8 = Z.shiftr crc' 8 /\ Z.lxor (u8 crc) b = Z.lxor (u8 crc') b'.
Proof.
  intros Hc Hc' Hb Hb' E. destruct (crc64_byte_eq crc b Hc Hb) as [E1 Hi].
  destruct (crc64_byte_eq crc' b' Hc' Hb') as [E2 Hi']. rewrite E1, E2 in E.
  assert (Z.lxor (u8 crc) b = Z.lxor (u8 crc') b') as Hidx.
  { apply crc64_tab_high; [done|done|].
    assert (forall c, 0 <= c < 2 ^ 64 -> Z.shiftr (Z.shiftr c 8) 56 = 0) as Hz.
    { intros c Hcc. rewrite Z.shiftr_shiftr, Z.shiftr_div_pow2 by lia. apply Z.div_small. lia. }
    apply (f_equal (fun x => Z.shiftr x 56)) in E. rewrite !Z.shiftr_lxor, !Hz, !Z.lxor_0_r in E by done.
    done. }
  split; [|done]. rewrite Hidx in E. by apply lxor_cancel_l in E.
Qed.

Lemma crc64_ref_inj bs crc crc' : 0 <= crc < 2 ^ 64 -> 0 <= crc' < 2 ^ 64 -> Forall is_byte bs ->
  crc64_ref crc bs = crc64_ref crc' bs -> crc = crc'.
Proof.
  intros Hc Hc' Hf. revert crc crc' Hc Hc'. induction Hf as [|b bs Hb Hf IH]; intros crc crc' Hc Hc' E; [done|].
  apply IH in E; [|by apply crc64_byte_range..].
  destruct (crc64_byte_inj crc crc' b b Hc Hc' Hb Hb E) as [E1 E2].
  rewrite (Z.lxor_comm (u8 crc)), (Z.lxor_comm (u8 crc')) in E2. apply lxor_cancel_l in E2.
  by rewrite (split_byte crc), (split_byte crc'), E1, E2.
Qed.

Lemma crc64_spec crc bs : 0 <= crc < 2 ^ 64 -> Forall is_byte bs ->
  Crc64.crc64 crc bs (Zlen bs) = Some (crc64_ref crc bs).
Proof.
  intros Hc Hf. unfold Crc64.crc64. rewrite Nat2Z.id.
  destruct (crc64_loop_spec bs [] crc [] Hc Hf) as [E _]. by rewrite app_nil_r in E.
Qed.

Lemma crc16_spec bs : Forall is_byte bs -> Crc16.crc16 bs (Zlen bs) = Some (crc16_ref bs).
Proof.
  intros Hf. unfold Crc16.crc16. rewrite Nat2Z.id.
  destruct (crc16_loop_spec bs [] 0 ltac:(lia) Hf []) as [E _]. by rewrite app_nil_r in E.
Qed.

(** ** What the checksums promise *)

(** C20. The table-driven [crc16] computes CRC-16/XMODEM: on every byte string
    it equals the bit-serial register with polynomial 0x1021. *)
Theorem crc16_bit_serial bs : Forall is_byte bs -> Crc16.crc16 bs (Zlen bs) = Some (crc16_ref bs).
Proof. apply crc16_spec. Qed.

Lemma crc16_bit_serial_witness :
  Crc16.crc16 [49;50;51;52;53;54;55;56;57] 9 = Some 0x31C3.
Proof.
  change 9 with (Zlen [49;50;51;52;53;54;55;56;57]).
  rewrite (crc16_bit_serial [49;50;51;52;53;54;55;56;57]) by (repeat constructor; done).
  vm_compute. reflexivity.
Defined.

(** C19. The table-driven [crc64] computes the reflected CRC-64 with the Jones
    polynomial, from any starting value, so it can be fed a stream in chunks:
    continuing from the checksum of a prefix gives the checksum of the whole. *)
Theorem crc64_bit_serial crc bs bs' : 0 <= crc < 2 ^ 64 -> Forall is_byte bs -> Forall is_byte bs' ->
  Crc64.crc64 crc (bs ++ bs') (Zlen (bs ++ bs')) = Some (crc64_ref crc (bs ++ bs')) /\
  (c ← Crc64.crc64 crc bs (Zlen bs); Crc64.crc64 c bs' (Zlen bs'))
    = Crc64.crc64 crc (bs ++ bs') (Zlen (bs ++ bs')).
Proof.
  intros Hc Hf Hf'. rewrite !crc64_spec by (done || by apply Forall_app). split; [done|]. simpl.
  rewrite crc64_spec; [|apply (crc64_loop_spec bs [] crc []); done|done].
  unfold crc64_ref. by rewrite fold_left_app.
Qed.

Lemma crc64_bit_serial_witness :
  Crc64.crc64 0 [49;50;51;52;53;54;55;56;57] 9 = Some 0xe9c6d914c4b8d9ca.
Proof.
  destruct (crc64_bit_serial 0 [49;50;51;52] [53;54;55;56;57]) as [E _];
    [lia|repeat constructor; done|repeat constructor; done|].
  change ([49;50;51;52;53;54;55;56;57]) with ([49;50;51;52] ++ [53;54;55;56;57]).
  change 9 with (Zlen ([49;50;51;52] ++ [53;54;55;56;57])). rewrite E. vm_compute. reflexivity.
Defined.

(** C30. [crc64] detects every corruption confined to one byte, whatever
    precedes and follows it: the guarantee RDB loading and RESTORE rely on. *)
Theorem crc64_detects_byte_error crc pre b b' post : 0 <= crc < 2 ^ 64 ->
  Forall is_byte (pre ++ b :: post) -> is_byte b' -> b <> b' ->
  Crc64.crc64 crc (pre ++ b :: post) (Zlen (pre ++ b :: post)) <>
  Crc64.crc64 crc (pre ++ b' :: post) (Zlen (pre ++ b' :: post)).
Proof.
  intros Hc [Hpre [Hb Hpost]%Forall_cons]%Forall_app Hb' Hne.
  rewrite !crc64_spec by (done || (apply Forall_app; split; [done|by constructor])).
  intros [= E]. unfold crc64_ref in E. rewrite !fold_left_app in E. simpl in E.
  assert (0 <= crc64_ref crc pre < 2 ^ 64) as Hm by (apply (crc64_loop_spec pre [] crc []); done).
  unfold crc64_ref in Hm.
  apply crc64_ref_inj in E; [|by apply crc64_byte_range..|done].
  destruct (crc64_byte_inj _ _ b b' Hm Hm Hb Hb' E) as [_ E2]. by apply lxor_cancel_l in E2.
Qed.

Lemma crc64_detects_byte_error_witness :
  Crc64.crc64 0 [1; 2; 3] 3 <> Crc64.crc64 0 [1; 7; 3] 3.
Proof.
  apply (crc64_detects_byte_error 0 [1] 2 7 [3]); [lia|repeat constructor; done|done|lia].
Defined.

(** ** Slots *)

(** [key] has the hash tag [tag]: the text between its first '{' and the
    first '}' after it, when that is not empty. *)
Definition has_tag (key tag : list Z) : Prop :=
  exists a z, key = a ++ 123 :: tag ++ 125 :: z /\ 123 ∉ a /\ 125 ∉ tag /\ tag <> [].

Lemma scan_char_spec fuel : forall a rest c, (length rest < fuel)%nat ->
  exists i, Slot.scan_char fuel (a ++ rest) (Zlen (a ++ rest)) c (Zlen a) = Some i /\
    ((i = Zlen (a ++ rest) /\ c ∉ rest) \/
     exists l z, rest = l ++ c :: z /\ c ∉ l /\ i = Zlen (a ++ l)).
Proof.
  induction fuel as [|fuel IH]; intros a rest c Hf; [lia|]. cbn [Slot.scan_char].
  destruct rest as [|k rest].
  { rewrite app_nil_r, Z.ltb_irrefl. exists (Zlen a). split; [done|]. left. split; [done|]. set_solver. }
  rewrite length_app. simpl length. destruct (Z.ltb_spec (Zlen a) (Z.of_nat (length a + S (length rest)))); [|lia].
  rewrite rd_app by done. cbn [mbind option_bind]. destruct (Z.eqb_spec k c) as [->|Hk].
  { exists (Zlen a). split; [done|]. right. exists [], rest. rewrite app_nil_r. split_and!; [done|set_solver|done]. }
  destruct (IH (a ++ [k]) rest c) as (i & Hi & Hres); [simpl in Hf; lia|].
  rewrite <- app_assoc in Hi, Hres. simpl app in Hi, Hres. exists i. split.
  - rewrite <- Hi. f_equal; rewrite !length_app; simpl; lia.
  - destruct Hres as [[-> Hn]|(l & z & -> & Hl & ->)]; [left|right].
    + split; [rewrite length_app; simpl; lia|set_solver].
    + exists (k :: l), z. rewrite <- app_assoc. split_and!; [done|set_solver|done].
Qed.

Lemma slot_land h : Z.land h 0x3FFF = h mod 16384.
Proof. change 0x3FFF with (Z.ones 14). by rewrite Z.land_ones by lia. Qed.

(** Splitting a list at the first occurrence of an element is unambiguous. *)
Lemma split_first (c : Z) l1 z1 l2 z2 : l1 ++ c :: z1 = l2 ++ c :: z2 -> c ∉ l1 -> c ∉ l2 ->
  l1 = l2 /\ z1 = z2.
Proof.
  revert l2. induction l1 as [|x l1 IH]; intros [|y l2]; simpl; intros E H1 H2; simplify_eq; try set_solver.
Qed.

(** C31. [keyHashSlot] sends every key to one of the 16384 slots by hashing its
    hash tag when it has one and the whole key otherwise, never reading outside
    the key; so keys that share a tag share a slot. *)
Theorem keyHashSlot_correct key : Forall is_byte key ->
  (exists h, Slot.keyHashSlot key (Zlen key) = Some h /\ 0 <= h < 16384) /\
  (forall tag, has_tag key tag -> Slot.keyHashSlot key (Zlen key) = Some (crc16_ref tag mod 16384)) /\
  ((forall tag, ~ has_tag key tag) -> Slot.keyHashSlot key (Zlen key) = Some (crc16_ref key mod 16384)).
Proof.
  intros Hf. assert (exists t, Slot.keyHashSlot key (Zlen key) = Some (crc16_ref t mod 16384) /\
    (has_tag key t \/ t = key /\ forall tag, ~ has_tag key tag)) as (t & E & Ht).
  { unfold Slot.keyHashSlot.
    destruct (scan_char_spec (S (Z.to_nat (Zlen key))) [] key 123) as (s & Hs & Hres); [lia|].
    simpl app in *. change (Zlen (@nil Z)) with 0 in Hs. rewrite Hs. cbn [mbind option_bind].
    destruct Hres as [[-> Hno]|(a & rest & Ek & Ha & ->)].
    { rewrite Z.eqb_refl, crc16_spec by done. exists key. simpl. rewrite slot_land. split; [done|].
      right. split; [done|]. intros tag (a & z & -> & _). set_solver. }
    assert (Zlen a < Zlen key) by (rewrite Ek, length_app; simpl; lia).
    destruct (Z.eqb_spec (Zlen a) (Zlen key)); [lia|].
    destruct (scan_char_spec (S (Z.to_nat (Zlen key))) (a ++ [123]) rest 125) as (e & He & Hres);
      [rewrite Ek, length_app; simpl; lia|].
    rewrite <- app_assoc in He, Hres. simpl app in He, Hres. rewrite <- Ek in He, Hres.
    replace (Zlen (a ++ [123])) with (Zlen a + 1) in He by (rewrite length_app; simpl; lia).
    rewrite He. cbn [mbind option_bind].
    assert (forall tag, has_tag key tag -> exists z, rest = tag ++ 125 :: z /\ 125 ∉ tag /\ tag <> []) as Hinv.
    { intros tag (a' & z & E & Ha' & Ht & Hn). rewrite Ek in E. apply split_first in E as [-> ->]; [|done|done].
      by exists z. }
    destruct Hres as [[-> Hno]|(tag & z & -> & Htag & ->)].
    { rewrite Z.eqb_refl. simpl orb. cbv iota. rewrite crc16_spec by done. simpl. rewrite slot_land.
      exists key. split; [done|]. right. split; [done|]. intros tag (z & -> & _)%Hinv. set_solver. }
    rewrite <- app_assoc, length_app. simpl app. simpl length.
    destruct (Z.eqb_spec (Z.of_nat (length a + S (length tag))) (Zlen key)) as [Hl|_].
    { rewrite Ek, !length_app in Hl. simpl in Hl. rewrite length_app in Hl. simpl in Hl. lia. }
    simpl orb. destruct (Z.eqb_spec (Z.of_nat (length a + S (length tag))) (Zlen a + 1)) as [Hl|Hl].
    { rewrite crc16_spec by done. simpl. rewrite slot_land. exists key. split; [done|]. right. split; [done|].
      intros tag' (z' & E & Ht' & Hn')%Hinv. apply split_first in E as [<- _]; [|done|done].
      apply Hn'. apply nil_length_inv. lia. }
    exists tag. split.
    - replace (drop (Z.to_nat (Zlen a + 1)) key) with (tag ++ 125 :: z).
      2: { rewrite Ek. change (a ++ 123 :: tag ++ 125 :: z) with (a ++ [123] ++ tag ++ 125 :: z).
           rewrite app_assoc, drop_app_length'; [done|]. rewrite length_app. simpl. lia. }
      replace (Z.of_nat (length a + S (length tag)) - Zlen a - 1) with (Zlen tag) by lia.
      assert (Forall is_byte tag) as Hft by (rewrite Ek in Hf; apply Forall_app in Hf as [_ [_ [Hf _]%Forall_app]%Forall_cons]; done).
      unfold Crc16.crc16. rewrite Nat2Z.id.
      destruct (crc16_loop_spec tag [] 0 ltac:(lia) Hft (125 :: z)) as [E _]. simpl app in E. change (Zlen (@nil Z)) with 0 in E. rewrite E.
      simpl. by rewrite slot_land.
    - left. exists a, z. split_and!; try done. intros ->. simpl in Hl. lia. }
  split_and!.
  - exists (crc16_ref t mod 16384). split; [done|]. apply Z.mod_pos_bound. lia.
  - intros tag Htag. rewrite E. destruct Ht as [Ht|[_ Ht]]; [|by destruct (Ht tag)]. do 3 f_equal.
    destruct Ht as (a & z & E1 & Ha & H1 & _), Htag as (a' & z' & E2 & Ha' & H2 & _).
    rewrite E1 in E2. apply split_first in E2 as [-> E2]; [|done|done].
    by apply split_first in E2 as [-> _].
  - intros Hno. destruct Ht as [Ht|[-> _]]; [by destruct (Hno t)|done].
Qed.

Lemma keyHashSlot_correct_witness : exists h,
  Slot.keyHashSlot [97; 123; 98; 99; 125; 100] 6 = Some h /\
  Slot.keyHashSlot [120; 121; 123; 98; 99; 125] 6 = Some h.
Proof.
  exists (crc16_ref [98; 99] mod 16384). split.
  - apply (keyHashSlot_correct [97; 123; 98; 99; 125; 100]); [repeat constructor; done|].
    exists [97], [100]. split_and!; [done|set_solver|set_solver|done].
  - apply (keyHashSlot_correct [120; 121; 123; 98; 99; 125]); [repeat constructor; done|].
    exists [120; 121], []. split_and!; [done|set_solver|set_solver|done].
Defined.
