(* ===== verification/Lzf.v ===== *)
(** LZF compression: [lzf_c.c] and [lzf_d.c], with the configuration of
    [lzfP.h] (HLOG 16, VERY_FAST, INIT_HTAB 0, CHECK_INPUT 1, 32 bit hash slots
    holding offsets from [in_data]).

    Pointers are offsets: [ip] and [ref] into the input, [op] into the output
    block.  The hash table is a stack array that is never initialised: [h0]
    below is its indeterminate content, and the theorems hold for every [h0]. *)

From S2P Require Import Prelude.

Definition HLOG : Z := 16.
Definition HSIZE : Z := 2 ^ HLOG.
Definition MAX_LIT : Z := 2 ^ 5.
Definition MAX_OFF : Z := 2 ^ 13.
Definition MAX_REF : Z := 2 ^ 8 + 2 ^ 3.

(** ** [lzf_compress] *)

Definition FRST (inp : list Z) (p : Z) : option Z :=
  a ← rd inp p; b ← rd inp (p + 1); Some (Z.lor (Z.shiftl a 8) b).

Definition NEXT (v : Z) (inp : list Z) (p : Z) : option Z :=
  c ← rd inp (p + 2); Some (u32 (Z.lor (Z.shiftl v 8) c)).

(** The VERY_FAST variant. *)
Definition IDX (h : Z) : Z :=
  Z.land (u32 (Z.shiftr h (3 * 8 - HLOG) - h * 5)) (HSIZE - 1).

(** [op[-lit-1] = lit - 1] *)
Definition stop_run (out : block) (op lit : Z) : option block :=
  store8 out (op - lit - 1) (lit - 1).

(** [do len++; while (len < maxlen && ref[len] == ip[len]);] *)
Fixpoint match_tail (fuel : nat) (inp : list Z) (ref ip len maxlen : Z) : option Z :=
  match fuel with
  | O => None
  | S fuel =>
    let len := len + 1 in
    if len <? maxlen then
      a ← rd inp (ref + len); b ← rd inp (ip + len);
      if a =? b then match_tail fuel inp ref ip len maxlen else Some len
    else Some len
  end.

(** The unrolled [len++; if (ref [len] != ip [len]) break;], [n] times:
    [inl len] when it broke out, [inr len] when it ran through. *)
Fixpoint match_unrolled (n : nat) (inp : list Z) (ref ip len : Z) : option (Z + Z) :=
  match n with
  | O => Some (inr len)
  | S n =>
    let len := len + 1 in
    a ← rd inp (ref + len); b ← rd inp (ip + len);
    if a =? b then match_unrolled n inp ref ip len else Some (inl len)
  end.

(** The [for (;;)] block: the length of the match, starting from 2. *)
Definition match_len (inp : list Z) (ref ip maxlen : Z) : option Z :=
  if maxlen >? 16 then
    r ← match_unrolled 16 inp ref ip 2;
    match r with
    | inl len => Some len
    | inr len => match_tail (S (Z.to_nat maxlen)) inp ref ip len maxlen
    end
  else match_tail (S (Z.to_nat maxlen)) inp ref ip 2 maxlen.

(** One more literal byte: shared by the main loop and the last loop. *)
Definition put_literal (inp : list Z) (ip : Z) (out : block) (op lit : Z)
    : option (Z * block * Z * Z) :=
  let lit := lit + 1 in
  c ← rd inp ip; out ← store8 out op c;
  let op := op + 1 in let ip := ip + 1 in
  if lit =? MAX_LIT then
    out ← stop_run out op lit; Some (ip, out, op + 1, 0)
  else Some (ip, out, op, lit).

(** The bytes of a back reference: [off] is the distance minus one, [len] the
    number of octets minus two. *)
Definition put_ref (out : block) (op off len : Z) : option (block * Z) :=
  if len <? 7 then
    out ← store8 out op (Z.shiftr off 8 + Z.shiftl len 5);
    out ← store8 out (op + 1) off; Some (out, op + 2)
  else
    out ← store8 out op (Z.shiftr off 8 + Z.shiftl 7 5);
    out ← store8 out (op + 1) (len - 7);
    out ← store8 out (op + 2) off; Some (out, op + 3).

Section Compress.
Context (h0 : Z -> Z).

(** The hash table: the slots written so far over the indeterminate ones. *)
Definition hslot (htab : gmap Z Z) (i : Z) : Z := default (u32 (h0 i)) (htab !! i).

Record cstate := CState {
  c_ip : Z; c_op : Z; c_out : block; c_lit : Z; c_hval : Z; c_htab : gmap Z Z
}.

(** What one iteration of the main loop does: go on, leave the loop
    ([break]), or return 0 because the output is full. *)
Inductive outcome := Continue (s : cstate) | Break (s : cstate) | ReturnZero (out : block).

(** The test for a usable match at [ref]; the result carries [off]. *)
Definition find_match (inp : list Z) (ip ref : Z) : option (option Z) :=
  let off := u64 (ip - ref - 1) in
  if (off <? MAX_OFF) && (ref >? 0) then
    r2 ← rd inp (ref + 2); i2 ← rd inp (ip + 2);
    if r2 =? i2 then
      r0 ← rd inp ref; r1 ← rd inp (ref + 1); i0 ← rd inp ip; i1 ← rd inp (ip + 1);
      if (r0 =? i0) && (r1 =? i1) then Some (Some off) else Some None
    else Some None
  else Some None.

Definition compress_match (inp : list Z) (in_end out_end : Z) (s : cstate) (ref off : Z)
    : option outcome :=
  let '(CState ip op out lit hval htab) := s in
  let maxlen := u32 (in_end - ip - 2) in
  let maxlen := if maxlen >? MAX_REF then MAX_REF else maxlen in
  let notlit := if lit =? 0 then 1 else 0 in
  if (op + 3 + 1 >=? out_end) && (op - notlit + 3 + 1 >=? out_end) then Some (ReturnZero out) else
  out ← stop_run out op lit;
  let op := op - notlit in
  len ← match_len inp ref ip maxlen;
  let len := len - 2 in
  let ip := ip + 1 in
  '(out, op) ← put_ref out op off len;
  let lit := 0 in let op := op + 1 in
  let ip := ip + (len + 1) in
  if ip >=? in_end - 2 then Some (Break (CState ip op out lit hval htab)) else
  let ip := ip - 2 in
  hval ← FRST inp ip;
  hval ← NEXT hval inp ip;
  let htab := <[IDX hval := u32 ip]> htab in
  let ip := ip + 1 in
  hval ← NEXT hval inp ip;
  let htab := <[IDX hval := u32 ip]> htab in
  let ip := ip + 1 in
  Some (Continue (CState ip op out lit hval htab)).

Definition compress_step (inp : list Z) (in_end out_end : Z) (s : cstate) : option outcome :=
  let '(CState ip op out lit hval htab) := s in
  hval ← NEXT hval inp ip;
  let ref := hslot htab (IDX hval) in
  let htab := <[IDX hval := u32 ip]> htab in
  m ← find_match inp ip ref;
  match m with
  | Some off => compress_match inp in_end out_end (CState ip op out lit hval htab) ref off
  | None =>
    if op >=? out_end then Some (ReturnZero out) else
    '(ip, out, op, lit) ← put_literal inp ip out op lit;
    Some (Continue (CState ip op out lit hval htab))
  end.

(** [while (ip < in_end - 2)]; [inl] is the [return 0], with the output as it
    was left. *)
Fixpoint compress_loop (fuel : nat) (inp : list Z) (in_end out_end : Z) (s : cstate)
    : option (block + cstate) :=
  match fuel with
  | O => None
  | S fuel =>
    if c_ip s <? in_end - 2 then
      r ← compress_step inp in_end out_end s;
      match r with
      | Continue s => compress_loop fuel inp in_end out_end s
      | Break s => Some (inr s)
      | ReturnZero out => Some (inl out)
      end
    else Some (inr s)
  end.

(** [while (ip < in_end)] *)
Fixpoint literal_loop (fuel : nat) (inp : list Z) (in_end ip : Z) (out : block) (op lit : Z)
    : option (block * Z * Z) :=
  match fuel with
  | O => None
  | S fuel =>
    if ip <? in_end then
      '(ip, out, op, lit) ← put_literal inp ip out op lit;
      literal_loop fuel inp in_end ip out op lit
    else Some (out, op, lit)
  end.

(** The result is the returned length and the output buffer. *)
Definition lzf_compress (inp : list Z) (in_len : Z) (out : block) (out_len : Z)
    : option (Z * block) :=
  if (in_len =? 0) || (out_len =? 0) then Some (0, out) else
  hval ← FRST inp 0;
  r ← compress_loop (S (Z.to_nat in_len)) inp in_len out_len (CState 0 1 out 0 hval ∅);
  match r with
  | inl out => Some (0, out)
  | inr (CState ip op out lit _ _) =>
    if op + 3 >? out_len then Some (0, out) else
    '(out, op, lit) ← literal_loop (S (Z.to_nat in_len)) inp in_len ip out op lit;
    out ← stop_run out op lit;
    let op := op - (if lit =? 0 then 1 else 0) in
    Some (op, out)
  end.

End Compress.

(** ** [lzf_decompress] *)

Inductive lzf_errno := E2BIG | EINVAL.

(** The returned length with the output, or 0 with [errno] set. *)
Inductive dresult := DOk (op : Z) (out : block) | DErr (e : lzf_errno).

(** [*op++ = *ip++], [n] times. *)
Fixpoint copy_in (n : nat) (inp : list Z) (ip : Z) (out : block) (op : Z) : option block :=
  match n with
  | O => Some out
  | S n => c ← rd inp ip; out ← store8 out op c; copy_in n inp (ip + 1) out (op + 1)
  end.

(** [*op++ = *ref++], [n] times, inside the output. *)
Fixpoint copy_out (n : nat) (ref : Z) (out : block) (op : Z) : option block :=
  match n with
  | O => Some out
  | S n => c ← load8 out ref; out ← store8 out op c; copy_out n (ref + 1) out (op + 1)
  end.

Definition copy_ref (len ref : Z) (out : block) (op : Z) : option block :=
  if len <=? 9 then copy_out (Z.to_nat (len + 2)) ref out op
  else
    let len := len + 2 in
    if op >=? ref + len then memmove out op ref len
    else copy_out (Z.to_nat len) ref out op.

Fixpoint decompress_loop (fuel : nat) (inp : list Z) (in_end ip : Z) (out : block) (out_end op : Z)
    : option dresult :=
  match fuel with
  | O => None
  | S fuel =>
    ctrl ← rd inp ip;
    let ip := ip + 1 in
    if ctrl <? 2 ^ 5 then
      let ctrl := ctrl + 1 in
      if op + ctrl >? out_end then Some (DErr E2BIG) else
      if ip + ctrl >? in_end then Some (DErr EINVAL) else
      out ← copy_in (Z.to_nat ctrl) inp ip out op;
      let op := op + ctrl in let ip := ip + ctrl in
      if ip <? in_end then decompress_loop fuel inp in_end ip out out_end op else Some (DOk op out)
    else
      let len := Z.shiftr ctrl 5 in
      let ref := op - Z.shiftl (Z.land ctrl 0x1f) 8 - 1 in
      if ip >=? in_end then Some (DErr EINVAL) else
      '(len, ip) ← (if len =? 7 then l ← rd inp ip; Some (len + l, ip + 1) else Some (len, ip));
      if (Z.shiftr ctrl 5 =? 7) && (ip >=? in_end) then Some (DErr EINVAL) else
      c ← rd inp ip;
      let ref := ref - c in let ip := ip + 1 in
      if op + len + 2 >? out_end then Some (DErr E2BIG) else
      if ref <? 0 then Some (DErr EINVAL) else
      out ← copy_ref len ref out op;
      let op := op + len + 2 in
      if ip <? in_end then decompress_loop fuel inp in_end ip out out_end op else Some (DOk op out)
  end.

Definition lzf_decompress (inp : list Z) (in_len : Z) (out : block) (out_len : Z) : option dresult :=
  decompress_loop (S (Z.to_nat in_len)) inp in_len 0 out out_len 0.

(** ** The compressed format

    A stream is a sequence of tokens: a run of literals, or a reference to
    [len + 2] octets starting [off + 1] octets back in the output. *)

Inductive token := TLit (l : list Z) | TRef (off len : Z).

Definition token_bytes (t : token) : list Z :=
  match t with
  | TLit l => (Zlen l - 1) :: l
  | TRef off len =>
    if len <? 7 then [off / 256 + len * 32; off mod 256]
    else [off / 256 + 224; len - 7; off mod 256]
  end.

(** Copying one octet at a time from [off + 1] back, so that a reference may
    overlap the octets it produces. *)
Fixpoint expand_ref (n : nat) (off : Z) (acc : list Z) : list Z :=
  match n with
  | O => acc
  | S n => expand_ref n off (acc ++ [nth (Z.to_nat (Zlen acc - off - 1)) acc 0])
  end.

Definition expand (acc : list Z) (t : token) : list Z :=
  match t with
  | TLit l => acc ++ l
  | TRef off len => expand_ref (Z.to_nat (len + 2)) off acc
  end.

(** A token that may follow the output [acc]. *)
Definition token_ok (acc : list Z) (t : token) : Prop :=
  match t with
  | TLit l => 1 <= Zlen l <= 32
  | TRef off len => 0 <= off < 8192 /\ off < Zlen acc /\ 1 <= len <= 262
  end.

Fixpoint tokens_ok (acc : list Z) (ts : list token) : Prop :=
  match ts with [] => True | t :: ts => token_ok acc t /\ tokens_ok (expand acc t) ts end.

Definition stream (ts : list token) : list Z := concat (token_bytes <$> ts).

Lemma length_expand_ref n off acc : length (expand_ref n off acc) = (length acc + n)%nat.
Proof.
  revert acc. induction n as [|n IH]; intros acc; simpl; [lia|].
  rewrite IH, length_app. simpl. lia.
Qed.

Lemma expand_ref_prefix n off acc : exists l, expand_ref n off acc = acc ++ l.
Proof.
  revert acc. induction n as [|n IH]; intros acc; simpl; [exists []; by rewrite app_nil_r|].
  destruct (IH (acc ++ [nth (Z.to_nat (Zlen acc - off - 1)) acc 0])) as [l ->].
  rewrite <- app_assoc. by eexists.
Qed.

Lemma expand_prefix acc t : exists l, expand acc t = acc ++ l.
Proof. destruct t; simpl; [by eexists|apply expand_ref_prefix]. Qed.

(** *** The decompressor's copies *)

(** The output block: what was written so far, then cells not yet written. *)
Definition outblock (acc : list Z) (R : block) : block := (Some <$> acc) ++ R.

Lemma store8_outblock acc x R v op : op = Zlen acc -> is_byte v ->
  store8 (outblock acc (x :: R)) op v = Some (outblock (acc ++ [v]) R).
Proof.
  intros -> Hv. unfold store8, outblock. rewrite (wrapu_id 8) by done.
  change ((Some <$> acc) ++ x :: R) with ((Some <$> acc) ++ [x] ++ R).
  rewrite store_app by (rewrite ?length_fmap; done). by rewrite fmap_app, <- app_assoc.
Qed.

Lemma load8_outblock acc R i : 0 <= i < Zlen acc ->
  load8 (outblock acc R) i = Some (nth (Z.to_nat i) acc 0).
Proof.
  intros Hi. destruct (lookup_lt_is_Some_2 acc (Z.to_nat i) ltac:(lia)) as [c Hc].
  rewrite (nth_lookup_Some _ _ _ _ Hc).
  destruct (list_elem_of_split_length _ _ _ Hc) as (a & b & -> & Ha).
  unfold load8, outblock. rewrite fmap_app, <- app_assoc.
  change ((Some <$> c :: b) ++ R) with ((Some <$> [c]) ++ ((Some <$> b) ++ R)).
  rewrite load_app; [done|rewrite length_fmap; lia|done].
Qed.

Lemma copy_in_spec l pre post acc R ip op : Forall is_byte l -> ip = Zlen pre -> op = Zlen acc ->
  (length l <= length R)%nat ->
  copy_in (length l) (pre ++ l ++ post) ip (outblock acc R) op
    = Some (outblock (acc ++ l) (drop (length l) R)).
Proof.
  intros Hf -> ->. revert pre acc R. induction Hf as [|c l Hc Hf IH]; intros pre acc R HR; simpl.
  { by rewrite app_nil_r. }
  rewrite rd_app by done. destruct R as [|x R]; [simpl in HR; lia|]. cbn [mbind option_bind].
  rewrite store8_outblock by done. cbn [mbind option_bind drop].
  specialize (IH (pre ++ [c]) (acc ++ [c]) R ltac:(simpl in HR; lia)).
  rewrite <- !app_assoc, !length_app in IH. simpl in IH. rewrite <- IH. f_equal; lia.
Qed.

Lemma nth_byte i acc : Forall is_byte acc -> is_byte (nth i acc 0).
Proof.
  intros Hf. destruct (nth_in_or_default i acc 0) as [Hin| ->]; [|done].
  apply list_elem_of_In in Hin. rewrite Forall_forall in Hf. by apply Hf.
Qed.

Lemma expand_ref_byte n off acc : Forall is_byte acc -> Forall is_byte (expand_ref n off acc).
Proof.
  revert acc. induction n as [|n IH]; intros acc Hf; simpl; [done|]. apply IH, Forall_app. split; [done|].
  constructor; [by apply nth_byte|done].
Qed.

Lemma copy_out_spec n off acc R ref op : Forall is_byte acc -> 0 <= off < Zlen acc ->
  ref = Zlen acc - off - 1 -> op = Zlen acc -> (n <= length R)%nat ->
  copy_out n ref (outblock acc R) op = Some (outblock (expand_ref n off acc) (drop n R)).
Proof.
  intros Hf Hoff -> ->. revert acc R Hf Hoff. induction n as [|n IH]; intros acc R Hf Hoff HR; [done|].
  destruct R as [|x R]; [simpl in HR; lia|]. cbn [copy_out expand_ref drop].
  rewrite load8_outblock by lia. cbn [mbind option_bind].
  rewrite store8_outblock by (done || by apply nth_byte). cbn [mbind option_bind].
  rewrite <- IH.
  - rewrite length_app. simpl. f_equal; lia.
  - apply Forall_app. split; [done|]. constructor; [by apply nth_byte|done].
  - rewrite length_app. simpl. lia.
  - simpl in HR. lia.
Qed.

Lemma expand_ref_S_r n off acc :
  expand_ref (S n) off acc =
    expand_ref n off acc ++ [nth (Z.to_nat (Zlen (expand_ref n off acc) - off - 1)) (expand_ref n off acc) 0].
Proof.
  revert acc. induction n as [|n IH]; intros acc; [done|].
  change (expand_ref (S (S n)) off acc) with
    (expand_ref (S n) off (acc ++ [nth (Z.to_nat (Zlen acc - off - 1)) acc 0])).
  rewrite IH. done.
Qed.

(** A reference that does not overlap its target is a block copy. *)
Lemma expand_ref_disjoint n off acc : 0 <= off < Zlen acc -> Z.of_nat n <= off + 1 ->
  expand_ref n off acc = acc ++ slice acc (Zlen acc - off - 1) (Z.of_nat n).
Proof.
  intros Hoff. induction n as [|n IH]; intros Hn.
  { unfold slice. simpl. by rewrite app_nil_r. }
  rewrite expand_ref_S_r, IH by lia. unfold slice.
  set (r := Z.to_nat (Zlen acc - off - 1)). rewrite !Nat2Z.id.
  destruct (lookup_lt_is_Some_2 acc (r + n) ltac:(lia)) as [c Hc].
  assert (drop r acc !! n = Some c) as Hd by (by rewrite lookup_drop).
  rewrite (take_S_r _ _ _ Hd), app_assoc. f_equal. f_equal.
  rewrite length_app, length_take, length_drop.
  rewrite app_nth1 by lia.
  replace (Z.to_nat _) with (r + n)%nat by lia. by apply nth_lookup_Some.
Qed.

Lemma copy_ref_spec len off acc R ref op : Forall is_byte acc -> 0 <= off < Zlen acc -> 0 <= len ->
  ref = Zlen acc - off - 1 -> op = Zlen acc -> len + 2 <= Zlen R ->
  copy_ref len ref (outblock acc R) op =
    Some (outblock (expand_ref (Z.to_nat (len + 2)) off acc) (drop (Z.to_nat (len + 2)) R)).
Proof.
  intros Hf Hoff Hlen Href Hop HR. unfold copy_ref.
  destruct (Z.leb_spec len 9); [apply copy_out_spec; done || lia|].
  rewrite Z.geb_leb. destruct (Z.leb_spec (ref + (len + 2)) op); [|apply copy_out_spec; done || lia].
  rewrite expand_ref_disjoint by lia. rewrite Z2Nat.id by lia.
  set (n := Z.to_nat (len + 2)). unfold outblock.
  set (a := take (Z.to_nat ref) acc). set (b := slice acc ref (len + 2)).
  assert (length b = n) as Hb by (subst b n; unfold slice; rewrite length_take, length_drop; lia).
  assert (acc = a ++ b ++ drop (Z.to_nat ref + n) acc) as Hacc.
  { subst a b n. unfold slice. rewrite <- drop_drop, take_drop. by rewrite take_drop. }
  rewrite (memmove_app _ (Some <$> a) (Some <$> b) ((Some <$> drop (Z.to_nat ref + n) acc) ++ R)
    (Some <$> acc) (take n R) (drop n R)).
  - rewrite <- Href. fold b. by rewrite fmap_app, <- app_assoc.
  - rewrite Hacc at 1. by rewrite !fmap_app, <- !app_assoc.
  - by rewrite take_drop.
  - subst a. rewrite length_fmap, length_take. lia.
  - rewrite length_fmap, Hb. lia.
  - by rewrite length_fmap.
  - rewrite length_take. lia.
Qed.

(** *** The stream decoder *)

Lemma ref_ctrl off len : 0 <= off < 8192 -> 0 <= len <= 7 ->
  let c := off / 256 + len * 32 in
  Z.shiftr c 5 = len /\ Z.shiftl (Z.land c 0x1f) 8 = off / 256 * 256 /\ is_byte c.
Proof.
  intros Hoff Hl c. assert (0 <= off / 256 < 32) by (Z.to_euclidean_division_equations; lia).
  split_and!.
  - subst c. rewrite Z.shiftr_div_pow2 by lia. change (2 ^ 5) with 32.
    rewrite Z_div_plus_full by lia. rewrite Z.div_small by lia. lia.
  - subst c. change 0x1f with (Z.ones 5). rewrite Z.land_ones, Z.shiftl_mul_pow2 by lia.
    change (2 ^ 5) with 32. rewrite Z_mod_plus_full, Z.mod_small by lia. done.
  - unfold is_byte. subst c. lia.
Qed.

Lemma token_bytes_nonempty t : token_bytes t <> [].
Proof. destruct t as [l|off len]; simpl; [done|]. by destruct (len <? 7). Qed.

Lemma stream_nonempty ts : ts <> [] -> 0 < Zlen (stream ts).
Proof.
  destruct ts as [|t ts]; [done|]. intros _. unfold stream. simpl. rewrite length_app.
  pose proof (token_bytes_nonempty t). destruct (token_bytes t); [done|]. simpl. lia.
Qed.

(** One iteration: the token [t] at [pre] is decoded, then the loop is left or
    goes on with [rest]. *)
Definition decode_next (fuel : nat) (pre : list Z) (t : token) (rest acc : list Z) (R : block)
    : option dresult :=
  let inp := pre ++ token_bytes t ++ rest in
  let out := outblock (expand acc t) (drop (length (expand acc t) - length acc) R) in
  if Zlen (pre ++ token_bytes t) <? Zlen inp
  then decompress_loop fuel inp (Zlen inp) (Zlen (pre ++ token_bytes t)) out (Zlen acc + Zlen R)
         (Zlen (expand acc t))
  else Some (DOk (Zlen (expand acc t)) out).

Lemma decompress_lit fuel pre l rest acc R : 1 <= Zlen l <= 32 -> Forall is_byte l -> Zlen l <= Zlen R ->
  decompress_loop (S fuel) (pre ++ token_bytes (TLit l) ++ rest)
      (Zlen (pre ++ token_bytes (TLit l) ++ rest)) (Zlen pre) (outblock acc R) (Zlen acc + Zlen R) (Zlen acc)
    = decode_next fuel pre (TLit l) rest acc R.
Proof.
  intros Hl Hb HR. unfold decode_next.
  change (token_bytes (TLit l) ++ rest) with ((Zlen l - 1) :: l ++ rest).
  change (expand acc (TLit l)) with (acc ++ l).
  replace (length (acc ++ l) - length acc)%nat with (length l) by (rewrite length_app; lia).
  assert (Zlen (pre ++ (Zlen l - 1) :: l ++ rest) = Zlen pre + 1 + Zlen l + Zlen rest) as HL
    by (rewrite length_app; simpl; rewrite length_app; lia).
  cbn [decompress_loop]. rewrite (rd_app pre _ _ (Zlen pre)) by done. cbn [mbind option_bind].
  destruct (Z.ltb_spec (Zlen l - 1) (2 ^ 5)); [|lia].
  replace (Zlen l - 1 + 1) with (Zlen l) by lia.
  rewrite !Z.gtb_ltb. destruct (Z.ltb_spec (Zlen acc + Zlen R) (Zlen acc + Zlen l)); [lia|].
  destruct (Z.ltb_spec (Zlen (pre ++ (Zlen l - 1) :: l ++ rest)) (Zlen pre + 1 + Zlen l)); [lia|].
  rewrite Nat2Z.id. replace (pre ++ (Zlen l - 1) :: l ++ rest)
    with ((pre ++ [Zlen l - 1]) ++ l ++ rest) at 1 by (by rewrite <- app_assoc).
  rewrite copy_in_spec by (try done; try rewrite length_app; simpl; lia).
  cbn [mbind option_bind].
  replace (Zlen pre + 1 + Zlen l) with (Zlen (pre ++ token_bytes (TLit l))) by (rewrite length_app; simpl; lia).
  by replace (Zlen acc + Zlen l) with (Zlen (acc ++ l)) by (rewrite length_app; lia).
Qed.

(** Reading one or two bytes past a prefix. *)
Lemma rd_app2 pre (a b : Z) rest i : i = Zlen pre + 1 -> rd (pre ++ a :: b :: rest) i = Some b.
Proof.
  intros ->. rewrite <- (rd_app (pre ++ [a]) rest b (Zlen pre + 1)); [by rewrite <- app_assoc|].
  rewrite length_app. simpl. lia.
Qed.

Lemma rd_app3 pre (a b c : Z) rest i : i = Zlen pre + 2 -> rd (pre ++ a :: b :: c :: rest) i = Some c.
Proof.
  intros ->. rewrite <- (rd_app2 (pre ++ [a]) b c rest (Zlen pre + 2)); [by rewrite <- app_assoc|].
  rewrite length_app. simpl. lia.
Qed.

Lemma off_split off : off = off / 256 * 256 + off mod 256.
Proof. pose proof (Z.div_mod off 256). lia. Qed.

Lemma decompress_ref fuel pre off len rest acc R : token_ok acc (TRef off len) ->
  Forall is_byte acc -> len + 2 <= Zlen R ->
  decompress_loop (S fuel) (pre ++ token_bytes (TRef off len) ++ rest)
      (Zlen (pre ++ token_bytes (TRef off len) ++ rest)) (Zlen pre) (outblock acc R)
      (Zlen acc + Zlen R) (Zlen acc)
    = decode_next fuel pre (TRef off len) rest acc R.
Proof.
  intros (Hoff & Hoff' & Hlen) Hb HR. unfold decode_next.
  assert (length (expand acc (TRef off len)) = length acc + Z.to_nat (len + 2))%nat as HE
    by apply length_expand_ref.
  replace (length (expand acc (TRef off len)) - length acc)%nat with (Z.to_nat (len + 2)) by lia.
  replace (Zlen (expand acc (TRef off len))) with (Zlen acc + len + 2) by lia. clear HE.
  pose proof (off_split off) as Hdm. pose proof (Z.mod_pos_bound off 256 ltac:(lia)) as Hmod.
  simpl token_bytes. destruct (Z.ltb_spec len 7) as [H7|H7].
  - destruct (ref_ctrl off len Hoff ltac:(lia)) as (Hc1 & Hc2 & Hc3).
    set (c := off / 256 + len * 32) in *.
    assert (32 <= c) by (subst c; Z.to_euclidean_division_equations; lia).
    set (inp := pre ++ [c; off mod 256] ++ rest).
    assert (rd inp (Zlen pre) = Some c) as R0 by (by apply rd_app).
    assert (rd inp (Zlen pre + 1) = Some (off mod 256)) as R1 by (by apply rd_app2).
    assert (Zlen inp = Zlen pre + 2 + Zlen rest) as HL by (subst inp; rewrite length_app; simpl; lia).
    cbn [decompress_loop]. rewrite R0. cbn [mbind option_bind].
    destruct (Z.ltb_spec c (2 ^ 5)); [lia|]. rewrite Hc1, Hc2, !Z.geb_leb.
    destruct (Z.leb_spec (Zlen inp) (Zlen pre + 1)); [lia|].
    destruct (Z.eqb_spec len 7); [lia|]. cbn [mbind option_bind andb].
    rewrite R1. cbn [mbind option_bind].
    rewrite Z.gtb_ltb. destruct (Z.ltb_spec (Zlen acc + Zlen R) (Zlen acc + len + 2)); [lia|].
    destruct (Z.ltb_spec (Zlen acc - off / 256 * 256 - 1 - off mod 256) 0); [lia|].
    rewrite (copy_ref_spec len off) by (done || lia). cbn [mbind option_bind].
    by replace (Zlen pre + 1 + 1) with (Zlen (pre ++ [c; off mod 256])) by (rewrite length_app; simpl; lia).
  - destruct (ref_ctrl off 7 Hoff ltac:(lia)) as (Hc1 & Hc2 & Hc3). change (7 * 32) with 224 in *.
    set (c := off / 256 + 224) in *.
    assert (32 <= c) by (subst c; Z.to_euclidean_division_equations; lia).
    set (inp := pre ++ [c; len - 7; off mod 256] ++ rest).
    assert (rd inp (Zlen pre) = Some c) as R0 by (by apply rd_app).
    assert (rd inp (Zlen pre + 1) = Some (len - 7)) as R1 by (by apply rd_app2).
    assert (rd inp (Zlen pre + 1 + 1) = Some (off mod 256)) as R2 by (apply rd_app3; lia).
    assert (Zlen inp = Zlen pre + 3 + Zlen rest) as HL by (subst inp; rewrite length_app; simpl; lia).
    cbn [decompress_loop]. rewrite R0. cbn [mbind option_bind].
    destruct (Z.ltb_spec c (2 ^ 5)); [lia|]. rewrite Hc1, Hc2, !Z.geb_leb.
    destruct (Z.leb_spec (Zlen inp) (Zlen pre + 1)); [lia|].
    change (7 =? 7) with true. cbv iota.
    rewrite R1. cbn [mbind option_bind].
    rewrite Z.geb_leb. destruct (Z.leb_spec (Zlen inp) (Zlen pre + 1 + 1)); [lia|]. cbn [andb].
    rewrite R2. cbn [mbind option_bind].
    replace (7 + (len - 7)) with len by lia.
    rewrite Z.gtb_ltb. destruct (Z.ltb_spec (Zlen acc + Zlen R) (Zlen acc + len + 2)); [lia|].
    destruct (Z.ltb_spec (Zlen acc - off / 256 * 256 - 1 - off mod 256) 0); [lia|].
    rewrite (copy_ref_spec len off) by (done || lia). cbn [mbind option_bind].
    by replace (Zlen pre + 1 + 1 + 1) with (Zlen (pre ++ [c; len - 7; off mod 256])) by (rewrite length_app; simpl; lia).
Qed.

Lemma decompress_token fuel pre t rest acc R : token_ok acc t -> Forall is_byte acc ->
  Forall is_byte (expand acc t) -> Zlen (expand acc t) <= Zlen acc + Zlen R ->
  decompress_loop (S fuel) (pre ++ token_bytes t ++ rest) (Zlen (pre ++ token_bytes t ++ rest)) (Zlen pre)
      (outblock acc R) (Zlen acc + Zlen R) (Zlen acc)
    = decode_next fuel pre t rest acc R.
Proof.
  intros Hok Hb Hb' Hle. destruct t as [l|off len].
  - simpl in Hle, Hb', Hok. rewrite length_app in Hle. apply Forall_app in Hb' as [_ ?].
    apply decompress_lit; done || lia.
  - apply decompress_ref; [done..|]. simpl in Hle. rewrite length_expand_ref in Hle. lia.
Qed.

Lemma foldl_expand_prefix ts acc : exists l, foldl expand acc ts = acc ++ l.
Proof.
  revert acc. induction ts as [|t ts IH]; intros acc; simpl; [exists []; by rewrite app_nil_r|].
  destruct (IH (expand acc t)) as [l ->]. destruct (expand_prefix acc t) as [l' ->].
  rewrite <- app_assoc. by eexists.
Qed.

Lemma decompress_loop_spec ts : forall fuel pre acc R, ts <> [] -> (length ts <= fuel)%nat ->
  tokens_ok acc ts -> Forall is_byte (foldl expand acc ts) ->
  Zlen (foldl expand acc ts) <= Zlen acc + Zlen R ->
  decompress_loop fuel (pre ++ stream ts) (Zlen (pre ++ stream ts)) (Zlen pre) (outblock acc R)
      (Zlen acc + Zlen R) (Zlen acc)
    = Some (DOk (Zlen (foldl expand acc ts))
        (outblock (foldl expand acc ts) (drop (length (foldl expand acc ts) - length acc) R))).
Proof.
  induction ts as [|t ts IH]; intros fuel pre acc R Hne Hfuel Hok Hbytes Hlen; [done|].
  destruct fuel as [|fuel]; [simpl in Hfuel; lia|]. destruct Hok as [Ht Hok]. simpl foldl in *.
  destruct (foldl_expand_prefix ts (expand acc t)) as [l Hl]. destruct (expand_prefix acc t) as [e He].
  assert (Forall is_byte (expand acc t)) as Hb' by (rewrite Hl in Hbytes; by apply Forall_app in Hbytes as [? _]).
  assert (Forall is_byte acc) as Hb by (rewrite He in Hb'; by apply Forall_app in Hb' as [? _]).
  change (stream (t :: ts)) with (token_bytes t ++ stream ts).
  rewrite decompress_token by (try done; rewrite Hl, length_app in Hlen; lia). unfold decode_next.
  destruct ts as [|t' ts].
  - unfold stream. simpl. by rewrite !app_nil_r, Z.ltb_irrefl.
  - pose proof (stream_nonempty (t' :: ts) ltac:(done)).
    destruct (Z.ltb_spec (Zlen (pre ++ token_bytes t)) (Zlen (pre ++ token_bytes t ++ stream (t' :: ts))))
      as [_|Hc]; [|rewrite !length_app in Hc; lia].
    set (n := (length (expand acc t) - length acc)%nat).
    assert (length (expand acc t) = length acc + n)%nat by (subst n; rewrite He, length_app; lia).
    assert (n <= length R)%nat by (rewrite Hl, length_app in Hlen; lia).
    rewrite app_assoc. replace (Zlen acc + Zlen R) with (Zlen (expand acc t) + Zlen (drop n R))
      by (rewrite length_drop; lia).
    rewrite IH; try done; [|simpl in Hfuel |- *; lia|rewrite length_drop; lia].
    rewrite drop_drop. do 4 f_equal. rewrite Hl, length_app. lia.
Qed.

Lemma decompress_stream ts R : ts <> [] -> tokens_ok [] ts -> Forall is_byte (foldl expand [] ts) ->
  Zlen (foldl expand [] ts) <= Zlen R ->
  lzf_decompress (stream ts) (Zlen (stream ts)) R (Zlen R) =
    Some (DOk (Zlen (foldl expand [] ts))
      (outblock (foldl expand [] ts) (drop (length (foldl expand [] ts)) R))).
Proof.
  intros Hne Hok Hb Hl. unfold lzf_decompress.
  assert (length ts <= S (Z.to_nat (Zlen (stream ts))))%nat as Hf.
  { assert (length ts <= length (stream ts))%nat; [|lia].
    clear. induction ts as [|t ts IH]; [done|].
    change (stream (t :: ts)) with (token_bytes t ++ stream ts). rewrite length_app. simpl length.
    pose proof (token_bytes_nonempty t). destruct (token_bytes t); [done|]. simpl length. lia. }
  pose proof (decompress_loop_spec ts _ [] [] R Hne Hf Hok Hb ltac:(simpl length; lia)) as E.
  rewrite Nat.sub_0_r in E. exact E.
Qed.

(** ** The compressor writes a well-formed stream of its input *)

Lemma expand_ref_take inp off n ip : 0 <= off < ip -> ip + Z.of_nat n <= Zlen inp ->
  (forall k, 0 <= k < Z.of_nat n -> rd inp (ip - off - 1 + k) = rd inp (ip + k)) ->
  expand_ref n off (take (Z.to_nat ip) inp) = take (Z.to_nat ip + n) inp.
Proof.
  intros Hoff Hle Heq. induction n as [|n IH]; [by rewrite Nat.add_0_r|].
  rewrite expand_ref_S_r, IH by (lia || (intros; apply Heq; lia)).
  destruct (lookup_lt_is_Some_2 inp (Z.to_nat ip + n) ltac:(lia)) as [c Hc].
  rewrite Nat.add_succ_r, (take_S_r _ _ _ Hc). f_equal. f_equal.
  specialize (Heq (Z.of_nat n) ltac:(lia)).
  rewrite length_take, Nat.min_l by lia.
  replace (Z.to_nat (Z.of_nat (Z.to_nat ip + n) - off - 1)) with (Z.to_nat (ip - off - 1) + n)%nat by lia.
  apply nth_lookup_Some. rewrite lookup_take_lt by lia.
  rewrite <- Hc, <- !rd_lookup.
  replace (Z.of_nat (Z.to_nat (ip - off - 1) + n)) with (ip - off - 1 + Z.of_nat n) by lia.
  rewrite Heq. f_equal. lia.
Qed.

Section CompressProof.
Context (h0 : Z -> Z) (inp : list Z) (Hinp : Forall is_byte inp).

Lemma rd_inp i : 0 <= i < Zlen inp -> exists c, rd inp i = Some c /\ is_byte c.
Proof.
  intros Hi. unfold rd. destruct (Z.leb_spec 0 i); [|lia].
  destruct (lookup_lt_is_Some_2 inp (Z.to_nat i) ltac:(lia)) as [c Hc]. exists c. split; [done|].
  by eapply Forall_lookup_1 in Hinp.
Qed.

(** [n] octets from [ref] and from [ip] agree. *)
Definition agree (ref ip n : Z) : Prop := forall k, 0 <= k < n -> rd inp (ref + k) = rd inp (ip + k).

Lemma agree_step ref ip n a : agree ref ip n -> rd inp (ref + n) = Some a -> rd inp (ip + n) = Some a ->
  agree ref ip (n + 1).
Proof.
  intros H Ha Hb k Hk. destruct (Z.eq_dec k n) as [->|]; [congruence|]. apply H. lia.
Qed.

(** The last position compared equal to its counterpart. *)
Lemma match_tail_spec fuel : forall ref ip len maxlen, 0 <= ref < ip -> 0 <= len ->
  agree ref ip (len + 1) -> ip + len + 1 <= Zlen inp -> ip + maxlen <= Zlen inp ->
  Z.max 0 (maxlen - len) < Z.of_nat fuel ->
  exists len', match_tail fuel inp ref ip len maxlen = Some len' /\
    len + 1 <= len' <= Z.max (len + 1) maxlen /\ agree ref ip len'.
Proof.
  induction fuel as [|fuel IH]; intros ref ip len maxlen Href Hlen Hag Hip Hmax Hf; [lia|].
  cbn [match_tail]. destruct (Z.ltb_spec (len + 1) maxlen).
  - destruct (rd_inp (ref + (len + 1)) ltac:(lia)) as (a & Ha & _).
    destruct (rd_inp (ip + (len + 1)) ltac:(lia)) as (b & Hb & _).
    rewrite Ha, Hb. cbn [mbind option_bind]. destruct (Z.eqb_spec a b) as [->|].
    + destruct (IH ref ip (len + 1) maxlen) as (l' & -> & Hl & Hag'); try lia.
      { by eapply agree_step. }
      exists l'. split_and!; done || lia.
    + exists (len + 1). split_and!; done || lia.
  - exists (len + 1). split_and!; done || lia.
Qed.

Lemma match_unrolled_spec n : forall ref ip len, 0 <= ref < ip -> 0 <= len ->
  agree ref ip (len + 1) -> ip + len + Z.of_nat n < Zlen inp ->
  exists r, match_unrolled n inp ref ip len = Some r /\
    match r with
    | inl len' => len + 1 <= len' <= len + Z.of_nat n /\ agree ref ip len'
    | inr len' => len' = len + Z.of_nat n /\ agree ref ip (len' + 1)
    end.
Proof.
  induction n as [|n IH]; intros ref ip len Href Hlen Hag Hip; cbn [match_unrolled].
  { exists (inr len). split; [done|]. split; [lia|done]. }
  destruct (rd_inp (ref + (len + 1)) ltac:(lia)) as (a & Ha & _).
  destruct (rd_inp (ip + (len + 1)) ltac:(lia)) as (b & Hb & _).
  rewrite Ha, Hb. cbn [mbind option_bind]. destruct (Z.eqb_spec a b) as [->|].
  - destruct (IH ref ip (len + 1)) as (r & -> & Hr); try lia.
    { by eapply agree_step. }
    exists r. split; [done|]. destruct r as [len'|len'].
    + destruct Hr as [Hr ?]. split; [lia|done].
    + destruct Hr as [-> ?]. split; [lia|done].
  - exists (inl (len + 1)). split; [done|]. split; [lia|done].
Qed.

Lemma match_len_spec ref ip maxlen : 0 <= ref < ip -> agree ref ip 3 ->
  1 <= maxlen <= MAX_REF -> ip + 2 + maxlen <= Zlen inp ->
  exists len, match_len inp ref ip maxlen = Some len /\ 3 <= len <= MAX_REF /\
    ip + len <= Zlen inp /\ agree ref ip len.
Proof.
  unfold MAX_REF. simpl Z.pow. intros Href Hag Hm Hip. unfold match_len. rewrite Z.gtb_ltb.
  destruct (Z.ltb_spec 16 maxlen).
  - destruct (match_unrolled_spec 16 ref ip 2) as (r & -> & Hr); try done; try lia.
    cbn [mbind option_bind]. destruct r as [len|len].
    + destruct Hr as [Hr ?]. exists len. split_and!; done || lia.
    + destruct Hr as [-> Hag'].
      destruct (match_tail_spec (S (Z.to_nat maxlen)) ref ip (2 + Z.of_nat 16) maxlen) as (l & -> & Hl & ?);
        try done; try lia.
      exists l. split_and!; done || lia.
  - destruct (match_tail_spec (S (Z.to_nat maxlen)) ref ip 2 maxlen) as (l & -> & Hl & ?); try done; try lia.
    exists l. split_and!; done || lia.
Qed.

Lemma find_match_spec ip ref : 0 <= ref < 2 ^ 32 -> 0 <= ip < 2 ^ 32 -> ip + 2 < Zlen inp ->
  exists r, find_match inp ip ref = Some r /\
    forall off, r = Some off -> off = ip - ref - 1 /\ 0 <= off < MAX_OFF /\ 0 < ref /\ agree ref ip 3.
Proof.
  intros Href Hip Hn. unfold find_match.
  destruct (Z.ltb_spec (u64 (ip - ref - 1)) MAX_OFF) as [Ho|]; [|by exists None].
  rewrite Z.gtb_ltb. destruct (Z.ltb_spec 0 ref); [|by exists None]. cbn [andb].
  assert (u64 (ip - ref - 1) = ip - ref - 1 /\ ref < ip) as [E Hlt].
  { unfold MAX_OFF, wrapu in *. destruct (Z.ltb_spec ref ip).
    - rewrite Z.mod_small by lia. done.
    - exfalso. rewrite <- (Z.mod_add (ip - ref - 1) 1) in Ho by lia. rewrite Z.mod_small in Ho by lia. lia. }
  rewrite E in *.
  destruct (rd_inp (ref + 2) ltac:(lia)) as (r2 & R2 & _). destruct (rd_inp (ip + 2) ltac:(lia)) as (i2 & I2 & _).
  destruct (rd_inp ref ltac:(lia)) as (r0 & R0 & _). destruct (rd_inp ip ltac:(lia)) as (i0 & I0 & _).
  destruct (rd_inp (ref + 1) ltac:(lia)) as (r1 & R1 & _). destruct (rd_inp (ip + 1) ltac:(lia)) as (i1 & I1 & _).
  rewrite R2, I2. cbn [mbind option_bind]. destruct (Z.eqb_spec r2 i2) as [->|]; [|by exists None].
  rewrite R0, R1, I0, I1. cbn [mbind option_bind].
  destruct (Z.eqb_spec r0 i0) as [->|], (Z.eqb_spec r1 i1) as [->|]; cbn [andb]; try by exists None.
  exists (Some (ip - ref - 1)). split; [done|]. intros off [= <-]. split_and!; try lia.
  intros k Hk. assert (k = 0 \/ k = 1 \/ k = 2) as [->|[->| ->]] by lia; rewrite ?Z.add_0_r; congruence.
Qed.

(** *** The state of the output

    [good ts ip op out lit]: the complete tokens [ts] encode the input up to
    the [lit] pending literals before [ip]; the cell after the tokens is kept
    for the header of the pending run. *)
Record good (ts : list token) (ip op : Z) (out : block) (lit : Z) : Prop := {
  g_ok : tokens_ok [] ts;
  g_expand : foldl expand [] ts = take (Z.to_nat (ip - lit)) inp;
  g_lit : 0 <= lit < MAX_LIT;
  g_ip : lit <= ip <= Zlen inp;
  g_op : op = Zlen (stream ts) + 1 + lit;
  g_cost : 32 * Zlen (stream ts) <= 33 * (ip - lit);
  g_out : exists X, out = outblock (stream ts) X /\
    (X = [] /\ lit = 0 \/ exists x R, X = x :: (Some <$> slice inp (ip - lit) lit) ++ R)
}.

Lemma tokens_ok_app acc ts t : tokens_ok acc ts -> token_ok (foldl expand acc ts) t -> tokens_ok acc (ts ++ [t]).
Proof.
  revert acc. induction ts as [|t' ts IH]; intros acc; simpl; [done|]. intros [? ?] ?. split; [done|]. by apply IH.
Qed.

Lemma stream_app ts t : stream (ts ++ [t]) = stream ts ++ token_bytes t.
Proof. unfold stream. rewrite fmap_app, concat_app. simpl. by rewrite app_nil_r. Qed.

Lemma slice_snoc i n c : 0 <= i -> 0 <= n -> rd inp (i + n) = Some c ->
  slice inp i (n + 1) = slice inp i n ++ [c].
Proof.
  intros Hi Hn Hc. unfold slice. rewrite Z2Nat.inj_add by lia. change (Z.to_nat 1) with 1%nat.
  rewrite Nat.add_1_r. apply take_S_r. rewrite lookup_drop.
  unfold rd in Hc. destruct (Z.leb_spec 0 (i + n)); [|done]. rewrite <- Hc. f_equal. lia.
Qed.

Lemma length_slice {A} (l : list A) i n : 0 <= i -> 0 <= n -> i + n <= Zlen l -> Zlen (slice l i n) = n.
Proof. intros. unfold slice. rewrite length_take, length_drop. lia. Qed.

Lemma take_slice {A} (l : list A) i n : 0 <= i -> 0 <= n ->
  take (Z.to_nat i) l ++ slice l i n = take (Z.to_nat (i + n)) l.
Proof.
  intros. unfold slice. rewrite Z2Nat.inj_add by lia. apply take_take_drop.
Qed.

(** Closing a non-empty run of literals. *)
Lemma stop_run_spec ts ip op out lit : good ts ip op out lit -> 0 < lit ->
  exists X, stop_run out op lit = Some (outblock (stream (ts ++ [TLit (slice inp (ip - lit) lit)])) X) /\
    length out = length (outblock (stream (ts ++ [TLit (slice inp (ip - lit) lit)])) X) /\
    tokens_ok [] (ts ++ [TLit (slice inp (ip - lit) lit)]) /\
    foldl expand [] (ts ++ [TLit (slice inp (ip - lit) lit)]) = take (Z.to_nat ip) inp /\
    op = Zlen (stream (ts ++ [TLit (slice inp (ip - lit) lit)])).
Proof.
  intros [Hok Hexp Hlit Hip Hop Hcost (X & -> & HX)] Hl. unfold MAX_LIT in Hlit. simpl Z.pow in Hlit.
  destruct HX as [[_ ?]|(x & R & ->)]; [lia|].
  pose proof (length_slice inp (ip - lit) lit ltac:(lia) ltac:(lia) ltac:(lia)) as HL.
  set (L := slice inp (ip - lit) lit) in *. exists R.
  assert (stream (ts ++ [TLit L]) = stream ts ++ (lit - 1) :: L) as ES
    by (rewrite stream_app; simpl; by rewrite HL).
  split_and!.
  - unfold stop_run. replace (op - lit - 1) with (Zlen (stream ts)) by lia.
    rewrite store8_outblock by (try done; unfold is_byte; lia).
    rewrite ES. unfold outblock. f_equal. by rewrite !fmap_app, fmap_cons, <- !app_assoc.
  - rewrite ES. unfold outblock. rewrite !length_app, !length_fmap, !length_app. simpl. rewrite length_app, length_fmap. lia.
  - apply tokens_ok_app; [done|]. simpl. lia.
  - rewrite foldl_app, Hexp. simpl. subst L. rewrite take_slice by lia. f_equal. lia.
  - rewrite ES, length_app. simpl. lia.
Qed.

Lemma put_literal_spec ts ip op out lit : good ts ip op out lit -> ip < Zlen inp -> op < Zlen out ->
  exists ts' out' lit', put_literal inp ip out op lit =
      Some (ip + 1, out', if lit + 1 =? MAX_LIT then op + 2 else op + 1, lit') /\
    good ts' (ip + 1) (if lit + 1 =? MAX_LIT then op + 2 else op + 1) out' lit' /\
    length out' = length out /\ lit' = (if lit + 1 =? MAX_LIT then 0 else lit + 1).
Proof.
  intros [Hok Hexp Hlit Hip Hop Hcost (X & -> & HX)] Hlt Hspace.
  destruct (rd_inp ip ltac:(lia)) as (c & Hc & Hb). unfold put_literal. rewrite Hc. cbn [mbind option_bind].
  unfold outblock in Hspace. rewrite length_app, length_fmap in Hspace.
  pose proof (length_slice inp (ip - lit) lit ltac:(lia) ltac:(lia) ltac:(lia)) as HL.
  assert (exists x y R, X = x :: (Some <$> slice inp (ip - lit) lit) ++ y :: R) as (x & y & R & ->).
  { destruct HX as [[-> ->]|(x & R & ->)]; [simpl in Hspace; lia|].
    simpl in Hspace. rewrite length_app, length_fmap in Hspace.
    destruct R as [|y R]; [simpl in Hspace; lia|]. by exists x, y, R. }
  set (L := slice inp (ip - lit) lit) in *.
  assert (slice inp (ip - lit) (lit + 1) = L ++ [c]) as HL'.
  { subst L. apply slice_snoc; [lia|lia|]. by replace (ip - lit + lit) with ip by lia. }
  assert (store8 (outblock (stream ts) (x :: (Some <$> L) ++ y :: R)) op c =
    Some (outblock (stream ts) (x :: (Some <$> L ++ [c]) ++ R))) as ->.
  { unfold store8, outblock. rewrite (wrapu_id 8) by done.
    replace ((Some <$> stream ts) ++ x :: (Some <$> L) ++ y :: R)
      with (((Some <$> stream ts) ++ x :: (Some <$> L)) ++ [y] ++ R) by (by rewrite <- app_assoc).
    rewrite store_app; [|rewrite length_app, length_fmap; simpl; rewrite length_fmap; lia|done].
    f_equal. by rewrite <- app_assoc, fmap_app, <- !app_comm_cons, <- app_assoc. }
  cbn [mbind option_bind]. set (out1 := outblock (stream ts) (x :: (Some <$> L ++ [c]) ++ R)).
  assert (length out1 = length (outblock (stream ts) (x :: (Some <$> L) ++ y :: R))) as Hlen.
  { subst out1. unfold outblock. rewrite !length_app. simpl. rewrite !length_app, !length_fmap, !length_app. simpl. lia. }
  assert (lit + 1 < MAX_LIT -> good ts (ip + 1) (op + 1) out1 (lit + 1)) as Hgood.
  { intros. constructor; try done; [|lia..|].
    - rewrite Hexp. f_equal. lia.
    - eexists. split; [done|]. right. exists x, R. rewrite <- HL'. do 4 f_equal. lia. }
  destruct (Z.eqb_spec (lit + 1) MAX_LIT) as [Hmax|Hmax].
  2: { exists ts, out1, (lit + 1). split; [done|]. split; [apply Hgood; lia|]. done. }
  (* the run is full: close it *)
  set (ts' := ts ++ [TLit (L ++ [c])]).
  pose proof (length_slice inp (ip - lit) (lit + 1) ltac:(lia) ltac:(lia) ltac:(lia)) as HLL. rewrite HL' in HLL.
  unfold MAX_LIT in *. simpl Z.pow in *.
  assert (stream ts' = stream ts ++ 31 :: L ++ [c]) as ES.
  { subst ts'. rewrite stream_app. simpl. rewrite HLL. by replace (lit + 1 - 1) with 31 by lia. }
  assert (stop_run out1 (op + 1) (lit + 1) = Some (outblock (stream ts') R)) as ->.
  { unfold stop_run. replace (op + 1 - (lit + 1) - 1) with (Zlen (stream ts)) by lia.
    subst out1. rewrite store8_outblock by (try done; unfold is_byte; lia).
    rewrite ES. replace (lit + 1 - 1) with 31 by lia. unfold outblock. f_equal.
    change (31 :: L ++ [c]) with ([31] ++ L ++ [c]). by rewrite !fmap_app, <- !app_assoc. }
  cbn [mbind option_bind]. exists ts', (outblock (stream ts') R), 0. split; [do 3 f_equal; lia|]. split_and!; [| |done].
  - constructor.
    + subst ts'. apply tokens_ok_app; [done|]. simpl. lia.
    + subst ts'. rewrite foldl_app, Hexp. simpl. rewrite <- HL', take_slice by lia. f_equal. lia.
    + unfold MAX_LIT. simpl. lia.
    + lia.
    + rewrite ES, !length_app. simpl. rewrite length_app in HLL |- *. simpl in *. lia.
    + rewrite ES, !length_app. simpl. rewrite length_app in HLL |- *. simpl in *. lia.
    + exists R. split; [done|]. destruct R as [|r R]; [by left|right]. by exists r, R.
  - rewrite <- Hlen, ES. subst out1. unfold outblock. rewrite !length_app, !length_fmap. simpl.
    rewrite !length_app, !length_fmap, !length_app. simpl. lia.
Qed.

Lemma store8_outblock_u8 acc x R v op : op = Zlen acc ->
  store8 (outblock acc (x :: R)) op v = Some (outblock (acc ++ [u8 v]) R).
Proof.
  intros ->. pose proof (store8_outblock acc x R (u8 v) (Zlen acc) eq_refl (wrapu_range 8 v ltac:(lia))) as H.
  unfold store8 in *. by rewrite (wrapu_id 8 (u8 v)) in H by (apply (wrapu_range 8); lia).
Qed.

Lemma put_ref_spec acc X op off len : op = Zlen acc -> 0 <= off < MAX_OFF -> 1 <= len <= 262 -> 3 <= Zlen X ->
  exists X', put_ref (outblock acc X) op off len =
      Some (outblock (acc ++ token_bytes (TRef off len)) X', op + Zlen (token_bytes (TRef off len))) /\
    Zlen X' = Zlen X - Zlen (token_bytes (TRef off len)).
Proof.
  unfold MAX_OFF. simpl Z.pow. intros -> Hoff Hlen HX.
  destruct X as [|x1 [|x2 [|x3 X]]]; try (simpl in HX; lia).
  unfold put_ref. rewrite !Z.shiftr_div_pow2, !Z.shiftl_mul_pow2 by lia. simpl token_bytes.
  change (2 ^ 8) with 256. change (2 ^ 5) with 32. change (7 * 32) with 224.
  assert (0 <= off / 256 < 32) by (Z.to_euclidean_division_equations; lia).
  destruct (Z.ltb_spec len 7).
  - exists (x3 :: X). split; [|simpl; lia].
    rewrite store8_outblock by (try done; unfold is_byte; lia). cbn [mbind option_bind].
    rewrite store8_outblock_u8 by (rewrite length_app; simpl; lia). cbn [mbind option_bind].
    by rewrite <- app_assoc.
  - exists X. split; [|simpl; lia].
    rewrite store8_outblock by (try done; unfold is_byte; lia). cbn [mbind option_bind].
    rewrite store8_outblock by (try (rewrite length_app; simpl); try (unfold is_byte); lia). cbn [mbind option_bind].
    rewrite store8_outblock_u8 by (rewrite !length_app; simpl; lia). cbn [mbind option_bind].
    by rewrite <- !app_assoc.
Qed.

(** The header slot of an empty run is given back. *)
Lemma close_run ts ip op out lit : good ts ip op out lit -> op <= Zlen out ->
  exists ts' X, stop_run out op lit = Some (outblock (stream ts') X) /\
    length out = length (outblock (stream ts') X) /\ tokens_ok [] ts' /\
    foldl expand [] ts' = take (Z.to_nat ip) inp /\ op - (if lit =? 0 then 1 else 0) = Zlen (stream ts') /\
    Zlen (stream ts') = Zlen (stream ts) + lit + (if lit =? 0 then 0 else 1).
Proof.
  intros Hg Hsp. destruct (Z.eqb_spec lit 0) as [->|Hl].
  - destruct Hg as [Hok Hexp Hlit Hip Hop Hcost (X & -> & HX)]. unfold outblock in Hsp.
    rewrite length_app, length_fmap in Hsp.
    destruct X as [|x X]; [simpl in Hsp; lia|]. exists ts, (Some 255 :: X).
    assert (stop_run (outblock (stream ts) (x :: X)) op 0 = Some (outblock (stream ts) (Some 255 :: X))) as ->.
    { unfold stop_run. rewrite store8_outblock_u8 by lia. unfold outblock.
      by rewrite fmap_app, <- app_assoc. }
    split_and!; try done.
    + unfold outblock. by rewrite !length_app.
    + rewrite Hexp. f_equal. lia.
    + lia.
    + lia.
  - destruct (stop_run_spec ts ip op out lit Hg ltac:(pose proof (g_lit _ _ _ _ _ Hg); lia))
      as (X & Hs & Hlen & Hok & Hexp & Hop).
    pose proof (g_op _ _ _ _ _ Hg). eexists _, X. split_and!; done || lia.
Qed.

Definition slots_ok (htab : gmap Z Z) : Prop := map_Forall (fun _ v => 0 <= v < 2 ^ 32) htab.

Lemma hslot_range htab i : slots_ok htab -> 0 <= hslot h0 htab i < 2 ^ 32.
Proof.
  intros H. unfold hslot. destruct (htab !! i) as [v|] eqn:E; simpl; [by apply (H i)|].
  apply wrapu_range. lia.
Qed.

Lemma slots_ok_insert htab i v : slots_ok htab -> slots_ok (<[i := u32 v]> htab).
Proof. intros H. apply map_Forall_insert_2; [apply wrapu_range; lia|done]. Qed.

Lemma NEXT_ok v p : 0 <= p -> p + 2 < Zlen inp -> exists h, NEXT v inp p = Some h.
Proof. intros. unfold NEXT. destruct (rd_inp (p + 2) ltac:(lia)) as (c & -> & _). by eexists. Qed.

Lemma FRST_ok p : 0 <= p -> p + 1 < Zlen inp -> exists h, FRST inp p = Some h.
Proof.
  intros. unfold FRST. destruct (rd_inp p ltac:(lia)) as (a & -> & _).
  destruct (rd_inp (p + 1) ltac:(lia)) as (b & -> & _). by eexists.
Qed.

(** The loop invariant. *)
Definition cinv (n : nat) (s : cstate) : Prop :=
  (exists ts, good ts (c_ip s) (c_op s) (c_out s) (c_lit s)) /\ length (c_out s) = n /\ slots_ok (c_htab s).

Lemma compress_match_spec n s ref off : cinv n s -> Zlen inp < 2 ^ 32 -> c_ip s + 2 < Zlen inp ->
  0 < ref -> off = c_ip s - ref - 1 -> 0 <= off < MAX_OFF -> agree ref (c_ip s) 3 ->
  exists r, compress_match inp (Zlen inp) (Z.of_nat n) s ref off = Some r /\
    match r with
    | Continue s' => cinv n s' /\ c_ip s < c_ip s'
    | Break s' => cinv n s' /\ Zlen inp - 2 <= c_ip s'
    | ReturnZero out => length out = n /\ 32 * (Z.of_nat n - 5) <= 33 * Zlen inp
    end.
Proof.
  destruct s as [ip op out lit hval htab]. unfold cinv. simpl. intros [[ts Hg] [<- Hsl]] H32 Hip Href Hoff Hoffr Hag.
  pose proof (g_ip _ _ _ _ _ Hg). pose proof (g_lit _ _ _ _ _ Hg). pose proof (g_op _ _ _ _ _ Hg).
  rewrite (wrapu_id 32) by lia. rewrite !Z.geb_leb, !Z.gtb_ltb.
  set (maxlen := if MAX_REF <? _ then MAX_REF else _).
  assert (1 <= maxlen <= MAX_REF /\ ip + 2 + maxlen <= Zlen inp) as [Hm1 Hm2].
  { subst maxlen. destruct (Z.ltb_spec MAX_REF (Zlen inp - ip - 2)); unfold MAX_REF in *; lia. }
  clearbody maxlen. set (nl := if lit =? 0 then 1 else 0).
  destruct (Z.leb_spec (Zlen out) (op - nl + 3 + 1)) as [Hfull|Hroom].
  { assert (0 <= nl) by (subst nl; destruct (lit =? 0); lia).
    destruct (Z.leb_spec (Zlen out) (op + 3 + 1)); [|lia]. simpl. eexists. split; [done|].
    pose proof (g_cost _ _ _ _ _ Hg). split; [done|]. lia. }
  rewrite andb_false_r.
  destruct (close_run ts ip op out lit Hg ltac:(subst nl; destruct (lit =? 0); lia))
    as (ts' & X & -> & Hlen & Hok & Hexp & Hop & HS).
  fold nl in Hop. cbn [mbind option_bind].
  destruct (match_len_spec ref ip maxlen ltac:(lia) Hag Hm1 Hm2) as (len & -> & Hl & Hle & Hag').
  cbn [mbind option_bind]. unfold outblock in Hlen. rewrite length_app, length_fmap in Hlen.
  unfold MAX_REF in Hl. simpl Z.pow in Hl.
  destruct (put_ref_spec (stream ts') X (op - nl) off (len - 2) Hop Hoffr ltac:(lia) ltac:(lia)) as (X' & -> & HX').
  cbn [mbind option_bind]. rewrite <- stream_app.
  set (ts2 := ts' ++ [TRef off (len - 2)]).
  assert (Zlen (stream ts2) = Zlen (stream ts') + Zlen (token_bytes (TRef off (len - 2)))) as HS2
    by (subst ts2; rewrite stream_app, length_app; lia).
  assert (foldl expand [] ts2 = take (Z.to_nat (ip + len)) inp) as Hexp2.
  { subst ts2. rewrite foldl_app, Hexp. simpl. 
    replace (Z.to_nat (ip + len)) with (Z.to_nat ip + Z.to_nat (len - 2 + 2))%nat by lia.
    apply expand_ref_take; [lia|lia|].
    intros k Hk. rewrite <- (Hag' k ltac:(lia)). f_equal. lia. }
  assert (tokens_ok [] ts2) as Hok2.
  { subst ts2. apply tokens_ok_app; [done|]. rewrite Hexp. simpl. rewrite length_take. unfold MAX_OFF in *.
    simpl Z.pow in *. lia. }
  assert (forall op', op' = Zlen (stream ts2) + 1 -> good ts2 (ip + len) op' (outblock (stream ts2) X') 0) as Hg2.
  { intros op' ->. pose proof (g_cost _ _ _ _ _ Hg).
    assert (Zlen (token_bytes (TRef off (len - 2))) = if len - 2 <? 7 then 2 else 3) as Htb
      by (simpl; by destruct (len - 2 <? 7)).
    constructor; try done; try (unfold MAX_LIT; lia).
    - rewrite Hexp2. f_equal. lia.
    - rewrite HS2, HS, Htb. destruct (lit =? 0), (Z.ltb_spec (len - 2) 7); lia.
    - exists X'. split; [done|]. destruct X' as [|x X']; [by left|right]. by exists x, X'. }
  assert (length (outblock (stream ts2) X') = length out) as Hlen2.
  { unfold outblock. rewrite length_app, length_fmap. lia. }
  replace (ip + 1 + (len - 2 + 1)) with (ip + len) by lia.
  rewrite Z.geb_leb. destruct (Z.leb_spec (Zlen inp - 2) (ip + len)) as [Hend|Hmore].
  - eexists. split; [done|]. split; [|simpl; lia]. split_and!; try done. exists ts2. apply Hg2. cbn [c_op]. lia.
  - destruct (FRST_ok (ip + len - 2) ltac:(lia) ltac:(lia)) as [v1 ->]. cbn [mbind option_bind].
    destruct (NEXT_ok v1 (ip + len - 2) ltac:(lia) ltac:(lia)) as [v2 ->]. cbn [mbind option_bind].
    destruct (NEXT_ok v2 (ip + len - 2 + 1) ltac:(lia) ltac:(lia)) as [v3 ->]. cbn [mbind option_bind].
    eexists. split; [done|]. cbn [c_ip c_op c_out c_lit c_htab]. replace (ip + len - 2 + 1 + 1) with (ip + len) by lia.
    split; [|cbn [c_ip]; lia]. split_and!; try done; [exists ts2; apply Hg2; lia|]. by do 2 apply slots_ok_insert.
Qed.

Lemma compress_step_spec n s : cinv n s -> Zlen inp < 2 ^ 32 -> c_ip s + 2 < Zlen inp ->
  exists r, compress_step h0 inp (Zlen inp) (Z.of_nat n) s = Some r /\
    match r with
    | Continue s' => cinv n s' /\ c_ip s < c_ip s'
    | Break s' => cinv n s' /\ Zlen inp - 2 <= c_ip s'
    | ReturnZero out => length out = n /\ 32 * (Z.of_nat n - 5) <= 33 * Zlen inp
    end.
Proof.
  destruct s as [ip op out lit hval htab]. intros [[ts Hg] [Hn Hsl]] H32 Hip. simpl in *.
  pose proof (g_ip _ _ _ _ _ Hg). pose proof (g_lit _ _ _ _ _ Hg).
  destruct (NEXT_ok hval ip ltac:(lia) ltac:(lia)) as [h ->]. cbn [mbind option_bind].
  set (ref := hslot h0 htab (IDX h)). pose proof (hslot_range htab (IDX h) Hsl : 0 <= ref < _) as Href.
  destruct (find_match_spec ip ref) as (m & -> & Hm); try lia. cbn [mbind option_bind].
  destruct m as [off|].
  - destruct (Hm off eq_refl) as (-> & ? & ? & ?).
    apply (compress_match_spec n (CState ip op out lit h _)); try done.
    split_and!; [by exists ts|done|by apply slots_ok_insert].
  - rewrite Z.geb_leb. destruct (Z.leb_spec (Z.of_nat n) op).
    { eexists. split; [done|]. split; [done|].
      pose proof (g_op _ _ _ _ _ Hg). pose proof (g_cost _ _ _ _ _ Hg). lia. }
    destruct (put_literal_spec ts ip op out lit Hg ltac:(lia) ltac:(lia)) as (ts' & out' & lit' & -> & Hg' & Hl & _).
    cbn [mbind option_bind]. eexists. split; [done|]. simpl. split; [|lia].
    split_and!; [by exists ts'|cbn; lia|by apply slots_ok_insert].
Qed.

Lemma compress_loop_spec n fuel : forall s, cinv n s -> Zlen inp < 2 ^ 32 ->
  Z.max 0 (Zlen inp - c_ip s) < Z.of_nat fuel ->
  exists r, compress_loop h0 fuel inp (Zlen inp) (Z.of_nat n) s = Some r /\
    match r with
    | inl out => length out = n /\ 32 * (Z.of_nat n - 5) <= 33 * Zlen inp
    | inr s' => cinv n s' /\ Zlen inp - 2 <= c_ip s'
    end.
Proof.
  induction fuel as [|fuel IH]; intros s Hs H32 Hf; [lia|]. cbn [compress_loop].
  destruct (Z.ltb_spec (c_ip s) (Zlen inp - 2)); [|by exists (inr s)].
  destruct (compress_step_spec n s Hs H32 ltac:(lia)) as (r & -> & Hr). cbn [mbind option_bind].
  destruct r as [s'|s'|out]; [|by exists (inr s')|by exists (inl out)].
  destruct Hr as [Hs' Hip]. apply IH; try done. lia.
Qed.

Lemma literal_loop_spec fuel : forall ts ip op out lit, good ts ip op out lit ->
  Zlen inp - ip <= 2 -> Zlen inp - ip < Z.of_nat fuel ->
  op + (Zlen inp - ip) + (if MAX_LIT <=? lit + (Zlen inp - ip) then 1 else 0) <= Zlen out ->
  exists ts' out' op' lit', literal_loop fuel inp (Zlen inp) ip out op lit = Some (out', op', lit') /\
    good ts' (Zlen inp) op' out' lit' /\ length out' = length out /\ op' <= Zlen out.
Proof.
  induction fuel as [|fuel IH]; intros ts ip op out lit Hg H2 Hf Hsp; pose proof (g_ip _ _ _ _ _ Hg); [lia|].
  cbn [literal_loop]. pose proof (g_lit _ _ _ _ _ Hg).
  destruct (Z.ltb_spec ip (Zlen inp)).
  - destruct (put_literal_spec ts ip op out lit Hg ltac:(lia)) as (ts' & out' & lit' & -> & Hg' & Hl & Hlit').
    { destruct (MAX_LIT <=? _); lia. }
    cbn [mbind option_bind]. unfold MAX_LIT in *. change (2 ^ 5) with 32 in *.
    destruct (IH _ _ _ _ _ Hg') as (ts2 & out2 & op2 & lit2 & -> & Hg2 & Hl2 & Hop2); try lia.
    { rewrite Hlit', Hl.
      destruct (Z.eqb_spec (lit + 1) 32), (Z.leb_spec 32 (lit + (Zlen inp - ip)));
        repeat match goal with |- context [32 <=? ?e] => destruct (Z.leb_spec 32 e) end; lia. }
    exists ts2, out2, op2, lit2. split_and!; done || lia.
  - assert (ip = Zlen inp) as -> by lia. exists ts, out, op, lit. split_and!; try done.
    destruct (MAX_LIT <=? _); lia.
Qed.

(** What [lzf_compress] writes, when it does not give up. *)
Lemma lzf_compress_spec out : 2 <= Zlen inp < 2 ^ 32 -> 0 < Zlen out ->
  exists clen out', lzf_compress h0 inp (Zlen inp) out (Zlen out) = Some (clen, out') /\
    length out' = length out /\
    (clen = 0 /\ 32 * (Zlen out - 5) <= 33 * Zlen inp \/
     exists ts X, out' = outblock (stream ts) X /\ clen = Zlen (stream ts) /\ tokens_ok [] ts /\
       foldl expand [] ts = inp /\ 32 * clen <= 33 * Zlen inp + 32).
Proof.
  intros Hn Ho. unfold lzf_compress.
  destruct (Z.eqb_spec (Zlen inp) 0), (Z.eqb_spec (Zlen out) 0); try lia. cbn [orb].
  destruct (FRST_ok 0 ltac:(lia) ltac:(lia)) as [h ->]. cbn [mbind option_bind].
  assert (cinv (length out) (CState 0 1 out 0 h ∅)) as H0.
  { split_and!; [|done|apply map_Forall_empty]. exists []. unfold stream. constructor; try done; simpl; try lia.
    exists out. split; [done|]. right. destruct out as [|x R]; [simpl in Ho; lia|]. by exists x, R. }
  destruct (compress_loop_spec (length out) (S (Z.to_nat (Zlen inp))) _ H0) as (r & -> & Hr);
    [lia|simpl; lia|]. cbn [mbind option_bind].
  destruct r as [out'|[ip op out' lit hv ht]].
  { exists 0, out'. destruct Hr. split_and!; try done. by left. }
  destruct Hr as [[[ts Hg] [Hl _]] Hip]. cbn [c_ip c_op c_out c_lit] in *.
  pose proof (g_ip _ _ _ _ _ Hg). pose proof (g_op _ _ _ _ _ Hg). pose proof (g_cost _ _ _ _ _ Hg).
  pose proof (g_lit _ _ _ _ _ Hg).
  rewrite Z.gtb_ltb. destruct (Z.ltb_spec (Zlen out) (op + 3)).
  { exists 0, out'. split_and!; try done. left. split; lia. }
  destruct (literal_loop_spec (S (Z.to_nat (Zlen inp))) ts ip op out' lit Hg) as
    (ts2 & out2 & op2 & lit2 & -> & Hg2 & Hl2 & Hop2); [lia..|destruct (MAX_LIT <=? _); lia|].
  cbn [mbind option_bind].
  destruct (close_run ts2 (Zlen inp) op2 out2 lit2 Hg2 ltac:(lia)) as (ts' & X & -> & Hl' & Hok & Hexp & Hop' & HS).
  cbn [mbind option_bind]. eexists _, _. split; [done|]. split; [congruence|]. right.
  pose proof (g_cost _ _ _ _ _ Hg2). pose proof (g_lit _ _ _ _ _ Hg2).
  exists ts', X. split_and!; try done; [by rewrite Hexp, Nat2Z.id, take_ge by lia|].
  destruct (lit2 =? 0); lia.
Qed.

End CompressProof.

Lemma token_bytes_byte t acc : token_ok acc t -> Forall is_byte (expand acc t) -> Forall is_byte (token_bytes t).
Proof.
  destruct t as [l|off len]; simpl.
  - intros ? [_ ?]%Forall_app. constructor; [unfold is_byte; lia|done].
  - intros (? & _ & ?) _. pose proof (off_split off). pose proof (Z.mod_pos_bound off 256 ltac:(lia)).
    assert (0 <= off / 256 < 32) by (Z.to_euclidean_division_equations; lia).
    destruct (Z.ltb_spec len 7); repeat constructor; unfold is_byte; lia.
Qed.

Lemma slice_outblock acc R : slice (outblock acc R) 0 (Zlen acc) = Some <$> acc.
Proof.
  unfold slice, outblock. change (Z.to_nat 0) with 0%nat. rewrite drop_0, Nat2Z.id.
  rewrite take_app_le by (by rewrite length_fmap). rewrite take_ge; [done|]. rewrite length_fmap. lia.
Qed.

(** ** The theorems *)

(** C7. Compression round trip.  Whatever the uninitialised hash table
    holds ([h0]), [lzf_compress] on an input of at least two octets runs inside
    its buffers and terminates; when it does not give up (result 0), the bytes
    it returned are a stream from which [lzf_decompress] restores exactly the
    input, in any buffer that is large enough. *)
Theorem lzf_roundtrip h0 inp out : Forall is_byte inp -> 2 <= Zlen inp < 2 ^ 32 ->
  exists clen out', lzf_compress h0 inp (Zlen inp) out (Zlen out) = Some (clen, out') /\
    length out' = length out /\ 0 <= clen <= Zlen out /\
    (clen <> 0 -> exists cdata, slice out' 0 clen = Some <$> cdata /\
      forall dst, Zlen inp <= Zlen dst ->
        lzf_decompress cdata clen dst (Zlen dst) =
          Some (DOk (Zlen inp) ((Some <$> inp) ++ drop (length inp) dst))).
Proof.
  intros Hb Hn. destruct (decide (Zlen out = 0)) as [E0|].
  { exists 0, out. unfold lzf_compress. rewrite E0, orb_true_r. split_and!; lia || done. }
  destruct (lzf_compress_spec h0 inp Hb out Hn ltac:(lia)) as (clen & out' & E & Hl & Hc).
  exists clen, out'. split; [done|]. split; [done|]. destruct Hc as [[-> _]|(ts & X & -> & -> & Hok & Hexp & _)].
  { split; [lia|done]. }
  split.
  { unfold outblock in Hl. rewrite length_app, length_fmap in Hl. lia. }
  intros _. exists (stream ts). split; [apply slice_outblock|]. intros dst Hd.
  rewrite decompress_stream; rewrite ?Hexp; try done.
  intros ->. simpl in Hexp. subst inp. simpl in Hn. lia.
Qed.

Definition sample : list Z := concat (replicate 12 [97; 98; 99; 100]) ++ [120; 121].

Lemma lzf_roundtrip_witness : 2 <= Zlen sample < 2 ^ 32 /\
  exists clen out', lzf_compress (fun i => i * 77) sample (Zlen sample) (replicate 40 None) 40 = Some (clen, out') /\
    length out' = 40%nat /\ 0 <= clen <= 40 /\
    (clen <> 0 -> exists cdata, slice out' 0 clen = Some <$> cdata /\
      forall dst, Zlen sample <= Zlen dst ->
        lzf_decompress cdata clen dst (Zlen dst) =
          Some (DOk (Zlen sample) ((Some <$> sample) ++ drop (length sample) dst))).
Proof.
  split; [vm_compute; split; congruence|].
  apply (lzf_roundtrip (fun i => i * 77) sample (replicate 40 None)).
  - apply Forall_forall, list.Forall_forall. repeat constructor; done.
  - vm_compute; split; congruence.
Defined.

(** C29. Compression does not give up for lack of room when the output has
    a spare octet per 32 of input and six more: the result is then never 0. *)
Theorem lzf_compress_room h0 inp out : Forall is_byte inp -> 2 <= Zlen inp < 2 ^ 32 ->
  33 * Zlen inp < 32 * (Zlen out - 5) ->
  exists clen out', lzf_compress h0 inp (Zlen inp) out (Zlen out) = Some (clen, out') /\
    0 < clen /\ 32 * clen <= 33 * Zlen inp + 32.
Proof.
  intros Hb Hn Hroom. destruct (lzf_compress_spec h0 inp Hb out Hn ltac:(lia)) as (clen & out' & E & _ & Hc).
  exists clen, out'. destruct Hc as [[_ ?]|(ts & X & _ & -> & _ & Hexp & Hcost)]; [lia|].
  split_and!; try done. apply stream_nonempty. intros ->. simpl in Hexp. subst inp. simpl in Hn. lia.
Qed.

Lemma lzf_compress_room_witness : 33 * Zlen sample < 32 * (60 - 5) /\
  exists clen out', lzf_compress (fun i => i * 77) sample (Zlen sample) (replicate 60 None) 60 = Some (clen, out') /\
    0 < clen /\ 32 * clen <= 33 * Zlen sample + 32.
Proof.
  split; [vm_compute; congruence|].
  apply (lzf_compress_room (fun i => i * 77) sample (replicate 60 None)); [|vm_compute; split; congruence|vm_compute; congruence].
  apply Forall_forall, list.Forall_forall. repeat constructor; done.
Defined.

(** ** The decompressor on hostile input *)

Section DecompressSafe.
Context (inp : list Z) (Hinp : Forall is_byte inp).

(** Every cell of the prefix written so far holds an octet. *)
Lemma copy_in_safe n ip acc R : 0 <= ip -> ip + Z.of_nat n <= Zlen inp -> Z.of_nat n <= Zlen R ->
  exists l, length l = n /\ Forall is_byte l /\
    copy_in n inp ip (outblock acc R) (Zlen acc) = Some (outblock (acc ++ l) (drop n R)).
Proof.
  intros Hi Hle HR. set (l := slice inp ip (Z.of_nat n)).
  pose proof (length_slice inp ip (Z.of_nat n) Hi ltac:(lia) Hle : Zlen l = _) as Hl.
  assert (inp = take (Z.to_nat ip) inp ++ l ++ drop n (drop (Z.to_nat ip) inp)) as E.
  { subst l. unfold slice. by rewrite Nat2Z.id, take_drop, take_drop. }
  assert (Forall is_byte l) as Hb by (rewrite E in Hinp; by apply Forall_app in Hinp as [_ [? _]%Forall_app]).
  pose proof (copy_in_spec l (take (Z.to_nat ip) inp) (drop n (drop (Z.to_nat ip) inp)) acc R ip (Zlen acc) Hb
    ltac:(rewrite length_take; lia) eq_refl ltac:(lia)) as EC.
  rewrite <- E in EC. assert (length l = n) as En by lia. rewrite En in EC. by exists l.
Qed.

(** What the loop may return. *)
Definition dresult_ok (n : nat) (r : dresult) : Prop :=
  match r with
  | DErr _ => True
  | DOk op out => exists acc R, out = outblock acc R /\ op = Zlen acc /\ Forall is_byte acc /\
      length out = n
  end.

Lemma copy_ref_safe len ref acc R : Forall is_byte acc -> 0 <= ref < Zlen acc -> 0 <= len ->
  len + 2 <= Zlen R ->
  exists l, length l = Z.to_nat (len + 2) /\ Forall is_byte (acc ++ l) /\
    copy_ref len ref (outblock acc R) (Zlen acc) = Some (outblock (acc ++ l) (drop (Z.to_nat (len + 2)) R)).
Proof.
  intros Hb Hr Hl HR. set (off := Zlen acc - ref - 1). set (n := Z.to_nat (len + 2)).
  destruct (expand_ref_prefix n off acc) as [l E]. exists l.
  pose proof (length_expand_ref n off acc) as EL. rewrite E, length_app in EL.
  pose proof (expand_ref_byte n off acc Hb) as EB. rewrite E in EB. split_and!; [lia|done|].
  rewrite (copy_ref_spec len off) by (done || subst off; lia). fold n. by rewrite E.
Qed.

(** The state of the loop at the head of an iteration, [n] being the size of
    the output buffer. *)
Definition loop_safe (fuel n : nat) (ip : Z) : Prop := forall acc R, Forall is_byte acc ->
  (length acc + length R = n)%nat ->
  exists r, (if ip <? Zlen inp
    then decompress_loop fuel inp (Zlen inp) ip (outblock acc R) (Z.of_nat n) (Zlen acc)
    else Some (DOk (Zlen acc) (outblock acc R))) = Some r /\ dresult_ok n r.

Lemma decompress_lit_safe fuel n ip c acc R : Forall is_byte acc -> (length acc + length R = n)%nat ->
  0 <= ip < Zlen inp -> rd inp ip = Some c -> 0 <= c < 32 ->
  (forall ip', ip < ip' -> loop_safe fuel n ip') ->
  exists r, decompress_loop (S fuel) inp (Zlen inp) ip (outblock acc R) (Z.of_nat n) (Zlen acc) = Some r /\
    dresult_ok n r.
Proof.
  intros Hacc Hn Hip Hc H Hnext. cbn [decompress_loop]. rewrite Hc.
  cbn [mbind option_bind]. change (2 ^ 5) with 32. destruct (Z.ltb_spec c 32); [|lia].
  rewrite !Z.gtb_ltb. destruct (Z.ltb_spec (Z.of_nat n) (Zlen acc + (c + 1))); [by eexists|].
  destruct (Z.ltb_spec (Zlen inp) (ip + 1 + (c + 1))); [by eexists|].
  destruct (copy_in_safe (Z.to_nat (c + 1)) (ip + 1) acc R) as (l & Hl & Hb & ->); [lia..|].
  cbn [mbind option_bind].
  replace (Zlen acc + (c + 1)) with (Zlen (acc ++ l)) by (rewrite length_app; lia).
  apply Hnext; [lia|by apply Forall_app|rewrite length_app, length_drop; lia].
Qed.

(** The part of a reference after its length is known. *)
Lemma decompress_ref_tail fuel n len ip ref acc R : Forall is_byte acc -> (length acc + length R = n)%nat ->
  ref < Zlen acc -> 0 <= len -> loop_safe fuel n ip ->
  exists r, (if Zlen acc + len + 2 >? Z.of_nat n then Some (DErr E2BIG) else
    if ref <? 0 then Some (DErr EINVAL) else
    out ← copy_ref len ref (outblock acc R) (Zlen acc);
    if ip <? Zlen inp then decompress_loop fuel inp (Zlen inp) ip out (Z.of_nat n) (Zlen acc + len + 2)
    else Some (DOk (Zlen acc + len + 2) out)) = Some r /\ dresult_ok n r.
Proof.
  intros Hacc Hn Href Hlen Hnext. rewrite Z.gtb_ltb.
  destruct (Z.ltb_spec (Z.of_nat n) (Zlen acc + len + 2)); [by eexists|].
  destruct (Z.ltb_spec ref 0); [by eexists|].
  destruct (copy_ref_safe len ref acc R) as (l & Hl & Hb & ->); [done|lia..|]. cbn [mbind option_bind].
  replace (Zlen acc + len + 2) with (Zlen (acc ++ l)) by (rewrite length_app; lia).
  apply Hnext; [done|rewrite length_app, length_drop; lia].
Qed.

Lemma decompress_ref_safe fuel n ip c acc R : Forall is_byte acc -> (length acc + length R = n)%nat ->
  0 <= ip < Zlen inp -> rd inp ip = Some c -> 32 <= c < 256 ->
  (forall ip', ip < ip' -> loop_safe fuel n ip') ->
  exists r, decompress_loop (S fuel) inp (Zlen inp) ip (outblock acc R) (Z.of_nat n) (Zlen acc) = Some r /\
    dresult_ok n r.
Proof.
  intros Hacc Hn Hip Hc H Hnext. cbn [decompress_loop]. rewrite Hc.
  cbn [mbind option_bind]. change (2 ^ 5) with 32. destruct (Z.ltb_spec c 32); [lia|].
  assert (0 <= Z.shiftr c 5) by (apply Z.shiftr_nonneg; lia).
  assert (0 <= Z.shiftl (Z.land c 31) 8) by (apply Z.shiftl_nonneg, Z.land_nonneg; lia).
  rewrite !Z.geb_leb. destruct (Z.leb_spec (Zlen inp) (ip + 1)); [by eexists|].
  destruct (rd_inp inp Hinp (ip + 1) ltac:(lia)) as (b & Hb & [? ?]).
  destruct (Z.eqb_spec (Z.shiftr c 5) 7) as [E7|E7]; cbn [mbind option_bind andb]; rewrite Hb; cbn [mbind option_bind andb].
  - rewrite Z.geb_leb. destruct (Z.leb_spec (Zlen inp) (ip + 1 + 1)); [by eexists|].
    destruct (rd_inp inp Hinp (ip + 1 + 1) ltac:(lia)) as (d & Hd & [? ?]). rewrite Hd. cbn [mbind option_bind].
    apply decompress_ref_tail; try done; try lia. apply Hnext. lia.
  - apply decompress_ref_tail; try done; try lia. apply Hnext. lia.
Qed.

Lemma decompress_safe fuel n : forall ip acc R, Forall is_byte acc -> (length acc + length R = n)%nat ->
  0 <= ip < Zlen inp -> Zlen inp - ip < Z.of_nat fuel ->
  exists r, decompress_loop fuel inp (Zlen inp) ip (outblock acc R) (Z.of_nat n) (Zlen acc) = Some r /\
    dresult_ok n r.
Proof.
  induction fuel as [|fuel IH]; intros ip acc R Hacc Hn Hip Hf; [lia|].
  assert (forall ip', ip < ip' -> loop_safe fuel n ip') as Hnext.
  { intros ip' Hip' acc' R' Hb' Hn'. destruct (Z.ltb_spec ip' (Zlen inp)); [apply IH; done || lia|].
    eexists. split; [done|]. exists acc', R'. split_and!; try done.
    unfold outblock. by rewrite length_app, length_fmap. }
  destruct (rd_inp inp Hinp ip ltac:(lia)) as (c & Hc & [? ?]). destruct (Z.lt_ge_cases c 32).
  - by apply (decompress_lit_safe fuel n ip c).
  - by apply (decompress_ref_safe fuel n ip c).
Qed.

End DecompressSafe.

(** C12. Decompression of arbitrary bytes is memory safe and terminates:
    whatever the non-empty input (corrupt, truncated or hostile) and whatever
    the size and content of the output buffer, [lzf_decompress] never reads or
    writes outside its buffers, never reads an uninitialised octet of the
    output, and ends with an error or with a length bounded by the buffer, the
    octets up to it all written. *)
Theorem lzf_decompress_safe inp out : Forall is_byte inp -> 1 <= Zlen inp ->
  exists r, lzf_decompress inp (Zlen inp) out (Zlen out) = Some r /\
    match r with
    | DErr _ => True
    | DOk op out' => 0 <= op <= Zlen out /\ length out' = length out /\
        exists data, Forall is_byte data /\ slice out' 0 op = Some <$> data
    end.
Proof.
  intros Hb Hn. destruct (decompress_safe inp Hb (S (Z.to_nat (Zlen inp))) (length out) 0 [] out
    ltac:(done) eq_refl ltac:(lia) ltac:(lia)) as (r & E & Hr).
  exists r. split; [done|]. destruct r as [op out'|]; [|done].
  destruct Hr as (acc & R & -> & -> & Hacc & Hl). split; [|split; [done|]].
  - unfold outblock in Hl. rewrite length_app, length_fmap in Hl. lia.
  - exists acc. split; [done|]. apply slice_outblock.
Qed.

Lemma lzf_decompress_safe_witness : 1 <= Zlen [2; 97; 98; 99; 224; 5; 200] /\
  exists r, lzf_decompress [2; 97; 98; 99; 224; 5; 200] (Zlen [2; 97; 98; 99; 224; 5; 200])
      (replicate 30 None) (Zlen (replicate 30 (None : option Z))) = Some r /\
    match r with
    | DErr _ => True
    | DOk op out' => 0 <= op <= Zlen (replicate 30 (None : option Z)) /\
        length out' = length (replicate 30 (None : option Z)) /\
        exists data, Forall is_byte data /\ slice out' 0 op = Some <$> data
    end.
Proof.
  split; [vm_compute; congruence|].
  apply (lzf_decompress_safe [2; 97; 98; 99; 224; 5; 200] (replicate 30 None)); [|vm_compute; congruence].
  repeat constructor; done.
Defined.
