(* ===== verification/Dict.v ===== *)
(** Hash tables with incremental rehashing: [dict.c] and [dict.h].

    The callbacks of a [dictType] are the fields of a record; keys and values
    are the types [K] and [V] of the pointers the C code stores.  A bucket's
    linked list is the list of its entries in order, a table is the list of its
    buckets, and an entry pointer returned to the caller is the entry's position
    ([entry_pos]).  Every table access is checked, so that a result [Some] means
    that no access left its table and no assertion failed.  The module-level
    variables [dict_can_resize] and [dict_hash_function_seed] are arguments. *)

From Stdlib Require Import Sorted.
From S2P Require Import Prelude Endian.

(** ** Hash functions *)

Definition dictIntHashFunction (key : Z) : Z :=
  let key := u32 (key + Z.lnot (u32 (Z.shiftl key 15))) in
  let key := Z.lxor key (Z.shiftr key 10) in
  let key := u32 (key + u32 (Z.shiftl key 3)) in
  let key := Z.lxor key (Z.shiftr key 6) in
  let key := u32 (key + Z.lnot (u32 (Z.shiftl key 11))) in
  Z.lxor key (Z.shiftr key 16).

Section HashFunctions.
Context {HOST : Host} (dict_hash_function_seed : Z).

Definition murmur_m : Z := 0x5bd1e995.

(** The loop over 4 bytes at a time; it leaves the last 0 to 3 bytes. *)
Fixpoint murmur_loop (data : list Z) (h : Z) : Z * list Z :=
  match data with
  | a :: b :: c :: d :: rest =>
    let k := host_val [a; b; c; d] in
    let k := u32 (k * murmur_m) in
    let k := Z.lxor k (Z.shiftr k 24) in
    let k := u32 (k * murmur_m) in
    let h := u32 (h * murmur_m) in
    murmur_loop rest (Z.lxor h k)
  | _ => (h, data)
  end.

Definition murmur_tail (data : list Z) (h : Z) : Z :=
  match data with
  | [a; b; c] =>
    u32 (Z.lxor (Z.lxor (Z.lxor h (Z.shiftl c 16)) (Z.shiftl b 8)) a * murmur_m)
  | [a; b] => u32 (Z.lxor (Z.lxor h (Z.shiftl b 8)) a * murmur_m)
  | [a] => u32 (Z.lxor h a * murmur_m)
  | _ => h
  end.

(** [key] is the [len] bytes at the pointer. *)
Definition dictGenHashFunction (key : list Z) : Z :=
  let '(h, data) := murmur_loop key (Z.lxor dict_hash_function_seed (u32 (Zlen key))) in
  let h := murmur_tail data h in
  let h := Z.lxor h (Z.shiftr h 13) in
  let h := u32 (h * murmur_m) in
  Z.lxor h (Z.shiftr h 15).

Definition tolower (c : Z) : Z := if (65 <=? c) && (c <=? 90) then c + 32 else c.

Definition dictGenCaseHashFunction (buf : list Z) : Z :=
  foldl (fun hash c => u32 (u32 (u32 (Z.shiftl hash 5) + hash) + tolower c)) dict_hash_function_seed buf.

End HashFunctions.

(** ** Data *)

Record dictType (K V : Type) := {
  hashFunction : K -> Z;
  keyDup : option (K -> K);
  valDup : option (V -> V);
  keyCompare : option (K -> K -> bool);
  keyDestructor : bool;
  valDestructor : bool
}.
Arguments hashFunction {K V}. Arguments keyDup {K V}. Arguments valDup {K V}.
Arguments keyCompare {K V}. Arguments keyDestructor {K V}. Arguments valDestructor {K V}.

(** [de_val] is [None] between [dictAddRaw] and the caller's [dictSetVal]. *)
Record dictEntry (K V : Type) := DictEntry { de_key : K; de_val : option V }.
Arguments DictEntry {K V}. Arguments de_key {K V}. Arguments de_val {K V}.

Record dictht (K V : Type) := Dictht {
  ht_table : list (list (dictEntry K V)); ht_size : Z; ht_sizemask : Z; ht_used : Z
}.
Arguments Dictht {K V}. Arguments ht_table {K V}. Arguments ht_size {K V}.
Arguments ht_sizemask {K V}. Arguments ht_used {K V}.

Record dict (K V : Type) := Dict {
  ht0 : dictht K V; ht1 : dictht K V; rehashidx : Z; iterators : Z
}.
Arguments Dict {K V}. Arguments ht0 {K V}. Arguments ht1 {K V}.
Arguments rehashidx {K V}. Arguments iterators {K V}.

(** What the destructors are called on. *)
Inductive event (K V : Type) := FreeKey (k : K) | FreeVal (v : option V).
Arguments FreeKey {K V}. Arguments FreeVal {K V}.

Record entry_pos := EntryPos { ep_table : bool; ep_idx : Z; ep_nth : nat }.

Definition DICT_OK : Z := 0.
Definition DICT_ERR : Z := 1.
Definition DICT_HT_INITIAL_SIZE : Z := 4.
Definition LONG_MAX : Z := 2 ^ 63 - 1.
Definition dict_force_resize_ratio : Z := 5.

(** [table[i]], and [table[i] = b]. *)
Definition tget {A} (t : list A) (i : Z) : option A := if 0 <=? i then t !! Z.to_nat i else None.
Definition tset {A} (t : list A) (i : Z) (b : A) : option (list A) :=
  _ ← tget t i; Some (<[Z.to_nat i := b]> t).

Section Dict.
Context {K V : Type} `{EqDecision K} (T : dictType K V) (dict_can_resize : bool).
Implicit Types (d : dict K V) (h : dictht K V) (e : dictEntry K V) (b : list (dictEntry K V)).

Definition dictIsRehashing d : bool := negb (rehashidx d =? -1).
Definition dictSize d : Z := u64 (ht_used (ht0 d) + ht_used (ht1 d)).

(** [&d->ht[table]] *)
Definition get_ht d (table : bool) : dictht K V := if table then ht1 d else ht0 d.
Definition set_ht d (table : bool) (h : dictht K V) : dict K V :=
  if table then Dict (ht0 d) h (rehashidx d) (iterators d)
  else Dict h (ht1 d) (rehashidx d) (iterators d).
Definition set_bucket h (i : Z) b : option (dictht K V) :=
  t ← tset (ht_table h) i b; Some (Dictht t (ht_size h) (ht_sizemask h) (ht_used h)).
Definition add_used h (n : Z) : dictht K V :=
  Dictht (ht_table h) (ht_size h) (ht_sizemask h) (u64 (ht_used h + n)).

Definition dictHashKey (k : K) : Z := u32 (hashFunction T k).
Definition dictCompareKeys (k1 k2 : K) : bool :=
  match keyCompare T with Some f => f k1 k2 | None => bool_decide (k1 = k2) end.

Definition dictFreeKey e : list (event K V) := if keyDestructor T then [FreeKey (de_key e)] else [].
Definition dictFreeVal e : list (event K V) := if valDestructor T then [FreeVal (de_val e)] else [].

(** ** Creation and sizes *)

Definition _dictReset : dictht K V := Dictht [] 0 0 0.
Definition _dictInit : dict K V := Dict _dictReset _dictReset (-1) 0.
Definition dictCreate : dict K V := _dictInit.

Fixpoint nextPower_loop (fuel : nat) (i size : Z) : option Z :=
  match fuel with
  | O => None
  | S fuel => if i >=? size then Some i else nextPower_loop fuel (u64 (i * 2)) size
  end.

Definition _dictNextPower (size : Z) : option Z :=
  if size >=? LONG_MAX then Some LONG_MAX else nextPower_loop 64 DICT_HT_INITIAL_SIZE size.

Definition dictExpand d (size : Z) : option (dict K V * Z) :=
  realsize ← _dictNextPower size;
  if dictIsRehashing d || (ht_used (ht0 d) >? size) then Some (d, DICT_ERR) else
  if realsize =? ht_size (ht0 d) then Some (d, DICT_ERR) else
  (* zcalloc takes a size_t number of bytes *)
  let n := Dictht (replicate (Z.to_nat (u64 (realsize * 8) / 8)) []) realsize (u64 (realsize - 1)) 0 in
  match ht_table (ht0 d) with
  | [] => Some (Dict n (ht1 d) (rehashidx d) (iterators d), DICT_OK)
  | _ => Some (Dict (ht0 d) n 0 (iterators d), DICT_OK)
  end.

Definition dictResize d : option (dict K V * Z) :=
  if negb dict_can_resize || dictIsRehashing d then Some (d, DICT_ERR) else
  let minimal := s32 (ht_used (ht0 d)) in
  let minimal := if minimal <? DICT_HT_INITIAL_SIZE then DICT_HT_INITIAL_SIZE else minimal in
  dictExpand d (u64 minimal).

Definition _dictExpandIfNeeded d : option (dict K V * Z) :=
  if dictIsRehashing d then Some (d, DICT_OK) else
  if ht_size (ht0 d) =? 0 then dictExpand d DICT_HT_INITIAL_SIZE else
  if (ht_used (ht0 d) >=? ht_size (ht0 d)) &&
     (dict_can_resize || (ht_used (ht0 d) / ht_size (ht0 d) >? dict_force_resize_ratio))
  then dictExpand d (u64 (ht_used (ht0 d) * 2))
  else Some (d, DICT_OK).

(** ** Incremental rehashing *)

(** [while(table[rehashidx] == NULL)]: the new index and visits left; [true]
    when the visits ran out ([return 1]). *)
Fixpoint skip_empty (fuel : nat) (t : list (list (dictEntry K V))) (idx empty_visits : Z)
    : option (Z * Z * bool) :=
  match fuel with
  | O => None
  | S fuel =>
    b ← tget t idx;
    match b with
    | [] =>
      let idx := idx + 1 in
      let empty_visits := empty_visits - 1 in
      if empty_visits =? 0 then Some (idx, empty_visits, true) else skip_empty fuel t idx empty_visits
    | _ => Some (idx, empty_visits, false)
    end
  end.

(** The [while(de)] loop: every entry goes to the head of its new bucket. *)
Fixpoint move_bucket (h0 h1 : dictht K V) b : option (dictht K V * dictht K V) :=
  match b with
  | [] => Some (h0, h1)
  | de :: nextde =>
    let h := Z.land (dictHashKey (de_key de)) (ht_sizemask h1) in
    b1 ← tget (ht_table h1) h;
    h1 ← set_bucket h1 h (de :: b1);
    move_bucket (add_used h0 (-1)) (add_used h1 1) nextde
  end.

(** One iteration of the main loop; [true]: the visits ran out. *)
Definition rehash_step d (empty_visits : Z) : option (dict K V * Z * bool) :=
  if negb (ht_size (ht0 d) >? rehashidx d) then None (* assert *) else
  '(idx, empty_visits, stop) ←
    skip_empty (S (length (ht_table (ht0 d)))) (ht_table (ht0 d)) (rehashidx d) empty_visits;
  if (stop : bool) then Some (Dict (ht0 d) (ht1 d) idx (iterators d), empty_visits, true) else
  de ← tget (ht_table (ht0 d)) idx;
  '(h0, h1) ← move_bucket (ht0 d) (ht1 d) de;
  h0 ← set_bucket h0 idx [];
  Some (Dict h0 h1 (idx + 1) (iterators d), empty_visits, false).

(** [while(n-- && d->ht[0].used != 0)]; [true] is [return 1] from inside. *)
Fixpoint rehash_loop (n : nat) d (empty_visits : Z) : option (dict K V * bool) :=
  match n with
  | O => Some (d, false)
  | S n =>
    if ht_used (ht0 d) =? 0 then Some (d, false) else
    '(d, empty_visits, stop) ← rehash_step d empty_visits;
    if (stop : bool) then Some (d, true) else rehash_loop n d empty_visits
  end.

(** For [n >= 0]. *)
Definition dictRehash d (n : nat) : option (dict K V * Z) :=
  empty_visits ← i32 (Z.of_nat n * 10);
  if negb (dictIsRehashing d) then Some (d, 0) else
  '(d, stop) ← rehash_loop n d empty_visits;
  if (stop : bool) then Some (d, 1) else
  if ht_used (ht0 d) =? 0
  then Some (Dict (ht1 d) _dictReset (-1) (iterators d), 0)
  else Some (d, 1).

Definition _dictRehashStep d : option (dict K V) :=
  if iterators d =? 0 then '(d, _) ← dictRehash d 1; Some d else Some d.

(** ** Lookup *)

(** The [while(he)] loop: the first entry with an equal key, and its place. *)
Fixpoint find_chain (key : K) b : option (nat * dictEntry K V) :=
  match b with
  | [] => None
  | he :: next =>
    if bool_decide (key = de_key he) || dictCompareKeys key (de_key he) then Some (0%nat, he)
    else '(n, e) ← find_chain key next; Some (S n, e)
  end.

(** One table of the [for (table = 0; table <= 1; table++)] loops: the index
    and what was found there. *)
Definition find_in_table (key : K) h : option (Z * option (nat * dictEntry K V)) :=
  let idx := Z.land (dictHashKey key) (ht_sizemask h) in
  b ← tget (ht_table h) idx; Some (idx, find_chain key b).

Definition dictFind d (key : K) : option (dict K V * option (entry_pos * dictEntry K V)) :=
  if u64 (ht_used (ht0 d) + ht_used (ht1 d)) =? 0 then Some (d, None) else
  d ← (if dictIsRehashing d then _dictRehashStep d else Some d);
  '(idx, r) ← find_in_table key (ht0 d);
  match r with
  | Some (n, he) => Some (d, Some (EntryPos false idx n, he))
  | None =>
    if negb (dictIsRehashing d) then Some (d, None) else
    '(idx, r) ← find_in_table key (ht1 d);
    match r with
    | Some (n, he) => Some (d, Some (EntryPos true idx n, he))
    | None => Some (d, None)
    end
  end.

Definition dictFetchValue d (key : K) : option (dict K V * option V) :=
  '(d, r) ← dictFind d key;
  Some (d, match r with Some (_, he) => de_val he | None => None end).

(** The index for a new key in the table new keys go to, or -1; an [int]. *)
Definition _dictKeyIndex d (key : K) : option (dict K V * Z) :=
  '(d, rc) ← _dictExpandIfNeeded d;
  if rc =? DICT_ERR then Some (d, -1) else
  '(idx, r) ← find_in_table key (ht0 d);
  match r with
  | Some _ => Some (d, -1)
  | None =>
    if negb (dictIsRehashing d) then Some (d, s32 idx) else
    '(idx, r) ← find_in_table key (ht1 d);
    match r with
    | Some _ => Some (d, -1)
    | None => Some (d, s32 idx)
    end
  end.

(** ** Updates *)

(** [dictSetVal] through an entry pointer. *)
Definition dictSetVal d (p : entry_pos) (val : V) : option (dict K V) :=
  let h := get_ht d (ep_table p) in
  b ← tget (ht_table h) (ep_idx p);
  e ← b !! ep_nth p;
  let val := match valDup T with Some f => f val | None => val end in
  h ← set_bucket h (ep_idx p) (<[ep_nth p := DictEntry (de_key e) (Some val)]> b);
  Some (set_ht d (ep_table p) h).

Definition dictAddRaw d (key : K) : option (dict K V * option entry_pos) :=
  d ← (if dictIsRehashing d then _dictRehashStep d else Some d);
  '(d, index) ← _dictKeyIndex d key;
  if index =? -1 then Some (d, None) else
  let table := dictIsRehashing d in
  let h := get_ht d table in
  b ← tget (ht_table h) index;
  let key := match keyDup T with Some f => f key | None => key end in
  h ← set_bucket h index (DictEntry key None :: b);
  Some (set_ht d table (add_used h 1), Some (EntryPos table index 0)).

Definition dictAdd d (key : K) (val : V) : option (dict K V * Z) :=
  '(d, entry) ← dictAddRaw d key;
  match entry with
  | None => Some (d, DICT_ERR)
  | Some p => d ← dictSetVal d p val; Some (d, DICT_OK)
  end.

Definition dictReplace d (key : K) (val : V) : option (dict K V * Z * list (event K V)) :=
  '(d, rc) ← dictAdd d key val;
  if rc =? DICT_OK then Some (d, 1, []) else
  '(d, entry) ← dictFind d key;
  '(p, auxentry) ← entry; (* a null entry would be dereferenced *)
  d ← dictSetVal d p val;
  Some (d, 0, dictFreeVal auxentry).

Definition dictReplaceRaw d (key : K) : option (dict K V * option entry_pos) :=
  '(d, entry) ← dictFind d key;
  match entry with
  | Some (p, _) => Some (d, Some p)
  | None => dictAddRaw d key
  end.

(** Unlinking the entry found in a table. *)
Definition unlink d (table : bool) (idx : Z) (n : nat) : option (dict K V) :=
  let h := get_ht d table in
  b ← tget (ht_table h) idx;
  h ← set_bucket h idx (delete n b);
  Some (set_ht d table (add_used h (-1))).

Definition dictGenericDelete d (key : K) (nofree : bool) : option (dict K V * Z * list (event K V)) :=
  if ht_size (ht0 d) =? 0 then Some (d, DICT_ERR, []) else
  d ← (if dictIsRehashing d then _dictRehashStep d else Some d);
  let free he := if nofree then [] else dictFreeKey he ++ dictFreeVal he in
  '(idx, r) ← find_in_table key (ht0 d);
  match r with
  | Some (n, he) => d ← unlink d false idx n; Some (d, DICT_OK, free he)
  | None =>
    if negb (dictIsRehashing d) then Some (d, DICT_ERR, []) else
    '(idx, r) ← find_in_table key (ht1 d);
    match r with
    | Some (n, he) => d ← unlink d true idx n; Some (d, DICT_OK, free he)
    | None => Some (d, DICT_ERR, [])
    end
  end.

Definition dictDelete d key := dictGenericDelete d key false.
Definition dictDeleteNoFree d key := dictGenericDelete d key true.

(** ** Destruction: the destructor calls, in order *)

Fixpoint clear_loop (size used : Z) (i : Z) (t : list (list (dictEntry K V))) : list (event K V) :=
  match t with
  | [] => []
  | b :: t =>
    if (i <? size) && (used >? 0) then
      concat ((fun he => dictFreeKey he ++ dictFreeVal he) <$> b)
        ++ clear_loop size (used - Zlen b) (i + 1) t
    else []
  end.

Definition _dictClear h : dictht K V * list (event K V) :=
  (_dictReset, clear_loop (ht_size h) (ht_used h) 0 (ht_table h)).

Definition dictEmpty d : dict K V * list (event K V) :=
  let '(h0, ev0) := _dictClear (ht0 d) in
  let '(h1, ev1) := _dictClear (ht1 d) in
  (Dict h0 h1 (-1) 0, ev0 ++ ev1).

Definition dictRelease d : list (event K V) :=
  (_dictClear (ht0 d)).2 ++ (_dictClear (ht1 d)).2.

(** ** Scanning with a stateless cursor *)

(** The bit reversal [rev]: [while ((s >>= 1) > 0)]. *)
Fixpoint rev_loop (fuel : nat) (s mask v : Z) : option Z :=
  match fuel with
  | O => None
  | S fuel =>
    let s := Z.shiftr s 1 in
    if s >? 0 then
      let mask := Z.lxor mask (u64 (Z.shiftl mask s)) in
      let v := Z.lor (Z.land (Z.shiftr v s) mask) (Z.land (u64 (Z.shiftl v s)) (u64 (Z.lnot mask))) in
      rev_loop fuel s mask v
    else Some v
  end.

Definition rev_ulong (v : Z) : option Z := rev_loop 7 64 (2 ^ 64 - 1) v.

(** The [do ... while] loop over the expansions of the cursor in the larger
    table: the entries emitted and the new cursor. *)
Fixpoint scan_expansions (fuel : nat) (t1 : dictht K V) (m0 m1 v : Z) (emitted : list (dictEntry K V))
    : option (list (dictEntry K V) * Z) :=
  match fuel with
  | O => None
  | S fuel =>
    de ← tget (ht_table t1) (Z.land v m1);
    let emitted := emitted ++ de in
    let v := Z.lor (Z.land (u64 (Z.lor v m0 + 1)) (u64 (Z.lnot m0))) (Z.land v m0) in
    if Z.land v (Z.lxor m0 m1) =? 0 then Some (emitted, v) else scan_expansions fuel t1 m0 m1 v emitted
  end.

(** [v |= ~m0; v = rev(v); v++; v = rev(v);] *)
Definition next_cursor (m0 v : Z) : option Z :=
  let v := Z.lor v (u64 (Z.lnot m0)) in
  v ← rev_ulong v; rev_ulong (u64 (v + 1)).

(** Two tables, [t0] the smaller one. *)
Definition scan_tables (t0 t1 : dictht K V) (v : Z) : option (list (dictEntry K V) * Z) :=
  let m0 := ht_sizemask t0 in
  let m1 := ht_sizemask t1 in
  de ← tget (ht_table t0) (Z.land v m0);
  '(emitted, v) ← scan_expansions (S (length (ht_table t1))) t1 m0 m1 v de;
  v ← next_cursor m0 v;
  Some (emitted, v).

(** The entries passed to the callback [fn], in order, and the next cursor. *)
Definition dictScan d (v : Z) : option (list (dictEntry K V) * Z) :=
  if dictSize d =? 0 then Some ([], 0) else
  if negb (dictIsRehashing d) then
    let m0 := ht_sizemask (ht0 d) in
    de ← tget (ht_table (ht0 d)) (Z.land v m0);
    v ← next_cursor m0 v;
    Some (de, v)
  else if ht_size (ht0 d) >? ht_size (ht1 d)
    then scan_tables (ht1 d) (ht0 d) v
    else scan_tables (ht0 d) (ht1 d) v.

End Dict.

(** ** Lemmas on tables *)

Lemma tget_Some {A} (t : list A) i b : tget t i = Some b ->
  0 <= i < Zlen t /\ t !! Z.to_nat i = Some b.
Proof.
  unfold tget. destruct (Z.leb_spec 0 i); [|done]. intros E. split; [|done].
  apply lookup_lt_Some in E. lia.
Qed.

Lemma tget_lookup {A} (t : list A) i : tget t (Z.of_nat i) = t !! i.
Proof. unfold tget. destruct (Z.leb_spec 0 (Z.of_nat i)); [|lia]. by rewrite Nat2Z.id. Qed.

Lemma tget_is_Some {A} (t : list A) i : 0 <= i < Zlen t -> exists b, tget t i = Some b.
Proof.
  intros. unfold tget. destruct (Z.leb_spec 0 i); [|lia]. apply lookup_lt_is_Some_2. lia.
Qed.

Lemma tset_spec {A} (t : list A) i b b' : tget t i = Some b ->
  tset t i b' = Some (<[Z.to_nat i := b']> t).
Proof. intros E. unfold tset. by rewrite E. Qed.

(** Replacing a bucket moves exactly its entries. *)
Lemma concat_insert {A} (t : list (list A)) i b b' : t !! i = Some b ->
  concat (<[i := b']> t) ++ b ≡ₚ concat t ++ b'.
Proof.
  intros E. rewrite (insert_take_drop _ _ b') by (by eapply lookup_lt_Some).
  rewrite <- (take_drop_middle t i b E) at 3. rewrite !concat_app. simpl. solve_Permutation.
Qed.

Lemma elem_of_concat {A} (t : list (list A)) x : x ∈ concat t <-> exists i b, tget t i = Some b /\ x ∈ b.
Proof.
  rewrite list_elem_of_In, in_concat. split.
  - intros (b & Hb & Hx). apply list_elem_of_In, list_elem_of_lookup in Hb as [i Hi].
    exists (Z.of_nat i), b. rewrite tget_lookup. split; [done|]. by apply list_elem_of_In.
  - intros (i & b & Hi & Hx). apply tget_Some in Hi as [_ Hi]. exists b. split; [|by apply list_elem_of_In].
    apply list_elem_of_In. by eapply list_elem_of_lookup_2.
Qed.

Lemma concat_replicate_nil {A} n : concat (replicate n []) = ([] : list A).
Proof. by induction n. Qed.

(** ** The invariant *)

(** What the callbacks of a [dictType] owe the table: the comparison is the
    equality of a canonical form of the keys, and the hash and the duplication
    respect it. *)
Class DictLaws {K V C : Type} `{EqDecision K} (T : dictType K V) (canon : K -> C) := {
  cmp_canon k1 k2 : bool_decide (k1 = k2) || dictCompareKeys T k1 k2 = true <-> canon k1 = canon k2;
  hash_canon k1 k2 : canon k1 = canon k2 -> dictHashKey T k1 = dictHashKey T k2;
  dup_canon f k : keyDup T = Some f -> canon (f k) = canon k
}.

Section DictProofs.
Context {K V C : Type} `{EqDecision K} `{Countable C} (T : dictType K V) (canon : K -> C).
Context {L : DictLaws T canon}.
Implicit Types (d : dict K V) (h : dictht K V) (e : dictEntry K V) (b : list (dictEntry K V)).

Definition ehash e : Z := dictHashKey T (de_key e).
Definition ekey e : C := canon (de_key e).
Definition entries d : list (dictEntry K V) := concat (ht_table (ht0 d)) ++ concat (ht_table (ht1 d)).

(** A table in use: a power of two of buckets, every entry in its bucket. *)
Record ht_ok h : Prop := {
  ht_ok_size : exists k, 2 <= k <= 31 /\ ht_size h = 2 ^ k;
  ht_ok_mask : ht_sizemask h = ht_size h - 1;
  ht_ok_len : Zlen (ht_table h) = ht_size h;
  ht_ok_used : ht_used h = Zlen (concat (ht_table h));
  ht_ok_place : forall i b, tget (ht_table h) i = Some b ->
    Forall (fun e => Z.land (ehash e) (ht_sizemask h) = i) b
}.

Definition empties (t : list (list (dictEntry K V))) (n : Z) : Prop :=
  forall j b, j < n -> tget t j = Some b -> b = [].

Definition rehash_wf d : Prop :=
  0 <= rehashidx d <= ht_size (ht0 d) /\ ht_ok (ht0 d) /\ ht_ok (ht1 d) /\
  empties (ht_table (ht0 d)) (rehashidx d).

Definition stable_wf d : Prop :=
  rehashidx d = -1 /\ ht1 d = _dictReset /\ (ht0 d = _dictReset \/ ht_ok (ht0 d)).

Definition dict_wf d : Prop :=
  NoDup (ekey <$> entries d) /\ Zlen (entries d) <= 2 ^ 30 /\ (stable_wf d \/ rehash_wf d).

Lemma stable_not_rehashing d : stable_wf d -> dictIsRehashing d = false.
Proof. intros (E & _). unfold dictIsRehashing. by rewrite E. Qed.

Lemma rehash_rehashing d : rehash_wf d -> dictIsRehashing d = true.
Proof. intros (E & _). unfold dictIsRehashing. destruct (Z.eqb_spec (rehashidx d) (-1)); [lia|done]. Qed.

Lemma size_pos h : ht_ok h -> 4 <= ht_size h <= 2 ^ 31.
Proof.
  intros [(k & Hk & ->) _ _ _ _]. change 4 with (2 ^ 2). split; apply Z.pow_le_mono_r; lia.
Qed.

Lemma mask_range h x : ht_ok h -> 0 <= Z.land x (ht_sizemask h) < ht_size h.
Proof.
  intros Hok. pose proof (size_pos h Hok). destruct Hok as [(k & Hk & Hs) Hm _ _ _].
  rewrite Hm, Hs. replace (2 ^ k - 1) with (Z.ones k) by (rewrite Z.ones_equiv; lia).
  rewrite Z.land_ones by lia. apply Z.mod_pos_bound. lia.
Qed.

Lemma bucket_exists h x : ht_ok h -> exists b, tget (ht_table h) (Z.land x (ht_sizemask h)) = Some b.
Proof.
  intros Hok. apply tget_is_Some. rewrite (ht_ok_len h Hok). by apply mask_range.
Qed.

(** *** Replacing a bucket *)

Lemma set_bucket_spec h i b b' n : ht_ok h -> tget (ht_table h) i = Some b ->
  Forall (fun e => Z.land (ehash e) (ht_sizemask h) = i) b' ->
  Zlen b' = Zlen b + n -> ht_used h + n < 2 ^ 64 ->
  exists h', set_bucket h i b' = Some h' /\ ht_ok (add_used h' n) /\
    ht_size h' = ht_size h /\ ht_sizemask h' = ht_sizemask h /\ ht_used h' = ht_used h /\
    concat (ht_table h') ++ b ≡ₚ concat (ht_table h) ++ b' /\
    (forall j, tget (ht_table h') j = if decide (j = i) then Some b' else tget (ht_table h) j).
Proof.
  intros [Hs Hm Hl Hu Hp] Hb Hf Hn H64. unfold set_bucket. rewrite (tset_spec _ _ b) by done.
  cbn [mbind option_bind]. eexists. split; [done|]. cbn [ht_size ht_sizemask ht_table ht_used].
  pose proof (tget_Some _ _ _ Hb) as [Hi Hlk].
  pose proof (concat_insert _ _ _ b' Hlk) as Hperm.
  assert (forall j, tget (<[Z.to_nat i:=b']> (ht_table h)) j =
    if decide (j = i) then Some b' else tget (ht_table h) j) as Hget.
  { intros j. unfold tget. destruct (Z.leb_spec 0 j); case_decide; subst; try lia; try done.
    - apply list_lookup_insert_eq. lia.
    - apply list_lookup_insert_ne. lia. }
  split_and!; try done. constructor; cbn [add_used ht_size ht_sizemask ht_table ht_used]; try done.
  - rewrite length_insert. done.
  - apply Permutation_length in Hperm. rewrite !length_app in Hperm. rewrite (wrapu_id 64); lia.
  - intros j bj Hj. rewrite Hget in Hj. case_decide; [by simplify_eq|by apply Hp].
Qed.

(** *** Sizes *)

Lemma nextPower_loop_spec fuel j size : 2 <= j <= 31 -> size <= 2 ^ 31 -> 32 <= Z.of_nat fuel + j ->
  (j = 2 \/ 2 ^ (j - 1) < size) ->
  exists k, 2 <= k <= 31 /\ nextPower_loop fuel (2 ^ j) size = Some (2 ^ k) /\ size <= 2 ^ k /\
    (k = 2 \/ 2 ^ (k - 1) < size).
Proof.
  revert j. induction fuel as [|fuel IH]; intros j Hj Hs Hf Hlow; [lia|]. cbn [nextPower_loop].
  rewrite Z.geb_leb. destruct (Z.leb_spec size (2 ^ j)); [by exists j|].
  assert (j <> 31) by (intros ->; lia).
  assert (2 ^ j * 2 = 2 ^ (j + 1)) as -> by (rewrite Z.pow_add_r; lia).
  rewrite (wrapu_id 64) by (split; [lia|apply Z.pow_lt_mono_r; lia]).
  apply IH; try lia. right. replace (j + 1 - 1) with j by lia. done.
Qed.

Lemma nextPower_spec size : size <= 2 ^ 31 -> exists k, 2 <= k <= 31 /\ _dictNextPower size = Some (2 ^ k) /\
  size <= 2 ^ k /\ (k = 2 \/ 2 ^ (k - 1) < size).
Proof.
  intros Hs. unfold _dictNextPower, LONG_MAX. rewrite Z.geb_leb.
  destruct (Z.leb_spec (2 ^ 63 - 1) size); [lia|]. change DICT_HT_INITIAL_SIZE with (2 ^ 2).
  apply nextPower_loop_spec; simpl; lia.
Qed.

Lemma new_ht_ok k : 2 <= k <= 31 ->
  ht_ok (Dictht (replicate (Z.to_nat (u64 (2 ^ k * 8) / 8)) []) (2 ^ k) (u64 (2 ^ k - 1)) 0).
Proof.
  intros Hk. assert (0 < 2 ^ k <= 2 ^ 31) by (split; [lia|apply Z.pow_le_mono_r; lia]).
  constructor; cbn [ht_size ht_sizemask ht_table ht_used].
  - by exists k.
  - apply (wrapu_id 64). lia.
  - rewrite length_replicate, (wrapu_id 64), Z.div_mul by lia. lia.
  - by rewrite concat_replicate_nil.
  - intros i b Hi. apply tget_Some in Hi as [_ Hi]. by apply lookup_replicate in Hi as [-> _].
Qed.

Lemma dictExpand_spec d size : dict_wf d -> 0 <= size <= 2 ^ 31 ->
  exists d' rc, dictExpand d size = Some (d', rc) /\ dict_wf d' /\ entries d' = entries d /\
    iterators d' = iterators d /\ (rc = DICT_OK \/ rc = DICT_ERR /\ d' = d) /\
    (dictIsRehashing d = false -> ht_used (ht0 d) <= size ->
      (ht_size (ht0 d) = 0 \/ ht_size (ht0 d) < size) -> rc = DICT_OK) /\
    (rc = DICT_OK -> ht_ok (ht0 d')).
Proof.
  intros Hd Hsize. pose proof Hd as (Hnd & Hlen & Hwf). unfold dictExpand.
  destruct (nextPower_spec size ltac:(lia)) as (k & Hk & -> & Hge & _). cbn [mbind option_bind].
  pose proof (new_ht_ok k Hk) as Hnew. set (n := Dictht _ _ _ _) in *.
  assert (concat (ht_table n) = []) as Hcn by (subst n; simpl; apply concat_replicate_nil).
  destruct (dictIsRehashing d) eqn:Hr; cbn [orb].
  { exists d, DICT_ERR. split_and!; try done. by right. }
  destruct Hwf as [(Hidx & H1 & H0)|Hw]; [|by rewrite rehash_rehashing in Hr].
  rewrite Z.gtb_ltb. destruct (Z.ltb_spec size (ht_used (ht0 d))).
  { exists d, DICT_ERR. split_and!; try done; [by right|lia]. }
  destruct (Z.eqb_spec (2 ^ k) (ht_size (ht0 d))).
  { exists d, DICT_ERR. split_and!; try done; [by right|]. lia. }
  destruct H0 as [H0|H0].
  - rewrite H0. simpl ht_table. cbv iota. eexists _, DICT_OK. split; [done|].
    assert (entries (Dict n (ht1 d) (rehashidx d) (iterators d)) = entries d) as E.
    { unfold entries. cbn [ht0 ht1]. by rewrite Hcn, H0. }
    split; [|by auto 7]. unfold dict_wf. rewrite E. split_and!; try done. left. split_and!; try done. by right.
  - pose proof (size_pos _ H0). pose proof (ht_ok_len _ H0) as HL.
    destruct (ht_table (ht0 d)) as [|b0 t0] eqn:Et; [simpl in HL; lia|]. eexists _, DICT_OK. split; [done|].
    assert (entries (Dict (ht0 d) n 0 (iterators d)) = entries d) as E.
    { unfold entries. cbn [ht0 ht1]. by rewrite Hcn, H1. }
    split; [|by auto 7]. unfold dict_wf. rewrite E. split_and!; try done. right.
    split_and!; cbn [rehashidx ht0 ht1]; try done; try lia.
    intros j b Hj Hb. apply tget_Some in Hb. lia.
Qed.

(** *** Rehashing *)

Lemma skip_empty_spec t fuel : forall idx ev, 0 <= idx -> 0 < ev -> empties t idx ->
  (exists i b, tget t i = Some b /\ b <> []) -> Zlen t - idx < Z.of_nat fuel ->
  exists idx' ev' stop, skip_empty fuel t idx ev = Some (idx', ev', stop) /\
    idx <= idx' <= Zlen t /\ empties t idx' /\
    if (stop : bool) then idx < idx' else 0 < ev' /\ exists b, tget t idx' = Some b /\ b <> [].
Proof.
  induction fuel as [|fuel IH]; intros idx ev Hidx Hev Hemp (i & bi & Hi & Hne) Hf.
  { pose proof (tget_Some _ _ _ Hi). destruct (Z.lt_ge_cases i idx); [by destruct (Hne (Hemp i bi ltac:(done) Hi))|lia]. }
  cbn [skip_empty]. assert (idx <= i < Zlen t) as Hii.
  { pose proof (tget_Some _ _ _ Hi). destruct (Z.lt_ge_cases i idx); [by destruct (Hne (Hemp i bi ltac:(done) Hi))|lia]. }
  destruct (tget_is_Some t idx ltac:(lia)) as [b Hb]. rewrite Hb. cbn [mbind option_bind].
  destruct b as [|e b].
  2: { exists idx, ev, false. split_and!; try done; [lia..|]. by exists (e :: b). }
  assert (empties t (idx + 1)) as Hemp'.
  { intros j bj Hj Hbj. destruct (Z.eq_dec j idx) as [->|]; [congruence|]. apply (Hemp j); done || lia. }
  destruct (Z.eqb_spec (ev - 1) 0).
  { exists (idx + 1), (ev - 1), true. split_and!; done || lia. }
  destruct (IH (idx + 1) (ev - 1)) as (idx' & ev' & stop & -> & Hle & He & Hs); try done; try lia.
  { by exists i, bi. }
  exists idx', ev', stop. split_and!; try done; try lia. destruct stop; [lia|done].
Qed.

Lemma Forall_hash_self e h : Forall (fun e' => Z.land (ehash e') (ht_sizemask h) = Z.land (ehash e) (ht_sizemask h)) [e].
Proof. by constructor. Qed.

(** Every entry of the bucket ends up in the second table; the first one only
    loses the count. *)
Lemma move_bucket_spec b : forall h0 h1, ht_ok h1 -> Zlen (concat (ht_table h1)) + Zlen b < 2 ^ 64 ->
  Zlen b <= ht_used h0 < 2 ^ 64 ->
  exists h1', move_bucket T h0 h1 b = Some (add_used h0 (- Zlen b), h1') /\ ht_ok h1' /\
    concat (ht_table h1') ≡ₚ concat (ht_table h1) ++ b /\ ht_size h1' = ht_size h1.
Proof.
  induction b as [|e b IH]; intros h0 h1 H1 Hlen Hu; cbn [move_bucket].
  { exists h1. split_and!; [|done|by rewrite app_nil_r|done].
    unfold add_used. simpl in Hu |- *. rewrite Z.add_0_r, (wrapu_id 64) by lia. by destruct h0. }
  destruct (bucket_exists h1 (ehash e) H1) as [b1 Hb1]. unfold ehash in *. rewrite Hb1. cbn [mbind option_bind].
  simpl length in *. pose proof (ht_ok_used _ H1).
  destruct (set_bucket_spec h1 _ _ (e :: b1) 1 H1 Hb1) as (h1' & -> & Hok & Hs & Hm & Hus & Hp & _).
  { constructor; [done|]. by apply (ht_ok_place h1 H1). }
  { simpl. lia. }
  { lia. }
  cbn [mbind option_bind].
  assert (concat (ht_table h1') ≡ₚ concat (ht_table h1) ++ [e]) as Hp'.
  { apply (Permutation_app_inv_r b1). rewrite Hp. solve_Permutation. }
  destruct (IH (add_used h0 (-1)) (add_used h1' 1) Hok) as (h2 & -> & Hok2 & Hp2 & Hsz2).
  { cbn [add_used ht_table]. rewrite Hp', length_app. simpl. lia. }
  { cbn [add_used ht_used]. rewrite (wrapu_id 64) by lia. lia. }
  exists h2. split_and!; [|done| |by rewrite Hsz2].
  - unfold add_used. cbn [ht_used ht_table ht_size ht_sizemask]. rewrite (wrapu_id 64 (_ + -1)) by lia. do 3 f_equal. f_equal. lia.
  - rewrite Hp2. cbn [add_used ht_table]. rewrite Hp'. solve_Permutation.
Qed.

Lemma used_nonzero h : ht_ok h -> ht_used h <> 0 -> exists i b, tget (ht_table h) i = Some b /\ b <> [].
Proof.
  intros Hok Hne. rewrite (ht_ok_used _ Hok) in Hne. destruct (concat (ht_table h)) as [|e l] eqn:E; [done|].
  assert (e ∈ concat (ht_table h)) as (i & b & Hi & He)%elem_of_concat by (rewrite E; left).
  exists i, b. split; [done|]. intros ->. by apply elem_of_nil in He.
Qed.

Lemma dict_wf_perm d d' : entries d' ≡ₚ entries d -> (stable_wf d' \/ rehash_wf d') -> dict_wf d -> dict_wf d'.
Proof. intros Hp Hw (Hnd & Hl & _). split_and!; [by rewrite Hp|by rewrite Hp|done]. Qed.

Lemma rehash_step_spec d ev : dict_wf d -> rehash_wf d -> ht_used (ht0 d) <> 0 -> 0 < ev ->
  exists d' ev' stop, rehash_step T d ev = Some (d', ev', stop) /\ rehash_wf d' /\
    entries d' ≡ₚ entries d /\ iterators d' = iterators d /\ ht_size (ht0 d') = ht_size (ht0 d) /\
    ht_size (ht1 d') = ht_size (ht1 d) /\
    rehashidx d < rehashidx d' /\ (stop = false -> 0 < ev').
Proof.
  intros (_ & Hlen & _) (Hidx & H0 & H1 & Hemp) Hu Hev. unfold rehash_step.
  destruct (used_nonzero _ H0 Hu) as (i & bi & Hi & Hne). pose proof (ht_ok_len _ H0) as HL.
  rewrite Z.gtb_ltb. destruct (Z.ltb_spec (rehashidx d) (ht_size (ht0 d))).
  2: { pose proof (tget_Some _ _ _ Hi). destruct (Hne (Hemp i bi ltac:(lia) Hi)). }
  cbn [negb]. destruct (skip_empty_spec (ht_table (ht0 d)) (S (length (ht_table (ht0 d)))) (rehashidx d) ev)
    as (idx & ev' & stop & -> & Hle & Hemp' & Hs); try done; try lia.
  { by exists i, bi. }
  cbn [mbind option_bind]. destruct stop.
  { eexists _, ev', true. split; [done|]. split; [|cbn [rehashidx ht0 ht1 iterators]; split_and!; done || lia].
    split_and!; cbn [rehashidx ht0 ht1]; done || lia. }
  destruct Hs as [Hev' (b & Hb & Hbne)]. rewrite Hb. cbn [mbind option_bind].
  unfold entries in Hlen. rewrite length_app in Hlen. pose proof (ht_ok_used _ H0).
  pose proof (tget_Some _ _ _ Hb) as [Hr Hlk].
  pose proof (concat_insert _ _ _ [] Hlk) as Hpc. rewrite app_nil_r in Hpc.
  pose proof (Permutation_length Hpc) as Hpl. rewrite length_app in Hpl.
  destruct (move_bucket_spec b (ht0 d) (ht1 d) H1) as (h1 & -> & Hok1 & Hp1 & Hsz1); [lia..|].
  cbn [mbind option_bind].
  destruct (set_bucket_spec (ht0 d) idx b [] (- Zlen b) H0 Hb) as (h0 & E & Hok0 & Hs0 & Hm0 & Hu0 & Hp0 & Hg0).
  { constructor. } { simpl. lia. } { lia. }
  rewrite app_nil_r in Hp0.
  assert (set_bucket (add_used (ht0 d) (- Zlen b)) idx [] = Some (add_used h0 (- Zlen b))) as ->.
  { unfold set_bucket in E |- *. cbn [add_used ht_table]. rewrite (tset_spec _ _ _ _ Hb) in E |- *.
    cbn [mbind option_bind] in E |- *. by injection E as <-. }
  cbn [mbind option_bind]. eexists _, ev', false. split; [done|].
  split_and!; cbn [rehashidx iterators ht0 ht1 add_used ht_table ht_size]; try done; try lia.
  - split_and!; cbn [rehashidx ht0 ht1 add_used ht_table ht_size]; try done; try lia.
    intros j bj Hj. rewrite Hg0. case_decide; [congruence|]. apply Hemp'. lia.
  - unfold entries. cbn [ht0 ht1 add_used ht_table]. rewrite Hp1, <- Hp0. solve_Permutation.
Qed.

Lemma rehash_loop_spec n : forall d ev, dict_wf d -> rehash_wf d -> (n <> 0%nat -> 0 < ev) ->
  exists d' stop, rehash_loop T n d ev = Some (d', stop) /\ rehash_wf d' /\ entries d' ≡ₚ entries d /\
    iterators d' = iterators d /\ ht_size (ht0 d') = ht_size (ht0 d) /\ ht_size (ht1 d') = ht_size (ht1 d) /\
    rehashidx d <= rehashidx d' /\
    (n <> 0%nat -> ht_used (ht0 d') = 0 /\ stop = false \/ rehashidx d < rehashidx d').
Proof.
  induction n as [|n IH]; intros d ev Hd Hw Hev; cbn [rehash_loop].
  { exists d, false. by split_and!. }
  destruct (Z.eqb_spec (ht_used (ht0 d)) 0).
  { exists d, false. split_and!; try done. by left. }
  destruct (rehash_step_spec d ev Hd Hw) as (d1 & ev1 & stop & -> & Hw1 & Hp1 & Hi1 & Hs1 & Hs1' & Hr1 & Hev1);
    [done|by apply Hev|]. cbn [mbind option_bind]. destruct stop.
  { exists d1, true. split_and!; try done; [lia|by right]. }
  destruct (IH d1 ev1) as (d2 & stop & -> & Hw2 & Hp2 & Hi2 & Hs2 & Hs2' & Hle2 & Hr2); try done.
  { eapply dict_wf_perm; try done. by right. }
  { intros _. by apply Hev1. }
  exists d2, stop. split; [done|]. split; [done|]. split; [by rewrite Hp2|]. split_and!; try congruence; [lia|].
  intros _. right. lia.
Qed.

(** Rehashing keeps the entries, reports whether it is finished, and makes
    progress: the index of the next bucket grows until the tables are swapped. *)
Lemma dictRehash_spec d n : dict_wf d -> Z.of_nat n * 10 <= INT32_MAX ->
  exists d' r, dictRehash T d n = Some (d', r) /\ dict_wf d' /\ entries d' ≡ₚ entries d /\
    iterators d' = iterators d /\ r = (if dictIsRehashing d' then 1 else 0) /\
    (dictIsRehashing d = false -> d' = d) /\
    (dictIsRehashing d = true -> n <> 0%nat ->
      if dictIsRehashing d' then rehashidx d < rehashidx d' <= ht_size (ht0 d) /\ ht_size (ht0 d') = ht_size (ht0 d)
      else ht_size (ht0 d') = ht_size (ht1 d)).
Proof.
  intros Hd Hn. unfold dictRehash. rewrite i32_ok by (unfold_limits; lia). cbn [mbind option_bind].
  destruct (dictIsRehashing d) eqn:Hr; cbn [negb].
  2: { exists d, 0. rewrite Hr. by split_and!. }
  pose proof Hd as (_ & _ & [Hs|Hw]); [by rewrite stable_not_rehashing in Hr|].
  destruct (rehash_loop_spec n d (Z.of_nat n * 10) Hd Hw) as
    (d1 & stop & -> & Hw1 & Hp1 & Hi1 & Hs1 & Hs1' & Hle1 & Hr1); [lia|]. cbn [mbind option_bind].
  assert (dict_wf d1) as Hd1 by (eapply dict_wf_perm; eauto).
  pose proof (rehash_rehashing d1 Hw1) as Hre. pose proof Hw1 as (Hidx & H0 & H1 & _).
  destruct stop.
  { exists d1, 1. rewrite Hre. split_and!; try done. intros _ Hn0. destruct (Hr1 Hn0) as [[? ?]|?]; [done|lia]. }
  destruct (Z.eqb_spec (ht_used (ht0 d1)) 0) as [E|E].
  - eexists _, 0. split; [done|]. change (dictIsRehashing _) with false. cbv iota.
    cbn [ht0 ht1 rehashidx iterators].
    assert (entries (Dict (ht1 d1) _dictReset (-1) (iterators d1)) ≡ₚ entries d1) as Hp2.
    { rewrite (ht_ok_used _ H0) in E. unfold entries. cbn [ht0 ht1]. simpl.
      destruct (concat (ht_table (ht0 d1))); [|simpl in E; lia]. simpl. by rewrite app_nil_r. }
    split_and!; try done; [|by rewrite Hp2].
    apply (dict_wf_perm d1); try done. left. split_and!; try done. by right.
  - exists d1, 1. rewrite Hre. split_and!; try done. intros _ Hn0. destruct (Hr1 Hn0) as [[? ?]|?]; [done|lia].
Qed.

(** *** Steps that may precede every operation *)

(** [d'] has the same contents, and the same table new keys go to. *)
Definition same_entries d d' : Prop := dict_wf d' /\ entries d' ≡ₚ entries d /\ iterators d' = iterators d.

Lemma maybe_rehash d : dict_wf d ->
  exists d', (if dictIsRehashing d then _dictRehashStep T d else Some d) = Some d' /\ same_entries d d' /\
    (ht_size (ht0 d) <> 0 -> ht_ok (ht0 d')).
Proof.
  intros Hd. assert (forall d', dict_wf d' -> (ht_size (ht0 d') <> 0 -> ht_ok (ht0 d'))) as Hok.
  { intros d' (_ & _ & [(_ & _ & [->|?])|(_ & ? & _)]); done. }
  destruct (dictIsRehashing d) eqn:Hr; [|exists d; split_and!; by auto].
  pose proof Hd as (_ & _ & [Hs|(_ & H0 & H1 & _)]); [by rewrite stable_not_rehashing in Hr|].
  unfold _dictRehashStep. destruct (iterators d =? 0); [|exists d; split_and!; by auto].
  destruct (dictRehash_spec d 1 Hd) as (d' & r & -> & Hd' & Hp & Hi & _ & _ & Hpr); [unfold_limits; lia|].
  cbn [mbind option_bind]. exists d'. split_and!; try done. intros _. apply Hok; [done|].
  specialize (Hpr Hr ltac:(done)). pose proof (size_pos _ H0). pose proof (size_pos _ H1).
  destruct (dictIsRehashing d'); lia.
Qed.

(** *** Lookup *)

Lemma find_chain_spec key b :
  match find_chain T key b with
  | Some (n, e) => b !! n = Some e /\ ekey e = canon key
  | None => Forall (fun e => ekey e <> canon key) b
  end.
Proof.
  induction b as [|e b IH]; simpl; [constructor|].
  destruct (bool_decide _ || _) eqn:E.
  - split; [done|]. symmetry. by apply (cmp_canon (T := T) (canon := canon) key (de_key e)).
  - destruct (find_chain T key b) as [[n e']|]; cbn [mbind option_bind]; [done|].
    constructor; [|done]. intros Heq.
    assert (bool_decide (key = de_key e) || dictCompareKeys T key (de_key e) = true) as Ht
      by (by apply (cmp_canon (T := T) (canon := canon))).
    congruence.
Qed.

(** Position [n] of bucket [idx] of a table. *)
Definition at_pos h (idx : Z) (n : nat) e : Prop :=
  exists b, tget (ht_table h) idx = Some b /\ b !! n = Some e.

Lemma find_in_table_spec key h : ht_ok h ->
  exists r, find_in_table T key h = Some (Z.land (dictHashKey T key) (ht_sizemask h), r) /\
    match r with
    | Some (n, e) => at_pos h (Z.land (dictHashKey T key) (ht_sizemask h)) n e /\ ekey e = canon key
    | None => Forall (fun e => ekey e <> canon key) (concat (ht_table h))
    end.
Proof.
  intros Hok. unfold find_in_table. destruct (bucket_exists h (dictHashKey T key) Hok) as [b Hb].
  rewrite Hb. cbn [mbind option_bind]. eexists. split; [done|].
  pose proof (find_chain_spec key b) as Hf. destruct (find_chain T key b) as [[n e]|].
  - destruct Hf. split; [|done]. by exists b.
  - apply Forall_forall. intros e He Hk. apply elem_of_concat in He as (i & b' & Hi & He).
    pose proof (ht_ok_place h Hok i b' Hi) as Hpl. rewrite Forall_forall in Hpl. specialize (Hpl e He).
    rewrite <- (hash_canon (T := T) (de_key e) key Hk) in Hb. unfold ehash in Hpl. rewrite Hpl, Hi in Hb.
    injection Hb as ->. rewrite Forall_forall in Hf. by apply (Hf e).
Qed.

Lemma at_pos_entry d table idx n e : at_pos (get_ht d table) idx n e -> e ∈ entries d.
Proof.
  intros (b & Hb & Hn). unfold entries. apply elem_of_app.
  assert (e ∈ concat (ht_table (get_ht d table))).
  { apply elem_of_concat. exists idx, b. split; [done|]. by eapply list_elem_of_lookup_2. }
  destruct table; auto.
Qed.

Lemma used_entries d : dict_wf d ->
  ht_used (ht0 d) + ht_used (ht1 d) = Zlen (entries d) /\ 0 <= ht_used (ht0 d) /\ 0 <= ht_used (ht1 d).
Proof.
  intros (_ & _ & Hw). unfold entries. rewrite length_app.
  destruct Hw as [(_ & -> & [->|H0])|(_ & H0 & H1 & _)]; rewrite ?(ht_ok_used _ H0), ?(ht_ok_used _ H1); simpl; lia.
Qed.

Lemma ht1_ok d : dict_wf d -> dictIsRehashing d = true -> ht_ok (ht1 d).
Proof. intros (_ & _ & [Hs|(_ & _ & ? & _)]) Hr; [by rewrite stable_not_rehashing in Hr|done]. Qed.

Definition found d (r : option (entry_pos * dictEntry K V)) (key : K) : Prop :=
  match r with
  | Some (p, e) => ht_ok (get_ht d (ep_table p)) /\
      at_pos (get_ht d (ep_table p)) (ep_idx p) (ep_nth p) e /\ ekey e = canon key
  | None => Forall (fun e => ekey e <> canon key) (entries d)
  end.

(** The loop over the two tables, shared by lookup, insertion and deletion. *)
Lemma find_tables d key : dict_wf d -> ht_ok (ht0 d) ->
  exists r0, find_in_table T key (ht0 d) = Some (Z.land (dictHashKey T key) (ht_sizemask (ht0 d)), r0) /\
    match r0 with
    | Some (n, e) => found d (Some (EntryPos false (Z.land (dictHashKey T key) (ht_sizemask (ht0 d))) n, e)) key
    | None =>
      if dictIsRehashing d then
        exists r1, find_in_table T key (ht1 d) = Some (Z.land (dictHashKey T key) (ht_sizemask (ht1 d)), r1) /\
        match r1 with
        | Some (n, e) => found d (Some (EntryPos true (Z.land (dictHashKey T key) (ht_sizemask (ht1 d))) n, e)) key
        | None => found d None key
        end
      else found d None key
    end.
Proof.
  intros Hd H0. destruct (find_in_table_spec key (ht0 d) H0) as (r0 & -> & Hr0). exists r0. split; [done|].
  destruct r0 as [[n e]|]; [done|]. destruct (dictIsRehashing d) eqn:Hr.
  - pose proof (ht1_ok d Hd Hr) as H1.
    destruct (find_in_table_spec key (ht1 d) H1) as (r1 & -> & Hr1). exists r1. split; [done|].
    destruct r1 as [[n e]|]; [done|]. by apply Forall_app.
  - destruct Hd as (_ & _ & [(_ & E & _)|Hw]); [|by rewrite rehash_rehashing in Hr].
    unfold found, entries. rewrite E. simpl. by rewrite app_nil_r.
Qed.

Lemma dictFind_spec d key : dict_wf d ->
  exists d' r, dictFind T d key = Some (d', r) /\ same_entries d d' /\ found d' r key.
Proof.
  intros Hd. unfold dictFind. pose proof (used_entries d Hd) as (Hu & Hu0 & Hu1).
  pose proof Hd as (_ & Hlen & _). rewrite (wrapu_id 64) by lia.
  destruct (Z.eqb_spec (ht_used (ht0 d) + ht_used (ht1 d)) 0) as [E|E].
  { exists d, None. split_and!; try done. unfold found. destruct (entries d); [constructor|simpl in *; lia]. }
  destruct (maybe_rehash d Hd) as (d' & -> & Hsame & Hok). cbn [mbind option_bind].
  assert (ht_ok (ht0 d')) as H0.
  { apply Hok. destruct Hd as (_ & _ & [(_ & E1 & [E0|H0])|(_ & H0 & _)]).
    - rewrite E0, E1 in *. done.
    - pose proof (size_pos _ H0). lia.
    - pose proof (size_pos _ H0). lia. }
  destruct (find_tables d' key (proj1 Hsame) H0) as (r0 & -> & Hr0). cbn [mbind option_bind].
  destruct r0 as [[n e]|].
  { by eexists _, (Some _). }
  destruct (dictIsRehashing d'); cbn [negb].
  - destruct Hr0 as (r1 & -> & Hr1). cbn [mbind option_bind].
    destruct r1 as [[n e]|]; [by eexists _, (Some _)|by exists d', None].
  - by exists d', None.
Qed.

(** *** Replacing a bucket of the dictionary *)

Lemma replace_bucket d table idx b b' n : dict_wf d -> ht_ok (get_ht d table) ->
  (table = true -> dictIsRehashing d = true) ->
  tget (ht_table (get_ht d table)) idx = Some b ->
  Forall (fun e => Z.land (ehash e) (ht_sizemask (get_ht d table)) = idx) b' ->
  Zlen b' = Zlen b + n -> n <= 1 -> (table = false -> dictIsRehashing d = true -> b = [] -> b' = []) ->
  exists h, set_bucket (get_ht d table) idx b' = Some h /\
    let d' := set_ht d table (add_used h n) in
    (stable_wf d' \/ rehash_wf d') /\ entries d' ++ b ≡ₚ entries d ++ b' /\ dictIsRehashing d' = dictIsRehashing d /\
    iterators d' = iterators d /\ (forall j, tget (ht_table (add_used h n)) j =
      if decide (j = idx) then Some b' else tget (ht_table (get_ht d table)) j) /\
    ht_used h = ht_used (get_ht d table) /\ ht_ok (add_used h n).
Proof.
  intros Hd Hok Htab Hb Hf Hn Hn1 Hemp. pose proof (used_entries d Hd) as (Hu & Hu0 & Hu1).
  pose proof Hd as (_ & Hlen & Hw).
  destruct (set_bucket_spec _ idx b b' n Hok Hb Hf Hn) as (h & Eh & Hok' & Hs & Hm & Hus & Hp & Hg).
  { destruct table; simpl; lia. }
  exists h. split; [done|]. simpl. split; [|split_and!; [|by destruct table..|done|done|done]].
  - destruct Hw as [(Hi & H1 & _)|(Hi & H0 & H1 & He)].
    + left. destruct table; [|split_and!; try done; by right].
      specialize (Htab eq_refl). rewrite stable_not_rehashing in Htab; [done|]. split_and!; try done.
      by destruct Hd as (_ & _ & [(_ & _ & ?)|Hw]); [|destruct Hw; lia].
    + right. destruct table; split_and!; cbn [set_ht rehashidx ht0 ht1 add_used ht_size ht_table]; simpl in *; try done; try lia.
      intros j bj Hj Hbj. rewrite Hg in Hbj. case_decide; [|by apply (He j)].
      simplify_eq. apply Hemp; [done|by apply rehash_rehashing|by apply (He idx)].
  - unfold entries. destruct table; cbn [set_ht ht0 ht1 add_used ht_table]; simpl in Hp.
    + rewrite <- app_assoc, Hp. by rewrite app_assoc.
    + rewrite <- app_assoc, (Permutation_app_comm _ b), app_assoc, Hp. solve_Permutation.
Qed.

Lemma add_used_0 h : 0 <= ht_used h < 2 ^ 64 -> add_used h 0 = h.
Proof. intros Hu. unfold add_used. rewrite Z.add_0_r, (wrapu_id 64) by done. by destruct h. Qed.

Lemma at_pos_split h idx n e : at_pos h idx n e ->
  exists b1 b2, tget (ht_table h) idx = Some (b1 ++ e :: b2) /\ n = length b1.
Proof.
  intros (b & Hb & Hn). destruct (list_elem_of_split_length _ _ _ Hn) as (b1 & b2 & -> & ->). by exists b1, b2.
Qed.

(** Putting entry [e'] in the place of [e], of the same key. *)
Lemma dictSetVal_spec d p e val : dict_wf d -> ht_ok (get_ht d (ep_table p)) ->
  (ep_table p = true -> dictIsRehashing d = true) -> at_pos (get_ht d (ep_table p)) (ep_idx p) (ep_nth p) e ->
  let e' := DictEntry (de_key e) (Some (match valDup T with Some f => f val | None => val end)) in
  exists d' l, dictSetVal T d p val = Some d' /\ dict_wf d' /\ iterators d' = iterators d /\
    entries d ≡ₚ e :: l /\ entries d' ≡ₚ e' :: l.
Proof.
  intros Hd Hok Htab Hat e'. pose proof (at_pos_entry _ _ _ _ _ Hat) as Hin.
  apply elem_of_Permutation in Hin as [l Hl].
  destruct (at_pos_split _ _ _ _ Hat) as (b1 & b2 & Hb & En).
  pose proof (ht_ok_place _ Hok _ _ Hb) as Hpl. apply Forall_app in Hpl as [Hp1 [Hpe Hp2]%Forall_cons].
  unfold dictSetVal. rewrite Hb. cbn [mbind option_bind].
  rewrite En, list_lookup_middle by done. cbn [mbind option_bind].
  rewrite insert_app_r_alt, Nat.sub_diag by lia. cbn [insert list_insert]. fold e'.
  destruct (replace_bucket d (ep_table p) (ep_idx p) _ (b1 ++ e' :: b2) 0 Hd Hok Htab Hb) as
    (h & -> & Hw & Hperm & _ & Hi & _ & Hus & _).
  { apply Forall_app. split; [done|]. by constructor. }
  { rewrite !length_app. simpl. lia. }
  { lia. }
  { intros _ _ E. by destruct b1. }
  cbn [mbind option_bind]. pose proof (used_entries d Hd) as (Hu & Hu0 & Hu1). pose proof Hd as (Hnd & Hlen & _).
  rewrite add_used_0 in * by (rewrite Hus; destruct (ep_table p); simpl; lia).
  assert (entries (set_ht d (ep_table p) h) ≡ₚ e' :: l) as Hl'.
  { apply (Permutation_app_inv_r (b1 ++ e :: b2)). rewrite Hperm, Hl. solve_Permutation. }
  exists (set_ht d (ep_table p) h), l. split_and!; try done.
  pose proof (Permutation_length Hl) as HL. simpl in HL.
  split_and!; rewrite ?Hl'; [|simpl; lia|done]. rewrite Hl in Hnd. done.
Qed.

Lemma expandIfNeeded_spec can d : dict_wf d ->
  exists d', _dictExpandIfNeeded can d = Some (d', DICT_OK) /\ dict_wf d' /\ entries d' = entries d /\
    iterators d' = iterators d /\ ht_ok (ht0 d').
Proof.
  intros Hd. unfold _dictExpandIfNeeded. pose proof (used_entries d Hd) as (Hu & Hu0 & Hu1).
  pose proof Hd as (_ & Hlen & Hw). destruct (dictIsRehashing d) eqn:Hr.
  { destruct Hw as [Hs|(_ & H0 & _)]; [by rewrite stable_not_rehashing in Hr|]. by exists d. }
  assert (forall size, 0 <= size <= 2 ^ 31 -> ht_used (ht0 d) <= size ->
    (ht_size (ht0 d) = 0 \/ ht_size (ht0 d) < size) ->
    exists d', dictExpand d size = Some (d', DICT_OK) /\ dict_wf d' /\ entries d' = entries d /\
      iterators d' = iterators d /\ ht_ok (ht0 d')) as Hexp.
  { intros size Hsz Hle Hgrow. destruct (dictExpand_spec d size Hd Hsz) as (d' & rc & -> & Hd' & He & Hi & _ & Hrc & Hok).
    rewrite (Hrc Hr Hle Hgrow) in *. exists d'. split_and!; try done. by apply Hok. }
  destruct Hw as [(_ & E1 & Hw)|Hw]; [|by rewrite rehash_rehashing in Hr].
  destruct (Z.eqb_spec (ht_size (ht0 d)) 0) as [E0|E0].
  { apply Hexp; unfold DICT_HT_INITIAL_SIZE; [lia| |by left].
    destruct Hw as [->|Hok]; [done|]. pose proof (size_pos _ Hok). lia. }
  destruct Hw as [E|Hok]; [by rewrite E in E0|]. pose proof (size_pos _ Hok).
  rewrite Z.geb_leb. destruct (Z.leb_spec (ht_size (ht0 d)) (ht_used (ht0 d))); cbn [andb]; [|by exists d].
  destruct (can || _); [|by exists d]. rewrite (wrapu_id 64) by lia. apply Hexp; lia.
Qed.

Lemma elem_found d p e key : found d (Some (p, e)) key -> exists e, e ∈ entries d /\ ekey e = canon key.
Proof. intros (_ & Hat & Hk). exists e. split; [by eapply at_pos_entry|done]. Qed.

(** The index is [-1] exactly when the key is present. *)
Lemma keyIndex_spec can d key : dict_wf d ->
  exists d' idx, _dictKeyIndex T can d key = Some (d', idx) /\ dict_wf d' /\ entries d' = entries d /\
    iterators d' = iterators d /\
    (idx = -1 /\ (exists e, e ∈ entries d /\ ekey e = canon key) \/
     ht_ok (get_ht d' (dictIsRehashing d')) /\
     idx = Z.land (dictHashKey T key) (ht_sizemask (get_ht d' (dictIsRehashing d'))) /\
     Forall (fun e => ekey e <> canon key) (entries d)).
Proof.
  intros Hd. unfold _dictKeyIndex.
  destruct (expandIfNeeded_spec can d Hd) as (d' & -> & Hd' & He & Hi & H0). cbn [mbind option_bind].
  change (DICT_OK =? DICT_ERR) with false. cbv iota.
  assert (forall h, ht_ok h -> s32 (Z.land (dictHashKey T key) (ht_sizemask h)) =
    Z.land (dictHashKey T key) (ht_sizemask h)) as Hs32.
  { intros h Hh. pose proof (mask_range h (dictHashKey T key) Hh). pose proof (size_pos h Hh).
    apply (wraps_id 32); lia. }
  destruct (find_tables d' key Hd' H0) as (r0 & -> & Hr0). cbn [mbind option_bind].
  destruct r0 as [[n e]|].
  { exists d', (-1). split_and!; try done. left. split; [done|]. rewrite <- He. by eapply elem_found. }
  destruct (dictIsRehashing d') eqn:Hr; cbn [negb].
  - pose proof (ht1_ok _ Hd' Hr). destruct Hr0 as (r1 & -> & Hr1). cbn [mbind option_bind].
    destruct r1 as [[n e]|].
    + exists d', (-1). split_and!; try done. left. split; [done|]. rewrite <- He. by eapply elem_found.
    + eexists d', _. split; [done|]. split_and!; try done. right. rewrite Hr. cbn [get_ht].
      split_and!; [done|by apply Hs32|by rewrite <- He].
  - eexists d', _. split; [done|]. split_and!; try done. right. rewrite Hr. cbn [get_ht].
    split_and!; [done|by apply Hs32|by rewrite <- He].
Qed.

Lemma dictAddRaw_spec can d key : dict_wf d -> Zlen (entries d) < 2 ^ 30 ->
  let e0 := DictEntry (match keyDup T with Some f => f key | None => key end) None in
  exists d' r, dictAddRaw T can d key = Some (d', r) /\ dict_wf d' /\ iterators d' = iterators d /\
    match r with
    | None => (exists e, e ∈ entries d /\ ekey e = canon key) /\ entries d' ≡ₚ entries d
    | Some p => Forall (fun e => ekey e <> canon key) (entries d) /\ entries d' ≡ₚ e0 :: entries d /\
        ekey e0 = canon key /\ ht_ok (get_ht d' (ep_table p)) /\
        (ep_table p = true -> dictIsRehashing d' = true) /\
        at_pos (get_ht d' (ep_table p)) (ep_idx p) (ep_nth p) e0
    end.
Proof.
  intros Hd Hroom e0. unfold dictAddRaw.
  assert (ekey e0 = canon key) as Hk0.
  { subst e0. unfold ekey. cbn [de_key]. destruct (keyDup T) eqn:Ed; [by apply (dup_canon (T := T))|done]. }
  destruct (maybe_rehash d Hd) as (d1 & -> & (Hd1 & Hp1 & Hi1) & _). cbn [mbind option_bind].
  destruct (keyIndex_spec can d1 key Hd1) as (d2 & idx & -> & Hd2 & He2 & Hi2 & Hidx). cbn [mbind option_bind].
  destruct Hidx as [[-> (e & Hin & Hk)]|(Hok & Eidx & Hfresh)].
  { exists d2, None. split_and!; try done; [congruence| |by rewrite He2]. exists e. by rewrite <- Hp1. }
  pose proof (mask_range _ (dictHashKey T key) Hok) as Hrange. rewrite <- Eidx in Hrange.
  destruct (Z.eqb_spec idx (-1)); [lia|].
  destruct (bucket_exists _ (dictHashKey T key) Hok) as [b Hb]. rewrite <- Eidx in Hb. rewrite Hb.
  cbn [mbind option_bind]. fold e0.
  assert (ehash e0 = dictHashKey T key) as Hh0.
  { unfold ehash. by apply (hash_canon (T := T) (canon := canon)). }
  destruct (replace_bucket d2 _ idx b (e0 :: b) 1 Hd2 Hok) as (h & -> & Hw & Hperm & Hre & Hi & Hg & _ & Hoka); try done.
  { constructor; [by rewrite Hh0|]. by apply (ht_ok_place _ Hok). }
  { simpl. lia. }
  { intros E1 E2. congruence. }
  cbn [mbind option_bind]. set (d3 := set_ht d2 _ _) in *.
  assert (entries d3 ≡ₚ e0 :: entries d) as Hp3.
  { apply (Permutation_app_inv_r b). rewrite Hperm, He2, Hp1. solve_Permutation. }
  rewrite Hp1 in Hfresh. pose proof Hd as (Hnd & _ & _).
  eexists d3, (Some _). split; [done|]. split.
  { split_and!; [|rewrite Hp3; simpl; lia|done]. rewrite Hp3. rewrite fmap_cons. constructor; [|done].
    rewrite Hk0. intros (e & Hke & Hin)%list_elem_of_fmap. rewrite Forall_forall in Hfresh. by apply (Hfresh e). }
  split; [congruence|]. split_and!; try done; cbn [ep_table ep_idx ep_nth].
  - subst d3. by destruct (dictIsRehashing d2).
  - congruence.
  - exists (e0 :: b). split; [|done]. subst d3. specialize (Hg idx). rewrite decide_True in Hg by done.
    by destruct (dictIsRehashing d2).
Qed.

(** *** Deletion *)

Lemma unlink_spec d p e : dict_wf d -> ht_ok (get_ht d (ep_table p)) ->
  (ep_table p = true -> dictIsRehashing d = true) -> at_pos (get_ht d (ep_table p)) (ep_idx p) (ep_nth p) e ->
  exists d', unlink d (ep_table p) (ep_idx p) (ep_nth p) = Some d' /\ dict_wf d' /\
    iterators d' = iterators d /\ entries d ≡ₚ e :: entries d'.
Proof.
  intros Hd Hok Htab Hat. destruct (at_pos_split _ _ _ _ Hat) as (b1 & b2 & Hb & En).
  pose proof (ht_ok_place _ Hok _ _ Hb) as Hpl. apply Forall_app in Hpl as [Hp1 [Hpe Hp2]%Forall_cons].
  unfold unlink. rewrite Hb. cbn [mbind option_bind]. rewrite En, delete_middle.
  destruct (replace_bucket d (ep_table p) (ep_idx p) _ (b1 ++ b2) (-1) Hd Hok Htab Hb) as
    (h & -> & Hw & Hperm & _ & Hi & _).
  { by apply Forall_app. }
  { rewrite !length_app. simpl. lia. }
  { lia. }
  { intros _ _ E. by destruct b1. }
  cbn [mbind option_bind]. set (d' := set_ht d _ _) in *.
  assert (entries d ≡ₚ e :: entries d') as Hl.
  { apply (Permutation_app_inv_r (b1 ++ b2)). rewrite <- Hperm. solve_Permutation. }
  exists d'. split_and!; try done. pose proof Hd as (Hnd & Hlen & _).
  rewrite Hl in Hnd, Hlen. rewrite fmap_cons in Hnd. apply NoDup_cons in Hnd as [_ Hnd]. simpl in Hlen.
  split_and!; done || lia.
Qed.

Lemma dictGenericDelete_spec d key nofree : dict_wf d ->
  exists d' rc ev, dictGenericDelete T d key nofree = Some (d', rc, ev) /\ dict_wf d' /\
    iterators d' = iterators d /\
    (rc = DICT_OK /\ (exists e, ekey e = canon key /\ entries d ≡ₚ e :: entries d' /\
       ev = if nofree then [] else dictFreeKey T e ++ dictFreeVal T e) \/
     rc = DICT_ERR /\ Forall (fun e => ekey e <> canon key) (entries d) /\ entries d' ≡ₚ entries d /\ ev = []).
Proof.
  intros Hd. unfold dictGenericDelete. destruct (Z.eqb_spec (ht_size (ht0 d)) 0) as [E|E].
  { exists d, DICT_ERR, []. split_and!; try done. right. split_and!; try done.
    assert (entries d = []) as ->; [|constructor].
    destruct Hd as (_ & _ & [(_ & E1 & [E0|H0])|(_ & H0 & _)]); [|pose proof (size_pos _ H0); lia..].
    unfold entries. by rewrite E0, E1. }
  destruct (maybe_rehash d Hd) as (d1 & -> & (Hd1 & Hp1 & Hi1) & Hok). cbn [mbind option_bind].
  specialize (Hok E).
  assert (forall table idx n e, found d1 (Some (EntryPos table idx n, e)) key ->
    (table = true -> dictIsRehashing d1 = true) ->
    exists d', unlink d1 table idx n = Some d' /\ dict_wf d' /\ iterators d' = iterators d /\
      ekey e = canon key /\ entries d ≡ₚ e :: entries d') as Hun.
  { intros table idx n e (Hh & Hat & Hk) Ht.
    destruct (unlink_spec d1 (EntryPos table idx n) e Hd1 Hh Ht Hat) as (d' & Hu & Hd' & Hi' & Hl).
    exists d'. split_and!; try done; [congruence|]. by rewrite <- Hp1. }
  destruct (find_tables d1 key Hd1 Hok) as (r0 & -> & Hr0). cbn [mbind option_bind].
  destruct r0 as [[n e]|].
  { destruct (Hun _ _ _ _ Hr0 ltac:(done)) as (d' & -> & ? & ? & ? & ?). cbn [mbind option_bind].
    eexists d', DICT_OK, _. split_and!; try done. left. split; [done|]. by exists e. }
  destruct (dictIsRehashing d1) eqn:Hr; cbn [negb].
  - destruct Hr0 as (r1 & -> & Hr1). cbn [mbind option_bind]. destruct r1 as [[n e]|].
    + destruct (Hun _ _ _ _ Hr1 ltac:(done)) as (d' & -> & ? & ? & ? & ?). cbn [mbind option_bind].
      eexists d', DICT_OK, _. split_and!; try done. left. split; [done|]. by exists e.
    + exists d1, DICT_ERR, []. split_and!; try done. right. split_and!; try done. by rewrite <- Hp1.
  - exists d1, DICT_ERR, []. split_and!; try done. right. split_and!; try done. by rewrite <- Hp1.
Qed.

(** ** The dictionary as a finite map *)

Definition entry_pair e : C * option V := (ekey e, de_val e).
Definition contents d : gmap C (option V) := list_to_map (entry_pair <$> entries d).

Lemma entry_pair_fst l : (entry_pair <$> l).*1 = ekey <$> l.
Proof. rewrite <- list_fmap_compose. done. Qed.

Lemma contents_perm d d' : NoDup (ekey <$> entries d) -> entries d' ≡ₚ entries d -> contents d' = contents d.
Proof.
  intros Hnd Hp. unfold contents. apply list_to_map_proper; [|by rewrite Hp].
  rewrite entry_pair_fst. by rewrite Hp.
Qed.

Lemma contents_cons d e l : NoDup (ekey <$> entries d) -> entries d ≡ₚ e :: l ->
  contents d = <[ekey e := de_val e]> (list_to_map (entry_pair <$> l)) /\
  (list_to_map (entry_pair <$> l) : gmap C (option V)) !! ekey e = None.
Proof.
  intros Hnd Hp. split.
  - unfold contents. change (<[ekey e:=de_val e]> (list_to_map (entry_pair <$> l)) : gmap C (option V))
      with (list_to_map (entry_pair <$> (e :: l)) : gmap C (option V)).
    apply list_to_map_proper; [|by rewrite Hp]. by rewrite entry_pair_fst.
  - apply not_elem_of_list_to_map. rewrite entry_pair_fst.
    rewrite Hp, fmap_cons in Hnd. by apply NoDup_cons in Hnd as [? _].
Qed.

Lemma contents_None d c : Forall (fun e => ekey e <> c) (entries d) -> contents d !! c = None.
Proof.
  intros Hf. apply not_elem_of_list_to_map. rewrite entry_pair_fst. intros (e & -> & Hin)%list_elem_of_fmap.
  rewrite Forall_forall in Hf. by apply (Hf e).
Qed.

Lemma contents_Some d e : NoDup (ekey <$> entries d) -> e ∈ entries d -> contents d !! ekey e = Some (de_val e).
Proof.
  intros Hnd [l Hl]%elem_of_Permutation. destruct (contents_cons d e l Hnd Hl) as [-> _]. by rewrite lookup_insert_eq.
Qed.

Lemma contents_size d : NoDup (ekey <$> entries d) -> Z.of_nat (size (contents d)) = Zlen (entries d).
Proof.
  intros Hnd. unfold contents. rewrite <- (length_map_to_list (list_to_map _)).
  rewrite map_to_list_to_map by (by rewrite entry_pair_fst). by rewrite length_fmap.
Qed.

Definition dupv (v : V) : V := match valDup T with Some f => f v | None => v end.

Lemma dictAdd_contents can d key val : dict_wf d -> Zlen (entries d) < 2 ^ 30 ->
  exists d' rc, dictAdd T can d key val = Some (d', rc) /\ dict_wf d' /\ iterators d' = iterators d /\
    match contents d !! canon key with
    | Some _ => rc = DICT_ERR /\ contents d' = contents d
    | None => rc = DICT_OK /\ contents d' = <[canon key := Some (dupv val)]> (contents d)
    end.
Proof.
  intros Hd Hroom. unfold dictAdd. pose proof Hd as (Hnd & _ & _).
  destruct (dictAddRaw_spec can d key Hd Hroom) as (d1 & r & -> & Hd1 & Hi1 & Hr). cbn [mbind option_bind].
  destruct r as [p|].
  - destruct Hr as (Hfresh & Hp1 & Hk & Hok & Htab & Hat). rewrite (contents_None _ _ Hfresh).
    destruct (dictSetVal_spec d1 p _ val Hd1 Hok Htab Hat) as (d2 & l & -> & Hd2 & Hi2 & Hl1 & Hl2).
    cbn [mbind option_bind]. exists d2, DICT_OK. split_and!; try done; [congruence|].
    destruct (contents_cons d2 _ l (proj1 Hd2) Hl2) as [-> _]. unfold ekey in Hk |- *. cbn [de_key de_val] in Hk |- *.
    rewrite Hk. f_equal. apply list_to_map_proper.
    + rewrite entry_pair_fst. pose proof (proj1 Hd1) as Hnd1. rewrite Hl1, fmap_cons in Hnd1.
      by apply NoDup_cons in Hnd1 as [_ ?].
    + rewrite Hp1 in Hl1. apply Permutation_cons_inv in Hl1. by rewrite Hl1.
  - destruct Hr as ((e & Hin & Hk) & Hp1). rewrite <- Hk, (contents_Some d e Hnd Hin).
    exists d1, DICT_ERR. split_and!; try done. by apply contents_perm.
Qed.

Lemma found_table d p e key : dict_wf d -> found d (Some (p, e)) key ->
  ep_table p = true -> dictIsRehashing d = true.
Proof.
  intros (_ & _ & [(_ & E1 & _)|Hw]) (Hok & _) Ht; [|by apply rehash_rehashing].
  rewrite Ht in Hok. simpl in Hok. rewrite E1 in Hok. pose proof (size_pos _ Hok) as Hs. simpl in Hs. lia.
Qed.

Lemma dictReplace_contents can d key val : dict_wf d -> Zlen (entries d) < 2 ^ 30 ->
  exists d' rc ev, dictReplace T can d key val = Some (d', rc, ev) /\ dict_wf d' /\ iterators d' = iterators d /\
    contents d' = <[canon key := Some (dupv val)]> (contents d) /\
    match contents d !! canon key with
    | Some old => rc = 0 /\ ev = if valDestructor T then [FreeVal old] else []
    | None => rc = 1 /\ ev = []
    end.
Proof.
  intros Hd Hroom. unfold dictReplace.
  destruct (dictAdd_contents can d key val Hd Hroom) as (d1 & rc & -> & Hd1 & Hi1 & Hc). cbn [mbind option_bind].
  destruct (contents d !! canon key) as [old|] eqn:Eo; destruct Hc as [-> Hc].
  2: { exists d1, 1, []. by split_and!. }
  change (DICT_ERR =? DICT_OK) with false. cbv iota.
  destruct (dictFind_spec d1 key Hd1) as (d2 & r & -> & (Hd2 & Hp2 & Hi2) & Hf). cbn [mbind option_bind].
  pose proof (contents_perm d1 d2 (proj1 Hd1) Hp2) as Hc2. rewrite Hc in Hc2.
  destruct r as [[p e]|]; [|rewrite <- Hc2, (contents_None _ _ Hf) in Eo; done].
  cbn [mbind option_bind]. pose proof (found_table _ _ _ _ Hd2 Hf) as Ht. destruct Hf as (Hok & Hat & Hk).
  destruct (dictSetVal_spec d2 p e val Hd2 Hok Ht Hat) as (d3 & l & -> & Hd3 & Hi3 & Hl2 & Hl3).
  cbn [mbind option_bind]. eexists d3, 0, _. split; [done|]. split_and!; try done; [congruence| |].
  - destruct (contents_cons d3 _ l (proj1 Hd3) Hl3) as [-> _]. rewrite <- Hc2.
    destruct (contents_cons d2 _ l (proj1 Hd2) Hl2) as [-> _]. unfold ekey in *. cbn [de_key de_val]. rewrite Hk.
    by rewrite insert_insert_eq.
  - assert (old = de_val e) as ->; [|done]. rewrite <- Hc2, <- Hk in Eo.
    rewrite (contents_Some d2 e (proj1 Hd2)) in Eo; [by injection Eo|by eapply at_pos_entry].
Qed.

Lemma dictDelete_contents d key nofree : dict_wf d ->
  exists d' rc ev, dictGenericDelete T d key nofree = Some (d', rc, ev) /\ dict_wf d' /\ iterators d' = iterators d /\
    contents d' = delete (canon key) (contents d) /\
    rc = match contents d !! canon key with Some _ => DICT_OK | None => DICT_ERR end /\
    (nofree = true -> ev = []).
Proof.
  intros Hd. destruct (dictGenericDelete_spec d key nofree Hd) as (d' & rc & ev & -> & Hd' & Hi & Hc).
  exists d', rc, ev. split; [done|]. split; [done|]. split; [done|].
  destruct Hc as [(-> & e & Hk & Hp & ->)|(-> & Hf & Hp & ->)].
  - destruct (contents_cons d e _ (proj1 Hd) Hp) as [Ec En].
    change (list_to_map (entry_pair <$> entries d')) with (contents d') in *. rewrite Ec, <- Hk.
    rewrite lookup_insert_eq, delete_insert_eq, delete_id by done. split_and!; try done. by intros ->.
  - rewrite (contents_None _ _ Hf), delete_id by (by apply contents_None). split_and!; try done.
    apply contents_perm; [apply Hd|done].
Qed.

Lemma dictFetchValue_contents d key : dict_wf d ->
  exists d', dictFetchValue T d key = Some (d', mjoin (contents d !! canon key)) /\ dict_wf d' /\
    iterators d' = iterators d /\ contents d' = contents d.
Proof.
  intros Hd. unfold dictFetchValue.
  destruct (dictFind_spec d key Hd) as (d1 & r & -> & (Hd1 & Hp1 & Hi1) & Hf). cbn [mbind option_bind].
  pose proof (contents_perm d d1 (proj1 Hd) Hp1) as Hc. exists d1. split_and!; try done. rewrite <- Hc.
  destruct r as [[p e]|].
  - destruct Hf as (_ & Hat & Hk). rewrite <- Hk, (contents_Some d1 e (proj1 Hd1)); [done|by eapply at_pos_entry].
  - by rewrite (contents_None _ _ Hf).
Qed.

(** ** Scripts of commands against the specification *)

Inductive cmd :=
  | CAdd (k : K) (v : V) | CReplace (k : K) (v : V) | CDelete (k : K) | CFetch (k : K)
  | CRehash (n : nat) | CExpand (size : Z) | CResize.

Inductive reply := RInt (r : Z) | RVal (v : option V) | RNone.

Definition run_cmd can d (c : cmd) : option (dict K V * reply) :=
  match c with
  | CAdd k v => '(d, r) ← dictAdd T can d k v; Some (d, RInt r)
  | CReplace k v => '(d, r, _) ← dictReplace T can d k v; Some (d, RInt r)
  | CDelete k => '(d, r, _) ← dictDelete T d k; Some (d, RInt r)
  | CFetch k => '(d, v) ← dictFetchValue T d k; Some (d, RVal v)
  | CRehash n => '(d, _) ← dictRehash T d n; Some (d, RNone)
  | CExpand size => '(d, _) ← dictExpand d size; Some (d, RNone)
  | CResize => '(d, _) ← dictResize can d; Some (d, RNone)
  end.

Fixpoint run can d (cs : list cmd) : option (dict K V * list reply) :=
  match cs with
  | [] => Some (d, [])
  | c :: cs => '(d, r) ← run_cmd can d c; '(d, rs) ← run can d cs; Some (d, r :: rs)
  end.

(** The specification: a finite map on canonical keys; maintenance does not
    exist at this level. *)
Definition spec_cmd (m : gmap C (option V)) (c : cmd) : gmap C (option V) * reply :=
  match c with
  | CAdd k v => match m !! canon k with
      | Some _ => (m, RInt DICT_ERR)
      | None => (<[canon k := Some (dupv v)]> m, RInt DICT_OK) end
  | CReplace k v => (<[canon k := Some (dupv v)]> m, RInt (match m !! canon k with Some _ => 0 | None => 1 end))
  | CDelete k => (delete (canon k) m, RInt (match m !! canon k with Some _ => DICT_OK | None => DICT_ERR end))
  | CFetch k => (m, RVal (mjoin (m !! canon k)))
  | _ => (m, RNone)
  end.

Fixpoint spec_run (m : gmap C (option V)) (cs : list cmd) : gmap C (option V) * list reply :=
  match cs with
  | [] => (m, [])
  | c :: cs => let '(m, r) := spec_cmd m c in let '(m, rs) := spec_run m cs in (m, r :: rs)
  end.

Definition cmd_ok (c : cmd) : Prop :=
  match c with
  | CRehash n => Z.of_nat n * 10 <= INT32_MAX
  | CExpand size => 0 <= size <= 2 ^ 31
  | _ => True
  end.

Lemma dictResize_spec can d : dict_wf d ->
  exists d' rc, dictResize can d = Some (d', rc) /\ dict_wf d' /\ entries d' = entries d /\ iterators d' = iterators d.
Proof.
  intros Hd. unfold dictResize. destruct (negb can || _); [by exists d, DICT_ERR|].
  pose proof (used_entries d Hd) as (Hu & Hu0 & Hu1). pose proof Hd as (_ & Hlen & _).
  rewrite (wraps_id 32) by lia. unfold DICT_HT_INITIAL_SIZE.
  set (m := if _ <? 4 then 4 else _). assert (0 <= m <= 2 ^ 31).
  { subst m. destruct (Z.ltb_spec (ht_used (ht0 d)) 4); lia. }
  rewrite (wrapu_id 64) by lia.
  destruct (dictExpand_spec d m Hd) as (d' & rc & -> & ? & ? & ? & _); [done|]. by exists d', rc.
Qed.

Lemma run_cmd_spec can d c : dict_wf d -> Zlen (entries d) < 2 ^ 30 -> cmd_ok c ->
  exists d' r, run_cmd can d c = Some (d', r) /\ dict_wf d' /\ (contents d', r) = spec_cmd (contents d) c.
Proof.
  intros Hd Hroom Hok. destruct c as [k v|k v|k|k|n|sz|]; cbn [run_cmd spec_cmd].
  - destruct (dictAdd_contents can d k v Hd Hroom) as (d' & rc & -> & Hd' & _ & Hc). cbn [mbind option_bind].
    eexists d', _. split_and!; try done.
    destruct (contents d !! canon k); destruct Hc as [E1 E2]; by rewrite E1, E2.
  - destruct (dictReplace_contents can d k v Hd Hroom) as (d' & rc & ev & -> & Hd' & _ & Ec & Hc).
    cbn [mbind option_bind]. eexists d', _. split_and!; try done.
    destruct (contents d !! canon k); destruct Hc as [E1 _]; by rewrite E1, Ec.
  - unfold dictDelete. destruct (dictDelete_contents d k false Hd) as (d' & rc & ev & -> & Hd' & _ & Ec & -> & _).
    eexists d', _. split_and!; try done. by rewrite Ec.
  - destruct (dictFetchValue_contents d k Hd) as (d' & -> & Hd' & _ & Ec).
    eexists d', _. split_and!; try done. by rewrite Ec.
  - destruct (dictRehash_spec d n Hd Hok) as (d' & r & -> & Hd' & Hp & _). eexists d', _. split_and!; try done.
    by rewrite (contents_perm d d' (proj1 Hd) Hp).
  - destruct (dictExpand_spec d sz Hd Hok) as (d' & rc & -> & Hd' & He & _). eexists d', _. split_and!; try done.
    unfold contents. by rewrite He.
  - destruct (dictResize_spec can d Hd) as (d' & rc & -> & Hd' & He & _). eexists d', _. split_and!; try done.
    unfold contents. by rewrite He.
Qed.

Lemma spec_cmd_size m c : (size (spec_cmd m c).1 <= S (size m))%nat.
Proof.
  destruct c as [k v|k v|k|k|n|sz|]; cbn [spec_cmd]; try (simpl; lia).
  - destruct (m !! canon k) eqn:E; simpl; [lia|]. rewrite map_size_insert_None by done. lia.
  - simpl. destruct (m !! canon k) eqn:E; [rewrite map_size_insert_Some by done|rewrite map_size_insert_None by done]; lia.
  - simpl. destruct (m !! canon k) eqn:E; [rewrite map_size_delete_Some by done|rewrite map_size_delete_None by done]; lia.
Qed.

Lemma run_spec can cs : forall d, dict_wf d -> Zlen (entries d) + Zlen cs <= 2 ^ 30 -> Forall cmd_ok cs ->
  exists d' rs, run can d cs = Some (d', rs) /\ dict_wf d' /\ (contents d', rs) = spec_run (contents d) cs.
Proof.
  induction cs as [|c cs IH]; intros d Hd Hroom Hok; cbn [run spec_run]; [by exists d, []|].
  inversion_clear Hok as [|? ? Hc Hcs]. simpl length in Hroom.
  destruct (run_cmd_spec can d c Hd ltac:(lia) Hc) as (d1 & r & -> & Hd1 & E). cbn [mbind option_bind].
  pose proof (spec_cmd_size (contents d) c) as Hs. rewrite <- E in Hs |- *. simpl in Hs.
  pose proof (contents_size d (proj1 Hd)). pose proof (contents_size d1 (proj1 Hd1)).
  destruct (IH d1 Hd1 ltac:(lia) Hcs) as (d2 & rs & -> & Hd2 & E2). cbn [mbind option_bind].
  rewrite <- E2. by exists d2, (r :: rs).
Qed.

Lemma dictCreate_wf : dict_wf dictCreate.
Proof. split_and!; [constructor|simpl; lia|]. left. split_and!; try done. by left. Qed.

(** C2. A dictionary implements a finite map.  Any sequence of insertions,
    replacements, deletions and lookups, interleaved with expansions, resizes
    and any number of incremental rehashing steps, run on a new dictionary
    neither leaves a table nor fails an assertion, and every reply (status
    codes and values) is the reply of the finite map on canonical keys; the
    final contents and their number are those of the map. *)
Theorem dict_refines_map can cs : Zlen cs <= 2 ^ 30 -> Forall cmd_ok cs ->
  exists d rs, run can dictCreate cs = Some (d, rs) /\ dict_wf d /\
    (contents d, rs) = spec_run ∅ cs /\ dictSize d = Z.of_nat (size (contents d)).
Proof.
  intros Hl Hok. destruct (run_spec can cs dictCreate dictCreate_wf) as (d & rs & E & Hd & Hs); [simpl; lia|done|].
  exists d, rs. split_and!; try done. rewrite contents_size by apply Hd.
  unfold dictSize. destruct (used_entries d Hd) as (-> & _). apply (wrapu_id 64). destruct Hd as (_ & ? & _). lia.
Qed.

Lemma rehash_iter n (m : nat) : n <> 0%nat -> Z.of_nat n * 10 <= INT32_MAX -> forall d, dict_wf d ->
  dictIsRehashing d = true -> ht_size (ht0 d) - rehashidx d <= Z.of_nat m ->
  exists (calls : nat) d', (calls <= S m)%nat /\
    Nat.iter calls (fun s => '(d, _) ← s; dictRehash T d n) (Some (d, 1)) = Some (d', 0) /\
    dict_wf d' /\ dictIsRehashing d' = false /\ entries d' ≡ₚ entries d /\ iterators d' = iterators d.
Proof.
  intros Hn Hn10. induction m as [|m IH]; intros d Hd Hr Hm;
    destruct (dictRehash_spec d n Hd Hn10) as (d1 & r & E & Hd1 & Hp & Hi & Hrr & _ & Hpr);
    specialize (Hpr Hr Hn); destruct (dictIsRehashing d1) eqn:Hr1.
  - lia.
  - exists 1%nat, d1. cbn [Nat.iter nat_rect mbind option_bind]. subst r. split_and!; done || lia.
  - destruct (IH d1 Hd1 Hr1 ltac:(lia)) as (calls & d2 & Hc & E2 & Hd2 & Hr2 & Hp2 & Hi2).
    exists (S calls), d2. rewrite Nat.iter_succ_r. cbn [mbind option_bind]. rewrite E, Hrr.
    split_and!; try done; [lia|by rewrite Hp2|congruence].
  - exists 1%nat, d1. cbn [Nat.iter nat_rect mbind option_bind]. subst r. split_and!; done || lia.
Qed.

(** C33. Rehashing terminates: from any state of an ongoing rehashing,
    calling [dictRehash] with a positive count at most as many times as the old
    table has buckets, plus one, ends it with a return value 0; the contents
    are untouched and no iterator was disturbed. *)
Theorem dictRehash_terminates d n : dict_wf d -> n <> 0%nat -> Z.of_nat n * 10 <= INT32_MAX ->
  dictIsRehashing d = true ->
  exists (calls : nat) d', Z.of_nat calls <= ht_size (ht0 d) + 1 /\
    Nat.iter calls (fun s => '(d, _) ← s; dictRehash T d n) (Some (d, 1)) = Some (d', 0) /\
    dict_wf d' /\ dictIsRehashing d' = false /\ contents d' = contents d /\ iterators d' = iterators d.
Proof.
  intros Hd Hn Hn10 Hr. pose proof Hd as (_ & _ & [Hs|Hw]); [by rewrite stable_not_rehashing in Hr|].
  destruct Hw as (Hidx & _).
  destruct (rehash_iter n (Z.to_nat (ht_size (ht0 d))) Hn Hn10 d Hd Hr ltac:(lia)) as
    (calls & d' & Hc & E & Hd' & Hr' & Hp & Hi).
  exists calls, d'. split_and!; try done; [lia|]. by apply contents_perm; [apply Hd|].
Qed.

End DictProofs.

(** ** Bit reversal *)

Definition rev_step (s mask v : Z) : Z :=
  Z.lor (Z.land (Z.shiftr v s) mask) (Z.land (u64 (Z.shiftl v s)) (u64 (Z.lnot mask))).

(** The masks of the six iterations. *)
Definition rev_masks : list (Z * Z) :=
  [(32, 0xFFFFFFFF); (16, 0xFFFF0000FFFF); (8, 0xFF00FF00FF00FF); (4, 0xF0F0F0F0F0F0F0F);
   (2, 0x3333333333333333); (1, 0x5555555555555555)].

Lemma rev_ulong_steps v : rev_ulong v = Some (foldl (fun v sm => rev_step sm.1 sm.2 v) v rev_masks).
Proof. reflexivity. Qed.

(** Where the bit [i] of the result of a step comes from. *)
Definition rev_src (sm : Z * Z) (i : Z) : Z := if Z.testbit sm.2 i then i + sm.1 else i - sm.1.

Lemma rev_step_bit s mask v i : 0 <= s -> 0 <= i < 64 ->
  Z.testbit (rev_step s mask v) i = Z.testbit v (rev_src (s, mask) i).
Proof.
  intros Hs Hi. unfold rev_step, rev_src, wrapu. cbn [fst snd].
  rewrite Z.lor_spec, !Z.land_spec, Z.shiftr_spec, !Z.mod_pow2_bits_low, Z.shiftl_spec, Z.lnot_spec by lia.
  destruct (Z.testbit mask i); simpl; by rewrite ?andb_true_r, ?andb_false_r, ?orb_false_r.
Qed.

(** Through all the steps, the last one first; [None] outside the 64 bits. *)
Fixpoint rev_srcs (sms : list (Z * Z)) (i : Z) : option Z :=
  match sms with
  | [] => Some i
  | sm :: sms => if (0 <=? i) && (i <? 64) then rev_srcs sms (rev_src sm i) else None
  end.

Lemma rev_srcs_bit sms v i j : Forall (fun sm => 0 <= sm.1) sms -> rev_srcs sms i = Some j ->
  Z.testbit (foldr (fun sm v => rev_step sm.1 sm.2 v) v sms) i = Z.testbit v j.
Proof.
  intros Hf. revert i. induction Hf as [|[s m] sms Hs Hf IH]; intros i; simpl; [by intros [= ->]|].
  destruct (Z.leb_spec 0 i), (Z.ltb_spec i 64); try done. simpl. intros E.
  rewrite rev_step_bit by (simpl in Hs; lia). by apply IH.
Qed.

Lemma rev_srcs_ok i : 0 <= i < 64 -> rev_srcs (List.rev rev_masks) i = Some (63 - i).
Proof.
  intros Hi. assert (forallb (fun n => bool_decide (rev_srcs (List.rev rev_masks) (Z.of_nat n) = Some (63 - Z.of_nat n)))
    (seq 0 64) = true) as Hall by (vm_compute; reflexivity).
  rewrite forallb_forall in Hall. specialize (Hall (Z.to_nat i)).
  rewrite Z2Nat.id in Hall by lia. eapply bool_decide_eq_true_1, Hall, in_seq. lia.
Qed.

Lemma rev_step_range s mask v : 0 <= s -> 0 <= mask < 2 ^ 64 -> 0 <= v -> 0 <= rev_step s mask v < 2 ^ 64.
Proof.
  intros Hs Hm Hv. unfold rev_step.
  assert (forall x y, 0 <= x -> 0 <= y < 2 ^ 64 -> 0 <= Z.land x y < 2 ^ 64) as Hland.
  { intros x y Hx Hy. split; [apply Z.land_nonneg; lia|].
    apply (Z.log2_lt_cancel _ _). destruct (Z.eq_dec y 0) as [->|]; [by rewrite Z.land_0_r|].
    pose proof (Z.log2_land x y Hx ltac:(lia)). assert (Z.log2 y < 64) by (apply Z.log2_lt_pow2; lia).
    rewrite Z.log2_pow2 by lia. lia. }
  assert (0 <= Z.land (Z.shiftr v s) mask < 2 ^ 64) as Ha by (apply Hland; [by apply Z.shiftr_nonneg|done]).
  assert (0 <= Z.land (u64 (Z.shiftl v s)) (u64 (Z.lnot mask)) < 2 ^ 64) as Hb
    by (apply Hland; [|]; apply wrapu_range; lia).
  split; [apply Z.lor_nonneg; lia|].
  set (a := Z.land (Z.shiftr v s) mask) in *. set (b := Z.land (u64 _) _) in *.
  destruct (Z.eq_dec (Z.lor a b) 0) as [->|]; [done|].
  apply Z.log2_lt_cancel. rewrite Z.log2_lor, Z.log2_pow2 by lia.
  apply Z.max_lub_lt; (destruct (Z.eq_dec a 0) as [->|]; destruct (Z.eq_dec b 0) as [->|];
    try (change (Z.log2 0) with 0; lia); apply Z.log2_lt_pow2; lia).
Qed.

(** [rev] reverses the 64 bits. *)
Lemma rev_ulong_spec v : 0 <= v < 2 ^ 64 -> exists r, rev_ulong v = Some r /\ 0 <= r < 2 ^ 64 /\
  forall i, 0 <= i < 64 -> Z.testbit r i = Z.testbit v (63 - i).
Proof.
  intros Hv. rewrite rev_ulong_steps. eexists. split; [done|]. split.
  - cbn [foldl rev_masks fst snd]. repeat (apply rev_step_range; [lia|lia|]). lia.
  - intros i Hi. rewrite <- (rev_srcs_bit (List.rev rev_masks) v i (63 - i)); [done| |by apply rev_srcs_ok].
    repeat constructor; simpl; lia.
Qed.

(** The reversed cursor, as a total function. *)
Definition R (v : Z) : Z := default 0 (rev_ulong v).

Lemma R_spec v : 0 <= v < 2 ^ 64 -> rev_ulong v = Some (R v) /\ 0 <= R v < 2 ^ 64.
Proof. intros Hv. unfold R. by destruct (rev_ulong_spec v Hv) as (r & -> & ? & _). Qed.

Lemma R_bit v i : 0 <= v < 2 ^ 64 -> 0 <= i < 64 -> Z.testbit (R v) i = Z.testbit v (63 - i).
Proof. intros Hv Hi. unfold R. destruct (rev_ulong_spec v Hv) as (r & -> & _ & Hb). by apply Hb. Qed.

Lemma testbit_high v i : 0 <= v < 2 ^ 64 -> 64 <= i -> Z.testbit v i = false.
Proof.
  intros Hv Hi. destruct (Z.eq_dec v 0) as [->|]; [apply Z.bits_0|].
  apply Z.bits_above_log2; [lia|]. assert (Z.log2 v < 64) by (apply Z.log2_lt_pow2; lia). lia.
Qed.

Lemma bits64_eq a b : 0 <= a < 2 ^ 64 -> 0 <= b < 2 ^ 64 ->
  (forall i, 0 <= i < 64 -> Z.testbit a i = Z.testbit b i) -> a = b.
Proof.
  intros Ha Hb Heq. apply Z.bits_inj'. intros i Hi. destruct (Z.lt_ge_cases i 64); [by apply Heq|].
  by rewrite !testbit_high.
Qed.

Lemma R_invol v : 0 <= v < 2 ^ 64 -> R (R v) = v.
Proof.
  intros Hv. pose proof (proj2 (R_spec v Hv)) as Hr. apply bits64_eq; [by apply R_spec|done|].
  intros i Hi. rewrite !R_bit by (done || lia). f_equal. lia.
Qed.

(** The high bits of the reversal are the low bits. *)
Lemma R_high h v k : 0 <= h < 2 ^ 64 -> 0 <= v < 2 ^ 64 -> 0 <= k <= 64 ->
  h mod 2 ^ k = v mod 2 ^ k <-> R h / 2 ^ (64 - k) = R v / 2 ^ (64 - k).
Proof.
  intros Hh Hv Hk. rewrite <- !Z.shiftr_div_pow2 by lia. split; intros E.
  - apply Z.bits_inj'. intros i Hi. rewrite !Z.shiftr_spec by lia.
    destruct (Z.lt_ge_cases (i + (64 - k)) 64).
    + rewrite !R_bit by (done || lia).
      rewrite <- (Z.mod_pow2_bits_low h k), <- (Z.mod_pow2_bits_low v k) by lia. by rewrite E.
    + rewrite !testbit_high; try done; by apply R_spec.
  - apply Z.bits_inj'. intros i Hi. destruct (Z.lt_ge_cases i k).
    + rewrite !Z.mod_pow2_bits_low by lia.
      replace i with (63 - ((63 - i - (64 - k)) + (64 - k))) by lia.
      rewrite <- !R_bit by (done || lia). rewrite <- !Z.shiftr_spec by lia. by rewrite E.
    + by rewrite !Z.mod_pow2_bits_high by lia.
Qed.

Lemma lor_ones v n : 0 <= n -> Z.lor v (2 ^ n - 1) = v / 2 ^ n * 2 ^ n + (2 ^ n - 1).
Proof.
  intros Hn. replace (2 ^ n - 1) with (Z.ones n) by (rewrite Z.ones_equiv; lia).
  rewrite (div_mod_pow v n) at 1 by done. pose proof (Z.mod_pos_bound v (2 ^ n) ltac:(lia)).
  rewrite <- lor_low, <- Z.lor_assoc by lia.
  rewrite <- (lor_low _ (Z.ones n)) by (rewrite ?Z.ones_equiv; lia). f_equal.
  apply Z.bits_inj'. intros i Hi. rewrite Z.lor_spec, Z.testbit_ones_nonneg by lia.
  destruct (Z.ltb_spec i n); [by rewrite orb_true_r|]. by rewrite Z.mod_pow2_bits_high by lia.
Qed.

Lemma R_or v k : 0 <= v < 2 ^ 64 -> 0 <= k <= 64 ->
  0 <= Z.lor v (u64 (Z.lnot (2 ^ k - 1))) < 2 ^ 64 /\
  R (Z.lor v (u64 (Z.lnot (2 ^ k - 1)))) = Z.lor (R v) (2 ^ (64 - k) - 1).
Proof.
  intros Hv Hk.
  assert (0 <= Z.lor v (u64 (Z.lnot (2 ^ k - 1))) < 2 ^ 64) as Hr.
  { pose proof (wrapu_range 64 (Z.lnot (2 ^ k - 1)) ltac:(lia)). split; [apply Z.lor_nonneg; lia|].
    set (w := u64 _) in *. assert (Z.lor v w = Z.lor v w mod 2 ^ 64) as ->; [|apply Z.mod_pos_bound; lia].
    apply Z.bits_inj'. intros i Hi. destruct (Z.lt_ge_cases i 64); [by rewrite Z.mod_pow2_bits_low|].
    rewrite Z.mod_pow2_bits_high by lia. by rewrite Z.lor_spec, !testbit_high. }
  split; [done|]. apply bits64_eq; [by apply R_spec| |].
  - pose proof (proj2 (R_spec v Hv)). rewrite lor_ones by lia.
    assert (0 < 2 ^ (64 - k)) by lia. assert (2 ^ 64 = 2 ^ k * 2 ^ (64 - k)) as E by (rewrite <- Z.pow_add_r by lia; f_equal; lia).
    pose proof (Z.div_pos (R v) (2 ^ (64 - k)) ltac:(lia) ltac:(lia)).
    assert (R v / 2 ^ (64 - k) < 2 ^ k) by (apply Z.div_lt_upper_bound; lia). nia.
  - intros i Hi. rewrite R_bit by (done || lia). rewrite !Z.lor_spec, R_bit by (done || lia). f_equal.
    replace (2 ^ k - 1) with (Z.ones k) by (rewrite Z.ones_equiv; lia).
    replace (2 ^ (64 - k) - 1) with (Z.ones (64 - k)) by (rewrite Z.ones_equiv; lia).
    unfold wrapu. rewrite Z.mod_pow2_bits_low, Z.lnot_spec by lia.
    rewrite !Z.testbit_ones_nonneg by lia. destruct (Z.ltb_spec (63 - i) k), (Z.ltb_spec i (64 - k)); done || lia.
Qed.

(** The cursor advances to the end of the interval of reversed hashes that the
    smaller table has in one bucket. *)
Lemma next_cursor_spec v k : 0 <= v < 2 ^ 64 -> 0 <= k <= 64 ->
  exists v', next_cursor (2 ^ k - 1) v = Some v' /\ 0 <= v' < 2 ^ 64 /\
    R v' = ((R v / 2 ^ (64 - k) + 1) * 2 ^ (64 - k)) mod 2 ^ 64.
Proof.
  intros Hv Hk. unfold next_cursor. destruct (R_or v k Hv Hk) as [Hr E].
  destruct (R_spec _ Hr) as [-> _]. cbn [mbind option_bind]. rewrite E.
  set (w := u64 _). assert (0 <= w < 2 ^ 64) as Hw by (apply wrapu_range; lia).
  destruct (R_spec w Hw) as [-> Hrw]. exists (R w). split_and!; try done; [lia..|].
  rewrite R_invol by done. subst w. unfold wrapu. f_equal. rewrite lor_ones by lia. lia.
Qed.

(** *** The arithmetic of the expansion loop, with [v = w + u * 2 ^ k0] *)

Section Expansion.
Context (k0 k1 w : Z) (Hk0 : 0 <= k0) (Hk1 : k0 <= k1 <= 31) (Hw : 0 <= w < 2 ^ k0).

Lemma expand_split u : (w + u * 2 ^ k0) / 2 ^ k0 = u /\ (w + u * 2 ^ k0) mod 2 ^ k0 = w.
Proof. rewrite Z_div_plus_full, Z_mod_plus_full, Z.div_small, Z.mod_small by lia. lia. Qed.

Lemma expand_mask1 u : Z.land (w + u * 2 ^ k0) (2 ^ k1 - 1) = w + u mod 2 ^ (k1 - k0) * 2 ^ k0.
Proof.
  replace (2 ^ k1 - 1) with (Z.ones k1) by (rewrite Z.ones_equiv; lia). rewrite Z.land_ones by lia.
  pose proof (Z.mod_pos_bound u (2 ^ (k1 - k0)) ltac:(lia)).
  assert (2 ^ k1 = 2 ^ (k1 - k0) * 2 ^ k0) as E by (rewrite <- Z.pow_add_r by lia; f_equal; lia).
  rewrite (div_mod_pow u (k1 - k0)) at 1 by lia.
  replace (w + (u / 2 ^ (k1 - k0) * 2 ^ (k1 - k0) + u mod 2 ^ (k1 - k0)) * 2 ^ k0)
    with (w + u mod 2 ^ (k1 - k0) * 2 ^ k0 + u / 2 ^ (k1 - k0) * 2 ^ k1) by (rewrite E; lia).
  rewrite Z_mod_plus_full. apply Z.mod_small. rewrite E. nia.
Qed.

Lemma expand_incr u : 0 <= u < 2 ^ (64 - k0) ->
  let v := w + u * 2 ^ k0 in
  Z.lor (Z.land (u64 (Z.lor v (2 ^ k0 - 1) + 1)) (u64 (Z.lnot (2 ^ k0 - 1)))) (Z.land v (2 ^ k0 - 1))
    = w + (u + 1) mod 2 ^ (64 - k0) * 2 ^ k0.
Proof.
  intros Hu v. rewrite lor_ones by lia. destruct (expand_split u) as [Ed Em]. fold v in Ed, Em. rewrite Ed.
  assert (2 ^ 64 = 2 ^ (64 - k0) * 2 ^ k0) as E by (rewrite <- Z.pow_add_r by lia; f_equal; lia).
  assert (u64 (u * 2 ^ k0 + (2 ^ k0 - 1) + 1) = (u + 1) mod 2 ^ (64 - k0) * 2 ^ k0) as ->.
  { unfold wrapu. rewrite E. replace (u * 2 ^ k0 + (2 ^ k0 - 1) + 1) with ((u + 1) * 2 ^ k0) by lia.
    by rewrite Z.mul_mod_distr_r by lia. }
  set (u' := (u + 1) mod _). assert (0 <= u' < 2 ^ (64 - k0)) by (apply Z.mod_pos_bound; lia).
  assert (Z.land v (2 ^ k0 - 1) = w) as ->.
  { replace (2 ^ k0 - 1) with (Z.ones k0) by (rewrite Z.ones_equiv; lia). by rewrite Z.land_ones. }
  assert (Z.land (u' * 2 ^ k0) (u64 (Z.lnot (2 ^ k0 - 1))) = u' * 2 ^ k0) as ->; [|rewrite lor_low; lia].
  apply bits64_eq.
  - pose proof (wrapu_range 64 (Z.lnot (2 ^ k0 - 1)) ltac:(lia)). split; [apply Z.land_nonneg; lia|].
    assert (Z.land (u' * 2 ^ k0) (u64 (Z.lnot (2 ^ k0 - 1))) <= u' * 2 ^ k0); [|nia].
    apply Z.ldiff_le; [nia|]. apply Z.bits_inj'. intros i Hi. rewrite Z.ldiff_spec, Z.land_spec, Z.bits_0.
    by destruct (Z.testbit (u' * 2 ^ k0) i), (Z.testbit (u64 _) i).
  - nia.
  - intros i Hi. rewrite Z.land_spec. unfold wrapu at 1.
    replace (2 ^ k0 - 1) with (Z.ones k0) by (rewrite Z.ones_equiv; lia).
    rewrite Z.mod_pow2_bits_low, Z.lnot_spec, Z.testbit_ones_nonneg by lia.
    rewrite <- Z.shiftl_mul_pow2 by lia. destruct (Z.ltb_spec i k0); simpl; [|by rewrite andb_true_r].
    by rewrite Z.shiftl_spec_low.
Qed.

Lemma expand_more u : 0 <= u ->
  Z.land (w + u * 2 ^ k0) (Z.lxor (2 ^ k0 - 1) (2 ^ k1 - 1)) = u mod 2 ^ (k1 - k0) * 2 ^ k0.
Proof.
  intros Hu. replace (2 ^ k0 - 1) with (Z.ones k0) by (rewrite Z.ones_equiv; lia).
  replace (2 ^ k1 - 1) with (Z.ones k1) by (rewrite Z.ones_equiv; lia).
  apply Z.bits_inj'. intros i Hi. rewrite Z.land_spec, Z.lxor_spec, !Z.testbit_ones_nonneg by lia.
  rewrite <- !Z.shiftl_mul_pow2 by lia. destruct (Z.ltb_spec i k0).
  - rewrite (Z.shiftl_spec_low (u mod _)) by lia. destruct (Z.ltb_spec i k1); [|lia]. by rewrite andb_false_r.
  - rewrite (Z.shiftl_spec_high (u mod _)) by lia.
    replace (Z.testbit (w + Z.shiftl u k0) i) with (Z.testbit u (i - k0)).
    2: { rewrite Z.shiftl_mul_pow2 by lia. rewrite <- (proj1 (expand_split u)) at 1.
         rewrite Z.div_pow2_bits by lia. f_equal. lia. }
    destruct (Z.ltb_spec i k1); simpl.
    + by rewrite andb_true_r, Z.mod_pow2_bits_low by lia.
    + by rewrite andb_false_r, Z.mod_pow2_bits_high by lia.
Qed.

Lemma expand_next u : 0 <= u -> let q := 2 ^ (k1 - k0) in
  (u + 1) mod 2 ^ (64 - k0) mod q = if u mod q =? q - 1 then 0 else u mod q + 1.
Proof.
  intros Hu q. assert (0 < q) by (subst q; lia).
  assert (2 ^ (64 - k0) = q * 2 ^ (64 - k1)) as -> by (subst q; rewrite <- Z.pow_add_r by lia; f_equal; lia).
  rewrite Z.rem_mul_r, Z.mul_comm, Z_mod_plus_full, Z.mod_mod by lia.
  pose proof (Z.mod_pos_bound u q ltac:(lia)). rewrite <- Zplus_mod_idemp_l.
  destruct (Z.eqb_spec (u mod q) (q - 1)) as [->|].
  - replace (q - 1 + 1) with q by lia. by apply Z.mod_same; lia.
  - apply Z.mod_small. lia.
Qed.

Context {K V : Type} (t1 : dictht K V) (Hlen : Zlen (ht_table t1) = 2 ^ k1).

(** The loop started at [u] emits every bucket of the larger table from there
    to the last expansion of [w]. *)
Lemma scan_expansions_spec fuel : forall u em, 0 <= u < 2 ^ (64 - k0) ->
  2 ^ (k1 - k0) - u mod 2 ^ (k1 - k0) <= Z.of_nat fuel ->
  exists em' u', scan_expansions fuel t1 (2 ^ k0 - 1) (2 ^ k1 - 1) (w + u * 2 ^ k0) em =
      Some (em', w + u' * 2 ^ k0) /\ 0 <= u' < 2 ^ (64 - k0) /\ em ⊆ em' /\
    forall j b, u mod 2 ^ (k1 - k0) <= j < 2 ^ (k1 - k0) -> tget (ht_table t1) (w + j * 2 ^ k0) = Some b -> b ⊆ em'.
Proof.
  set (q := 2 ^ (k1 - k0)). assert (2 ^ k1 = q * 2 ^ k0) as Eq by (subst q; rewrite <- Z.pow_add_r by lia; f_equal; lia).
  induction fuel as [|fuel IH]; intros u em Hu Hf; pose proof (Z.mod_pos_bound u q ltac:(lia)) as Hm; [lia|].
  cbn [scan_expansions]. rewrite expand_mask1, expand_incr by lia. fold q.
  destruct (tget_is_Some (ht_table t1) (w + u mod q * 2 ^ k0)) as [b0 Hb0]; [nia|]. rewrite Hb0.
  cbn [mbind option_bind]. set (u' := (u + 1) mod 2 ^ (64 - k0)).
  assert (0 <= u' < 2 ^ (64 - k0)) as Hu' by (apply Z.mod_pos_bound; lia).
  rewrite expand_more by lia. fold q. pose proof (expand_next u ltac:(lia)) as Hn. cbv zeta in Hn. fold q u' in Hn.
  destruct (Z.eqb_spec (u mod q) (q - 1)) as [El|El]; rewrite Hn.
  - rewrite Z.mul_0_l. simpl. exists (em ++ b0), u'. split_and!; try done; try lia.
    + set_solver.
    + intros j b Hj Hb. replace j with (u mod q) in Hb by lia. rewrite Hb0 in Hb. simplify_eq. set_solver.
  - destruct (Z.eqb_spec ((u mod q + 1) * 2 ^ k0) 0); [nia|].
    destruct (IH u' (em ++ b0) Hu' ltac:(lia)) as (em' & u2 & -> & Hu2 & Hsub & Hall).
    exists em', u2. split_and!; try done; try lia; [set_solver|].
    intros j b Hj Hb. destruct (Z.eq_dec j (u mod q)) as [->|]; [|by apply (Hall j); [lia|]].
    rewrite Hb0 in Hb. simplify_eq. set_solver.
Qed.

End Expansion.

Section ScanProofs.
Context {K V C : Type} `{EqDecision K} `{Countable C} (T : dictType K V) (canon : K -> C).
Context {L : DictLaws T canon}.
Implicit Types (d : dict K V) (e : dictEntry K V).

Local Notation wf := (dict_wf T canon).
Local Notation ekey := (ekey canon).
Local Notation ehash := (ehash T).

(** The size of the smaller table in use. *)
Definition small_size d : Z :=
  if dictIsRehashing d then Z.min (ht_size (ht0 d)) (ht_size (ht1 d)) else ht_size (ht0 d).

Lemma ehash_range e : 0 <= ehash e < 2 ^ 32.
Proof. apply wrapu_range. lia. Qed.

Lemma bucket_of h k e : ht_ok T h -> ht_size h = 2 ^ k -> 0 <= k -> e ∈ concat (ht_table h) ->
  exists b, tget (ht_table h) (ehash e mod 2 ^ k) = Some b /\ e ∈ b.
Proof.
  intros Hok Hk Hk0 (i & b & Hi & He)%elem_of_concat. exists b. split; [|done].
  pose proof (ht_ok_place T h Hok i b Hi) as Hpl. rewrite Forall_forall in Hpl. specialize (Hpl e He). simpl in Hpl.
  rewrite (ht_ok_mask T h Hok), Hk in Hpl.
  replace (2 ^ k - 1) with (Z.ones k) in Hpl by (rewrite Z.ones_equiv; lia).
  rewrite Z.land_ones in Hpl by lia. by rewrite Hpl.
Qed.

Lemma land_mask h k v : ht_ok T h -> ht_size h = 2 ^ k -> 0 <= k -> Z.land v (ht_sizemask h) = v mod 2 ^ k.
Proof.
  intros Hok Hk Hk0. rewrite (ht_ok_mask T h Hok), Hk.
  replace (2 ^ k - 1) with (Z.ones k) by (rewrite Z.ones_equiv; lia). by apply Z.land_ones.
Qed.

(** What one call does to reversed hashes. *)
Definition scan_step d (v : Z) (em : list (dictEntry K V)) (v' k : Z) : Prop :=
  2 <= k <= 31 /\ small_size d = 2 ^ k /\ dictScan d v = Some (em, v') /\ 0 <= v' < 2 ^ 64 /\
  R v' = ((R v / 2 ^ (64 - k) + 1) * 2 ^ (64 - k)) mod 2 ^ 64 /\
  forall e, e ∈ entries d -> ehash e mod 2 ^ k = v mod 2 ^ k -> e ∈ em.

Lemma dictSize_nonzero d : wf d -> entries d <> [] -> (dictSize d =? 0) = false.
Proof.
  intros Hd Hne. unfold dictSize. destruct (used_entries T canon d Hd) as (-> & _).
  destruct Hd as (_ & Hl & _). rewrite (wrapu_id 64) by lia. destruct (entries d); [done|]. simpl. lia.
Qed.

Lemma dictScan_stable_eq d v b : (dictSize d =? 0) = false -> dictIsRehashing d = false ->
  tget (ht_table (ht0 d)) (Z.land v (ht_sizemask (ht0 d))) = Some b ->
  dictScan d v = v' ← next_cursor (ht_sizemask (ht0 d)) v; Some (b, v').
Proof. intros E1 E2 E3. unfold dictScan. rewrite E1, E2. cbn [negb]. rewrite E3, bind_Some. reflexivity. Qed.

Lemma dictScan_stable d v : wf d -> entries d <> [] -> 0 <= v < 2 ^ 64 -> dictIsRehashing d = false ->
  exists em v' k, scan_step d v em v' k.
Proof.
  intros Hd Hne Hv Hr. pose proof (dictSize_nonzero d Hd Hne) as Hnz.
  destruct Hd as (_ & _ & [(_ & E1 & [E0|H0])|Hw]); [|..|by rewrite (rehash_rehashing T) in Hr].
  { unfold entries in Hne. by rewrite E0, E1 in Hne. }
  destruct (ht_ok_size T _ H0) as (k & Hk & Hs).
  destruct (bucket_exists T (ht0 d) v H0) as [b Hb].
  pose proof (dictScan_stable_eq d v b Hnz Hr Hb) as Eq.
  destruct (next_cursor_spec v k Hv ltac:(lia)) as (v' & En & Hv' & HR).
  rewrite (ht_ok_mask T _ H0), Hs, En, bind_Some in Eq.
  exists b, v', k. split; [done|]. split; [unfold small_size; by rewrite Hr|]. split; [exact Eq|].
  split; [exact Hv'|]. split; [exact HR|].
  intros e He Hh. unfold entries in He. rewrite E1 in He.
  apply elem_of_app in He as [He|He]; [|by apply elem_of_nil in He].
  destruct (bucket_of _ k e H0 Hs ltac:(lia) He) as (b' & Hb' & Hin).
  rewrite (land_mask _ k v H0 Hs) in Hb by lia. rewrite Hh, Hb in Hb'. injection Hb' as ->. exact Hin.
Qed.

(** The two tables, the smaller first. *)
Lemma scan_two_tables t0 t1 k0 k1 v : ht_ok T t0 -> ht_ok T t1 -> 2 <= k0 <= k1 -> k1 <= 31 ->
  ht_size t0 = 2 ^ k0 -> ht_size t1 = 2 ^ k1 -> 0 <= v < 2 ^ k0 ->
  exists em v', scan_tables t0 t1 v = Some (em, v') /\ 0 <= v' < 2 ^ 64 /\
    R v' = ((R v / 2 ^ (64 - k0) + 1) * 2 ^ (64 - k0)) mod 2 ^ 64 /\
    forall e, e ∈ concat (ht_table t0) ++ concat (ht_table t1) -> ehash e mod 2 ^ k0 = v mod 2 ^ k0 -> e ∈ em.
Proof.
  intros H0 H1 Hk0 Hk1 Hs0 Hs1 Hv. assert (2 ^ k0 < 2 ^ 64) by (apply Z.pow_lt_mono_r; lia).
  destruct (bucket_exists T t0 v H0) as [b Hb]. unfold scan_tables. cbv zeta. rewrite Hb, bind_Some.
  rewrite (land_mask _ k0 v H0 Hs0) in Hb by lia.
  rewrite (ht_ok_mask T _ H0), (ht_ok_mask T _ H1), Hs0, Hs1.
  assert (Zlen (ht_table t1) = 2 ^ k1) as HL by (by rewrite (ht_ok_len T _ H1)).
  assert (0 < 2 ^ (64 - k0)) by lia.
  assert (2 ^ (k1 - k0) <= 2 ^ k1) by (apply Z.pow_le_mono_r; lia).
  destruct (scan_expansions_spec k0 k1 v ltac:(lia) ltac:(lia) Hv t1 HL (S (length (ht_table t1))) 0 b
    ltac:(lia) ltac:(rewrite Z.mod_0_l by lia; lia)) as (em & u & E & Hu & Hsub & Hall).
  rewrite Z.mul_0_l, Z.add_0_r in E. rewrite E, bind_Some.
  assert (2 ^ 64 = 2 ^ (64 - k0) * 2 ^ k0) as E64 by (rewrite <- Z.pow_add_r by lia; f_equal; lia).
  assert (0 <= v + u * 2 ^ k0 < 2 ^ 64) as Hvu by nia.
  destruct (next_cursor_spec (v + u * 2 ^ k0) k0 Hvu ltac:(lia)) as (v' & -> & Hv' & HR).
  rewrite bind_Some. exists em, v'. split; [reflexivity|]. split; [exact Hv'|]. split.
  - rewrite HR. do 3 f_equal. apply (R_high _ v k0); [lia..|]. by rewrite Z_mod_plus_full.
  - intros e [He|He]%elem_of_app Hh; rewrite (Z.mod_small v) in Hh, Hb by lia.
    + destruct (bucket_of _ k0 e H0 Hs0 ltac:(lia) He) as (b' & Hb' & Hin). rewrite Hh, Hb in Hb'.
      simplify_eq. by apply Hsub.
    + destruct (bucket_of _ k1 e H1 Hs1 ltac:(lia) He) as (b' & Hb' & Hin).
      set (i := ehash e mod 2 ^ k1) in *. assert (0 <= i < 2 ^ k1) by (apply Z.mod_pos_bound; lia).
      assert (2 ^ k1 = 2 ^ (k1 - k0) * 2 ^ k0) as E1 by (rewrite <- Z.pow_add_r by lia; f_equal; lia).
      assert (i mod 2 ^ k0 = v) as Him.
      { rewrite <- Hh. subst i. rewrite E1, Z.mul_comm, Z.rem_mul_r by lia.
        rewrite (Z.mul_comm (2 ^ k0)), Z_mod_plus_full. by rewrite Z.mod_mod by lia. }
      apply (Hall (i / 2 ^ k0) b'); [|by rewrite <- Him, Z.add_comm, <- div_mod_pow by lia|done].
      rewrite Z.mod_0_l by lia. split; [apply Z.div_pos; lia|]. apply Z.div_lt_upper_bound; lia.
Qed.

Lemma dictScan_spec d v : wf d -> entries d <> [] -> 0 <= v < 2 ^ 64 ->
  (dictIsRehashing d = true -> v < small_size d) -> exists em v' k, scan_step d v em v' k.
Proof.
  intros Hd Hne Hv Hsmall. destruct (dictIsRehashing d) eqn:Hr; [|by apply dictScan_stable].
  specialize (Hsmall eq_refl). unfold scan_step. unfold small_size in *. unfold dictScan.
  rewrite (dictSize_nonzero d Hd Hne), Hr in *. cbn [negb].
  destruct Hd as (_ & _ & [Hs|(_ & H0 & H1 & _)]); [by rewrite (stable_not_rehashing T) in Hr|].
  destruct (ht_ok_size T _ H0) as (k0 & Hk0 & Hs0). destruct (ht_ok_size T _ H1) as (k1 & Hk1 & Hs1).
  rewrite Z.gtb_ltb. destruct (Z.ltb_spec (ht_size (ht1 d)) (ht_size (ht0 d))) as [Hlt|Hle].
  - rewrite Z.min_r in * by lia.
    assert (k1 <= k0) by (destruct (Z.le_gt_cases k1 k0) as [|Hc]; [done|]; apply (Z.pow_lt_mono_r 2) in Hc; lia).
    destruct (scan_two_tables (ht1 d) (ht0 d) k1 k0 v) as (em & v' & -> & ? & ? & Hall); try done; try lia.
    exists em, v', k1. split_and!; try done; try lia. intros e He. apply Hall. unfold entries in He. set_solver.
  - rewrite Z.min_l in * by lia.
    assert (k0 <= k1) by (destruct (Z.le_gt_cases k0 k1) as [|Hc]; [done|]; apply (Z.pow_lt_mono_r 2) in Hc; lia).
    destruct (scan_two_tables (ht0 d) (ht1 d) k0 k1 v) as (em & v' & -> & ? & ? & Hall); try done; try lia.
    exists em, v', k0. by split_and!; try done; try lia.
Qed.

(** A whole scan: one call on each successive state of the dictionary. *)
Fixpoint scan_run (v : Z) (ds : list (dict K V)) : option (list (dictEntry K V) * Z) :=
  match ds with
  | [] => Some ([], v)
  | d :: ds => '(em, v) ← dictScan d v; '(em', v) ← scan_run v ds; Some (em ++ em', v)
  end.

Lemma scan_run_eq v d ds :
  scan_run v (d :: ds) = '(em, v) ← dictScan d v; '(em', v) ← scan_run v ds; Some (em ++ em', v).
Proof. reflexivity. Qed.

Lemma R_multiple v k a : 0 <= v < 2 ^ 64 -> 0 <= k <= 64 -> R v = a * 2 ^ (64 - k) -> v < 2 ^ k.
Proof.
  intros Hv Hk E. assert (v = v mod 2 ^ k) as ->; [|apply Z.mod_pos_bound; lia].
  apply bits64_eq; [done| |].
  - pose proof (Z.mod_pos_bound v (2 ^ k) ltac:(lia)). assert (2 ^ k <= 2 ^ 64) by (apply Z.pow_le_mono_r; lia). lia.
  - intros i Hi. destruct (Z.lt_ge_cases i k); [by rewrite Z.mod_pow2_bits_low|].
    rewrite Z.mod_pow2_bits_high by lia. replace i with (63 - (63 - i)) by lia.
    rewrite <- R_bit by (done || lia). rewrite E, <- Z.shiftl_mul_pow2 by lia. apply Z.shiftl_spec_low. lia.
Qed.

(** The end of the interval of length [P] around [a]. *)
Lemma interval_end a b P N : 0 < P -> 0 <= a <= b -> b < N -> b / P <> a / P ->
  a < (a / P + 1) * P <= b /\ ((a / P + 1) * P) mod N = (a / P + 1) * P.
Proof.
  intros HP Ha Hb Hne. pose proof (Z.div_le_mono a b P ltac:(lia) ltac:(lia)).
  pose proof (Z.mul_div_le b P ltac:(lia)). pose proof (Z.mul_succ_div_gt a P ltac:(lia)).
  pose proof (Z.div_pos a P ltac:(lia) ltac:(lia)).
  assert (a < (a / P + 1) * P <= b) by nia. split; [done|]. apply Z.mod_small. lia.
Qed.

(** An interval of a coarser grid ends on the finer grid of step [Q]. *)
Lemma interval_advance a P N c Q x : 0 < P -> 0 < Q -> 0 < c -> P = c * Q -> N mod P = 0 ->
  0 <= a * Q < N -> x = ((a * Q / P + 1) * P) mod N -> x <> 0 -> exists a', x = a' * Q /\ a + 1 <= a'.
Proof.
  intros HP HQ Hc EP HN Ha -> Hx. exists ((a * Q / P + 1) * c).
  pose proof (Z.mul_succ_div_gt (a * Q) P ltac:(lia)). pose proof (Z.div_pos (a * Q) P ltac:(lia) ltac:(lia)).
  apply Z.mod_divide in HN as [n ->]; [|lia].
  assert (a * Q / P < n) by (apply Z.div_lt_upper_bound; lia).
  rewrite Z.mul_mod_distr_r in Hx |- * by lia.
  assert ((a * Q / P + 1) mod n = a * Q / P + 1) as ->.
  { apply Z.mod_small. destruct (Z.eq_dec (a * Q / P + 1) n) as [E|]; [|lia]. by rewrite E, Z.mod_same in Hx by lia. }
  split; [rewrite EP; lia|]. set (d := a * Q / P) in *. clearbody d. subst P. nia.
Qed.

(** A step either emits the key, or ends below its reversed hash. *)
Lemma scan_step_key d v em v' k e : scan_step d v em v' k -> 0 <= v < 2 ^ 64 -> e ∈ entries d ->
  R v <= R (ehash e) -> e ∈ em \/ R v < R v' <= R (ehash e).
Proof.
  intros (Hk & _ & _ & Hv' & HR & Hem) Hv He Hle. pose proof (ehash_range e) as Hh.
  assert (0 <= ehash e < 2 ^ 64) as Hh' by lia.
  destruct (Z.eq_dec (ehash e mod 2 ^ k) (v mod 2 ^ k)) as [E|E]; [left; by apply Hem|right].
  assert (R (ehash e) / 2 ^ (64 - k) <> R v / 2 ^ (64 - k)) as Hne by (intros Hc; by apply E, R_high; [..|lia|]).
  destruct (interval_end (R v) (R (ehash e)) (2 ^ (64 - k)) (2 ^ 64)) as [Hi Hm]; [lia| | |done|].
  - split; [apply (R_spec v Hv)|exact Hle].
  - apply (R_spec _ Hh').
  - by rewrite HR, Hm.
Qed.

Lemma hash_of_key e e' : ekey e = ekey e' -> ehash e = ehash e'.
Proof. apply (hash_canon (T := T) (canon := canon)). Qed.

Definition grows (ds : list (dict K V)) : Prop := Sorted (fun d d' => small_size d <= small_size d') ds.

(** The next cursor has no bit above the mask of the smaller table. *)
Lemma scan_step_small d v em v' k : scan_step d v em v' k -> v' < small_size d.
Proof.
  intros (Hk & -> & _ & Hv' & HR & _).
  assert (2 ^ 64 = 2 ^ k * 2 ^ (64 - k)) as E by (rewrite <- Z.pow_add_r by lia; f_equal; lia).
  rewrite E, Z.mul_mod_distr_r in HR by lia. by eapply (R_multiple v' k); [|lia|].
Qed.

Definition small_cursor (v : Z) (ds : list (dict K V)) : Prop :=
  0 <= v < 2 ^ 64 /\ forall d, head ds = Some d -> v < small_size d.

Lemma scan_run_cons d ds v : wf d -> entries d <> [] -> grows (d :: ds) -> small_cursor v (d :: ds) ->
  exists em v' k, scan_step d v em v' k /\ small_cursor v' ds /\ grows ds /\
    forall ds', scan_run v (d :: ds') = '(em', v2) ← scan_run v' ds'; Some (em ++ em', v2).
Proof.
  intros Hd Hne Hg [Hv Hsm]. inversion_clear Hg as [|? ? Hg' Hhd].
  destruct (dictScan_spec d v Hd Hne Hv) as (em & v' & k & Hst); [intros _; by apply Hsm|].
  exists em, v', k. pose proof (scan_step_small _ _ _ _ _ Hst). pose proof Hst as (_ & _ & E & Hv' & _).
  split; [exact Hst|]. split; [|split; [exact Hg'|]].
  - split; [exact Hv'|]. intros d' Hd'. destruct ds as [|d2 ds]; [done|]. injection Hd' as ->.
    inversion_clear Hhd. lia.
  - intros ds'. rewrite scan_run_eq, E, bind_Some. reflexivity.
Qed.

Lemma scan_run_total ds : forall v, Forall wf ds -> Forall (fun d => entries d <> []) ds -> grows ds ->
  small_cursor v ds -> exists em v', scan_run v ds = Some (em, v').
Proof.
  induction ds as [|d ds IH]; intros v Hwf Hne Hg Hv; [by eexists _, _|].
  inversion_clear Hwf. inversion_clear Hne.
  destruct (scan_run_cons d ds v) as (em & v' & k & _ & Hv' & Hg' & E); try done.
  destruct (IH v') as (em' & v2 & E2); try done. rewrite E, E2, bind_Some. by eexists _, _.
Qed.

Lemma scan_run_key c ds : forall v e0, ekey e0 = c -> Forall wf ds -> grows ds ->
  Forall (fun d => exists e, e ∈ entries d /\ ekey e = c) ds -> small_cursor v ds -> R v <= R (ehash e0) ->
  exists em v', scan_run v ds = Some (em, v') /\
    ((exists e, e ∈ em /\ ekey e = c) \/ R v <= R v' /\ (ds <> [] -> R v < R v')).
Proof.
  induction ds as [|d ds IH]; intros v e0 He0 Hwf Hg Hin Hv Hle.
  { exists [], v. split; [done|]. right. by split. }
  assert (Forall (fun d => entries d <> []) (d :: ds)) as Hne.
  { eapply Forall_impl; [exact Hin|]. intros d' (e & He & _) E. rewrite E in He. by apply elem_of_nil in He. }
  inversion_clear Hwf as [|? ? Hd Hds]. inversion_clear Hin as [|? ? (e & He & Hk) Hin'].
  inversion_clear Hne as [|? ? Hne1 Hne2].
  destruct (scan_run_cons d ds v) as (em & v' & k & Hst & Hv' & Hg' & E); try done. rewrite E.
  rewrite (hash_of_key e0 e) in Hle by congruence.
  destruct (scan_step_key d v em v' k e Hst (proj1 Hv) He Hle) as [Hem|[Hlt Hle']].
  - destruct (scan_run_total ds v') as (em' & v2 & ->); try done. rewrite bind_Some. eexists _, _. split; [reflexivity|].
    left. exists e. split; [set_solver|done].
  - destruct (IH v' e Hk Hds Hg' Hin' Hv' Hle') as (em' & v2 & -> & Hc). rewrite bind_Some.
    eexists _, _. split; [reflexivity|]. destruct Hc as [(e' & He' & Hk')|[Hle2 _]].
    + left. exists e'. split; [set_solver|done].
    + right. split; [lia|]. intros _. lia.
Qed.

(** C8. A scan misses nothing while the tables grow.  Let a scan start at
    cursor 0, call [dictScan] on the successive states of a dictionary (which
    may be modified, expanded and rehashed between the calls), and end when the
    cursor is 0 again.  If the smaller table in use never shrinks between two
    calls, every key that is present in all these states was emitted. *)
Theorem dictScan_complete ds c : ds <> [] -> Forall wf ds -> grows ds ->
  Forall (fun d => exists e, e ∈ entries d /\ ekey e = c) ds ->
  exists em v, scan_run 0 ds = Some (em, v) /\ (v = 0 -> exists e, e ∈ em /\ ekey e = c).
Proof.
  intros Hne Hwf Hg Hin. destruct ds as [|d ds]; [done|].
  pose proof Hin as Hin0. inversion_clear Hin0 as [|? ? (e & He & Hk) _].
  assert (R 0 = 0) as R0 by reflexivity. pose proof (ehash_range e).
  assert (small_cursor 0 (d :: ds)) as Hsc.
  { split; [lia|]. intros d' [= <-]. inversion_clear Hwf as [|? ? Hd _].
    destruct (dictScan_spec d 0 Hd) as (em & v' & k & Hk' & -> & _); [|lia| |lia].
    - intros E. rewrite E in He. by apply elem_of_nil in He.
    - intros Hr. unfold small_size. rewrite Hr. destruct Hd as (_ & _ & [Hs|(_ & A0 & A1 & _)]).
      + by rewrite (stable_not_rehashing T) in Hr.
      + pose proof (size_pos T _ A0). pose proof (size_pos T _ A1). lia. }
  destruct (scan_run_key c (d :: ds) 0 e Hk Hwf Hg Hin Hsc) as (em & v' & E & Hc).
  { rewrite R0. apply (R_spec (ehash e)). lia. }
  exists em, v'. split; [done|]. intros ->. destruct Hc as [Hc|[_ Hc]]; [done|]. specialize (Hc ltac:(done)). lia.
Qed.

(** Every call moves the reversed cursor by at least one bucket of the largest
    table, until it wraps to 0. *)
Lemma scan_run_advances m (ds : list (dict K V)) : 0 <= m <= 64 -> forall v a, Forall wf ds ->
  Forall (fun d => entries d <> []) ds -> Forall (fun d => small_size d <= 2 ^ m) ds -> grows ds ->
  small_cursor v ds -> R v = a * 2 ^ (64 - m) ->
  (exists n em, (n <= length ds)%nat /\ n <> 0%nat /\ scan_run v (take n ds) = Some (em, 0)) \/
  (a + Zlen ds) * 2 ^ (64 - m) < 2 ^ 64.
Proof.
  intros Hm. induction ds as [|d ds IH]; intros v a Hwf Hne Hsz Hg Hv Ha.
  { right. simpl. rewrite Z.add_0_r, <- Ha. apply R_spec, Hv. }
  inversion_clear Hwf as [|? ? Hd Hds]. inversion_clear Hne as [|? ? Hne1 Hne2]. inversion_clear Hsz as [|? ? Hsz1 Hsz2].
  destruct (scan_run_cons d ds v) as (em & v' & k & Hst & Hv' & Hg' & E); try done.
  pose proof Hst as (Hk & Es & _ & Hv'r & HR & _).
  assert (k <= m) by (destruct (Z.le_gt_cases k m) as [|Hc]; [done|]; apply (Z.pow_lt_mono_r 2) in Hc; lia).
  destruct (Z.eq_dec v' 0) as [->|Hnz].
  { left. exists 1%nat, (em ++ []). split; [simpl; lia|]. split; [done|]. rewrite firstn_cons, E. reflexivity. }
  destruct (interval_advance a (2 ^ (64 - k)) (2 ^ 64) (2 ^ (m - k)) (2 ^ (64 - m)) (R v')) as (a' & Ha' & Hle).
  { lia. } { lia. } { lia. }
  { rewrite <- Z.pow_add_r by lia. f_equal. lia. }
  { apply Z.mod_divide; [lia|]. exists (2 ^ k). rewrite <- Z.pow_add_r by lia. f_equal. lia. }
  { rewrite <- Ha. apply (R_spec v (proj1 Hv)). }
  { by rewrite <- Ha. }
  { intros E0. apply Hnz. rewrite <- (R_invol v' Hv'r), E0. reflexivity. }
  destruct (IH v' a' Hds Hne2 Hsz2 Hg' Hv' Ha') as [(n & em' & Hn & Hn0 & En)|Hlt].
  - left. exists (S n), (em ++ em'). split; [simpl; lia|]. split; [done|]. rewrite firstn_cons, E, En, bind_Some.
    reflexivity.
  - right. simpl length. assert (0 < 2 ^ (64 - m)) as Hpos by lia. clear - Hlt Hle Hpos. nia.
Qed.

(** C34. A scan ends: while the tables grow and stay within [2 ^ m] buckets,
    the cursor is 0 again after at most [2 ^ m] calls. *)
Theorem dictScan_terminates m ds : 0 <= m <= 64 -> Zlen ds = 2 ^ m -> Forall wf ds ->
  Forall (fun d => entries d <> []) ds -> Forall (fun d => 0 < small_size d <= 2 ^ m) ds -> grows ds ->
  exists n em, (n <= length ds)%nat /\ n <> 0%nat /\ scan_run 0 (take n ds) = Some (em, 0).
Proof.
  intros Hm Hl Hwf Hne Hsz Hg.
  destruct (scan_run_advances m ds Hm 0 0 Hwf Hne) as [Hc|Hc]; try done.
  - eapply Forall_impl; [exact Hsz|]. simpl. intros d Hd. apply Hd.
  - split; [lia|]. intros d Hd. destruct ds as [|d' ds]; [done|]. injection Hd as ->.
    inversion_clear Hsz as [|? ? Hs _]. lia.
  - rewrite Z.add_0_l, Hl, <- Z.pow_add_r in Hc by lia. replace (m + (64 - m)) with 64 in Hc by lia. lia.
Qed.

End ScanProofs.

(** ** An instance: integer keys *)

Definition intDict : dictType Z Z := {|
  hashFunction := dictIntHashFunction; keyDup := None; valDup := None; keyCompare := None;
  keyDestructor := false; valDestructor := true |}.

(** The same with the identity as hash function, to place keys at will. *)
Definition idDict : dictType Z Z := {|
  hashFunction := fun k => k; keyDup := None; valDup := None; keyCompare := None;
  keyDestructor := false; valDestructor := true |}.

Lemma ptr_compare_laws (T : dictType Z Z) : keyCompare T = None -> keyDup T = None -> DictLaws T (fun k => k).
Proof.
  intros Hc Hd. split.
  - intros k1 k2. unfold dictCompareKeys. rewrite Hc. rewrite orb_diag. apply bool_decide_eq_true.
  - by intros k1 k2 ->.
  - intros f k E. congruence.
Qed.

#[export] Instance intDict_laws : DictLaws intDict (fun k => k).
Proof. by apply ptr_compare_laws. Defined.
#[export] Instance idDict_laws : DictLaws idDict (fun k => k).
Proof. by apply ptr_compare_laws. Defined.

(** Forty insertions (three expansions), deletions, a replacement, lookups and
    maintenance. *)
Definition sample_script : list (cmd (K := Z) (V := Z)) :=
  (fun n => CAdd (Z.of_nat n * 37) (Z.of_nat n)) <$> seq 0 40 ++ [40; 41; 42]%nat.

Lemma dict_refines_map_witness : Zlen (sample_script ++ [CDelete 37; CReplace 74 5; CFetch 74; CResize; CFetch 37; CRehash 1])
    <= 2 ^ 30 /\
  exists d rs, run intDict true dictCreate
      (sample_script ++ [CDelete 37; CReplace 74 5; CFetch 74; CResize; CFetch 37; CRehash 1]) = Some (d, rs) /\
    dict_wf intDict (fun k => k) d /\
    (contents (fun k => k) d, rs) = spec_run intDict (fun k => k) ∅
      (sample_script ++ [CDelete 37; CReplace 74 5; CFetch 74; CResize; CFetch 37; CRehash 1]) /\
    dictSize d = Z.of_nat (size (contents (fun k => k) d)).
Proof.
  split; [vm_compute; congruence|]. apply (dict_refines_map intDict (fun k => k)).
  - vm_compute; congruence.
  - apply Forall_forall. intros c Hc. apply elem_of_app in Hc as [Hc|Hc].
    + by apply list_elem_of_fmap in Hc as (n & -> & _).
    + repeat (apply elem_of_cons in Hc as [->|Hc]; [unfold cmd_ok, INT32_MAX; lia || done|]). by apply elem_of_nil in Hc.
Defined.

(** The state after the first [n] commands of a script. *)
Definition after (cs : list (cmd (K := Z) (V := Z))) : dict Z Z := default dictCreate (fst <$> run idDict true dictCreate cs).

Definition cmd_okb (c : cmd (K := Z) (V := Z)) : bool :=
  match c with CRehash n => (n <=? 1000)%nat | CExpand size => (0 <=? size) && (size <=? 1000) | _ => true end.

Lemma after_wf cs : (length cs <=? 1000)%nat && forallb cmd_okb cs = true -> dict_wf idDict (fun k => k) (after cs).
Proof.
  intros [Hl Hok]%andb_true_iff. apply Nat.leb_le in Hl. unfold after.
  destruct (run_spec idDict (fun k => k) true cs dictCreate (dictCreate_wf idDict _)) as (d & rs & -> & Hd & _); [simpl; lia| |done].
  apply Forall_forall. intros c Hc. rewrite forallb_forall in Hok. specialize (Hok c ltac:(by apply list_elem_of_In)).
  destruct c; try done; cbn [cmd_okb cmd_ok] in *; unfold_limits; [apply Nat.leb_le in Hok|]; lia.
Qed.

(** Keys 0 to 3 in a table of 4; then a fifth key starts a rehashing to 8. *)
Definition grow0 : dict Z Z := after [CAdd 0 10; CAdd 1 11; CAdd 2 12; CAdd 3 13].
Definition grow1 : dict Z Z := after [CAdd 0 10; CAdd 1 11; CAdd 2 12; CAdd 3 13; CAdd 4 14].
Definition grow2 : dict Z Z := after [CAdd 0 10; CAdd 1 11; CAdd 2 12; CAdd 3 13; CAdd 4 14; CRehash 1].
Definition grow_run : list (dict Z Z) := [grow0; grow1; grow2; grow2].

Lemma grow_run_wf : Forall (dict_wf idDict (fun k => k)) grow_run.
Proof. repeat (constructor; [apply after_wf; vm_compute; reflexivity|]). constructor. Qed.

Lemma grow_run_grows : grows grow_run.
Proof. unfold grows, grow_run. repeat constructor; vm_compute; congruence. Qed.

Lemma dictScan_complete_witness :
  exists em v, scan_run 0 grow_run = Some (em, v) /\ (v = 0 -> exists e, e ∈ em /\ ekey (fun k => k) e = 1).
Proof.
  apply (dictScan_complete idDict (fun k => k) grow_run 1); [done|apply grow_run_wf|apply grow_run_grows|].
  repeat (constructor; [exists (DictEntry 1 (Some 11)); split; [apply list_elem_of_In; vm_compute; tauto|done]|]). constructor.
Defined.

Lemma dictScan_terminates_witness : Zlen grow_run = 2 ^ 2 /\
  exists n em, (n <= length grow_run)%nat /\ n <> 0%nat /\ scan_run 0 (take n grow_run) = Some (em, 0).
Proof.
  split; [reflexivity|].
  apply (dictScan_terminates idDict (fun k => k) 2 grow_run);
    [lia|reflexivity|apply grow_run_wf| | |apply grow_run_grows];
    repeat (constructor; [vm_compute; (split; congruence) || congruence|]); constructor.
Defined.

Lemma dictRehash_terminates_witness : dictIsRehashing grow1 = true /\
  exists (calls : nat) d', Z.of_nat calls <= ht_size (ht0 grow1) + 1 /\
    Nat.iter calls (fun s => '(d, _) ← s; dictRehash idDict d 1) (Some (grow1, 1)) = Some (d', 0) /\
    dict_wf idDict (fun k => k) d' /\ dictIsRehashing d' = false /\
    contents (fun k => k) d' = contents (fun k => k) grow1 /\ iterators d' = iterators grow1.
Proof.
  split; [vm_compute; reflexivity|]. apply (dictRehash_terminates idDict (fun k => k) grow1 1).
  - apply after_wf. vm_compute. reflexivity.
  - done.
  - vm_compute. congruence.
  - vm_compute. reflexivity.
Defined.

(** ** A scan across a shrinking table misses a key *)

(** Sixteen keys in a table of 16; after the first call of a scan all but three
    are deleted and the table is resized to 4, which starts a rehashing. *)
Definition shrink_adds : list (cmd (K := Z) (V := Z)) :=
  ((fun n => CAdd (Z.of_nat n) 1) <$> seq 0 16) ++ [CRehash 100].
Definition shrink0 : dict Z Z := after shrink_adds.
Definition shrink1 : dict Z Z := after (shrink_adds ++
  (CDelete <$> [0; 1; 2; 5; 6; 7; 8; 9; 10; 11; 12; 13; 14]) ++ [CResize]).

(** C32. The guarantee of [dictScan] does not survive a shrinking table.  From
    reachable states: a scan of a table of 16 buckets is interrupted after one
    call by the resize to 4 buckets, and then runs undisturbed until the cursor
    is 0.  The key 4 is present from the start to the end of the scan and is
    never emitted: the expansion loop leaves out the expansions of the cursor
    below its own high bits. *)
Theorem dictScan_misses :
  let ds := [shrink0; shrink1; shrink1; shrink1; shrink1] in
  Forall (dict_wf idDict (fun k => k)) ds /\
  Forall (fun d => contents (fun k => k) d !! 4 = Some (Some 1)) ds /\
  exists em, scan_run 0 ds = Some (em, 0) /\ Forall (fun e => de_key e <> 4) em.
Proof.
  split; [repeat (constructor; [apply after_wf; vm_compute; reflexivity|]); constructor|].
  split; [repeat (constructor; [vm_compute; reflexivity|]); constructor|].
  eexists. split; [vm_compute; reflexivity|]. repeat (constructor; [done|]). constructor.
Qed.
