(* ===== verification/Adlist.v ===== *)
(** Doubly linked lists: [adlist.c].

    Nodes live in a heap of nodes addressed by pointers ([Z], 0 is NULL); every
    operation reads and writes nodes through their pointers exactly as the C
    code does, so aliasing is visible.  A read through NULL or through a pointer
    to a freed node is [None].  [zmalloc] never returns NULL (it aborts when
    memory is exhausted), so the NULL branches after it are not modelled.  The
    heap keeps a log of the values handed to the list's [free] method. *)

From S2P Require Import Prelude.

Section Adlist.
Context {V : Type}.

Record listNode := Node { n_prev : Z; n_next : Z; n_value : V }.

(** [h_brk] is the next fresh address. *)
Record heap := Heap { h_cells : gmap Z listNode; h_brk : Z; h_log : list V }.

Record list_t := List {
  l_head : Z; l_tail : Z; l_len : Z;
  l_dup : option (V -> option V); l_free : bool; l_match : option (V -> V -> bool)
}.

Inductive direction := AL_START_HEAD | AL_START_TAIL.
Record listIter := Iter { li_next : Z; li_direction : direction }.

Implicit Types (h : heap) (l : list_t) (p : Z).

Definition NULL : Z := 0.

(** ** Heap accesses *)

Definition deref h p : option listNode := if p =? NULL then None else h_cells h !! p.
Definition put h p (n : listNode) : heap := Heap (<[p := n]> (h_cells h)) (h_brk h) (h_log h).
Definition set_next h p (q : Z) : option heap := n ← deref h p; Some (put h p (Node (n_prev n) q (n_value n))).
Definition set_prev h p (q : Z) : option heap := n ← deref h p; Some (put h p (Node q (n_next n) (n_value n))).

(** [zmalloc] of a node and the stores of its three fields. *)
Definition new_node h (n : listNode) : heap * Z :=
  (Heap (<[h_brk h := n]> (h_cells h)) (h_brk h + 1) (h_log h), h_brk h).
Definition zfree h p : option heap := _ ← deref h p; Some (Heap (delete p (h_cells h)) (h_brk h) (h_log h)).
Definition call_free h l (v : V) : heap :=
  if l_free l then Heap (h_cells h) (h_brk h) (h_log h ++ [v]) else h.

Definition set_ends l (hd tl len : Z) : list_t := List hd tl len (l_dup l) (l_free l) (l_match l).

(** ** Operations *)

Definition listCreate : list_t := List NULL NULL 0 None false None.

(** [while(len--)] *)
Fixpoint release_loop (len : nat) h l (current : Z) : option heap :=
  match len with
  | O => Some h
  | S len =>
    n ← deref h current;
    let next := n_next n in
    let h := call_free h l (n_value n) in
    h ← zfree h current;
    release_loop len h l next
  end.

Definition listRelease h l : option heap := release_loop (Z.to_nat (l_len l)) h l (l_head l).

Definition listAddNodeHead h l (value : V) : option (heap * list_t) :=
  if l_len l =? 0 then
    let '(h, node) := new_node h (Node NULL NULL value) in
    Some (h, set_ends l node node (u64 (l_len l + 1)))
  else
    let '(h, node) := new_node h (Node NULL (l_head l) value) in
    h ← set_prev h (l_head l) node;
    Some (h, set_ends l node (l_tail l) (u64 (l_len l + 1))).

Definition listAddNodeTail h l (value : V) : option (heap * list_t) :=
  if l_len l =? 0 then
    let '(h, node) := new_node h (Node NULL NULL value) in
    Some (h, set_ends l node node (u64 (l_len l + 1)))
  else
    let '(h, node) := new_node h (Node (l_tail l) NULL value) in
    h ← set_next h (l_tail l) node;
    Some (h, set_ends l (l_head l) node (u64 (l_len l + 1))).

Definition listInsertNode h l (old_node : Z) (value : V) (after : bool) : option (heap * list_t) :=
  old ← deref h old_node;
  let prev := if after then old_node else n_prev old in
  let next := if after then n_next old else old_node in
  let '(h, node) := new_node h (Node prev next value) in
  let tail := if after && (l_tail l =? old_node) then node else l_tail l in
  let head := if negb after && (l_head l =? old_node) then node else l_head l in
  h ← (if negb (prev =? NULL) then set_next h prev node else Some h);
  h ← (if negb (next =? NULL) then set_prev h next node else Some h);
  Some (h, set_ends l head tail (u64 (l_len l + 1))).

Definition listDelNode h l (node : Z) : option (heap * list_t) :=
  n ← deref h node;
  '(h, head) ← (if negb (n_prev n =? NULL)
    then h ← set_next h (n_prev n) (n_next n); Some (h, l_head l)
    else Some (h, n_next n));
  '(h, tail) ← (if negb (n_next n =? NULL)
    then h ← set_prev h (n_next n) (n_prev n); Some (h, l_tail l)
    else Some (h, n_prev n));
  let h := call_free h l (n_value n) in
  h ← zfree h node;
  Some (h, set_ends l head tail (u64 (l_len l - 1))).

(** Iterators *)

Definition listGetIterator l (d : direction) : listIter :=
  Iter (match d with AL_START_HEAD => l_head l | AL_START_TAIL => l_tail l end) d.
Definition listRewind l : listIter := Iter (l_head l) AL_START_HEAD.
Definition listRewindTail l : listIter := Iter (l_tail l) AL_START_TAIL.

Definition listNext h (it : listIter) : option (listIter * Z) :=
  let current := li_next it in
  if negb (current =? NULL) then
    n ← deref h current;
    Some (Iter (match li_direction it with AL_START_HEAD => n_next n | AL_START_TAIL => n_prev n end)
      (li_direction it), current)
  else Some (it, current).

(** The result of a duplication that may fail in [dup]. *)
Fixpoint dup_loop (fuel : nat) h (copy : list_t) (it : listIter) : option (heap * option list_t) :=
  match fuel with
  | O => None
  | S fuel =>
    '(it, node) ← listNext h it;
    if node =? NULL then Some (h, Some copy) else
    n ← deref h node;
    match (match l_dup copy with Some f => f (n_value n) | None => Some (n_value n) end) with
    | None => h ← listRelease h copy; Some (h, None)
    | Some value =>
      '(h, copy) ← listAddNodeTail h copy value;
      dup_loop fuel h copy it
    end
  end.

Definition listDup h (orig : list_t) : option (heap * option list_t) :=
  let copy := List NULL NULL 0 (l_dup orig) (l_free orig) (l_match orig) in
  dup_loop (S (Z.to_nat (l_len orig))) h copy (listRewind orig).

Fixpoint search_loop `{EqDecision V} (fuel : nat) h l (key : V) (it : listIter) : option Z :=
  match fuel with
  | O => None
  | S fuel =>
    '(it, node) ← listNext h it;
    if node =? NULL then Some NULL else
    n ← deref h node;
    if (match l_match l with Some f => f (n_value n) key | None => bool_decide (key = n_value n) end)
    then Some node else search_loop fuel h l key it
  end.

Definition listSearchKey `{EqDecision V} h l (key : V) : option Z :=
  search_loop (S (Z.to_nat (l_len l))) h l key (listRewind l).

(** [while(index-- && n) n = n->next;], or [n->prev]. *)
Fixpoint index_loop (fuel : nat) h (index n : Z) (fwd : bool) : option Z :=
  match fuel with
  | O => None
  | S fuel =>
    if negb (index =? 0) && negb (n =? NULL) then
      nd ← deref h n;
      index_loop fuel h (index - 1) (if fwd then n_next nd else n_prev nd) fwd
    else Some n
  end.

Definition listIndex h l (index : Z) : option Z :=
  if index <? 0 then
    index ← i64 (- index); let index := index - 1 in
    index_loop (S (Z.to_nat (l_len l))) h index (l_tail l) false
  else index_loop (S (Z.to_nat (l_len l))) h index (l_head l) true.

Definition listRotate h l : option (heap * list_t) :=
  let tail := l_tail l in
  if l_len l <=? 1 then Some (h, l) else
  t ← deref h tail;
  let l := set_ends l (l_head l) (n_prev t) (l_len l) in
  h ← set_next h (l_tail l) NULL;
  h ← set_prev h (l_head l) tail;
  h ← set_prev h tail NULL;
  h ← set_next h tail (l_head l);
  Some (h, set_ends l tail (l_tail l) (l_len l)).

(** ** The represented sequence *)

Definition first (n : Z) (xs : list (Z * V)) : Z := match xs with [] => n | (a, _) :: _ => a end.
Definition lastp (p : Z) (xs : list (Z * V)) : Z := match last xs with Some (a, _) => a | None => p end.

(** The nodes [xs] (address and value), linked both ways between [p] and [n]. *)
Fixpoint lseg (c : gmap Z listNode) (p : Z) (xs : list (Z * V)) (n : Z) : Prop :=
  match xs with
  | [] => True
  | (a, v) :: xs => a <> NULL /\ c !! a = Some (Node p (first n xs) v) /\ lseg c a xs n
  end.

Record rep h l (xs : list (Z * V)) : Prop := {
  rep_head : l_head l = first NULL xs;
  rep_tail : l_tail l = lastp NULL xs;
  rep_len : l_len l = Zlen xs;
  rep_nodup : NoDup xs.*1;
  rep_seg : lseg (h_cells h) NULL xs NULL;
  rep_brk : 0 < h_brk h /\ map_Forall (fun a _ => 0 < a < h_brk h) (h_cells h)
}.

(** Everything outside the nodes of the list is untouched. *)
Definition frame h h' (dirty : list Z) : Prop := forall a, a ∉ dirty -> h_cells h' !! a = h_cells h !! a.

Lemma lastp_snoc p xs a v : lastp p (xs ++ [(a, v)]) = a.
Proof. unfold lastp. by rewrite last_snoc. Qed.

Lemma lastp_cons p a v xs : lastp p ((a, v) :: xs) = lastp a xs.
Proof. unfold lastp. rewrite last_cons. by destruct (last xs) as [[? ?]|]. Qed.

Lemma lastp_app p xs ys : lastp p (xs ++ ys) = lastp (lastp p xs) ys.
Proof.
  unfold lastp. rewrite last_app. by destruct (last ys) as [[? ?]|].
Qed.

Lemma first_app n xs ys : first n (xs ++ ys) = first (first n ys) xs.
Proof. by destruct xs as [|[a v] xs]. Qed.

Lemma lseg_app c p xs ys n : lseg c p (xs ++ ys) n <-> lseg c p xs (first n ys) /\ lseg c (lastp p xs) ys n.
Proof.
  revert p. induction xs as [|[a v] xs IH]; intros p; [unfold lastp; simpl; tauto|].
  rewrite lastp_cons. cbn [app lseg]. rewrite first_app, IH. tauto.
Qed.

Lemma lseg_put c p xs n a x : a ∉ xs.*1 -> lseg (<[a := x]> c) p xs n <-> lseg c p xs n.
Proof.
  revert p. induction xs as [|[b v] xs IH]; intros p Ha; [done|]. simpl in *.
  apply not_elem_of_cons in Ha as [Hne Ha]. rewrite lookup_insert_ne, IH by done. done.
Qed.

Lemma lseg_delete c p xs n a : a ∉ xs.*1 -> lseg (delete a c) p xs n <-> lseg c p xs n.
Proof.
  revert p. induction xs as [|[b v] xs IH]; intros p Ha; [done|]. simpl in *.
  apply not_elem_of_cons in Ha as [Hne Ha]. rewrite lookup_delete_ne, IH by done. done.
Qed.

Lemma lseg_ext c c' p xs n : (forall a, a ∈ xs.*1 -> c' !! a = c !! a) -> lseg c p xs n -> lseg c' p xs n.
Proof.
  revert p. induction xs as [|[b v] xs IH]; intros p Heq; [done|]. simpl in *. intros (? & E & ?).
  split_and!; [done|rewrite Heq; [done|set_solver]|]. apply IH; [set_solver|done].
Qed.

(** [h'] differs from [h] only in existing nodes among [dirty]. *)
Record relinked h h' (dirty : list Z) : Prop := {
  rl_brk : h_brk h' = h_brk h;
  rl_log : h_log h' = h_log h;
  rl_same a : a ∉ dirty -> h_cells h' !! a = h_cells h !! a;
  rl_dom a : is_Some (h_cells h' !! a) <-> is_Some (h_cells h !! a)
}.

Lemma put_relinked h a n n0 : h_cells h !! a = Some n0 -> relinked h (put h a n) [a].
Proof.
  intros E. split; try done.
  - intros b Hb. apply lookup_insert_ne. set_solver.
  - intros b. cbn [put h_cells]. destruct (decide (a = b)) as [<-|]; [|by rewrite lookup_insert_ne].
    rewrite lookup_insert_eq, E. done.
Qed.

Lemma deref_Some h p n : p <> NULL -> h_cells h !! p = Some n -> deref h p = Some n.
Proof. intros Hp E. unfold deref. destruct (Z.eqb_spec p NULL); done. Qed.

(** Relinking the end of a segment. *)
Lemma set_next_last h p xs n q : xs <> [] -> lseg (h_cells h) p xs n -> NoDup xs.*1 ->
  exists h', set_next h (lastp p xs) q = Some h' /\ relinked h h' [lastp p xs] /\ lseg (h_cells h') p xs q.
Proof.
  intros Hne Hseg Hnd. destruct (exists_last Hne) as (ys & (a & v) & ->).
  rewrite lastp_snoc. apply lseg_app in Hseg as [Hys (Ha & Ea & _)]. simpl in Ea.
  unfold set_next. rewrite (deref_Some h a _ Ha Ea). eexists. split; [done|]. split; [by eapply put_relinked|].
  rewrite fmap_app in Hnd. apply NoDup_app in Hnd as (_ & Hdis & _).
  apply lseg_app. cbn [put h_cells n_prev n_value first]. split.
  - apply lseg_put; [|done]. intros Hin. apply (Hdis a Hin). set_solver.
  - cbn [lseg]. split_and!; [done|by rewrite lookup_insert_eq|done].
Qed.

(** Relinking the start of a segment. *)
Lemma set_prev_first h p xs n q : xs <> [] -> lseg (h_cells h) p xs n -> NoDup xs.*1 ->
  exists h', set_prev h (first n xs) q = Some h' /\ relinked h h' [first n xs] /\ lseg (h_cells h') q xs n.
Proof.
  intros Hne Hseg Hnd. destruct xs as [|[a v] xs]; [done|]. destruct Hseg as (Ha & Ea & Hxs). simpl first.
  unfold set_prev. rewrite (deref_Some h a _ Ha Ea). eexists. split; [done|]. split; [by eapply put_relinked|].
  simpl in Hnd. apply NoDup_cons in Hnd as [Hnin _]. cbn [put h_cells n_next n_value lseg].
  split_and!; [done|by rewrite lookup_insert_eq|by apply lseg_put].
Qed.

Definition hwf h : Prop := 0 < h_brk h /\ map_Forall (fun a _ => 0 < a < h_brk h) (h_cells h).

Lemma relinked_hwf h h' dirty : relinked h h' dirty -> hwf h -> hwf h'.
Proof.
  intros [Hb _ _ Hd] [H0 Hf]. split; [by rewrite Hb|]. intros a n Ha.
  destruct (proj1 (Hd a) ltac:(by eexists)) as [n' Hn']. rewrite Hb. by apply (Hf a n').
Qed.

Lemma new_node_hwf h n : hwf h -> hwf (new_node h n).1.
Proof.
  intros [H0 Hf]. split; [simpl; lia|]. simpl. apply map_Forall_insert_2; [lia|].
  eapply map_Forall_impl; [exact Hf|]. simpl. lia.
Qed.

Lemma brk_fresh h p xs n : hwf h -> lseg (h_cells h) p xs n -> h_brk h ∉ xs.*1.
Proof.
  intros [H0 Hf]. revert p. induction xs as [|[a v] xs IH]; intros p; simpl; [set_solver|].
  intros (_ & Ea & Hxs). apply not_elem_of_cons. split; [|by eapply IH].
  apply (Hf a) in Ea. lia.
Qed.

(** Two relinkings of disjoint parts. *)
Lemma lseg_relinked h h' dirty p xs n : relinked h h' dirty -> dirty ## xs.*1 ->
  lseg (h_cells h) p xs n -> lseg (h_cells h') p xs n.
Proof. intros Hr Hdis. apply lseg_ext. intros a Ha. apply (rl_same _ _ _ Hr). set_solver. Qed.

Lemma lastp_in p xs : xs <> [] -> lastp p xs ∈ xs.*1.
Proof.
  intros Hne. destruct (exists_last Hne) as (ys & (a & v) & ->). rewrite lastp_snoc, fmap_app. set_solver.
Qed.

Lemma first_in n xs : xs <> [] -> first n xs ∈ xs.*1.
Proof. destruct xs as [|[a v] xs]; [done|]. simpl. set_solver. Qed.

(** The middle of a well-formed list. *)
Lemma rep_middle h l xs a v ys : rep h l (xs ++ (a, v) :: ys) ->
  hwf h /\ NoDup xs.*1 /\ NoDup ys.*1 /\ a ∉ xs.*1 /\ a ∉ ys.*1 /\ xs.*1 ## ys.*1 /\
  lseg (h_cells h) NULL xs a /\ a <> NULL /\
  h_cells h !! a = Some (Node (lastp NULL xs) (first NULL ys) v) /\ lseg (h_cells h) a ys NULL /\
  l_head l = first a xs /\ l_tail l = lastp a ys.
Proof.
  intros [Hh Ht Hl Hnd Hseg Hw]. rewrite fmap_app in Hnd. apply NoDup_app in Hnd as (N1 & Hdis & N2).
  simpl in N2. apply NoDup_cons in N2 as [N3 N4]. apply lseg_app in Hseg as [S1 (Ha & Ea & S2)].
  split_and!; try done.
  - intros Hin. apply (Hdis a Hin). set_solver.
  - intros b Hb1 Hb2. apply (Hdis b Hb1). set_solver.
  - by rewrite Hh, first_app.
  - by rewrite Ht, lastp_app, lastp_cons.
Qed.

Lemma lastp_null h xs n : lseg (h_cells h) NULL xs n -> (lastp NULL xs =? NULL) = bool_decide (xs = []).
Proof.
  intros Hseg. destruct (decide (xs = [])) as [->|Hne]; [done|]. rewrite bool_decide_eq_false_2 by done.
  destruct (exists_last Hne) as (ys & (a & v) & ->). rewrite lastp_snoc.
  apply lseg_app in Hseg as [_ (Ha & _)]. by apply Z.eqb_neq.
Qed.

Lemma first_null h p xs : lseg (h_cells h) p xs NULL -> (first NULL xs =? NULL) = bool_decide (xs = []).
Proof. destruct xs as [|[a v] xs]; [done|]. intros (Ha & _). simpl. by apply Z.eqb_neq. Qed.

Lemma relinked_refl h : relinked h h [].
Proof. done. Qed.

Lemma relinked_trans h1 h2 h3 d1 d2 : relinked h1 h2 d1 -> relinked h2 h3 d2 -> relinked h1 h3 (d1 ++ d2).
Proof.
  intros [B1 L1 S1 D1] [B2 L2 S2 D2]. split; [congruence..| |].
  - intros a Ha. rewrite S2, S1; [done|set_solver..].
  - intros a. by rewrite D2, D1.
Qed.

(** The node before and the node after, relinked to [q1] and [q2]; [h] has
    both segments. *)
Lemma relink_both h xs ys n p q1 q2 : NoDup (xs ++ ys).*1 ->
  lseg (h_cells h) NULL xs n -> lseg (h_cells h) p ys NULL ->
  exists h1 h2,
    (if negb (lastp NULL xs =? NULL) then set_next h (lastp NULL xs) q1 else Some h) = Some h1 /\
    (if negb (first NULL ys =? NULL) then set_prev h1 (first NULL ys) q2 else Some h1) = Some h2 /\
    relinked h h2 (xs ++ ys).*1 /\ lseg (h_cells h2) NULL xs q1 /\ lseg (h_cells h2) q2 ys NULL.
Proof.
  intros Hnd Hx Hy. rewrite fmap_app in *. apply NoDup_app in Hnd as (Nx & Hdis & Ny).
  rewrite (lastp_null h xs n Hx), (first_null h p ys Hy).
  assert (exists h1, (if negb (bool_decide (xs = [])) then set_next h (lastp NULL xs) q1 else Some h) = Some h1 /\
    relinked h h1 xs.*1 /\ lseg (h_cells h1) NULL xs q1) as (h1 & E1 & R1 & Hx1).
  { destruct (decide (xs = [])) as [->|Hne]; [rewrite bool_decide_eq_true_2 by done; by exists h|].
    rewrite bool_decide_eq_false_2 by done.
    destruct (set_next_last h NULL xs n q1 Hne Hx Nx) as (h1 & E & Hr & Hs). exists h1. split_and!; try done.
    destruct Hr as [B L S D]. split; try done. intros a Ha. apply S. pose proof (lastp_in NULL xs Hne). set_solver. }
  assert (lseg (h_cells h1) p ys NULL) as Hy1 by (eapply lseg_relinked; [exact R1|set_solver|done]).
  assert (exists h2, (if negb (bool_decide (ys = [])) then set_prev h1 (first NULL ys) q2 else Some h1) = Some h2 /\
    relinked h1 h2 ys.*1 /\ lseg (h_cells h2) q2 ys NULL) as (h2 & E2 & R2 & Hy2).
  { destruct (decide (ys = [])) as [->|Hne]; [rewrite bool_decide_eq_true_2 by done; by exists h1|].
    rewrite bool_decide_eq_false_2 by done.
    destruct (set_prev_first h1 p ys NULL q2 Hne Hy1 Ny) as (h2 & E & Hr & Hs). exists h2. split_and!; try done.
    destruct Hr as [B L S D]. split; try done. intros a Ha. apply S. pose proof (first_in NULL ys Hne). set_solver. }
  exists h1, h2. split_and!; try done; [by eapply relinked_trans|].
  eapply lseg_relinked; [exact R2|set_solver|done].
Qed.

(** Linking a new node between two segments. *)
Lemma link_between h xs ys v : hwf h -> NoDup (xs ++ ys).*1 -> lseg (h_cells h) NULL (xs ++ ys) NULL ->
  let '(h0, a) := new_node h (Node (lastp NULL xs) (first NULL ys) v) in
  exists h1 h2,
    (if negb (lastp NULL xs =? NULL) then set_next h0 (lastp NULL xs) a else Some h0) = Some h1 /\
    (if negb (first NULL ys =? NULL) then set_prev h1 (first NULL ys) a else Some h1) = Some h2 /\
    hwf h2 /\ lseg (h_cells h2) NULL (xs ++ (a, v) :: ys) NULL /\ NoDup (xs ++ (a, v) :: ys).*1 /\
    h_log h2 = h_log h /\ frame h h2 (a :: (xs ++ ys).*1).
Proof.
  intros Hw Hnd Hseg. pose proof (brk_fresh h _ _ _ Hw Hseg) as Hfresh. rewrite fmap_app in Hfresh.
  apply not_elem_of_app in Hfresh as [Fx Fy]. apply lseg_app in Hseg as [Hx Hy].
  pose proof (new_node_hwf h (Node (lastp NULL xs) (first NULL ys) v) Hw) as Hw0.
  destruct (new_node h _) as [h0 a] eqn:E0. unfold new_node in E0. simplify_eq.
  set (a := h_brk h) in *. set (h0 := Heap _ _ _) in *. simpl in Hw0. fold h0 in Hw0.
  assert (lseg (h_cells h0) NULL xs (first NULL ys)) as Hx0 by (by apply lseg_put).
  assert (lseg (h_cells h0) (lastp NULL xs) ys NULL) as Hy0 by (by apply lseg_put).
  destruct (relink_both h0 xs ys _ _ a a Hnd Hx0 Hy0) as (h1 & h2 & E1 & E2 & Hr & Hx2 & Hy2).
  exists h1, h2. split_and!; try done.
  - by eapply relinked_hwf.
  - apply lseg_app. split; [done|]. cbn [lseg]. split_and!; [destruct Hw; unfold NULL; subst a; lia| |done].
    rewrite (rl_same _ _ _ Hr) by (rewrite fmap_app; set_solver). cbn [h0 h_cells]. by rewrite lookup_insert_eq.
  - rewrite fmap_app in *. cbn [fmap list_fmap]. rewrite <- Permutation_middle. constructor; [set_solver|done].
  - by rewrite (rl_log _ _ _ Hr).
  - intros b Hb. rewrite (rl_same _ _ _ Hr) by set_solver. cbn [h0 h_cells]. apply lookup_insert_ne. set_solver.
Qed.

(** The outcome of an update: the list now is [xs'], methods are kept, and
    nothing outside [dirty] changed. *)
Definition updated h l (r : option (heap * list_t)) (xs' : list (Z * V)) (dirty : list Z) (log : list V) : Prop :=
  exists h' l', r = Some (h', l') /\ rep h' l' xs' /\ frame h h' dirty /\ h_log h' = h_log h ++ log /\
    (l_dup l', l_free l', l_match l') = (l_dup l, l_free l, l_match l).

Lemma listAddNodeHead_spec h l xs v : rep h l xs -> Zlen xs + 1 < 2 ^ 64 ->
  updated h l (listAddNodeHead h l v) ((h_brk h, v) :: xs) (h_brk h :: xs.*1) [].
Proof.
  intros [Hh Ht Hl Hnd Hseg Hw] Hlen.
  pose proof (link_between h [] xs v Hw Hnd Hseg) as Hlink. cbn [new_node] in Hlink.
  destruct Hlink as (h1 & h2 & E1 & E2 & Hw2 & Hseg2 & Hnd2 & Hlog & Hfr).
  cbn [lastp last app] in *. injection E1 as <-.
  rewrite (first_null h NULL xs Hseg) in E2. unfold listAddNodeHead. cbn [new_node].
  destruct (Z.eqb_spec (l_len l) 0) as [E0|E0].
  - destruct xs as [|x xs]; [|simpl in Hl; lia]. simpl in E2. injection E2 as <-.
    eexists _, _. split; [done|]. split_and!; try done; [|by rewrite app_nil_r].
    split; try done; cbn [set_ends l_len]. rewrite E0. done.
  - destruct xs as [|x xs]; [simpl in Hl; lia|]. rewrite bool_decide_eq_false_2 in E2 by done. cbn [negb] in E2.
    rewrite Hh. rewrite E2. cbn [mbind option_bind]. eexists _, _. split; [done|].
    split_and!; try done; [|by rewrite app_nil_r]. split; try done; cbn [set_ends l_head l_tail l_len].
    rewrite Hl, (wrapu_id 64); simpl length in *; lia.
Qed.

Lemma listAddNodeTail_spec h l xs v : rep h l xs -> Zlen xs + 1 < 2 ^ 64 ->
  updated h l (listAddNodeTail h l v) (xs ++ [(h_brk h, v)]) (h_brk h :: xs.*1) [].
Proof.
  intros [Hh Ht Hl Hnd Hseg Hw] Hlen.
  pose proof (link_between h xs [] v Hw ltac:(by rewrite app_nil_r) ltac:(by rewrite app_nil_r)) as Hlink.
  cbn [new_node] in Hlink. destruct Hlink as (h1 & h2 & E1 & E2 & Hw2 & Hseg2 & Hnd2 & Hlog & Hfr).
  simpl in E2. injection E2 as <-. rewrite (lastp_null h xs NULL Hseg) in E1.
  rewrite app_nil_r in Hfr. unfold listAddNodeTail. cbn [new_node]. cbn [first] in E1.
  destruct (Z.eqb_spec (l_len l) 0) as [E0|E0].
  - destruct xs as [|x xs]; [|simpl in Hl; lia]. simpl in E1. injection E1 as <-.
    eexists _, _. split; [done|]. split_and!; try done; [|by rewrite app_nil_r].
    split; try done; cbn [set_ends l_len]. rewrite E0. done.
  - assert (xs <> []) as Hne by (intros ->; simpl in Hl; lia).
    rewrite bool_decide_eq_false_2 in E1 by done. cbn [negb] in E1.
    rewrite Ht. rewrite E1. cbn [mbind option_bind]. eexists _, _. split; [done|].
    split_and!; try done; [|by rewrite app_nil_r]. split; try done; cbn [set_ends l_head l_tail l_len].
    + rewrite Hh. by destruct xs.
    + by rewrite lastp_snoc.
    + rewrite Hl, (wrapu_id 64); rewrite ?length_app; simpl length in *; lia.
Qed.

Lemma listInsertNode_spec h l xs a v ys w after : rep h l (xs ++ (a, v) :: ys) ->
  Zlen (xs ++ (a, v) :: ys) + 1 < 2 ^ 64 ->
  updated h l (listInsertNode h l a w after)
    (if after then xs ++ (a, v) :: (h_brk h, w) :: ys else xs ++ (h_brk h, w) :: (a, v) :: ys)
    (h_brk h :: (xs ++ (a, v) :: ys).*1) [].
Proof.
  intros Hrep Hlen. destruct (rep_middle _ _ _ _ _ _ Hrep) as (Hw & _ & _ & Fx & Fy & _ & _ & Ha & Ea & _ & Hh & Ht).
  destruct Hrep as [_ _ Hl Hnd Hseg _].
  assert (h_brk h <> a) as Hba by (destruct Hw as [_ Hf]; apply (Hf a) in Ea; lia).
  unfold listInsertNode. rewrite (deref_Some h a _ Ha Ea). cbn [mbind option_bind n_prev n_next].
  destruct after; cbn [negb andb].
  - pose proof (link_between h (xs ++ [(a, v)]) ys w Hw) as Hlink. rewrite <- !app_assoc in Hlink. cbn [app] in Hlink.
    specialize (Hlink Hnd Hseg). rewrite lastp_snoc in Hlink. cbn [new_node] in Hlink |- *.
    destruct Hlink as (h1 & h2 & E1 & E2 & Hw2 & Hseg2 & Hnd2 & Hlog & Hfr). rewrite <- app_assoc in Hseg2, Hnd2.
    rewrite E1. cbn [mbind option_bind]. rewrite E2. cbn [mbind option_bind]. eexists _, _. split; [done|].
    split_and!; try done; [|by rewrite app_nil_r]. split; try done; cbn [set_ends l_head l_tail l_len].
    + rewrite Hh. by destruct xs as [|[b u] xs].
    + rewrite lastp_app, !lastp_cons, Ht. destruct ys as [|y ys]; [by rewrite Z.eqb_refl|].
      destruct (Z.eqb_spec (lastp a (y :: ys)) a) as [E|E]; [|destruct y; by rewrite !lastp_cons].
      exfalso. apply Fy. rewrite <- E at 1. by apply lastp_in.
    + rewrite Hl, (wrapu_id 64); rewrite !length_app in *; simpl length in *; lia.
  - pose proof (link_between h xs ((a, v) :: ys) w Hw Hnd Hseg) as Hlink. cbn [new_node first] in Hlink |- *.
    destruct Hlink as (h1 & h2 & E1 & E2 & Hw2 & Hseg2 & Hnd2 & Hlog & Hfr).
    rewrite E1. cbn [mbind option_bind]. rewrite E2. cbn [mbind option_bind]. eexists _, _. split; [done|].
    split_and!; try done; [|by rewrite app_nil_r]. split; try done; cbn [set_ends l_head l_tail l_len].
    + rewrite Hh. destruct xs as [|[b u] xs]; [simpl; by rewrite Z.eqb_refl|]. simpl.
      destruct (Z.eqb_spec b a) as [->|]; [|done]. exfalso. apply Fx. simpl. set_solver.
    + rewrite Ht, lastp_app, !lastp_cons. done.
    + rewrite Hl, (wrapu_id 64); rewrite !length_app in *; simpl length in *; lia.
Qed.

Lemma zfree_spec h a n : hwf h -> a <> NULL -> h_cells h !! a = Some n ->
  exists h', zfree h a = Some h' /\ hwf h' /\ h_cells h' = delete a (h_cells h) /\ h_log h' = h_log h /\ h_brk h' = h_brk h.
Proof.
  intros [H0 Hf] Ha Ea. unfold zfree. rewrite (deref_Some h a n Ha Ea). eexists. split; [done|]. split_and!; try done.
  split; [done|]. intros b m Hb. cbn [h_cells] in Hb. apply lookup_delete_Some in Hb as [_ Hb]. by apply (Hf b m).
Qed.

Lemma listDelNode_spec h l xs a v ys : rep h l (xs ++ (a, v) :: ys) ->
  Zlen (xs ++ (a, v) :: ys) < 2 ^ 64 ->
  updated h l (listDelNode h l a) (xs ++ ys) (xs ++ (a, v) :: ys).*1 (if l_free l then [v] else []).
Proof.
  intros Hrep Hlen. destruct (rep_middle _ _ _ _ _ _ Hrep) as (Hw & Nx & Ny & Fx & Fy & Hdis & Sx & Ha & Ea & Sy & Hh & Ht).
  destruct Hrep as [_ _ Hl Hnd _ _].
  assert (NoDup (xs ++ ys).*1) as Hnd' by (rewrite fmap_app; apply NoDup_app; split_and!; set_solver).
  unfold listDelNode. rewrite (deref_Some h a _ Ha Ea). cbn [mbind option_bind n_prev n_next n_value].
  destruct (relink_both h xs ys a a (first NULL ys) (lastp NULL xs) Hnd' Sx Sy) as (h1 & h2 & E1 & E2 & Hr & Sx2 & Sy2).
  rewrite (lastp_null h xs a Sx), (first_null h a ys Sy) in *.
  set (hd := if bool_decide (xs = []) then first NULL ys else l_head l).
  set (tl := if bool_decide (ys = []) then lastp NULL xs else l_tail l).
  match goal with |- updated _ _ (?X ≫= _) _ _ _ => assert (X = Some (h1, hd)) as -> end.
  { subst hd. destruct (bool_decide (xs = [])); cbn [negb] in E1 |- *; [by injection E1 as ->|by rewrite E1]. }
  cbn [mbind option_bind].
  match goal with |- updated _ _ (?X ≫= _) _ _ _ => assert (X = Some (h2, tl)) as -> end.
  { subst tl. destruct (bool_decide (ys = [])); cbn [negb] in E2 |- *; [by injection E2 as ->|by rewrite E2]. }
  cbn [mbind option_bind].
  assert (h_cells h2 !! a = h_cells h !! a) as Ea2 by (apply (rl_same _ _ _ Hr); rewrite fmap_app; set_solver).
  pose proof (relinked_hwf _ _ _ Hr Hw) as Hw2. set (h3 := call_free h2 l v).
  assert (h_cells h3 = h_cells h2) as Ec3 by (subst h3; unfold call_free; by destruct (l_free l)).
  assert (hwf h3) as Hw3 by (subst h3; unfold call_free; by destruct (l_free l)).
  assert (h_log h3 = h_log h ++ (if l_free l then [v] else [])) as El3.
  { subst h3. unfold call_free. rewrite <- (rl_log _ _ _ Hr). destruct (l_free l); [done|by rewrite app_nil_r]. }
  destruct (zfree_spec h3 a _ Hw3 Ha ltac:(by rewrite Ec3, Ea2)) as (h4 & -> & Hw4 & Ec4 & El4 & _).
  cbn [mbind option_bind]. eexists _, _. split; [done|]. split_and!; [|..|done]; [|..|congruence].
  - split; try done; cbn [set_ends l_head l_tail l_len].
    + subst hd. rewrite Hh. by destruct xs as [|[b u] xs].
    + subst tl. rewrite Ht, lastp_app. destruct (decide (ys = [])) as [->|Hne]; [done|].
      rewrite bool_decide_eq_false_2 by done. destruct (exists_last Hne) as (zs & (b & u) & ->). by rewrite !lastp_snoc.
    + rewrite Hl, (wrapu_id 64); rewrite !length_app in *; simpl length in *; lia.
    + rewrite Ec4, Ec3. apply lseg_delete; [rewrite fmap_app; set_solver|]. apply lseg_app. done.
  - intros b Hb. rewrite fmap_app in Hb. rewrite Ec4, Ec3. rewrite lookup_delete_ne by set_solver.
    apply (rl_same _ _ _ Hr). rewrite fmap_app. set_solver.
Qed.

(** ** Traversals *)

Lemma index_loop_fwd h fuel : forall p xs i, lseg (h_cells h) p xs NULL -> 0 <= i -> (length xs < fuel)%nat ->
  index_loop fuel h i (first NULL xs) true = Some (first NULL (drop (Z.to_nat i) xs)).
Proof.
  induction fuel as [|fuel IH]; intros p xs i Hseg Hi Hf; [lia|]. cbn [index_loop].
  destruct (Z.eqb_spec i 0) as [->|Hne]; [by rewrite drop_0|]. cbn [negb andb].
  destruct xs as [|[a v] xs]; [by rewrite drop_nil|]. destruct Hseg as (Ha & Ea & Hxs). cbn [first].
  destruct (Z.eqb_spec a NULL); [done|]. cbn [negb]. rewrite (deref_Some h a _ Ha Ea). cbn [mbind option_bind n_next].
  rewrite (IH a xs (i - 1)) by (simpl in Hf; done || lia).
  by replace (Z.to_nat i) with (S (Z.to_nat (i - 1))) by lia.
Qed.

Lemma index_loop_bwd h fuel : forall xs n i, lseg (h_cells h) NULL xs n -> 0 <= i -> (length xs < fuel)%nat ->
  index_loop fuel h i (lastp NULL xs) false = Some (lastp NULL (take (length xs - Z.to_nat i) xs)).
Proof.
  induction fuel as [|fuel IH]; intros xs n i Hseg Hi Hf; [lia|]. cbn [index_loop].
  rewrite (lastp_null h xs n Hseg).
  destruct (Z.eqb_spec i 0) as [->|Hne]; [by rewrite Nat.sub_0_r, firstn_all|]. cbn [negb andb].
  destruct (decide (xs = [])) as [->|Hxs]; [done|]. rewrite bool_decide_eq_false_2 by done. cbn [negb].
  destruct (exists_last Hxs) as (ys & (a & v) & ->). apply lseg_app in Hseg as [Hys (Ha & Ea & _)].
  rewrite lastp_snoc, (deref_Some h a _ Ha Ea). cbn [mbind option_bind n_prev].
  rewrite (IH ys _ (i - 1) Hys) by (rewrite length_app in Hf; simpl in Hf; lia).
  do 2 f_equal. rewrite length_app. simpl. rewrite take_app_le by lia. f_equal. lia.
Qed.

(** The element a C index denotes. *)
Definition zindex {A} (xs : list A) (i : Z) : option A :=
  if i <? 0 then (if 0 <=? Zlen xs + i then xs !! Z.to_nat (Zlen xs + i) else None) else xs !! Z.to_nat i.

Definition addr_of (x : option (Z * V)) : Z := match x with Some (a, _) => a | None => NULL end.

Lemma listIndex_spec h l xs i : rep h l xs -> - 2 ^ 63 < i -> listIndex h l i = Some (addr_of (zindex xs i)).
Proof.
  intros [Hh Ht Hl Hnd Hseg Hw] Hi. unfold listIndex, zindex. rewrite Hh, Ht, Hl, Nat2Z.id.
  destruct (Z.ltb_spec i 0).
  - rewrite i64_ok by (unfold_limits; lia). cbn [mbind option_bind].
    rewrite (index_loop_bwd h _ xs NULL) by (done || lia). f_equal. unfold lastp, addr_of.
    rewrite last_lookup, length_take.
    destruct (Z.leb_spec 0 (Zlen xs + i)).
    + rewrite Nat.min_l, lookup_take_lt by lia.
      by replace (Nat.pred (length xs - Z.to_nat (- i - 1))) with (Z.to_nat (Zlen xs + i)) by lia.
    + replace (length xs - Z.to_nat (- i - 1))%nat with 0%nat by lia. done.
  - rewrite (index_loop_fwd h _ NULL xs) by (done || lia). f_equal.
    rewrite <- (Nat.add_0_r (Z.to_nat i)), <- lookup_drop, Nat.add_0_r.
    by destruct (drop (Z.to_nat i) xs) as [|[a v] zs].
Qed.

Definition matches l `{EqDecision V} (key v : V) : bool :=
  match l_match l with Some f => f v key | None => bool_decide (key = v) end.

Lemma list_search_spec `{EqDecision V} h l key fuel : forall p xs, lseg (h_cells h) p xs NULL -> (length xs < fuel)%nat ->
  search_loop fuel h l key (Iter (first NULL xs) AL_START_HEAD) =
    Some (addr_of (snd <$> list_find (fun x => matches l key x.2) xs)).
Proof.
  induction fuel as [|fuel IH]; intros p xs Hseg Hf; [lia|]. cbn [search_loop]. unfold listNext. cbn [li_next li_direction].
  rewrite (first_null h p xs Hseg). destruct xs as [|[a v] xs]; [done|]. rewrite bool_decide_eq_false_2 by done. cbn [negb].
  destruct Hseg as (Ha & Ea & Hxs). cbn [first]. rewrite (deref_Some h a _ Ha Ea). cbn [mbind option_bind n_next].
  destruct (Z.eqb_spec a NULL); [done|]. rewrite (deref_Some h a _ Ha Ea). cbn [mbind option_bind n_value].
  cbn [list_find]. change (match l_match l with Some f => f v key | None => bool_decide (key = v) end)
    with (matches l key v). cbn [snd].
  destruct (matches l key v) eqn:Em.
  - rewrite decide_True by done. done.
  - rewrite decide_False by (by intros []). rewrite (IH a xs Hxs) by (simpl in Hf; lia). f_equal.
    by destruct (list_find _ xs) as [[? ?]|].
Qed.

Lemma listSearchKey_spec `{EqDecision V} h l xs key : rep h l xs ->
  listSearchKey h l key = Some (addr_of (snd <$> list_find (fun x => matches l key x.2) xs)).
Proof.
  intros [Hh Ht Hl Hnd Hseg Hw]. unfold listSearchKey, listRewind. rewrite Hh, Hl, Nat2Z.id.
  eapply list_search_spec; [done|lia].
Qed.

(** ** Rotation *)

Lemma set_prev_node h a p n v q : a <> NULL -> h_cells h !! a = Some (Node p n v) ->
  set_prev h a q = Some (put h a (Node q n v)).
Proof. intros Ha Ea. unfold set_prev. by rewrite (deref_Some h a _ Ha Ea). Qed.

Lemma set_next_node h a p n v q : a <> NULL -> h_cells h !! a = Some (Node p n v) ->
  set_next h a q = Some (put h a (Node p q v)).
Proof. intros Ha Ea. unfold set_next. by rewrite (deref_Some h a _ Ha Ea). Qed.

Lemma notin_single (a b : Z) (ys : list Z) : a ∉ ys -> b ∈ ys -> a ∉ [b].
Proof. set_solver. Qed.

Lemma listRotate_spec h l xs a v : rep h l (xs ++ [(a, v)]) -> xs <> [] ->
  updated h l (listRotate h l) ((a, v) :: xs) (xs ++ [(a, v)]).*1 [].
Proof.
  intros Hrep Hne. destruct (rep_middle _ _ _ _ _ _ Hrep) as (Hw & Nx & _ & Fx & _ & _ & Sx & Ha & Ea & _ & Hh & Ht).
  destruct Hrep as [_ _ Hl _ _ _]. unfold listRotate.
  change (lastp a []) with a in Ht. rewrite Ht. rewrite length_app in Hl. simpl in Hl.
  destruct (Z.leb_spec (l_len l) 1); [destruct xs; [done|simpl in Hl; lia]|].
  rewrite (deref_Some h a _ Ha Ea). cbn [mbind option_bind n_prev set_ends l_tail l_head l_len].
  destruct (set_next_last h NULL xs a NULL Hne Sx Nx) as (h1 & -> & R1 & S1). cbn [mbind option_bind].
  assert (first a xs = first NULL xs) as Ef by (by destruct xs as [|[b u] xs]).
  rewrite Hh, Ef. destruct (set_prev_first h1 NULL xs NULL a Hne S1 Nx) as (h2 & -> & R2 & S2). cbn [mbind option_bind].
  pose proof (lastp_in NULL xs Hne) as Hlin. pose proof (first_in NULL xs Hne) as Hfin.
  assert (h_cells h2 !! a = Some (Node (lastp NULL xs) NULL v)) as Ea2.
  { rewrite (rl_same _ _ _ R2), (rl_same _ _ _ R1); [done|by eapply notin_single..]. }
  rewrite (set_prev_node h2 a _ _ _ NULL Ha Ea2). cbn [mbind option_bind].
  rewrite (set_next_node _ a NULL NULL v (first NULL xs) Ha) by (by cbn [put h_cells]; rewrite lookup_insert_eq).
  cbn [mbind option_bind]. eexists _, _. split; [done|].
  pose proof (put_relinked h2 a (Node NULL NULL v) _ Ea2) as R3.
  pose proof (put_relinked (put h2 a (Node NULL NULL v)) a (Node NULL (first NULL xs) v) (Node NULL NULL v)
    ltac:(by cbn [put h_cells]; rewrite lookup_insert_eq)) as R4.
  pose proof (relinked_trans _ _ _ _ _ (relinked_trans _ _ _ _ _ (relinked_trans _ _ _ _ _ R1 R2) R3) R4) as R.
  split_and!; [|..|done].
  - split; cbn [set_ends l_head l_tail l_len]; try done.
    + rewrite lastp_cons. destruct (exists_last Hne) as (ys & (b & u) & ->). by rewrite !lastp_snoc.
    + simpl length. lia.
    + simpl. constructor; [done|done].
    + cbn [lseg put h_cells]. split_and!; [done|by rewrite lookup_insert_eq|].
      apply lseg_put; [done|]. by apply lseg_put.
    + by eapply relinked_hwf.
  - intros b Hb. rewrite fmap_app in Hb. apply (rl_same _ _ _ R). set_solver.
  - rewrite (rl_log _ _ _ R). by rewrite app_nil_r.
Qed.

(** ** Release and duplication *)

Lemma call_free_cells h l v : h_cells (call_free h l v) = h_cells h /\ h_brk (call_free h l v) = h_brk h /\
  h_log (call_free h l v) = h_log h ++ (if l_free l then [v] else []).
Proof. unfold call_free. destruct (l_free l); simpl; by rewrite ?app_nil_r. Qed.

Lemma release_loop_spec l xs : forall h p, hwf h -> NoDup xs.*1 -> lseg (h_cells h) p xs NULL ->
  exists h', release_loop (length xs) h l (first NULL xs) = Some h' /\ hwf h' /\
    (forall a, h_cells h' !! a = if decide (a ∈ xs.*1) then None else h_cells h !! a) /\
    h_log h' = h_log h ++ (if l_free l then xs.*2 else []).
Proof.
  induction xs as [|[a v] xs IH]; intros h p Hw Hnd Hseg.
  { exists h. split_and!; try done. destruct (l_free l); by rewrite app_nil_r. }
  simpl in Hnd. apply NoDup_cons in Hnd as [Hnin Hnd]. destruct Hseg as (Ha & Ea & Hxs). cbn [length release_loop first].
  rewrite (deref_Some h a _ Ha Ea). cbn [mbind option_bind n_next n_value].
  destruct (call_free_cells h l v) as (Ec & Eb & El). set (h1 := call_free h l v) in *.
  assert (hwf h1) as Hw1 by (unfold hwf; by rewrite Ec, Eb).
  destruct (zfree_spec h1 a _ Hw1 Ha ltac:(by rewrite Ec)) as (h2 & -> & Hw2 & Ec2 & El2 & _). cbn [mbind option_bind].
  destruct (IH h2 a Hw2 Hnd) as (h3 & E3 & Hw3 & Hc3 & Hl3).
  { rewrite Ec2, Ec. by apply lseg_delete. }
  rewrite E3. exists h3. split_and!; try done.
  - intros b. rewrite Hc3, Ec2, Ec. cbn [fmap list_fmap fst]. destruct (decide (b ∈ xs.*1)).
    + by rewrite decide_True by set_solver.
    + destruct (decide (b = a)) as [->|]; [rewrite decide_True by set_solver; apply lookup_delete_eq|].
      rewrite decide_False by set_solver. by apply lookup_delete_ne.
  - rewrite Hl3, El2, El, <- app_assoc. by destruct (l_free l).
Qed.

Lemma listRelease_spec h l xs : rep h l xs ->
  exists h', listRelease h l = Some h' /\
    (forall a, h_cells h' !! a = if decide (a ∈ xs.*1) then None else h_cells h !! a) /\
    h_log h' = h_log h ++ (if l_free l then xs.*2 else []).
Proof.
  intros [Hh Ht Hl Hnd Hseg Hw]. unfold listRelease. rewrite Hh, Hl, Nat2Z.id.
  destruct (release_loop_spec l xs h NULL Hw Hnd Hseg) as (h' & -> & _ & ? & ?). by exists h'.
Qed.

Definition dupf (f : option (V -> option V)) (v : V) : option V := match f with Some f => f v | None => Some v end.

Lemma dup_loop_spec h0 fuel : forall h copy ys p rest, rep h copy ys -> lseg (h_cells h) p rest NULL ->
  ys.*1 ## rest.*1 -> (length rest < fuel)%nat -> Zlen ys + Zlen rest < 2 ^ 64 ->
  (forall a, a ∉ ys.*1 -> h_cells h !! a = h_cells h0 !! a) -> (forall a, a ∈ ys.*1 -> h_cells h0 !! a = None) ->
  exists h' r, dup_loop fuel h copy (Iter (first NULL rest) AL_START_HEAD) = Some (h', r) /\
    match mapM (dupf (l_dup copy)) rest.*2, r with
    | Some vals, Some copy' => exists zs, rep h' copy' zs /\ zs.*2 = ys.*2 ++ vals /\
        (forall a, a ∉ zs.*1 -> h_cells h' !! a = h_cells h0 !! a) /\
        (forall a, a ∈ zs.*1 -> h_cells h0 !! a = None) /\
        (l_dup copy', l_free copy', l_match copy') = (l_dup copy, l_free copy, l_match copy)
    | None, None => h_cells h' = h_cells h0
    | _, _ => False
    end.
Proof.
  induction fuel as [|fuel IH]; intros h copy ys p rest Hrep Hseg Hdis Hf Hlen Hout Hnew; [lia|].
  cbn [dup_loop]. unfold listNext. cbn [li_next li_direction]. rewrite (first_null h p rest Hseg).
  destruct rest as [|[a v] rest].
  { simpl. exists h, (Some copy). split; [done|]. exists ys. by rewrite app_nil_r. }
  rewrite bool_decide_eq_false_2 by done. cbn [negb]. destruct Hseg as (Ha & Ea & Hrest). cbn [first].
  rewrite (deref_Some h a _ Ha Ea). cbn [mbind option_bind n_next]. destruct (Z.eqb_spec a NULL); [done|].
  rewrite (deref_Some h a _ Ha Ea). cbn [mbind option_bind n_value]. cbn [fmap list_fmap snd mapM].
  change (match l_dup copy with Some f => f v | None => Some v end) with (dupf (l_dup copy) v).
  destruct (dupf (l_dup copy) v) as [w|]; cbn [mbind option_bind].
  - destruct (listAddNodeTail_spec h copy ys w Hrep) as (h1 & copy1 & -> & Hrep1 & Hfr1 & _ & Em);
      [simpl length in Hlen; lia|]. cbn [mbind option_bind].
    assert (h_brk h ∉ a :: rest.*1) as Hbf.
    { assert (h_brk h ∉ ((a, v) :: rest).*1); [|done]. eapply (brk_fresh h p ((a, v) :: rest)); [apply Hrep|].
      cbn [lseg]. by split_and!. }
    destruct (IH h1 copy1 (ys ++ [(h_brk h, w)]) a rest Hrep1) as (h2 & r & E2 & Hr).
    + eapply lseg_ext; [|exact Hrest]. intros b Hb. apply Hfr1. set_solver.
    + rewrite fmap_app. set_solver.
    + simpl in Hf. lia.
    + rewrite length_app. simpl length in *. lia.
    + intros b Hb. rewrite fmap_app in Hb. rewrite (Hfr1 b) by set_solver. apply Hout. set_solver.
    + intros b Hb. rewrite fmap_app in Hb. apply elem_of_app in Hb as [Hb|Hb]; [by apply Hnew|].
      assert (b = h_brk h) as -> by set_solver.
      destruct (decide (h_brk h ∈ ys.*1)); [by apply Hnew|]. rewrite <- Hout by done.
      destruct (h_cells h !! h_brk h) eqn:Eb; [|done]. destruct Hrep as [_ _ _ _ _ [_ Hm]]. apply (Hm (h_brk h)) in Eb. lia.
    + exists h2, r. split; [done|]. simplify_eq Em. intros Em1 Em2 Em3. rewrite Em1, Em2, Em3 in *.
      change (dupf (l_dup copy)) with (dupf (l_dup copy)) in *.
      destruct (mapM (dupf (l_dup copy)) rest.*2) as [vals|]; cbn [mbind option_bind]; [|done].
      destruct r as [copy2|]; [|done]. destruct Hr as (zs & ? & E & ?). exists zs.
      split_and!; try done; try tauto. rewrite E, fmap_app, <- app_assoc. done.
  - destruct (listRelease_spec h copy ys Hrep) as (h1 & -> & Hc & _). cbn [mbind option_bind].
    exists h1, None. split; [done|]. apply map_eq. intros b. rewrite Hc. case_decide as Hb; [by rewrite Hnew|by apply Hout].
Qed.

(** C35. Duplicating a list.  When the [dup] method succeeds on every value,
    [listDup] returns a new well-formed list of the duplicated values in the same
    order, made of new nodes only, with the methods of the original; when it
    fails on some value, NULL is returned and the heap is as before (the partial
    copy is released).  Every node of the original, and of anything else, is
    untouched in both cases. *)
Theorem listDup_correct h orig xs : rep h orig xs -> Zlen xs < 2 ^ 64 ->
  exists h' r, listDup h orig = Some (h', r) /\
    match mapM (dupf (l_dup orig)) xs.*2, r with
    | Some vals, Some copy => exists zs, rep h' copy zs /\ zs.*2 = vals /\
        (forall a, a ∉ zs.*1 -> h_cells h' !! a = h_cells h !! a) /\
        (forall a, a ∈ zs.*1 -> h_cells h !! a = None) /\
        (l_dup copy, l_free copy, l_match copy) = (l_dup orig, l_free orig, l_match orig)
    | None, None => h_cells h' = h_cells h
    | _, _ => False
    end.
Proof.
  intros [Hh Ht Hl Hnd Hseg Hw] Hlen. unfold listDup, listRewind. rewrite Hh, Hl, Nat2Z.id.
  set (copy := List NULL NULL 0 _ _ _).
  destruct (dup_loop_spec h (S (length xs)) h copy [] NULL xs) as (h' & r & E & Hr); try done.
  - split; try done. constructor.
  - set_solver.
  - lia.
  - set_solver.
  - exists h', r. split; [done|exact Hr].
Qed.

(** ** Scripts of operations against the specification *)

(** [while ((node = listNext(iter)) != NULL)], collecting the values. *)
Fixpoint iterate (fuel : nat) h (it : listIter) : option (list V) :=
  match fuel with
  | O => None
  | S fuel =>
    '(it, node) ← listNext h it;
    if node =? NULL then Some [] else
    n ← deref h node; vs ← iterate fuel h it; Some (n_value n :: vs)
  end.

Lemma iterate_fwd h fuel : forall p xs, lseg (h_cells h) p xs NULL -> (length xs < fuel)%nat ->
  iterate fuel h (Iter (first NULL xs) AL_START_HEAD) = Some xs.*2.
Proof.
  induction fuel as [|fuel IH]; intros p xs Hseg Hf; [lia|]. cbn [iterate]. unfold listNext. cbn [li_next li_direction].
  rewrite (first_null h p xs Hseg). destruct xs as [|[a v] xs]; [done|]. rewrite bool_decide_eq_false_2 by done. cbn [negb].
  destruct Hseg as (Ha & Ea & Hxs). cbn [first]. rewrite (deref_Some h a _ Ha Ea). cbn [mbind option_bind n_next].
  destruct (Z.eqb_spec a NULL); [done|]. rewrite (deref_Some h a _ Ha Ea). cbn [mbind option_bind n_value].
  rewrite (IH a xs Hxs) by (simpl in Hf; lia). done.
Qed.

Lemma iterate_bwd h fuel : forall xs n, lseg (h_cells h) NULL xs n -> (length xs < fuel)%nat ->
  iterate fuel h (Iter (lastp NULL xs) AL_START_TAIL) = Some (reverse xs.*2).
Proof.
  induction fuel as [|fuel IH]; intros xs n Hseg Hf; [lia|]. cbn [iterate]. unfold listNext. cbn [li_next li_direction].
  rewrite (lastp_null h xs n Hseg). destruct (decide (xs = [])) as [->|Hne]; [done|].
  rewrite bool_decide_eq_false_2 by done. cbn [negb]. destruct (exists_last Hne) as (ys & (a & v) & ->).
  apply lseg_app in Hseg as [Hys (Ha & Ea & _)]. rewrite lastp_snoc, (deref_Some h a _ Ha Ea).
  cbn [mbind option_bind n_prev]. destruct (Z.eqb_spec a NULL); [done|].
  rewrite (deref_Some h a _ Ha Ea). cbn [mbind option_bind n_value].
  rewrite (IH ys _ Hys) by (rewrite length_app in Hf; simpl in Hf; lia). cbn [mbind option_bind].
  by rewrite fmap_app, reverse_app.
Qed.

Inductive cmd :=
  | LAddHead (v : V) | LAddTail (v : V) | LInsert (i : Z) (v : V) (after : bool) | LDel (i : Z)
  | LRotate | LIndex (i : Z) | LSearch (key : V) | LIterate (d : direction).

Context `{EqDecision V}.

(** Operations on a node take the node at an index, if there is one. *)
Definition run_cmd h l (c : cmd) : option (heap * list_t * list V) :=
  let value p := if p =? NULL then Some [] else n ← deref h p; Some [n_value n] in
  match c with
  | LAddHead v => '(h, l) ← listAddNodeHead h l v; Some (h, l, [])
  | LAddTail v => '(h, l) ← listAddNodeTail h l v; Some (h, l, [])
  | LInsert i v after =>
    p ← listIndex h l i; if p =? NULL then Some (h, l, []) else '(h, l) ← listInsertNode h l p v after; Some (h, l, [])
  | LDel i =>
    p ← listIndex h l i; r ← value p;
    if p =? NULL then Some (h, l, r) else '(h, l) ← listDelNode h l p; Some (h, l, r)
  | LRotate => '(h, l) ← listRotate h l; Some (h, l, [])
  | LIndex i => p ← listIndex h l i; r ← value p; Some (h, l, r)
  | LSearch key => p ← listSearchKey h l key; r ← value p; Some (h, l, r)
  | LIterate d => vs ← iterate (S (Z.to_nat (l_len l))) h (listGetIterator l d); Some (h, l, vs)
  end.

Fixpoint run h l (cs : list cmd) : option (heap * list_t * list (list V)) :=
  match cs with
  | [] => Some (h, l, [])
  | c :: cs => '(h, l, r) ← run_cmd h l c; '(h, l, rs) ← run h l cs; Some (h, l, r :: rs)
  end.

(** The position a C index denotes. *)
Definition zpos {A} (xs : list A) (i : Z) : option nat :=
  let i := if i <? 0 then Zlen xs + i else i in if (0 <=? i) && (i <? Zlen xs) then Some (Z.to_nat i) else None.

(** On plain lists of values; [f] is the comparison in use. *)
Definition spec_cmd (f : V -> V -> bool) (vs : list V) (c : cmd) : list V * list V :=
  match c with
  | LAddHead v => (v :: vs, [])
  | LAddTail v => (vs ++ [v], [])
  | LInsert i v after =>
    (match zpos vs i with
     | Some n => let n := if after then S n else n in take n vs ++ v :: drop n vs
     | None => vs end, [])
  | LDel i => match zpos vs i with Some n => (delete n vs, option_list (vs !! n)) | None => (vs, []) end
  | LRotate => (match last vs with Some v => v :: take (length vs - 1) vs | None => vs end, [])
  | LIndex i => (vs, match zpos vs i with Some n => option_list (vs !! n) | None => [] end)
  | LSearch key => (vs, option_list (snd <$> list_find (fun v => f key v) vs))
  | LIterate AL_START_HEAD => (vs, vs)
  | LIterate AL_START_TAIL => (vs, reverse vs)
  end.

Fixpoint spec_run (f : V -> V -> bool) (vs : list V) (cs : list cmd) : list V * list (list V) :=
  match cs with
  | [] => (vs, [])
  | c :: cs => let '(vs, r) := spec_cmd f vs c in let '(vs, rs) := spec_run f vs cs in (vs, r :: rs)
  end.

Definition cmd_ok (c : cmd) : Prop :=
  match c with LInsert i _ _ | LDel i | LIndex i => - 2 ^ 63 < i | _ => True end.

Lemma zindex_zpos {A} (xs : list A) i : zindex xs i = zpos xs i ≫= fun n => xs !! n.
Proof.
  unfold zindex, zpos. destruct (Z.ltb_spec i 0).
  - destruct (Z.leb_spec 0 (Zlen xs + i)); cbn [andb]; [|done]. destruct (Z.ltb_spec (Zlen xs + i) (Zlen xs)); [done|lia].
  - destruct (Z.leb_spec 0 i); [|lia]. cbn [andb]. destruct (Z.ltb_spec i (Zlen xs)); [done|].
    apply lookup_ge_None_2. lia.
Qed.

Lemma zpos_fmap {A B} (g : A -> B) (xs : list A) i : zpos (g <$> xs) i = zpos xs i.
Proof. unfold zpos. by rewrite length_fmap. Qed.

Lemma zpos_Some {A} (xs : list A) i n : zpos xs i = Some n -> exists a b c, xs = a ++ b :: c /\ length a = n.
Proof.
  unfold zpos. destruct (_ && _) eqn:E; [|done]. intros [= <-]. apply andb_true_iff in E as [E1%Z.leb_le E2%Z.ltb_lt].
  destruct (lookup_lt_is_Some_2 xs (Z.to_nat (if i <? 0 then Zlen xs + i else i)) ltac:(lia)) as [b Hb].
  destruct (list_elem_of_split_length _ _ _ Hb) as (a & c & -> & Ha). by exists a, b, c.
Qed.

(** The node at an index, with the list split around it. *)
Lemma index_split h l xs i : rep h l xs -> - 2 ^ 63 < i ->
  match zpos xs i with
  | None => listIndex h l i = Some NULL
  | Some n => exists ys a v zs, xs = ys ++ (a, v) :: zs /\ length ys = n /\ listIndex h l i = Some a /\
      (a =? NULL) = false /\ deref h a = Some (Node (lastp NULL ys) (first NULL zs) v)
  end.
Proof.
  intros Hrep Hi. rewrite (listIndex_spec h l xs i Hrep Hi), zindex_zpos.
  destruct (zpos xs i) as [n|] eqn:E; [|done]. destruct (zpos_Some _ _ _ E) as (ys & [a v] & zs & -> & <-).
  destruct (rep_middle _ _ _ _ _ _ Hrep) as (_ & _ & _ & _ & _ & _ & _ & Ha & Ea & _).
  exists ys, a, v, zs. split_and!; try done.
  - cbn [mbind option_bind]. by rewrite list_lookup_middle.
  - by apply Z.eqb_neq.
  - by apply deref_Some.
Qed.

Definition step_ok h l (c : cmd) (vs : list V) : Prop :=
  exists h' l' r xs', run_cmd h l c = Some (h', l', r) /\ rep h' l' xs' /\ l_match l' = l_match l /\
    (xs'.*2, r) = spec_cmd (fun key v => matches l key v) vs c.

Lemma step_of_updated h l c vs r0 xs' dirty log : updated h l r0 xs' dirty log ->
  run_cmd h l c = ('(h, l) ← r0; Some (h, l, [])) ->
  (xs'.*2, []) = spec_cmd (fun key v => matches l key v) vs c -> step_ok h l c vs.
Proof.
  intros (h' & l' & -> & Hrep & _ & _ & Em) E Es. simplify_eq Em. intros _ _ Em3.
  exists h', l', [], xs'. by split_and!.
Qed.

Lemma run_insert h l xs i w after : rep h l xs -> Zlen xs + 1 < 2 ^ 64 -> - 2 ^ 63 < i ->
  step_ok h l (LInsert i w after) xs.*2.
Proof.
  intros Hrep Hlen Hi. pose proof (index_split h l xs i Hrep Hi) as Hix. unfold step_ok. cbn [run_cmd spec_cmd].
  rewrite zpos_fmap. destruct (zpos xs i) as [n|].
  - destruct Hix as (ys & a & v & zs & -> & <- & -> & Hnz & _). cbn [mbind option_bind]. rewrite Hnz.
    destruct (listInsertNode_spec h l ys a v zs w after Hrep Hlen) as (h' & l' & -> & Hrep' & _ & _ & Em).
    cbn [mbind option_bind]. simplify_eq Em. intros _ _ Em3. eexists h', l', _, _. split_and!; try done.
    f_equal. rewrite <- (length_fmap snd ys), fmap_app. cbn [fmap list_fmap snd].
    set (u := ys.*2). change (list_fmap (Z * V)%type V snd zs) with zs.*2.
    destruct after; rewrite fmap_app; cbn [fmap list_fmap snd]; fold u.
    + rewrite take_app_ge, drop_app_ge by lia. replace (S (length u) - length u)%nat with 1%nat by lia.
      cbn [take drop]. by rewrite <- app_assoc.
    + by rewrite take_app_length, drop_app_length.
  - rewrite Hix. by eexists h, l, _, xs.
Qed.

Lemma run_del h l xs i : rep h l xs -> Zlen xs + 1 < 2 ^ 64 -> - 2 ^ 63 < i -> step_ok h l (LDel i) xs.*2.
Proof.
  intros Hrep Hlen Hi. pose proof (index_split h l xs i Hrep Hi) as Hix. unfold step_ok. cbn [run_cmd spec_cmd].
  rewrite zpos_fmap. destruct (zpos xs i) as [n|].
  - destruct Hix as (ys & a & v & zs & -> & <- & -> & Hnz & Hd). cbn [mbind option_bind]. rewrite Hnz, Hd.
    cbn [mbind option_bind n_value].
    destruct (listDelNode_spec h l ys a v zs Hrep ltac:(lia)) as (h' & l' & -> & Hrep' & _ & _ & Em).
    cbn [mbind option_bind]. simplify_eq Em. intros _ _ Em3. eexists h', l', _, (ys ++ zs). split_and!; try done.
    rewrite !fmap_app. cbn [fmap list_fmap snd]. rewrite <- (length_fmap snd ys), delete_middle, list_lookup_middle by done.
    done.
  - rewrite Hix. by eexists h, l, _, xs.
Qed.

Lemma run_rotate h l xs : rep h l xs -> step_ok h l LRotate xs.*2.
Proof.
  intros Hrep. destruct (decide (length xs <= 1)%nat) as [Hs|Hs].
  - exists h, l, [], xs. unfold run_cmd, listRotate. destruct Hrep as [? ? Hl ? ? ?]. rewrite Hl.
    destruct (Z.leb_spec (Zlen xs) 1); [|lia]. split_and!; try done. destruct xs as [|[a v] [|]]; try done. simpl in Hs. lia.
  - assert (xs <> []) as Hne by (intros ->; simpl in Hs; lia). destruct (exists_last Hne) as (ys & (a & v) & ->).
    assert (ys <> []) as Hys by (intros ->; simpl in Hs; lia).
    apply (step_of_updated _ _ _ _ _ _ _ _ (listRotate_spec h l ys a v Hrep Hys)); [done|].
    cbn [spec_cmd]. rewrite fmap_app. cbn [fmap list_fmap snd]. rewrite last_snoc. f_equal. f_equal.
    rewrite length_app. simpl. rewrite Nat.add_sub, take_app_le, firstn_all by lia. done.
Qed.

Lemma list_find_fmap_snd (f : V -> bool) (xs : list (Z * V)) :
  list_find (fun v => f v) xs.*2 = (fun x => (x.1, x.2.2)) <$> list_find (fun x => f x.2) xs.
Proof.
  induction xs as [|[a v] xs IH]; [done|]. cbn [fmap list_fmap list_find snd].
  destruct (f v) eqn:E; [by rewrite !decide_True|]. rewrite !decide_False by (by intros []). rewrite IH.
  by destruct (list_find _ xs) as [[? [? ?]]|].
Qed.

Lemma adlist_cmd_spec h l xs c : rep h l xs -> Zlen xs + 1 < 2 ^ 64 -> cmd_ok c -> step_ok h l c xs.*2.
Proof.
  intros Hrep Hlen Hok. destruct c as [v|v|i v after|i| |i|key|d].
  - by apply (step_of_updated _ _ _ _ _ _ _ _ (listAddNodeHead_spec h l xs v Hrep Hlen)).
  - apply (step_of_updated _ _ _ _ _ _ _ _ (listAddNodeTail_spec h l xs v Hrep Hlen)); [done|].
    by rewrite fmap_app.
  - by apply run_insert.
  - by apply run_del.
  - by apply run_rotate.
  - pose proof (index_split h l xs i Hrep Hok) as Hix. unfold step_ok. cbn [run_cmd spec_cmd].
    rewrite zpos_fmap. destruct (zpos xs i) as [n|].
    + destruct Hix as (ys & a & v & zs & Ex & <- & -> & Hnz & Hd). cbn [mbind option_bind]. rewrite Hnz, Hd.
      eexists h, l, _, xs. split_and!; try done. subst xs. rewrite fmap_app. cbn [fmap list_fmap snd].
      by rewrite <- (length_fmap snd ys), list_lookup_middle.
    + rewrite Hix. by eexists h, l, _, xs.
  - unfold step_ok. cbn [run_cmd spec_cmd]. rewrite (listSearchKey_spec h l xs key Hrep). cbn [mbind option_bind].
    rewrite list_find_fmap_snd. destruct (list_find _ xs) as [[n [a v]]|] eqn:Ef; [|by eexists h, l, _, xs].
    apply list_find_Some in Ef as (Hn & _). destruct (list_elem_of_split_length _ _ _ Hn) as (ys & zs & -> & _).
    destruct (rep_middle _ _ _ _ _ _ Hrep) as (_ & _ & _ & _ & _ & _ & _ & Ha & Ea & _). cbn [fmap option_fmap option_map snd addr_of].
    destruct (Z.eqb_spec a NULL); [done|]. rewrite (deref_Some h a _ Ha Ea). by eexists h, l, _, _.
  - destruct Hrep as [Hh Ht Hl Hnd Hseg Hw] eqn:Er. clear Er. unfold step_ok. cbn [run_cmd]. unfold listGetIterator.
    rewrite Hl, Nat2Z.id. destruct d.
    + rewrite Hh, (iterate_fwd h _ NULL xs Hseg) by lia. eexists h, l, _, xs. split_and!; done.
    + rewrite Ht, (iterate_bwd h _ xs NULL Hseg) by lia. eexists h, l, _, xs. split_and!; done.
Qed.

Lemma spec_cmd_length f vs c : (length (spec_cmd f vs c).1 <= S (length vs))%nat.
Proof.
  destruct c as [v|v|i v after|i| |i|key|[]]; cbn [spec_cmd fst]; try (simpl; lia).
  - rewrite length_app. simpl. lia.
  - destruct (zpos vs i); [|lia]. rewrite length_app, length_take. simpl. rewrite length_drop. lia.
  - destruct (zpos vs i); simpl; [|lia]. rewrite delete_take_drop, length_app, length_take, length_drop. lia.
  - destruct (last vs); [|lia]. simpl. rewrite length_take. lia.
Qed.

Lemma adlist_run_spec cs : forall h l xs, rep h l xs -> Zlen xs + Zlen cs < 2 ^ 64 -> Forall cmd_ok cs ->
  exists h' l' rs xs', run h l cs = Some (h', l', rs) /\ rep h' l' xs' /\
    (xs'.*2, rs) = spec_run (fun key v => matches l key v) xs.*2 cs.
Proof.
  induction cs as [|c cs IH]; intros h l xs Hrep Hlen Hok; cbn [run spec_run]; [by exists h, l, [], xs|].
  inversion_clear Hok as [|? ? Hc Hcs]. simpl length in Hlen.
  destruct (adlist_cmd_spec h l xs c Hrep ltac:(lia) Hc) as (h1 & l1 & r & xs1 & -> & Hrep1 & Em & Es).
  cbn [mbind option_bind]. pose proof (spec_cmd_length (fun key v => matches l key v) xs.*2 c) as Hs.
  rewrite <- Es in Hs |- *. simpl in Hs. rewrite !length_fmap in Hs.
  destruct (IH h1 l1 xs1 Hrep1 ltac:(lia) Hcs) as (h2 & l2 & rs & xs2 & -> & Hrep2 & Es2).
  cbn [mbind option_bind]. exists h2, l2, (r :: rs), xs2. split_and!; try done.
  unfold matches in Es2 |- *. rewrite Em in Es2. by rewrite <- Es2.
Qed.

Definition empty_heap : heap := Heap ∅ 1 [].

Lemma rep_create : rep empty_heap listCreate [].
Proof. split; try done. constructor. Qed.

(** C10. The pointer structure implements a sequence.  Any script of head and
    tail insertions, insertions before or after a node, deletions, rotations,
    lookups by (possibly negative) index, searches and iterations in both
    directions, run on a new list, follows only valid pointers, and its results
    and final values are those of the same operations on a plain list; the
    final nodes are linked consistently in both directions. *)
Theorem adlist_refines_list cs : Zlen cs < 2 ^ 64 -> Forall cmd_ok cs ->
  exists h l rs xs, run empty_heap listCreate cs = Some (h, l, rs) /\ rep h l xs /\
    (xs.*2, rs) = spec_run (fun key v => bool_decide (key = v)) [] cs.
Proof. intros Hl Hok. by destruct (adlist_run_spec cs _ _ _ rep_create Hl Hok) as (h & l & rs & xs & ?); exists h, l, rs, xs. Qed.

End Adlist.

Definition sample_script : list (cmd (V := Z)) :=
  [LAddTail 1; LAddTail 2; LAddHead 0; LInsert 1 7 true; LInsert 0 9 false; LRotate; LDel (-2); LIndex (-1);
   LSearch 7; LSearch 42; LIterate AL_START_TAIL].

Lemma adlist_refines_list_witness : Zlen sample_script < 2 ^ 64 /\
  exists h l rs xs, run empty_heap listCreate sample_script = Some (h, l, rs) /\ rep h l xs /\
    (xs.*2, rs) = spec_run (fun key v => bool_decide (key = v)) [] sample_script.
Proof.
  split; [vm_compute; reflexivity|]. apply (adlist_refines_list sample_script); [vm_compute; reflexivity|].
  repeat (constructor; [done|]). constructor.
Defined.

(** A list of three values whose [dup] method fails on 13. *)
Definition dup13 (v : Z) : option Z := if v =? 13 then None else Some (v + 100).
Definition three_heap (v : Z) : heap := Heap {[ 1 := Node 0 2 5; 2 := Node 1 3 6; 3 := Node 2 0 v ]} 4 [].
Definition three_list : list_t := List 1 3 3 (Some dup13) true None.

Lemma three_rep v : rep (three_heap v) three_list [(1, 5); (2, 6); (3, v)].
Proof.
  split; try done.
  - repeat (constructor; [set_solver|]). constructor.
  - split; [done|]. repeat (apply map_Forall_insert_2; [simpl; lia|]). apply map_Forall_empty.
Qed.

Lemma listDup_correct_witness :
  (exists h' r, listDup (three_heap 13) three_list = Some (h', r) /\
    match mapM (M := option) (dupf (l_dup three_list)) [5; 6; 13], r with
    | Some vals, Some copy => exists zs, rep h' copy zs /\ zs.*2 = vals /\
        (forall a, a ∉ zs.*1 -> h_cells h' !! a = h_cells (three_heap 13) !! a) /\
        (forall a, a ∈ zs.*1 -> h_cells (three_heap 13) !! a = None) /\
        (l_dup copy, l_free copy, l_match copy) = (l_dup three_list, l_free three_list, l_match three_list)
    | None, None => h_cells h' = h_cells (three_heap 13)
    | _, _ => False
    end) /\
  option_map (fun r => option_map l_len r.2) (listDup (three_heap 7) three_list) = Some (Some 3).
Proof.
  split; [|vm_compute; reflexivity].
  apply (listDup_correct (three_heap 13) three_list [(1, 5); (2, 6); (3, 13)]); [apply three_rep|simpl; lia].
Defined.
