(* ===== verification/Sds.v ===== *)
(** Dynamic strings: the buffers of [sds.c] and [sds.h].

    An [sds] points into an allocation behind a header; the model keeps the
    header fields (type, [len], [alloc], each stored at the width of the type)
    and the bytes from the pointer on as a memory block, so that every byte
    access is checked.  The type 5 header has no [alloc] field.  [s_malloc] and
    [s_realloc] never return NULL in Redis (they abort), so the NULL branches
    are not modelled.  Text processing on top of the buffers is in
    [SdsText.v]. *)

From S2P Require Import Prelude.

Inductive sdstype := SDS_TYPE_5 | SDS_TYPE_8 | SDS_TYPE_16 | SDS_TYPE_32 | SDS_TYPE_64.

#[export] Instance sdstype_eq_dec : EqDecision sdstype.
Proof. solve_decision. Defined.

Record sds := Sds { s_type : sdstype; s_hlen : Z; s_halloc : Z; s_buf : block }.

(** A value stored in the length field. *)
Definition to_field (t : sdstype) (x : Z) : Z :=
  match t with
  | SDS_TYPE_5 => wrapu 5 x | SDS_TYPE_8 => u8 x | SDS_TYPE_16 => u16 x
  | SDS_TYPE_32 => u32 x | SDS_TYPE_64 => u64 x
  end.

Definition sdsHdrSize (t : sdstype) : Z :=
  match t with
  | SDS_TYPE_5 => 1 | SDS_TYPE_8 => 3 | SDS_TYPE_16 => 5 | SDS_TYPE_32 => 9 | SDS_TYPE_64 => 17
  end.

Definition sdsReqType (string_size : Z) : sdstype :=
  if string_size <? 2 ^ 5 then SDS_TYPE_5 else
  if string_size <? 2 ^ 8 then SDS_TYPE_8 else
  if string_size <? 2 ^ 16 then SDS_TYPE_16 else
  if string_size <? 2 ^ 32 then SDS_TYPE_32 else SDS_TYPE_64.

Definition sdslen (s : sds) : Z := s_hlen s.
Definition sdsavail (s : sds) : Z :=
  match s_type s with SDS_TYPE_5 => 0 | _ => u64 (s_halloc s - s_hlen s) end.
Definition sdsalloc (s : sds) : Z :=
  match s_type s with SDS_TYPE_5 => s_hlen s | _ => s_halloc s end.
Definition sdssetlen (s : sds) (newlen : Z) : sds :=
  Sds (s_type s) (to_field (s_type s) newlen) (s_halloc s) (s_buf s).
Definition sdssetalloc (s : sds) (newlen : Z) : sds :=
  match s_type s with
  | SDS_TYPE_5 => s
  | _ => Sds (s_type s) (s_hlen s) (to_field (s_type s) newlen) (s_buf s)
  end.
Definition sdsinclen (s : sds) (inc : Z) : sds := sdssetlen s (s_hlen s + inc).

Definition set_buf (s : sds) (b : block) : sds := Sds (s_type s) (s_hlen s) (s_halloc s) b.

(** [memcpy] between two blocks, and [memset]. *)
Definition memcpy (dst : block) (off : Z) (src : block) (soff n : Z) : option block :=
  if in_block src soff n && in_block dst off n then Some (overwrite dst off (slice src soff n)) else None.
Definition memset (dst : block) (off c n : Z) : option block :=
  store dst off (replicate (Z.to_nat n) (u8 c)).

(** The bytes after the header of an allocation of [size_t] bytes. *)
Definition room (hdrlen n : Z) : Z := u64 (hdrlen + n + 1) - hdrlen.

Definition SDS_MAX_PREALLOC : Z := 1024 * 1024.

(** ** Creation *)

(** [init = None] is a NULL pointer. *)
Definition sdsnewlen (init : option (list Z)) (initlen : Z) : option sds :=
  let type := sdsReqType initlen in
  let type := if bool_decide (type = SDS_TYPE_5) && (initlen =? 0) then SDS_TYPE_8 else type in
  let hdrlen := sdsHdrSize type in
  let b := malloc (room hdrlen initlen) in
  b ← (match init with None => memset b 0 0 (blen b) | Some _ => Some b end);
  let s := Sds type (to_field type initlen) (to_field type initlen) b in
  b ← (match init with
       | Some src => if negb (initlen =? 0) then memcpy b 0 (Some <$> src) 0 initlen else Some b
       | None => Some b end);
  b ← store8 b initlen 0;
  Some (set_buf s b).

Definition sdsempty : option sds := sdsnewlen (Some []) 0.

(** The argument is a C string, its bytes up to the terminator. *)
Definition sdsnew (init : option (list Z)) : option sds :=
  sdsnewlen init (match init with None => 0 | Some src => Zlen src end).

Definition sdsdup (s : sds) : option sds :=
  bs ← load (s_buf s) 0 (sdslen s); sdsnewlen (Some bs) (sdslen s).

Definition sdsclear (s : sds) : option sds :=
  let s := sdssetlen s 0 in
  b ← store8 (s_buf s) 0 0; Some (set_buf s b).

(** ** Room *)

Definition sdsMakeRoomFor (s : sds) (addlen : Z) : option sds :=
  let avail := sdsavail s in
  let oldtype := s_type s in
  if avail >=? addlen then Some s else
  let len := sdslen s in
  let newlen := u64 (len + addlen) in
  let newlen := if newlen <? SDS_MAX_PREALLOC then u64 (newlen * 2) else u64 (newlen + SDS_MAX_PREALLOC) in
  let type := sdsReqType newlen in
  let type := if bool_decide (type = SDS_TYPE_5) then SDS_TYPE_8 else type in
  let hdrlen := sdsHdrSize type in
  if bool_decide (oldtype = type) then
    let s := set_buf s (zrealloc (s_buf s) (room hdrlen newlen)) in
    Some (sdssetalloc s newlen)
  else
    b ← memcpy (malloc (room hdrlen newlen)) 0 (s_buf s) 0 (len + 1);
    let s := sdssetlen (Sds type 0 0 b) len in
    Some (sdssetalloc s newlen).

Definition sdsRemoveFreeSpace (s : sds) : option sds :=
  let oldtype := s_type s in
  let len := sdslen s in
  let type := sdsReqType len in
  let hdrlen := sdsHdrSize type in
  if bool_decide (oldtype = type) then
    let s := set_buf s (zrealloc (s_buf s) (room hdrlen len)) in
    Some (sdssetalloc s len)
  else
    b ← memcpy (malloc (room hdrlen len)) 0 (s_buf s) 0 (len + 1);
    let s := sdssetlen (Sds type 0 0 b) len in
    Some (sdssetalloc s len).

Definition sdsAllocSize (s : sds) : Z := u64 (sdsHdrSize (s_type s) + sdsalloc s + 1).

(** [incr] is an [int]; the assertion fails with [None]. *)
Definition sdsIncrLen (s : sds) (incr : Z) : option sds :=
  let ok := match s_type s with
    | SDS_TYPE_5 => ((incr >? 0) && (s_hlen s + incr <? 32)) || ((incr <? 0) && (s_hlen s >=? - incr))
    | _ => ((incr >=? 0) && (s_halloc s - s_hlen s >=? incr)) || ((incr <? 0) && (s_hlen s >=? - incr))
    end in
  if negb ok then None else
  let s := sdssetlen s (s_hlen s + incr) in
  b ← store8 (s_buf s) (s_hlen s) 0; Some (set_buf s b).

(** ** Appending and overwriting *)

Definition sdsgrowzero (s : sds) (len : Z) : option sds :=
  let curlen := sdslen s in
  if len <=? curlen then Some s else
  s ← sdsMakeRoomFor s (len - curlen);
  b ← memset (s_buf s) curlen 0 (len - curlen + 1);
  Some (sdssetlen (set_buf s b) len).

Definition sdscatlen (s : sds) (t : list Z) (len : Z) : option sds :=
  let curlen := sdslen s in
  s ← sdsMakeRoomFor s len;
  b ← memcpy (s_buf s) curlen (Some <$> t) 0 len;
  let s := sdssetlen (set_buf s b) (curlen + len) in
  b ← store8 (s_buf s) (curlen + len) 0; Some (set_buf s b).

Definition sdscat (s : sds) (t : list Z) : option sds := sdscatlen s t (Zlen t).

Definition sdscatsds (s t : sds) : option sds :=
  bs ← load (s_buf t) 0 (sdslen t); sdscatlen s bs (sdslen t).

Definition sdscpylen (s : sds) (t : list Z) (len : Z) : option sds :=
  s ← (if sdsalloc s <? len then sdsMakeRoomFor s (u64 (len - sdslen s)) else Some s);
  b ← memcpy (s_buf s) 0 (Some <$> t) 0 len;
  b ← store8 b len 0;
  Some (sdssetlen (set_buf s b) len).

Definition sdscpy (s : sds) (t : list Z) : option sds := sdscpylen s t (Zlen t).

(** ** In-place edits *)

(** [while(sp <= end && strchr(cset, *sp)) sp++;]: [strchr] also finds the
    terminator, so a zero byte of the string is always in the set. *)
Definition in_cset (cset : list Z) (c : Z) : bool := bool_decide (c ∈ cset) || (c =? 0).

Fixpoint trim_left (fuel : nat) (b : block) (cset : list Z) (sp end_ : Z) : option Z :=
  match fuel with
  | O => None
  | S fuel =>
    if sp <=? end_ then
      c ← load8 b sp; if in_cset cset c then trim_left fuel b cset (sp + 1) end_ else Some sp
    else Some sp
  end.

Fixpoint trim_right (fuel : nat) (b : block) (cset : list Z) (ep sp : Z) : option Z :=
  match fuel with
  | O => None
  | S fuel =>
    if ep >? sp then
      c ← load8 b ep; if in_cset cset c then trim_right fuel b cset (ep - 1) sp else Some ep
    else Some ep
  end.

Definition sdstrim (s : sds) (cset : list Z) : option sds :=
  let end_ := sdslen s - 1 in
  let fuel := S (S (Z.to_nat (sdslen s))) in
  sp ← trim_left fuel (s_buf s) cset 0 end_;
  ep ← trim_right fuel (s_buf s) cset end_ sp;
  let len := if sp >? ep then 0 else ep - sp + 1 in
  b ← (if negb (sp =? 0) then memmove (s_buf s) 0 sp len else Some (s_buf s));
  b ← store8 b len 0;
  Some (sdssetlen (set_buf s b) len).

(** [start] and [end] are [int]s. *)
Definition sdsrange (s : sds) (start end_ : Z) : option sds :=
  let len := sdslen s in
  if len =? 0 then Some s else
  let start := if start <? 0 then (let start := s32 (u64 (len + start)) in if start <? 0 then 0 else start) else start in
  let end_ := if end_ <? 0 then (let end_ := s32 (u64 (len + end_)) in if end_ <? 0 then 0 else end_) else end_ in
  newlen ← (if start >? end_ then Some 0 else i32 (end_ - start + 1));
  let '(start, newlen) :=
    if negb (newlen =? 0) then
      if start >=? s32 len then (start, 0)
      else if end_ >=? s32 len then
        let end_ := s32 (u64 (len - 1)) in
        (start, if start >? end_ then 0 else end_ - start + 1)
      else (start, newlen)
    else (0, newlen) in
  b ← (if negb (start =? 0) && negb (newlen =? 0) then memmove (s_buf s) 0 start newlen else Some (s_buf s));
  b ← store8 b newlen 0;
  Some (sdssetlen (set_buf s b) newlen).

(** [for (j = 0; j < len; j++) s[j] = f(s[j]);] *)
Fixpoint map_loop (n : nat) (f : Z -> Z) (b : block) (j : Z) : option block :=
  match n with
  | O => Some b
  | S n => c ← load8 b j; b ← store8 b j (f c); map_loop n f b (j + 1)
  end.

Definition to_lower (c : Z) : Z := if (65 <=? c) && (c <=? 90) then c + 32 else c.
Definition to_upper (c : Z) : Z := if (97 <=? c) && (c <=? 122) then c - 32 else c.

Definition sdstolower (s : sds) : option sds :=
  b ← map_loop (Z.to_nat (s32 (sdslen s))) to_lower (s_buf s) 0; Some (set_buf s b).
Definition sdstoupper (s : sds) : option sds :=
  b ← map_loop (Z.to_nat (s32 (sdslen s))) to_upper (s_buf s) 0; Some (set_buf s b).

(** ** The represented string *)

Definition type_bits (t : sdstype) : Z :=
  match t with SDS_TYPE_5 => 5 | SDS_TYPE_8 => 8 | SDS_TYPE_16 => 16 | SDS_TYPE_32 => 32 | SDS_TYPE_64 => 64 end.

(** [s] holds the bytes [c] and the terminator, within its allocation. *)
Record sds_ok (s : sds) (c : list Z) : Prop := {
  ok_len : s_hlen s = Zlen c;
  ok_alloc : Zlen c <= sdsalloc s < 2 ^ type_bits (s_type s);
  ok_63 : sdsalloc s < 2 ^ 63;
  ok_byte : Forall is_byte c;
  ok_buf : exists rest, s_buf s = (Some <$> c) ++ Some 0 :: rest /\ sdsalloc s - Zlen c <= Zlen rest
}.

Lemma to_field_id t x : 0 <= x < 2 ^ type_bits t -> to_field t x = x.
Proof. destruct t; apply wrapu_id. Qed.

Lemma memcpy_app (a b c src t u w : block) off soff n : off = Zlen a -> n = Zlen b -> src = t ++ u ++ w ->
  length u = length b -> soff = Zlen t -> memcpy (a ++ b ++ c) off src soff n = Some (a ++ u ++ c).
Proof.
  intros -> -> -> Hl ->. unfold memcpy. rewrite in_block_app by (done || lia).
  rewrite in_block_app by (done || lia). cbn [andb]. rewrite slice_app by (done || lia).
  by rewrite overwrite_app.
Qed.

Lemma memcpy_head (b c src u w : block) n : n = Zlen b -> src = u ++ w -> length u = length b ->
  memcpy (b ++ c) 0 src 0 n = Some (u ++ c).
Proof. intros. by apply (memcpy_app [] b c src [] u w). Qed.

Lemma room_id h n : 0 <= h -> 0 <= n -> h + n + 1 < 2 ^ 64 -> room h n = n + 1.
Proof. intros. unfold room. rewrite (wrapu_id 64); lia. Qed.

Lemma hdr_range t : 1 <= sdsHdrSize t <= 17.
Proof. destruct t; simpl; lia. Qed.

(** *** Creation *)

Lemma reqtype_fits n : 0 <= n < 2 ^ 64 -> n < 2 ^ type_bits (sdsReqType n).
Proof. intros Hn. unfold sdsReqType. zcases; simpl; lia. Qed.

Lemma sdsnewlen_spec src : Forall is_byte src -> Zlen src < 2 ^ 62 ->
  exists s, sdsnewlen (Some src) (Zlen src) = Some s /\ sds_ok s src.
Proof.
  intros Hb Hl. unfold sdsnewlen. set (ty0 := sdsReqType (Zlen src)).
  set (ty := if bool_decide (ty0 = SDS_TYPE_5) && (Zlen src =? 0) then SDS_TYPE_8 else ty0).
  assert (Zlen src < 2 ^ type_bits ty) as Hfit.
  { subst ty. destruct (_ && _) eqn:E; [apply andb_true_iff in E as [_ E%Z.eqb_eq]; rewrite E; simpl; lia|].
    apply reqtype_fits. lia. }
  clearbody ty. clear ty0. pose proof (hdr_range ty). rewrite room_id, to_field_id by lia. cbn [mbind option_bind].
  set (m := malloc (Zlen src + 1)).
  assert (exists z : option Z, m = replicate (length src) None ++ [z]) as (z & Em).
  { exists None. subst m. unfold malloc. replace (Z.to_nat (Zlen src + 1)) with (length src + 1)%nat by lia.
    by rewrite replicate_add. }
  assert (exists y, (if negb (Zlen src =? 0) then memcpy m 0 (Some <$> src) 0 (Zlen src) else Some m) =
    Some ((Some <$> src) ++ [y])) as (y & ->).
  { rewrite Em. destruct (Z.eqb_spec (Zlen src) 0) as [E|E]; cbn [negb].
    - exists z. destruct src; [done|simpl in E; lia].
    - exists z. apply (memcpy_app [] (replicate (length src) None) [z] _ [] (Some <$> src) []);
        rewrite ?length_replicate, ?length_fmap, ?app_nil_r; done. }
  cbn [mbind option_bind]. rewrite store8_app by (rewrite ?length_fmap; done). cbn [mbind option_bind].
  eexists. split; [done|]. unfold set_buf. cbn [s_hlen s_type s_halloc].
  assert (sdsalloc (Sds ty (Zlen src) (Zlen src) ((Some <$> src) ++ [Some 0])) = Zlen src) as Ea
    by (unfold sdsalloc; by destruct ty).
  split; rewrite ?Ea; cbn [s_hlen s_type s_buf]; try done; try lia.
  exists []. split; [done|simpl; lia].
Qed.

(** *** Room *)

Lemma alloc_nonneg s c : sds_ok s c -> 0 <= s_hlen s /\ sdsavail s = sdsalloc s - Zlen c.
Proof.
  intros [Hl Ha H63 _ _]. split; [lia|]. unfold sdsavail, sdsalloc in *. destruct (s_type s); rewrite ?Hl; [lia|..];
  apply (wrapu_id 64); lia.
Qed.

Lemma sdsMakeRoomFor_spec s c add : sds_ok s c -> 0 <= add -> Zlen c + add < 2 ^ 62 ->
  exists s', sdsMakeRoomFor s add = Some s' /\ sds_ok s' c /\ Zlen c + add <= sdsalloc s'.
Proof.
  intros Hok Hadd Hlim. destruct (alloc_nonneg s c Hok) as [_ Hav]. unfold sdsMakeRoomFor, sdslen.
  rewrite Hav, Z.geb_leb. destruct (Z.leb_spec add (sdsalloc s - Zlen c)); [exists s; split_and!; done || lia|].
  destruct Hok as [Hl Ha H63 Hb (rest & Hbuf & Hrest)]. rewrite Hl, (wrapu_id 64 (Zlen c + add)) by lia.
  set (newlen := if _ <? _ then _ else _).
  assert (Zlen c + add <= newlen < 2 ^ 63) as Hn.
  { subst newlen. unfold SDS_MAX_PREALLOC. destruct (Z.ltb_spec (Zlen c + add) (1024 * 1024)); rewrite (wrapu_id 64); lia. }
  clearbody newlen. set (ty0 := sdsReqType newlen). set (ty := if bool_decide (ty0 = SDS_TYPE_5) then SDS_TYPE_8 else ty0).
  assert (newlen < 2 ^ type_bits ty) as Hfit.
  { pose proof (reqtype_fits newlen ltac:(lia)) as Hf. fold ty0 in Hf. subst ty.
    case_bool_decide as E; [rewrite E in Hf; simpl in *; lia|done]. }
  assert (ty <> SDS_TYPE_5) as Hty by (subst ty; by case_bool_decide).
  pose proof (hdr_range ty). rewrite room_id by lia.
  assert (forall b rest', b = (Some <$> c) ++ Some 0 :: rest' -> Zlen b = newlen + 1 ->
    sds_ok (sdssetalloc (Sds ty (Zlen c) (s_halloc s) b) newlen) c /\
    sdsalloc (sdssetalloc (Sds ty (Zlen c) (s_halloc s) b) newlen) = newlen) as Hmk.
  { intros b rest' -> HL. rewrite length_app, length_fmap in HL. cbn [length] in HL. unfold sdssetalloc. cbn [s_type].
    rewrite to_field_id by lia. cbn [s_hlen s_buf].
    assert (sdsalloc (Sds ty (Zlen c) newlen ((Some <$> c) ++ Some 0 :: rest')) = newlen) as Ea.
    { unfold sdsalloc. cbn [s_type s_halloc]. by destruct ty. }
    destruct ty; (split; [|exact Ea]); (split; rewrite ?Ea; cbn [s_hlen s_type s_buf]; try done; try lia);
      exists rest'; (split; [done|lia]). }
  case_bool_decide as Et.
  - eexists. split; [done|]. unfold set_buf. rewrite Et, Hl, Hbuf. set (b0 := (Some <$> c) ++ Some 0 :: rest) in *.
    set (b := zrealloc b0 (newlen + 1)). destruct (Hmk b (drop (S (length c)) b)) as [H1 H2]; [| |split; [done|lia]].
    + subst b. unfold zrealloc. subst b0. change (Some 0 :: rest) with ([Some 0] ++ rest). rewrite app_assoc.
      rewrite take_app_ge by (rewrite length_app, length_fmap; simpl; lia). rewrite <- !app_assoc.
      set (z := take _ rest ++ _). change ([Some 0] ++ z) with (Some 0 :: z).
      replace (S (length c)) with (length ((Some <$> c) ++ [Some 0])) by (rewrite length_app, length_fmap; simpl; lia).
      replace ((Some <$> c) ++ Some 0 :: z) with (((Some <$> c) ++ [Some 0]) ++ z) at 2 by (by rewrite <- app_assoc).
      by rewrite drop_app_length.
    + subst b. rewrite length_zrealloc. lia.
  - rewrite Hbuf. unfold malloc.
    replace (Z.to_nat (newlen + 1)) with (S (length c) + Z.to_nat (newlen - Zlen c))%nat by lia. rewrite replicate_add.
    rewrite (memcpy_head _ _ _ ((Some <$> c) ++ [Some 0]) rest).
    + cbn [mbind option_bind]. eexists. split; [done|]. unfold sdssetlen. cbn [s_type s_halloc s_buf].
      rewrite to_field_id by lia.
      destruct (Hmk (((Some <$> c) ++ [Some 0]) ++ replicate (Z.to_nat (newlen - Zlen c)) None)
        (replicate (Z.to_nat (newlen - Zlen c)) None)) as [H1 H2].
      { by rewrite <- app_assoc. }
      { rewrite !length_app, length_fmap, length_replicate. simpl. lia. }
      unfold sdssetalloc in *. cbn [s_type s_hlen s_buf s_halloc] in *. destruct ty; try done; split; done || lia.
    + rewrite length_replicate. lia.
    + by rewrite <- app_assoc.
    + rewrite length_app, length_fmap, length_replicate. simpl. lia.
Qed.

(** *** Edits within the allocation *)

Lemma buf_length s c : sds_ok s c -> sdsalloc s + 1 <= Zlen (s_buf s).
Proof. intros [_ _ _ _ (rest & -> & Hr)]. rewrite length_app, length_fmap. cbn [length]. lia. Qed.

Lemma ok_edit s c c' rest' : sds_ok s c -> Zlen c' <= sdsalloc s -> Forall is_byte c' ->
  length ((Some <$> c') ++ Some 0 :: rest') = length (s_buf s) ->
  sds_ok (sdssetlen (set_buf s ((Some <$> c') ++ Some 0 :: rest')) (Zlen c')) c'.
Proof.
  intros Hok Hle Hb Hlen. pose proof (buf_length s c Hok) as HB. destruct Hok as [Hl Ha H63 _ _].
  rewrite length_app, length_fmap in Hlen. cbn [length] in Hlen.
  unfold sdssetlen, set_buf. cbn [s_type s_halloc s_buf]. rewrite to_field_id by lia.
  unfold sdsalloc in *. split; unfold sdsalloc; cbn [s_type s_hlen s_halloc s_buf]; try done; try (destruct (s_type s); lia).
  exists rest'. split; [done|]. destruct (s_type s); lia.
Qed.

Lemma set_buf_comm s b n : set_buf (sdssetlen s n) b = sdssetlen (set_buf s b) n.
Proof. done. Qed.

Lemma sdscatlen_spec s c t : sds_ok s c -> Forall is_byte t -> Zlen c + Zlen t < 2 ^ 62 ->
  exists s', sdscatlen s t (Zlen t) = Some s' /\ sds_ok s' (c ++ t).
Proof.
  intros Hok Ht Hlim. unfold sdscatlen, sdslen. rewrite (ok_len s c Hok).
  destruct (sdsMakeRoomFor_spec s c (Zlen t) Hok ltac:(lia) Hlim) as (s1 & -> & Hok1 & Hroom).
  cbn [mbind option_bind]. pose proof Hok1 as [_ _ _ Hb (rest & Hbuf & Hr)]. rewrite Hbuf.
  destruct (block_split (Some 0 :: rest) (Zlen t)) as (x & y & E & Hx); [cbn [length]; lia|].
  assert (exists z y', y = z :: y') as (z & y' & ->).
  { destruct y as [|z y']; [|by exists z, y']. apply (f_equal length) in E. rewrite length_app in E. cbn [length] in E. lia. }
  rewrite E. rewrite (memcpy_app (Some <$> c) x (z :: y') _ [] (Some <$> t) []); try done.
  2: { by rewrite length_fmap. } 2: { by rewrite app_nil_r. } 2: { rewrite length_fmap. lia. }
  cbn [mbind option_bind]. cbn [sdssetlen set_buf s_buf s_type].
  rewrite app_assoc, <- fmap_app, store8_app; [|rewrite length_fmap, length_app; lia|done]. cbn [mbind option_bind].
  eexists. split; [done|]. replace (Zlen c + Zlen t) with (Zlen (c ++ t)) by (rewrite length_app; lia).
  apply (ok_edit s1 c (c ++ t) y' Hok1).
  - rewrite length_app. lia.
  - by apply Forall_app.
  - rewrite Hbuf, E, fmap_app, !length_app, !length_fmap. cbn [length]. lia.
Qed.

Lemma sdscpylen_spec s c t : sds_ok s c -> Forall is_byte t -> Zlen c + Zlen t < 2 ^ 62 ->
  exists s', sdscpylen s t (Zlen t) = Some s' /\ sds_ok s' t.
Proof.
  intros Hok Ht Hlim. unfold sdscpylen, sdslen.
  assert (exists s1, (if sdsalloc s <? Zlen t then sdsMakeRoomFor s (u64 (Zlen t - s_hlen s)) else Some s) = Some s1 /\
    sds_ok s1 c /\ Zlen t <= sdsalloc s1) as (s1 & -> & Hok1 & Hroom).
  { pose proof (ok_alloc s c Hok). destruct (Z.ltb_spec (sdsalloc s) (Zlen t)); [|by exists s].
    rewrite (ok_len s c Hok), (wrapu_id 64) by lia.
    destruct (sdsMakeRoomFor_spec s c (Zlen t - Zlen c) Hok) as (s1 & -> & ? & ?); [lia..|]. exists s1. split_and!; done || lia. }
  cbn [mbind option_bind]. pose proof (buf_length s1 c Hok1) as HB.
  destruct (block_split (s_buf s1) (Zlen t)) as (x & y & E & Hx); [lia|].
  assert (exists z y', y = z :: y') as (z & y' & ->).
  { destruct y as [|z y']; [|by exists z, y']. rewrite E, length_app in HB. cbn [length] in HB. lia. }
  rewrite E, (memcpy_head x (z :: y') _ (Some <$> t) []); [|done|by rewrite app_nil_r|rewrite length_fmap; lia].
  cbn [mbind option_bind]. rewrite store8_app by (rewrite ?length_fmap; done). cbn [mbind option_bind].
  eexists. split; [done|]. apply (ok_edit s1 c); try done. rewrite E, !length_app, length_fmap. cbn [length]. lia.
Qed.

Lemma sdsclear_spec s c : sds_ok s c -> exists s', sdsclear s = Some s' /\ sds_ok s' [].
Proof.
  intros Hok. pose proof (buf_length s c Hok) as HB. pose proof (ok_alloc s c Hok). unfold sdsclear. cbn [sdssetlen s_buf].
  destruct (s_buf s) as [|z b] eqn:E; [cbn [length] in HB; lia|].
  pose proof (store8_app [] b z 0 0 eq_refl ltac:(done)) as Es. cbn [app] in Es. rewrite Es. cbn [mbind option_bind]. eexists. split; [done|].
  apply (ok_edit s c [] b); try done; simpl; [lia|]. by rewrite E.
Qed.

Lemma sdsgrowzero_spec s c len : sds_ok s c -> 0 <= len < 2 ^ 62 ->
  exists s', sdsgrowzero s len = Some s' /\ sds_ok s' (c ++ replicate (Z.to_nat (len - Zlen c)) 0).
Proof.
  intros Hok Hlim. unfold sdsgrowzero, sdslen. rewrite (ok_len s c Hok). destruct (Z.leb_spec len (Zlen c)).
  { exists s. split; [done|]. replace (Z.to_nat (len - Zlen c)) with 0%nat by lia. by rewrite app_nil_r. }
  destruct (sdsMakeRoomFor_spec s c (len - Zlen c) Hok) as (s1 & -> & Hok1 & Hroom); [lia..|].
  cbn [mbind option_bind]. pose proof Hok1 as [_ _ _ Hb (rest & Hbuf & Hr)]. rewrite Hbuf.
  set (k := Z.to_nat (len - Zlen c)). unfold memset. replace (Z.to_nat (len - Zlen c + 1)) with (k + 1)%nat by lia.
  destruct (block_split (Some 0 :: rest) (len - Zlen c + 1)) as (x & y & E & Hx); [cbn [length]; lia|].
  rewrite E, store_app by (rewrite ?length_fmap, ?length_replicate; done || lia). cbn [mbind option_bind].
  eexists. split; [done|]. change (u8 0) with 0. rewrite replicate_add, fmap_app, <- (app_assoc _ _ y). cbn [replicate fmap list_fmap app].
  rewrite app_assoc, <- fmap_app.
  assert (Zlen (c ++ replicate k 0) = len) as HL by (rewrite length_app, length_replicate; lia).
  rewrite <- HL. apply (ok_edit s1 c); try done.
  - lia.
  - apply Forall_app. split; [done|]. by apply Forall_replicate.
  - rewrite Hbuf, E, fmap_app, !length_app, !length_fmap, length_replicate. cbn [length]. lia.
Qed.

Lemma sdsRemoveFreeSpace_spec s c : sds_ok s c -> Zlen c < 2 ^ 62 ->
  exists s', sdsRemoveFreeSpace s = Some s' /\ sds_ok s' c /\ sdsalloc s' = Zlen c.
Proof.
  intros [Hl Ha H63 Hb (rest & Hbuf & Hrest)] Hlim. unfold sdsRemoveFreeSpace, sdslen. rewrite Hl.
  set (ty := sdsReqType (Zlen c)). pose proof (reqtype_fits (Zlen c) ltac:(lia)) as Hfit. fold ty in Hfit. clearbody ty.
  pose proof (hdr_range ty). rewrite room_id by lia.
  assert (forall x, let s' := sdssetalloc (Sds ty (Zlen c) x ((Some <$> c) ++ [Some 0])) (Zlen c) in
    sds_ok s' c /\ sdsalloc s' = Zlen c) as Hmk.
  { intros x. unfold sdssetalloc. cbn [s_type s_hlen s_buf]. rewrite to_field_id by lia.
    destruct ty; cbv zeta; (split; [|done]); (split; unfold sdsalloc; cbn [s_hlen s_type s_buf s_halloc]; try done; try lia);
      exists []; (split; [done|simpl; lia]). }
  case_bool_decide as Et; rewrite Hbuf.
  - replace ((Some <$> c) ++ Some 0 :: rest) with (((Some <$> c) ++ [Some 0]) ++ rest) by (by rewrite <- app_assoc).
    rewrite zrealloc_shrink by (rewrite length_app, length_fmap; simpl; lia). unfold set_buf. rewrite Et, Hl.
    eexists. split; [done|]. apply Hmk.
  - unfold malloc. rewrite <- (app_nil_r (replicate _ None)).
    rewrite (memcpy_head _ _ _ ((Some <$> c) ++ [Some 0]) rest).
    + rewrite app_nil_r. cbn [mbind option_bind]. unfold sdssetlen. cbn [s_type s_halloc s_buf]. rewrite to_field_id by lia.
      eexists. split; [done|]. apply Hmk.
    + rewrite length_replicate. lia.
    + by rewrite <- app_assoc.
    + rewrite length_app, length_fmap, length_replicate. simpl. lia.
Qed.

(** *** Trimming *)

Fixpoint dropw (f : Z -> bool) (l : list Z) : list Z :=
  match l with [] => [] | c :: l' => if f c then dropw f l' else l end.

(** The longest suffix of bytes in the set removed. *)
Definition rdropw (f : Z -> bool) (l : list Z) : list Z := reverse (dropw f (reverse l)).

Lemma dropw_suffix f l : exists p, l = p ++ dropw f l /\ Forall (fun c => f c = true) p.
Proof.
  induction l as [|c l (p & E & Hp)]; simpl; [by exists []|]. destruct (f c) eqn:Ec; [|by exists []].
  exists (c :: p). split; [by rewrite E at 1|by constructor].
Qed.

Lemma dropw_head f l : match dropw f l with [] => True | c :: _ => f c = false end.
Proof. induction l as [|c l IH]; simpl; [done|]. by destruct (f c) eqn:Ec. Qed.

Lemma rdropw_snoc f l c : rdropw f (l ++ [c]) = if f c then rdropw f l else l ++ [c].
Proof.
  unfold rdropw. rewrite reverse_app. simpl. destruct (f c); [done|].
  by rewrite reverse_cons, reverse_involutive.
Qed.

Lemma trim_left_spec cset tail c : forall fuel pre, (length c < fuel)%nat ->
  trim_left fuel ((Some <$> pre ++ c) ++ tail) cset (Zlen pre) (Zlen pre + Zlen c - 1) =
    Some (Zlen pre + Zlen c - Zlen (dropw (in_cset cset) c)).
Proof.
  induction c as [|x c IH]; intros fuel pre Hf; (destruct fuel as [|fuel]; [lia|]); cbn [trim_left].
  { cbn [length dropw]. destruct (Z.leb_spec (Zlen pre) (Zlen pre + Z.of_nat 0 - 1)); [lia|].
    f_equal. lia. }
  cbn [length] in *. destruct (Z.leb_spec (Zlen pre) (Zlen pre + Z.of_nat (S (length c)) - 1)); [|lia].
  rewrite fmap_app, <- app_assoc. cbn [fmap list_fmap app]. rewrite load8_app by (by rewrite length_fmap).
  cbn [mbind option_bind dropw]. destruct (in_cset cset x); [|cbn [length]; f_equal; lia].
  specialize (IH fuel (pre ++ [x]) ltac:(lia)). rewrite <- app_assoc, length_app in IH. cbn [app length] in IH.
  rewrite fmap_app, <- app_assoc in IH. cbn [fmap list_fmap app] in IH.
  replace (Z.of_nat (length pre + 1)) with (Zlen pre + 1) in IH by lia.
  replace (Zlen pre + Z.of_nat (S (length c)) - 1) with (Zlen pre + 1 + Zlen c - 1) by lia. rewrite IH. f_equal. lia.
Qed.

Lemma trim_right_spec cset tail pre x : in_cset cset x = false -> forall c fuel, (length c < fuel)%nat ->
  trim_right fuel ((Some <$> pre ++ x :: c) ++ tail) cset (Zlen pre + Zlen c) (Zlen pre) =
    Some (Zlen pre + Zlen (rdropw (in_cset cset) (x :: c)) - 1).
Proof.
  intros Hx c. revert tail. induction c as [|y c IH] using rev_ind; intros tail fuel Hf; (destruct fuel as [|fuel]; [lia|]); cbn [trim_right].
  { rewrite Z.gtb_ltb. destruct (Z.ltb_spec (Zlen pre) (Zlen pre + Zlen (@nil Z))); [simpl in *; lia|].
    change [x] with ([] ++ [x]). rewrite rdropw_snoc, Hx. simpl. f_equal. lia. }
  rewrite length_app in *. cbn [length] in *. rewrite Z.gtb_ltb.
  destruct (Z.ltb_spec (Zlen pre) (Zlen pre + Z.of_nat (length c + 1))); [|lia].
  replace ((Some <$> pre ++ x :: c ++ [y]) ++ tail) with ((Some <$> pre ++ x :: c) ++ Some y :: tail).
  2: { replace (pre ++ x :: c ++ [y]) with ((pre ++ x :: c) ++ [y]) by (by rewrite <- app_assoc).
       by rewrite (fmap_app _ _ [y]), <- app_assoc. }
  rewrite load8_app; [|rewrite length_fmap, length_app; cbn [length]; lia]. cbn [mbind option_bind].
  rewrite (app_comm_cons c [y] x), rdropw_snoc. destruct (in_cset cset y).
  - replace (Zlen pre + Z.of_nat (length c + 1) - 1) with (Zlen pre + Zlen c) by lia. apply IH. lia.
  - f_equal. rewrite length_app. cbn [length]. lia.
Qed.

Definition trim (cset : list Z) (c : list Z) : list Z := rdropw (in_cset cset) (dropw (in_cset cset) c).

Lemma rdropw_prefix f l : exists r, l = rdropw f l ++ r.
Proof.
  unfold rdropw. destruct (dropw_suffix f (reverse l)) as (p & E & _). exists (reverse p).
  rewrite <- reverse_app, <- E. by rewrite reverse_involutive.
Qed.

(** Moving a middle part to the front and cutting after it. *)
Lemma edit_slice s c l m r : sds_ok s c -> c = l ++ m ++ r ->
  exists b b', (if negb (Zlen l =? 0) then memmove (s_buf s) 0 (Zlen l) (Zlen m) else Some (s_buf s)) = Some b /\
    store8 b (Zlen m) 0 = Some b' /\ sds_ok (sdssetlen (set_buf s b') (Zlen m)) m.
Proof.
  intros Hok Hc. pose proof (buf_length s c Hok) as HB. pose proof Hok as [_ Ha _ Hb (rest & Hbuf & _)].
  rewrite Hc in Hb. apply Forall_app in Hb as [_ [Hm _]%Forall_app].
  assert (Zlen c = Zlen l + Zlen m + Zlen r) as HL by (rewrite Hc, !length_app; lia).
  assert (exists b x b2, (if negb (Zlen l =? 0) then memmove (s_buf s) 0 (Zlen l) (Zlen m) else Some (s_buf s)) = Some b /\
    b = (Some <$> m) ++ x :: b2 /\ length b = length (s_buf s)) as (b & x & b2 & Eb & -> & Hlb).
  { destruct (block_split (s_buf s) (Zlen m)) as (u & w & E & Hu); [lia|].
    destruct w as [|x w]; [rewrite E, app_nil_r in HB; lia|].
    destruct (Z.eqb_spec (Zlen l) 0) as [El|El]; cbn [negb].
    - exists (s_buf s). destruct l; [|simpl in El; lia]. rewrite Hbuf, Hc. cbn [app]. rewrite fmap_app, <- app_assoc.
      destruct r as [|y r]; [exists (Some 0), rest|exists (Some y), ((Some <$> r) ++ Some 0 :: rest)]; done.
    - exists ((Some <$> m) ++ x :: w), x, w. split_and!; [|done|rewrite E, !length_app, length_fmap; lia].
      apply (memmove_app _ (Some <$> l) (Some <$> m) ((Some <$> r) ++ Some 0 :: rest) [] u (x :: w)).
      + rewrite Hbuf, Hc, !fmap_app. by rewrite <- !app_assoc.
      + done.
      + by rewrite length_fmap.
      + by rewrite length_fmap.
      + done.
      + lia. }
  eexists _, _. split; [exact Eb|]. rewrite store8_app by (rewrite ?length_fmap; done). split; [done|].
  apply (ok_edit s c m b2 Hok); [lia|done|]. rewrite <- Hlb, !length_app. done.
Qed.

Lemma sdstrim_spec s c cset : sds_ok s c -> exists s', sdstrim s cset = Some s' /\ sds_ok s' (trim cset c).
Proof.
  intros Hok. unfold sdstrim, sdslen. rewrite (ok_len s c Hok), Nat2Z.id.
  pose proof Hok as [_ _ _ _ (rest & Hbuf & _)].
  pose proof (trim_left_spec cset (Some 0 :: rest) c (S (S (length c))) [] ltac:(lia)) as EL. cbn [app length] in EL.
  rewrite Hbuf. replace (Z.of_nat 0 + Zlen c - 1) with (Zlen c - 1) in EL by lia. change (Z.of_nat 0) with 0 in EL.
  rewrite EL. cbn [mbind option_bind]. unfold trim.
  destruct (dropw_suffix (in_cset cset) c) as (l & Ec & _). pose proof (dropw_head (in_cset cset) c) as Hhd.
  set (d := dropw (in_cset cset) c) in *.
  assert (Zlen c = Zlen l + Zlen d) as HL by (rewrite Ec, length_app; lia).
  replace (0 + Zlen c - Zlen d) with (Zlen l) by lia.
  destruct (rdropw_prefix (in_cset cset) d) as (r & Ed). set (m := rdropw (in_cset cset) d) in *.
  destruct (edit_slice s c l m r Hok ltac:(by rewrite Ec, Ed at 1)) as (b & b' & E1 & E2 & Hok').
  destruct d as [|x d'].
  - assert (m = []) as Em by done. cbn [trim_right length] in *. rewrite Z.gtb_ltb.
    destruct (Z.ltb_spec (Zlen l) (Zlen c - 1)); [lia|]. cbn [mbind option_bind]. rewrite Z.gtb_ltb.
    destruct (Z.ltb_spec (Zlen c - 1) (Zlen l)); [|lia]. rewrite Em in *. change (Zlen (@nil Z)) with 0 in *.
    rewrite <- Hbuf. rewrite E1. cbn [mbind option_bind]. rewrite E2. cbn [mbind option_bind]. by eexists.
  - cbn [length] in HL.
    pose proof (trim_right_spec cset (Some 0 :: rest) l x Hhd d' (S (S (length c))) ltac:(lia)) as ER.
    rewrite <- Ec in ER. replace (Zlen l + Zlen d') with (Zlen c - 1) in ER by lia. rewrite ER. cbn [mbind option_bind]. fold m.
    assert (0 < Zlen m) as Hm.
    { destruct (decide (m = [])) as [Em|Hne]; [|destruct m; [done|cbn [length]; lia]].
      exfalso. subst m. unfold rdropw in Em. apply (f_equal reverse) in Em. rewrite reverse_involutive in Em. simpl in Em.
      clear -Em Hhd. rewrite reverse_cons in Em. revert Em. generalize (reverse d').
      intros z. induction z as [|y z IH]; simpl; [by rewrite Hhd|]. by destruct (in_cset cset y). }
    rewrite Z.gtb_ltb. destruct (Z.ltb_spec (Zlen l + Zlen m - 1) (Zlen l)); [lia|].
    replace (Zlen l + Zlen m - 1 - Zlen l + 1) with (Zlen m) by lia.
    rewrite <- Hbuf. rewrite E1. cbn [mbind option_bind]. rewrite E2. cbn [mbind option_bind]. by eexists.
Qed.

(** *** Ranges *)

(** The inclusive range of C indexes, clipped to the string. *)
Definition range_spec (c : list Z) (start end_ : Z) : list Z :=
  let n := Zlen c in
  let start := if start <? 0 then Z.max 0 (n + start) else start in
  let end_ := Z.min (n - 1) (if end_ <? 0 then Z.max 0 (n + end_) else end_) in
  slice c start (end_ - start + 1).

Lemma wrap_index len i : 0 <= len < 2 ^ 31 -> - 2 ^ 31 <= i < 0 -> s32 (u64 (len + i)) = len + i.
Proof.
  intros Hl Hi. unfold wraps, wrapu. change (2 ^ 64) with (2 ^ 32 * 2 ^ 32).
  rewrite <- Zplus_mod_idemp_l. rewrite Z.rem_mul_r by lia.
  rewrite (Z.mul_comm (2 ^ 32) (_ mod _)), Z_mod_plus_full, Z.mod_mod, Zplus_mod_idemp_l by lia.
  rewrite Z.mod_small; lia.
Qed.

Lemma slice_split {A} (c : list A) i n : 0 <= i -> 0 <= n -> i + n <= Zlen c ->
  exists l m r, c = l ++ m ++ r /\ Zlen l = i /\ Zlen m = n /\ slice c i n = m.
Proof.
  intros Hi Hn Hl. exists (take (Z.to_nat i) c), (slice c i n), (drop (Z.to_nat n) (drop (Z.to_nat i) c)).
  unfold slice. rewrite !take_drop, !length_take, length_drop. split_and!; done || lia.
Qed.

Lemma slice_empty {A} (c : list A) i n : n <= 0 \/ Zlen c <= i -> slice c i n = [].
Proof.
  intros [Hn|Hi]; unfold slice.
  - by replace (Z.to_nat n) with 0%nat by lia.
  - rewrite drop_ge by lia. by rewrite take_nil.
Qed.

(** [store8] at the start of the content. *)
Lemma edit_front s c n : sds_ok s c -> 0 <= n <= Zlen c ->
  exists b', store8 (s_buf s) n 0 = Some b' /\ sds_ok (sdssetlen (set_buf s b') n) (take (Z.to_nat n) c).
Proof.
  intros Hok Hn. destruct (edit_slice s c [] (take (Z.to_nat n) c) (drop (Z.to_nat n) c) Hok) as (b & b' & E1 & E2 & Hok').
  { by rewrite take_drop. }
  simpl in E1. injection E1 as <-. rewrite length_take in E2, Hok'.
  replace (Z.of_nat (Z.to_nat n `min` length c)) with n in E2, Hok' by lia. by exists b'.
Qed.

Lemma sdsrange_spec s c start end_ : sds_ok s c -> Zlen c < 2 ^ 31 ->
  INT32_MIN <= start <= INT32_MAX -> INT32_MIN <= end_ < INT32_MAX ->
  exists s', sdsrange s start end_ = Some s' /\ sds_ok s' (range_spec c start end_).
Proof.
  unfold_limits. intros Hok Hc Hs He. unfold sdsrange, sdslen, range_spec. rewrite (ok_len s c Hok).
  destruct (Z.eqb_spec (Zlen c) 0) as [E0|E0].
  { exists s. split; [done|]. destruct c; [|simpl in E0; lia]. unfold slice. by rewrite drop_nil, take_nil. }
  cbv zeta.
  assert ((if start <? 0 then (if s32 (u64 (Zlen c + start)) <? 0 then 0 else s32 (u64 (Zlen c + start))) else start)
    = if start <? 0 then Z.max 0 (Zlen c + start) else start) as ->.
  { destruct (Z.ltb_spec start 0); [|done]. rewrite wrap_index by lia. destruct (Z.ltb_spec (Zlen c + start) 0); lia. }
  assert ((if end_ <? 0 then (if s32 (u64 (Zlen c + end_)) <? 0 then 0 else s32 (u64 (Zlen c + end_))) else end_)
    = if end_ <? 0 then Z.max 0 (Zlen c + end_) else end_) as ->.
  { destruct (Z.ltb_spec end_ 0); [|done]. rewrite wrap_index by lia. destruct (Z.ltb_spec (Zlen c + end_) 0); lia. }
  set (a := if start <? 0 then _ else _). set (z := if end_ <? 0 then _ else _).
  assert (0 <= a < 2 ^ 31) as Ha by (subst a; destruct (Z.ltb_spec start 0); lia).
  assert (0 <= z < 2 ^ 31 - 1) as Hz by (subst z; destruct (Z.ltb_spec end_ 0); lia).
  clearbody a z. rewrite (wraps_id 32) by lia.
  replace (s32 (u64 (Zlen c - 1))) with (Zlen c - 1)
    by (symmetry; rewrite (wrapu_id 64) by lia; apply (wraps_id 32); lia).
  rewrite !Z.gtb_ltb. rewrite !Z.geb_leb. destruct (Z.ltb_spec z a) as [Hza|Haz].
  { cbn [mbind option_bind]. simpl. destruct (edit_front s c 0 Hok ltac:(lia)) as (b' & -> & Hok').
    cbn [mbind option_bind]. eexists. split; [done|]. by rewrite slice_empty by lia. }
  rewrite i32_ok by (unfold_limits; lia). cbn [mbind option_bind].
  destruct (Z.eqb_spec (z - a + 1) 0); [lia|]. cbn [negb].
  destruct (Z.leb_spec (Zlen c) a) as [Hac|Hac].
  { rewrite andb_false_r. destruct (edit_front s c 0 Hok ltac:(lia)) as (b' & E & Hok').
    cbn [mbind option_bind]. rewrite E. cbn [mbind option_bind]. eexists. split; [done|]. by rewrite slice_empty by lia. }
  assert (exists nl, (if Zlen c <=? z then (a, if Zlen c - 1 <? a then 0 else Zlen c - 1 - a + 1) else (a, z - a + 1)) = (a, nl) /\
    nl = Z.min (Zlen c - 1) z - a + 1) as (nl & -> & Hn).
  { destruct (Z.leb_spec (Zlen c) z); [destruct (Z.ltb_spec (Zlen c - 1) a); [lia|]|]; eexists; (split; [done|lia]). }
  rewrite <- Hn. destruct (Z.eqb_spec nl 0); [lia|]. rewrite andb_true_r.
  destruct (slice_split c a nl) as (l & m & r & Ec & Hl & Hm & ->); [lia..|].
  destruct (edit_slice s c l m r Hok Ec) as (b & b' & E1 & E2 & Hok'). rewrite Hl, Hm in *.
  rewrite E1. cbn [mbind option_bind]. rewrite E2. cbn [mbind option_bind]. by eexists.
Qed.

(** The inclusive length of the largest range does not fit an [int]. *)
Lemma sdsrange_overflow s : sdslen s <> 0 -> sdsrange s 0 INT32_MAX = None.
Proof. intros Hne. unfold sdsrange. destruct (Z.eqb_spec (sdslen s) 0); [done|]. reflexivity. Qed.

(** *** Case conversion, right-trimming by [sdsIncrLen] *)

Lemma map_loop_spec f (rest : block) c : forall pre, Forall is_byte (f <$> c) ->
  map_loop (length c) f ((Some <$> pre ++ c) ++ rest) (Zlen pre) = Some ((Some <$> pre ++ (f <$> c)) ++ rest).
Proof.
  induction c as [|x c IH]; intros pre Hf; cbn [length map_loop]; [done|].
  inversion_clear Hf as [|? ? Hx Hc]. rewrite fmap_app, <- app_assoc. cbn [fmap list_fmap app].
  rewrite load8_app by (by rewrite length_fmap). cbn [mbind option_bind].
  rewrite store8_app by (rewrite ?length_fmap; done). cbn [mbind option_bind].
  specialize (IH (pre ++ [f x]) Hc). rewrite length_app in IH. cbn [length] in IH.
  rewrite <- !app_assoc in IH. cbn [app] in IH. rewrite !fmap_app, <- !app_assoc in IH. cbn [fmap list_fmap app] in IH.
  replace (Z.of_nat (length pre + 1)) with (Zlen pre + 1) in IH by lia. rewrite IH.
  by rewrite fmap_app, <- app_assoc.
Qed.

Lemma sdsmap_spec s c f : sds_ok s c -> Zlen c < 2 ^ 31 -> (forall x, is_byte x -> is_byte (f x)) ->
  exists b, map_loop (Z.to_nat (s32 (sdslen s))) f (s_buf s) 0 = Some b /\ sds_ok (set_buf s b) (f <$> c).
Proof.
  intros [Hl Ha H63 Hb (rest & Hbuf & Hr)] Hc Hf. unfold sdslen. rewrite Hl, (wraps_id 32), Nat2Z.id by lia.
  assert (Forall is_byte (f <$> c)) as Hb' by (apply Forall_fmap; eapply Forall_impl; [exact Hb|]; simpl; auto).
  pose proof (map_loop_spec f (Some 0 :: rest) c [] Hb') as E.
  cbn [app length] in E. change (Z.of_nat 0) with 0 in E. rewrite Hbuf, E. eexists. split; [done|].
  assert (sdsalloc (set_buf s ((Some <$> (f <$> c)) ++ Some 0 :: rest)) = sdsalloc s) as Ea by (by destruct s).
  split; rewrite ?Ea, ?length_fmap; try done. exists rest. by rewrite ?length_fmap.
Qed.

Lemma sdsIncrLen_shrink s c n : sds_ok s c -> 0 < n <= Zlen c ->
  exists s', sdsIncrLen s (- n) = Some s' /\ sds_ok s' (take (Z.to_nat (Zlen c - n)) c).
Proof.
  intros Hok Hn. destruct (edit_front s c (Zlen c - n) Hok ltac:(lia)) as (b' & E & Hok').
  pose proof Hok as [Hl Ha _ _ _]. unfold sdsIncrLen.
  assert ((match s_type s with
    | SDS_TYPE_5 => ((- n >? 0) && (s_hlen s + - n <? 32)) || ((- n <? 0) && (s_hlen s >=? - - n))
    | _ => ((- n >=? 0) && (s_halloc s - s_hlen s >=? - n)) || ((- n <? 0) && (s_hlen s >=? - - n))
    end) = true) as ->.
  { assert ((- n <? 0) = true) as -> by (apply Z.ltb_lt; lia).
    assert ((s_hlen s >=? - - n) = true) as -> by (rewrite Z.geb_leb; apply Z.leb_le; lia).
    rewrite !orb_true_r. by destruct (s_type s). }
  cbn [negb]. cbn [sdssetlen s_buf s_hlen s_type].
  rewrite Hl. replace (Zlen c + - n) with (Zlen c - n) by lia.
  rewrite to_field_id by lia. rewrite E. cbn [mbind option_bind]. eexists. split; [done|exact Hok'].
Qed.

(** ** Scripts of operations against the specification *)

Inductive cmd :=
  | SCat (t : list Z) | SCpy (t : list Z) | SGrowZero (len : Z) | SMakeRoom (n : Z) | SRemoveFree
  | SClear | STrim (cset : list Z) | SRange (start end_ : Z) | SLower | SUpper | SChop (n : Z).

Definition run_cmd (s : sds) (c : cmd) : option sds :=
  match c with
  | SCat t => sdscat s t
  | SCpy t => sdscpy s t
  | SGrowZero len => sdsgrowzero s len
  | SMakeRoom n => sdsMakeRoomFor s n
  | SRemoveFree => sdsRemoveFreeSpace s
  | SClear => sdsclear s
  | STrim cset => sdstrim s cset
  | SRange start end_ => sdsrange s start end_
  | SLower => sdstolower s
  | SUpper => sdstoupper s
  | SChop n => if (0 <? n) && (n <=? sdslen s) then sdsIncrLen s (- n) else Some s
  end.

Definition run (s : sds) (cs : list cmd) : option sds := foldl (fun s c => s ← s; run_cmd s c) (Some s) cs.

Definition spec_cmd (c : list Z) (cm : cmd) : list Z :=
  match cm with
  | SCat t => c ++ t
  | SCpy t => t
  | SGrowZero len => c ++ replicate (Z.to_nat (len - Zlen c)) 0
  | SMakeRoom _ | SRemoveFree => c
  | SClear => []
  | STrim cset => trim cset c
  | SRange start end_ => range_spec c start end_
  | SLower => to_lower <$> c
  | SUpper => to_upper <$> c
  | SChop n => if (0 <? n) && (n <=? Zlen c) then take (Z.to_nat (Zlen c - n)) c else c
  end.

(** Arguments in range, and how much a command may add. *)
Definition cmd_ok (c : cmd) : Prop :=
  match c with
  | SCat t | SCpy t => Forall is_byte t
  | SGrowZero len => 0 <= len
  | SMakeRoom n => 0 <= n < 2 ^ 61
  | SRange start end_ => INT32_MIN <= start <= INT32_MAX /\ INT32_MIN <= end_ < INT32_MAX
  | _ => True
  end.

Definition cmd_grow (c : cmd) : Z :=
  match c with SCat t | SCpy t => Zlen t | SGrowZero len => len | _ => 0 end.

Lemma to_lower_byte x : is_byte x -> is_byte (to_lower x).
Proof. unfold is_byte, to_lower. intros. zcases; lia. Qed.
Lemma to_upper_byte x : is_byte x -> is_byte (to_upper x).
Proof. unfold is_byte, to_upper. intros. zcases; lia. Qed.

Lemma sds_cmd_spec s c cm : sds_ok s c -> cmd_ok cm -> Zlen c + cmd_grow cm < 2 ^ 31 ->
  exists s', run_cmd s cm = Some s' /\ sds_ok s' (spec_cmd c cm).
Proof.
  intros Hok Hc Hg. destruct cm; cbn [run_cmd spec_cmd cmd_ok cmd_grow] in *.
  - apply sdscatlen_spec; done || lia.
  - eapply sdscpylen_spec; done || lia.
  - apply sdsgrowzero_spec; done || lia.
  - destruct (sdsMakeRoomFor_spec s c n Hok) as (s' & -> & ? & _); [lia..|]. by exists s'.
  - destruct (sdsRemoveFreeSpace_spec s c Hok) as (s' & -> & ? & _); [lia|]. by exists s'.
  - by eapply sdsclear_spec.
  - by apply sdstrim_spec.
  - apply sdsrange_spec; try done; try lia; tauto.
  - unfold sdstolower. destruct (sdsmap_spec s c to_lower Hok ltac:(lia) to_lower_byte) as (b & -> & ?). by eexists.
  - unfold sdstoupper. destruct (sdsmap_spec s c to_upper Hok ltac:(lia) to_upper_byte) as (b & -> & ?). by eexists.
  - unfold sdslen. rewrite (ok_len s c Hok).
    destruct (Z.ltb_spec 0 n), (Z.leb_spec n (Zlen c)); cbn [andb]; try by exists s.
    by apply sdsIncrLen_shrink.
Qed.

Lemma length_dropw f l : Zlen (dropw f l) <= Zlen l.
Proof. induction l as [|x l IH]; simpl; [lia|]. destruct (f x); simpl; lia. Qed.

Lemma spec_cmd_len c cm : 0 <= cmd_grow cm -> Zlen (spec_cmd c cm) <= Zlen c + cmd_grow cm.
Proof.
  intros Hg. destruct cm; cbn [spec_cmd cmd_grow] in *; rewrite ?length_app, ?length_fmap; try (simpl; lia).
  - rewrite length_replicate. lia.
  - unfold trim, rdropw. rewrite length_reverse.
    pose proof (length_dropw (in_cset cset) (reverse (dropw (in_cset cset) c))) as H1. rewrite length_reverse in H1.
    pose proof (length_dropw (in_cset cset) c). lia.
  - unfold range_spec, slice. rewrite length_take, length_drop. lia.
  - destruct (_ && _); [rewrite length_take|]; lia.
Qed.

Lemma sds_run_spec cs : forall s c, sds_ok s c -> Forall cmd_ok cs ->
  Zlen c + foldr (fun cm n => cmd_grow cm + n) 0 cs < 2 ^ 31 ->
  exists s', run s cs = Some s' /\ sds_ok s' (foldl spec_cmd c cs).
Proof.
  induction cs as [|cm cs IH]; intros s c Hok Hcs Hg; [by exists s|].
  inversion_clear Hcs as [|? ? Hc Hcs']. cbn [foldr] in Hg.
  assert (forall cs, Forall cmd_ok cs -> 0 <= foldr (fun cm n => cmd_grow cm + n) 0 cs) as Hpos.
  { intros l. induction 1 as [|x l Hx _ IHl]; simpl; [lia|]. destruct x; simpl in *; lia. }
  pose proof (Hpos cs Hcs'). assert (0 <= cmd_grow cm) as Hg0 by (destruct cm; simpl in *; lia).
  destruct (sds_cmd_spec s c cm Hok Hc ltac:(lia)) as (s1 & E & Hok1).
  pose proof (spec_cmd_len c cm Hg0).
  destruct (IH s1 (spec_cmd c cm) Hok1 Hcs' ltac:(lia)) as (s2 & E2 & Hok2). exists s2. split; [|done].
  unfold run in *. cbn [foldl mbind option_bind]. by rewrite E.
Qed.

(** C6. Strings are byte sequences.  Any script of appends, copies,
    zero-growing, room reservations, removals of free space, clears, trims,
    ranges, case conversions and right-trims, run on a string created from any
    bytes, accesses only bytes of the allocation (whose header type changes on
    the way) and leaves the string whose content is the result of the same
    operations on plain byte lists, zero-terminated. *)
Theorem sds_script_correct src cs : Forall is_byte src -> Forall cmd_ok cs ->
  Zlen src + foldr (fun cm n => cmd_grow cm + n) 0 cs < 2 ^ 31 ->
  exists s0 s, sdsnewlen (Some src) (Zlen src) = Some s0 /\ run s0 cs = Some s /\
    sds_ok s (foldl spec_cmd src cs).
Proof.
  intros Hb Hcs Hg.
  assert (0 <= foldr (fun cm n => cmd_grow cm + n) 0 cs) as Hpos.
  { clear -Hcs. induction Hcs as [|x l Hx _ IHl]; simpl; [lia|]. destruct x; simpl in *; lia. }
  destruct (sdsnewlen_spec src Hb ltac:(lia)) as (s0 & E0 & Hok0).
  destruct (sds_run_spec cs s0 src Hok0 Hcs Hg) as (s & E & Hok). by exists s0, s.
Qed.

Definition sample_cmds : list cmd :=
  [SCat [72; 105; 33; 32; 32]; SMakeRoom 300; STrim [32; 9]; SUpper; SGrowZero 12; SRange 1 (-2); SChop 1; SRemoveFree].

Lemma sds_script_correct_witness : Zlen [32; 97; 98] + foldr (fun cm n => cmd_grow cm + n) 0 sample_cmds < 2 ^ 31 /\
  exists s0 s, sdsnewlen (Some [32; 97; 98]) (Zlen [32; 97; 98]) = Some s0 /\ run s0 sample_cmds = Some s /\
    sds_ok s (foldl spec_cmd [32; 97; 98] sample_cmds).
Proof.
  split; [vm_compute; reflexivity|].
  apply (sds_script_correct [32; 97; 98] sample_cmds); [by repeat constructor| |vm_compute; reflexivity].
  unfold sample_cmds. repeat (constructor; [simpl; (unfold_limits; lia) || (by repeat constructor)|]). constructor.
Defined.
