(* ===== verification/SdsText.v ===== *)
(** Text processing of [sds.c]: number formatting, comparison, splitting,
    quoting and the argument parser of the inline protocol and the
    configuration file.

    Strings that the C code builds with [sdscatlen] are represented by their
    contents ([sds_script_correct] of [Sds.v] relates the two).  A C string is
    the list of its bytes before the terminator; reading it at its end gives the
    zero byte and reading further is [None]. *)

From S2P Require Import Prelude Util Sds.

(** ** Numbers *)

(** [do { *p++ = '0'+(v%10); v /= 10; } while(v);] on the buffer [s]. *)
Fixpoint digits_loop (fuel : nat) (s : block) (p v : Z) : option (block * Z) :=
  match fuel with
  | O => None
  | S fuel =>
    s ← store8 s p (48 + v mod 10);
    let p := p + 1 in let v := v / 10 in
    if v =? 0 then Some (s, p) else digits_loop fuel s p v
  end.

(** [while(s < p)]: the two ends are swapped. *)
Fixpoint reverse_loop (fuel : nat) (b : block) (s p : Z) : option block :=
  match fuel with
  | O => None
  | S fuel =>
    if s <? p then
      aux ← load8 b s; c ← load8 b p;
      b ← store8 b s c; b ← store8 b p aux;
      reverse_loop fuel b (s + 1) (p - 1)
    else Some b
  end.

Definition SDS_LLSTR_SIZE : Z := 21.

(** The buffer and the length; [-value] overflows for the smallest value. *)
Definition sdsll2str (s : block) (value : Z) : option (block * Z) :=
  v ← (if value <? 0 then i64 (- value) else Some value);
  '(s, p) ← digits_loop 20 s 0 v;
  '(s, p) ← (if value <? 0 then s ← store8 s p 45; Some (s, p + 1) else Some (s, p));
  let l := p in
  s ← store8 s p 0;
  s ← reverse_loop (S (Z.to_nat p)) s 0 (p - 1);
  Some (s, l).

Definition sdsull2str (s : block) (v : Z) : option (block * Z) :=
  '(s, p) ← digits_loop 20 s 0 v;
  let l := p in
  s ← store8 s p 0;
  s ← reverse_loop (S (Z.to_nat p)) s 0 (p - 1);
  Some (s, l).

Definition sdsfromlonglong (value : Z) : option sds :=
  '(buf, len) ← sdsll2str (malloc SDS_LLSTR_SIZE) value;
  bs ← load buf 0 len;
  sdsnewlen (Some bs) len.

(** ** Comparison *)

(** [memcmp]: the difference of the first unequal bytes. *)
Fixpoint memcmp (a b : list Z) (n : nat) : Z :=
  match n, a, b with
  | S n, x :: a, y :: b => if x =? y then memcmp a b n else x - y
  | _, _, _ => 0
  end.

(** The contents compared; the result is an [int]. *)
Definition sdscmp (s1 s2 : list Z) : Z :=
  let l1 := Zlen s1 in let l2 := Zlen s2 in
  let minlen := if l1 <? l2 then l1 else l2 in
  let cmp := memcmp s1 s2 (Z.to_nat minlen) in
  if cmp =? 0 then s32 (u64 (l1 - l2)) else cmp.

(** ** Splitting by a separator *)

(** [tokens] are the elements stored so far in an array of [slots] pointers;
    [slots] is an [int]. *)
Fixpoint split_loop (fuel : nat) (s : list Z) (len : Z) (sep : list Z) (seplen : Z)
    (j start slots : Z) (tokens : list (list Z)) : option (Z * Z * list (list Z)) :=
  match fuel with
  | O => None
  | S fuel =>
    if j <? len - (seplen - 1) then
      slots ← (if slots <? Zlen tokens + 2 then i32 (slots * 2) else Some slots);
      c ← rd s j; c0 ← rd sep 0;
      if ((seplen =? 1) && (c =? c0)) || bool_decide (slice s j seplen = slice sep 0 seplen) then
        if Zlen tokens <? slots then
          let tokens := tokens ++ [slice s start (j - start)] in
          let start := j + seplen in
          let j := j + seplen - 1 in
          split_loop fuel s len sep seplen (j + 1) start slots tokens
        else None
      else split_loop fuel s len sep seplen (j + 1) start slots tokens
    else Some (start, slots, tokens)
  end.

(** The tokens, or NULL. *)
Definition sdssplitlen (s : list Z) (len : Z) (sep : list Z) (seplen : Z) : option (option (list (list Z))) :=
  if (seplen <? 1) || (len <? 0) then Some None else
  if len =? 0 then Some (Some []) else
  '(start, slots, tokens) ← split_loop (S (Z.to_nat len)) s len sep seplen 0 0 5 [];
  if Zlen tokens <? slots then Some (Some (tokens ++ [slice s start (len - start)])) else None.

(** [sdsjoinsds]: the elements with the separator after all but the last. *)
Fixpoint join_loop (argc j : Z) (argv : list (list Z)) (sep join : list Z) : list Z :=
  match argv with
  | [] => join
  | a :: argv =>
    let join := join ++ a in
    let join := if negb (j =? argc - 1) then join ++ sep else join in
    join_loop argc (j + 1) argv sep join
  end.

Definition sdsjoinsds (argv : list (list Z)) (sep : list Z) : list Z := join_loop (Zlen argv) 0 argv sep [].

(** [sdsmapchars]: the first matching character of [from] decides. *)
Fixpoint map_char (from to : list Z) (c : Z) : Z :=
  match from, to with
  | f :: from, t :: to => if c =? f then t else map_char from to c
  | _, _ => c
  end.

Definition sdsmapchars (s from to : list Z) : list Z := map_char from to <$> s.

(** ** Quoting *)

Definition isprint (c : Z) : bool := (32 <=? c) && (c <=? 126).
Definition isspace (c : Z) : bool := (c =? 32) || ((9 <=? c) && (c <=? 13)).

(** A digit of [%02x]. *)
Definition hexdigit (n : Z) : Z := if n <? 10 then 48 + n else 87 + n.

(** What one byte is turned into. *)
Definition repr_char (c : Z) : list Z :=
  if (c =? 92) || (c =? 34) then [92; c] else
  if c =? 10 then [92; 110] else
  if c =? 13 then [92; 114] else
  if c =? 9 then [92; 116] else
  if c =? 7 then [92; 97] else
  if c =? 8 then [92; 98] else
  if isprint c then [c] else [92; 120; hexdigit (c / 16); hexdigit (c mod 16)].

Fixpoint repr_loop (s p : list Z) : list Z :=
  match p with [] => s | c :: p => repr_loop (s ++ repr_char c) p end.

Definition sdscatrepr (s p : list Z) : list Z := repr_loop (s ++ [34]) p ++ [34].

(** ** Splitting a line into arguments *)

Definition is_hex_digit (c : Z) : bool :=
  ((48 <=? c) && (c <=? 57)) || ((97 <=? c) && (c <=? 102)) || ((65 <=? c) && (c <=? 70)).

Definition hex_digit_to_int (c : Z) : Z :=
  if (48 <=? c) && (c <=? 57) then c - 48 else
  if (97 <=? c) && (c <=? 102) then c - 87 else
  if (65 <=? c) && (c <=? 70) then c - 55 else 0.

(** The test for [\xHH] at [p], with the byte it denotes. *)
Definition hex_escape (line : list Z) (p : Z) : option (option Z) :=
  c ← at_ line p;
  if c =? 92 then
    c1 ← at_ line (p + 1);
    if c1 =? 120 then
      c2 ← at_ line (p + 2);
      if is_hex_digit c2 then
        c3 ← at_ line (p + 3);
        if is_hex_digit c3 then Some (Some (u8 (hex_digit_to_int c2 * 16 + hex_digit_to_int c3))) else Some None
      else Some None
    else Some None
  else Some None.

Definition unescape (c : Z) : Z :=
  if c =? 110 then 10 else if c =? 114 then 13 else if c =? 116 then 9 else
  if c =? 98 then 8 else if c =? 97 then 7 else c.

(** One iteration of [while(!done)]: where [p] is before the final
    [if ( *p) p++], the new flags and [current], and [done]; [inl tt] is the
    jump to [err]. *)
Definition token_step (line : list Z) (p : Z) (inq insq : bool) (current : list Z)
    : option (unit + Z * bool * bool * list Z * bool) :=
  c ← at_ line p;
  if inq then
    h ← hex_escape line p;
    match h with
    | Some byte => Some (inr (p + 3, inq, insq, current ++ [byte], false))
    | None =>
      c1 ← (if (c =? 92) || (c =? 34) then at_ line (p + 1) else Some 0);
      if (c =? 92) && negb (c1 =? 0) then Some (inr (p + 1, inq, insq, current ++ [unescape c1], false))
      else if c =? 34 then
        if negb (c1 =? 0) && negb (isspace c1) then Some (inl tt)
        else Some (inr (p, inq, insq, current, true))
      else if c =? 0 then Some (inl tt)
      else Some (inr (p, inq, insq, current ++ [c], false))
    end
  else if insq then
    c1 ← (if (c =? 92) || (c =? 39) then at_ line (p + 1) else Some 0);
    if (c =? 92) && (c1 =? 39) then Some (inr (p + 1, inq, insq, current ++ [39], false))
    else if c =? 39 then
      if negb (c1 =? 0) && negb (isspace c1) then Some (inl tt)
      else Some (inr (p, inq, insq, current, true))
    else if c =? 0 then Some (inl tt)
    else Some (inr (p, inq, insq, current ++ [c], false))
  else
    if (c =? 32) || (c =? 10) || (c =? 13) || (c =? 9) || (c =? 0) then Some (inr (p, inq, insq, current, true))
    else if c =? 34 then Some (inr (p, true, insq, current, false))
    else if c =? 39 then Some (inr (p, inq, true, current, false))
    else Some (inr (p, inq, insq, current ++ [c], false)).

(** [while(!done)]: the token and where it ends, or the jump to [err]. *)
Fixpoint token_loop (fuel : nat) (line : list Z) (p : Z) (inq insq : bool) (current : list Z)
    : option (unit + Z * list Z) :=
  match fuel with
  | O => None
  | S fuel =>
    r ← token_step line p inq insq current;
    match r with
    | inl tt => Some (inl tt)
    | inr (p, inq, insq, current, done) =>
      c ← at_ line p;
      let p := if negb (c =? 0) then p + 1 else p in
      if (done : bool) then Some (inr (p, current)) else token_loop fuel line p inq insq current
    end
  end.

(** [while( *p && isspace( *p)) p++;] *)
Fixpoint skip_blanks (fuel : nat) (line : list Z) (p : Z) : option Z :=
  match fuel with
  | O => None
  | S fuel =>
    c ← at_ line p;
    if negb (c =? 0) && isspace c then skip_blanks fuel line (p + 1) else Some p
  end.

Fixpoint args_loop (fuel : nat) (line : list Z) (p : Z) (vector : list (list Z)) : option (option (list (list Z))) :=
  match fuel with
  | O => None
  | S fuel =>
    p ← skip_blanks (S (length line)) line p;
    c ← at_ line p;
    if negb (c =? 0) then
      r ← token_loop (S (S (length line))) line p false false [];
      match r with
      | inl tt => Some None
      | inr (p, current) => args_loop fuel line p (vector ++ [current])
      end
    else Some (Some vector)
  end.

(** The arguments, or NULL. *)
Definition sdssplitargs (line : list Z) : option (option (list (list Z))) :=
  args_loop (S (length line)) line 0 [].

(** ** Splitting is total

    On any line the loops stay in its bytes and end. *)

Lemma at_total line p : 0 <= p <= Zlen line -> exists c, at_ line p = Some c /\ (c <> 0 -> p < Zlen line).
Proof.
  intros Hp. destruct (decide (p = Zlen line)) as [->|Hne]; [exists 0; by rewrite at_end|].
  unfold at_. replace p with (Z.of_nat (Z.to_nat p)) by lia. rewrite rd_lookup.
  destruct (lookup_lt_is_Some_2 (line ++ [0]) (Z.to_nat p)) as [c ->]; [rewrite length_app; simpl; lia|].
  exists c. split; [done|lia].
Qed.

(** Naming the byte at a position. *)
Ltac at_byte p c H := match goal with |- context [at_ ?line p] => let E := fresh in destruct (at_total line p ltac:(lia)) as (c & E & H); rewrite ?E; cbn [mbind option_bind] end.

Lemma hex_escape_total line p c : 0 <= p <= Zlen line -> at_ line p = Some c -> (c <> 0 -> p < Zlen line) ->
  exists h, hex_escape line p = Some h /\ (is_Some h -> exists x, at_ line (p + 3) = Some x /\ x <> 0 /\ p + 3 < Zlen line).
Proof.
  assert (forall x, is_hex_digit x = true -> x <> 0) as Hhex by (intros x Hx ->; done).
  intros Hp Hc Hz. unfold hex_escape. rewrite Hc. cbn [mbind option_bind].
  destruct (Z.eqb_spec c 92); [|exists None; split; [done|by intros []]].
  at_byte (p + 1) c1 H1. destruct (Z.eqb_spec c1 120); [|exists None; split; [done|by intros []]].
  at_byte (p + 2) c2 H2. destruct (is_hex_digit c2) eqn:E2; [|exists None; split; [done|by intros []]].
  apply Hhex in E2. at_byte (p + 3) c3 H3.
  destruct (is_hex_digit c3) eqn:E3; [|exists None; split; [done|by intros []]].
  apply Hhex in E3. eexists. split; [done|]. intros _. exists c3. auto.
Qed.

Lemma token_step_total line p inq insq current : 0 <= p <= Zlen line ->
  exists r, token_step line p inq insq current = Some r /\
  match r with
  | inl _ => True
  | inr (p', _, _, _, done) => p <= p' <= Zlen line /\
    (done = false -> exists x, at_ line p' = Some x /\ x <> 0 /\ p' < Zlen line) /\
    (inq = false -> insq = false -> done = true -> exists c, at_ line p = Some c /\ (c = 0 \/ isspace c = true))
  end.
Proof.
  intros Hp. destruct (at_total line p Hp) as (c & Hc & Hz). unfold token_step. rewrite Hc. cbn [mbind option_bind].
  assert (c <> 0 -> exists x, at_ line p = Some x /\ x <> 0 /\ p < Zlen line) as Hadv by (intros; exists c; auto).
  destruct inq; [|destruct insq].
  - destruct (hex_escape_total line p c Hp Hc Hz) as (h & -> & Hh). cbn [mbind option_bind]. destruct h as [byte|].
    { destruct (Hh ltac:(done)) as (x & Hx & H0 & H1). eexists. split; [done|]. cbn. split_and!; [lia..|eauto|done]. }
    destruct (Z.eqb_spec c 92) as [E|E]; cbn [orb andb].
    { at_byte (p + 1) c1 H1. destruct (Z.eqb_spec c1 0); cbn [negb].
      - destruct (Z.eqb_spec c 34); [lia|]. destruct (Z.eqb_spec c 0); [lia|]. eexists. split; [done|]. cbn. split_and!; [lia..|eauto|done].
      - eexists. split; [done|]. cbn. split_and!; [lia..| |done]. intros _. exists c1. auto. }
    destruct (Z.eqb_spec c 34) as [E'|E'].
    { at_byte (p + 1) c1 H1. destruct (_ && _); eexists; (split; [done|]); cbn; [done|]. split_and!; (lia || done). }
    cbn [mbind option_bind]. destruct (Z.eqb_spec c 0); eexists; (split; [done|]); cbn; [done|]. split_and!; [lia..|eauto|done].
  - destruct (Z.eqb_spec c 92) as [E|E]; cbn [orb andb].
    { at_byte (p + 1) c1 H1. destruct (Z.eqb_spec c1 39).
      - eexists. split; [done|]. cbn. split_and!; [lia..| |done]. intros _. exists c1. split; [done|]. lia.
      - destruct (Z.eqb_spec c 39); [lia|]. destruct (Z.eqb_spec c 0); [lia|]. eexists. split; [done|]. cbn. split_and!; [lia..|eauto|done]. }
    destruct (Z.eqb_spec c 39) as [E'|E'].
    { at_byte (p + 1) c1 H1. destruct (_ && _); eexists; (split; [done|]); cbn; [done|]. split_and!; (lia || done). }
    cbn [mbind option_bind]. destruct (Z.eqb_spec c 0); eexists; (split; [done|]); cbn; [done|]. split_and!; [lia..|eauto|done].
  - destruct (_ || (c =? 0)) eqn:Hsp.
    { eexists. split; [done|]. cbn. split_and!; [lia..|done|]. intros _ _ _. exists c. split; [done|].
      unfold isspace. repeat (apply orb_true_iff in Hsp as [Hsp|Hsp]); apply Z.eqb_eq in Hsp; subst; auto. }
    assert (c <> 0) as H0 by (intros ->; by rewrite orb_true_r in Hsp).
    destruct (c =? 34); [|destruct (c =? 39)]; eexists; (split; [done|]); cbn; (split_and!; [lia..|eauto|done]).
Qed.

Lemma token_loop_total fuel : forall line p inq insq current, 0 <= p <= Zlen line -> (Z.to_nat (Zlen line - p) < fuel)%nat ->
  exists r, token_loop fuel line p inq insq current = Some r /\
  match r with
  | inl _ => True
  | inr (p', _) => p <= p' <= Zlen line /\
    (inq = false -> insq = false -> p = p' -> exists c, at_ line p = Some c /\ (c = 0 \/ isspace c = true))
  end.
Proof.
  induction fuel as [|fuel IH]; intros line p inq insq current Hp Hf; [lia|]. cbn [token_loop].
  destruct (token_step_total line p inq insq current Hp) as (r & -> & Hr). cbn [mbind option_bind].
  destruct r as [[]|((((p' & inq') & insq') & cur') & done)]; [by exists (inl ())|].
  destruct Hr as (Hp' & Hadv & Hdone). destruct (at_total line p' ltac:(lia)) as (c & Hc & Hz).
  rewrite Hc. cbn [mbind option_bind]. destruct done.
  { eexists. split; [done|]. cbn. split; [destruct (Z.eqb_spec c 0); cbn [negb]; lia|]. auto. }
  destruct (Hadv eq_refl) as (x & Hx & Hx0 & Hlt). rewrite Hc in Hx. injection Hx as ->.
  destruct (Z.eqb_spec x 0); [done|]. cbn [negb].
  destruct (IH line (p' + 1) inq' insq' cur' ltac:(lia) ltac:(lia)) as (r & -> & Hr). exists r. split; [done|].
  destruct r as [|[p'' ?]]; [done|]. destruct Hr as [Hr _]. split; [lia|]. intros _ _ ->. lia.
Qed.

Lemma skip_blanks_total fuel : forall line p, 0 <= p <= Zlen line -> (Z.to_nat (Zlen line - p) < fuel)%nat ->
  exists p' c, skip_blanks fuel line p = Some p' /\ p <= p' <= Zlen line /\ at_ line p' = Some c /\ (c = 0 \/ isspace c = false).
Proof.
  induction fuel as [|fuel IH]; intros line p Hp Hf; [lia|]. cbn [skip_blanks].
  destruct (at_total line p Hp) as (c & Hc & Hz). rewrite Hc. cbn [mbind option_bind].
  destruct (Z.eqb_spec c 0); cbn [negb andb]; [exists p, c; split_and!; (auto || lia)|].
  destruct (isspace c) eqn:E; [|exists p, c; split_and!; (auto || lia)]. destruct (IH line (p + 1)) as (p' & c' & -> & ? & ? & ?); [lia..|].
  exists p', c'. split_and!; (done || lia).
Qed.

Lemma args_loop_total fuel : forall line p vector, 0 <= p <= Zlen line -> (Z.to_nat (Zlen line - p) < fuel)%nat ->
  exists r, args_loop fuel line p vector = Some r.
Proof.
  induction fuel as [|fuel IH]; intros line p vector Hp Hf; [lia|]. cbn [args_loop].
  destruct (skip_blanks_total (S (length line)) line p Hp ltac:(lia)) as (p' & c & -> & Hp' & Hc & Hcs).
  cbn [mbind option_bind]. rewrite Hc. cbn [mbind option_bind]. destruct (Z.eqb_spec c 0); cbn [negb]; [by eexists|].
  destruct (token_loop_total (S (S (length line))) line p' false false [] ltac:(lia) ltac:(lia)) as (r & -> & Hr).
  cbn [mbind option_bind]. destruct r as [[]|[p'' cur]]; [by eexists|]. destruct Hr as [Hr Heq].
  apply IH; [lia|]. destruct (decide (p' = p'')) as [E|]; [|lia].
  destruct (Heq eq_refl eq_refl E) as (c' & Hc' & Hbad). rewrite Hc in Hc'. injection Hc' as <-.
  destruct Hcs as [|Hcs]; [done|]. rewrite Hcs in Hbad. by destruct Hbad.
Qed.

Lemma sdssplitargs_total line : exists r, sdssplitargs line = Some r.
Proof. apply args_loop_total; lia. Qed.

(** ** Quoting and parsing are inverse *)

(** A property of all bytes, by evaluation. *)
Lemma all_bytes (P : Z -> bool) c : forallb (fun n => P (Z.of_nat n)) (seq 0 256) = true -> is_byte c -> P c = true.
Proof.
  intros Hall Hc. rewrite forallb_forall in Hall. unfold is_byte in Hc. specialize (Hall (Z.to_nat c)).
  rewrite Z2Nat.id in Hall by lia. apply Hall, in_seq. lia.
Qed.

(** The three shapes of an escape, as the parser distinguishes them. *)
Definition repr_shape (c : Z) : bool :=
  match repr_char c with
  | [x] => (x =? c) && negb (c =? 92) && negb (c =? 34) && negb (c =? 0)
  | [x; e] => (x =? 92) && negb (e =? 120) && negb (e =? 0) && (unescape e =? c)
  | [x; y; a; b] => (x =? 92) && (y =? 120) && is_hex_digit a && is_hex_digit b && negb (b =? 0) &&
      (u8 (hex_digit_to_int a * 16 + hex_digit_to_int b) =? c)
  | _ => false
  end.

Lemma repr_shape_ok c : is_byte c -> repr_shape c = true.
Proof. apply all_bytes. vm_compute. reflexivity. Qed.

(** Inside quotes, the escape of a byte adds this byte. *)
Lemma token_step_repr pre c rest current insq : is_byte c ->
  exists p' x, token_step (pre ++ repr_char c ++ rest) (Zlen pre) true insq current =
      Some (inr (p', true, insq, current ++ [c], false)) /\
    p' + 1 = Zlen (pre ++ repr_char c) /\ at_ (pre ++ repr_char c ++ rest) p' = Some x /\ x <> 0.
Proof.
  intros Hc. pose proof (repr_shape_ok c Hc) as Hs. unfold repr_shape in Hs.
  destruct (repr_char c) as [|x [|e [|a [|b [|]]]]]; try done.
  - apply andb_true_iff in Hs as [[[Hx%Z.eqb_eq H92%negb_true_iff]%andb_true_iff H34%negb_true_iff]%andb_true_iff H0%negb_true_iff].
    subst x. set (line := pre ++ [c] ++ rest).
    assert (at_ line (Zlen pre) = Some c) as A0 by (apply (at_app _ _ _ 0); [lia|done]).
    exists (Zlen pre), c. split_and!; [|rewrite length_app; simpl; lia|done|by apply Z.eqb_neq].
    unfold token_step, hex_escape. rewrite A0. cbn [mbind option_bind]. rewrite H92. cbn [mbind option_bind orb andb].
    rewrite H34. cbn [mbind option_bind]. by rewrite H0.
  - apply andb_true_iff in Hs as [[[Hx%Z.eqb_eq H120%negb_true_iff]%andb_true_iff H0%negb_true_iff]%andb_true_iff Hu%Z.eqb_eq].
    subst x. set (line := pre ++ [92; e] ++ rest).
    assert (at_ line (Zlen pre) = Some 92) as A0 by (apply (at_app _ _ _ 0); [lia|done]).
    assert (at_ line (Zlen pre + 1) = Some e) as A1 by (apply (at_app _ _ _ 1); [lia|done]).
    exists (Zlen pre + 1), e. split_and!; [|rewrite length_app; simpl; lia|done|by apply Z.eqb_neq].
    unfold token_step, hex_escape. rewrite A0. cbn [mbind option_bind]. change (92 =? 92) with true. cbv iota.
    rewrite A1. cbn [mbind option_bind]. rewrite H120. cbn [mbind option_bind orb andb]. rewrite ?A1.
    cbn [mbind option_bind]. rewrite H0. cbn [negb]. by rewrite Hu.
  - apply andb_true_iff in Hs as [[[[[Hx%Z.eqb_eq Hy%Z.eqb_eq]%andb_true_iff Ha]%andb_true_iff Hb]%andb_true_iff
      H0%negb_true_iff]%andb_true_iff Hu%Z.eqb_eq].
    subst x e. set (line := pre ++ [92; 120; a; b] ++ rest).
    assert (at_ line (Zlen pre) = Some 92) as A0 by (apply (at_app _ _ _ 0); [lia|done]).
    assert (at_ line (Zlen pre + 1) = Some 120) as A1 by (apply (at_app _ _ _ 1); [lia|done]).
    assert (at_ line (Zlen pre + 2) = Some a) as A2 by (apply (at_app _ _ _ 2); [lia|done]).
    assert (at_ line (Zlen pre + 3) = Some b) as A3 by (apply (at_app _ _ _ 3); [lia|done]).
    exists (Zlen pre + 3), b. split_and!; [|rewrite length_app; simpl; lia|done|by apply Z.eqb_neq].
    unfold token_step, hex_escape. rewrite A0. cbn [mbind option_bind]. change (92 =? 92) with true. cbv iota.
    rewrite A1. cbn [mbind option_bind]. change (120 =? 120) with true. cbv iota. rewrite A2. cbn [mbind option_bind].
    rewrite Ha, A3. cbn [mbind option_bind]. rewrite Hb. cbn [mbind option_bind]. by rewrite Hu.
Qed.

Definition escape (c : list Z) : list Z := concat (repr_char <$> c).

Lemma sdscatrepr_eq s c : sdscatrepr s c = s ++ [34] ++ escape c ++ [34].
Proof.
  unfold sdscatrepr, escape. assert (forall s, repr_loop s c = s ++ concat (repr_char <$> c)) as ->.
  { induction c as [|x c IH]; intros t; simpl; [by rewrite app_nil_r|]. by rewrite IH, <- app_assoc. }
  by rewrite <- !app_assoc.
Qed.

Lemma repr_char_nonempty c : (1 <= length (repr_char c))%nat.
Proof. unfold repr_char. repeat (case_match; simpl; try lia). Qed.

(** The whole quoted content, up to and including the closing quote. *)
Lemma token_loop_quoted c : forall fuel pre rest current, Forall is_byte c ->
  (length (escape c) < fuel)%nat -> (rest = [] \/ exists x r, rest = x :: r /\ isspace x = true) ->
  token_loop fuel (pre ++ escape c ++ 34 :: rest) (Zlen pre) true false current =
    Some (inr (Zlen (pre ++ escape c ++ [34]), current ++ c)).
Proof.
  induction c as [|x c IH]; intros fuel pre rest current Hb Hf Hrest; (destruct fuel as [|fuel]; [lia|]); cbn [token_loop].
  - cbn [escape fmap list_fmap concat app]. set (line := pre ++ 34 :: rest).
    assert (at_ line (Zlen pre) = Some 34) as A0 by (apply (at_app _ _ _ 0); [lia|done]).
    assert (exists y, at_ line (Zlen pre + 1) = Some y /\ (negb (y =? 0) && negb (isspace y)) = false) as (y & A1 & Hy).
    { destruct Hrest as [->|(y & r & -> & Hy)].
      - exists 0. split; [|done]. subst line. replace (Zlen pre + 1) with (Zlen (pre ++ [34])) by (rewrite length_app; simpl; lia).
        apply at_end.
      - exists y. rewrite Hy, andb_false_r. split; [|done]. apply (at_app _ _ _ 1); [lia|done]. }
    assert (token_step line (Zlen pre) true false current = Some (inr (Zlen pre, true, false, current, true))) as ->.
    { unfold token_step, hex_escape. rewrite A0. cbn [mbind option_bind]. change (34 =? 92) with false. cbv iota.
      cbn [mbind option_bind orb andb]. change (34 =? 34) with true. cbv iota. rewrite A1. cbn [mbind option_bind]. by rewrite Hy. }
    cbn [mbind option_bind]. rewrite A0. cbn [mbind option_bind]. change (34 =? 0) with false. cbn [negb].
    rewrite app_nil_r. do 3 f_equal. rewrite length_app. simpl. lia.
  - inversion_clear Hb as [|? ? Hx Hc]. change (escape (x :: c)) with (repr_char x ++ escape c) in *.
    rewrite length_app in Hf. pose proof (repr_char_nonempty x). rewrite <- app_assoc.
    destruct (token_step_repr pre x (escape c ++ 34 :: rest) current false Hx) as (p' & y & -> & Hp & Ay & Hy).
    cbn [mbind option_bind]. rewrite Ay. cbn [mbind option_bind]. destruct (Z.eqb_spec y 0); [done|]. cbn [negb].
    rewrite Hp, app_assoc. rewrite (IH fuel (pre ++ repr_char x) rest (current ++ [x]) Hc ltac:(lia) Hrest).
    by rewrite <- !app_assoc.
Qed.

(** A line of quoted arguments separated by single blanks. *)
Fixpoint quoted_line (args : list (list Z)) : list Z :=
  match args with
  | [] => []
  | [a] => sdscatrepr [] a
  | a :: args => sdscatrepr [] a ++ 32 :: quoted_line args
  end.

Lemma skip_blanks_stop fuel line p c : at_ line p = Some c -> isspace c = false -> skip_blanks (S fuel) line p = Some p.
Proof. intros A H. cbn [skip_blanks]. rewrite A. cbn [mbind option_bind]. by rewrite H, andb_false_r. Qed.

Lemma skip_blanks_one fuel line p c : at_ line p = Some 32 -> at_ line (p + 1) = Some c -> isspace c = false ->
  skip_blanks (S (S fuel)) line p = Some (p + 1).
Proof.
  intros A0 A1 H. cbn [skip_blanks]. rewrite A0. cbn [mbind option_bind].
  change (negb (32 =? 0) && isspace 32) with true. cbv iota. rewrite A1. cbn [mbind option_bind]. by rewrite H, andb_false_r.
Qed.

(** One argument: opening quote, content, closing quote. *)
Lemma token_loop_arg fuel pre a rest : Forall is_byte a -> (S (length (escape a)) < fuel)%nat ->
  (rest = [] \/ exists x r, rest = x :: r /\ isspace x = true) ->
  token_loop fuel (pre ++ sdscatrepr [] a ++ rest) (Zlen pre) false false [] =
    Some (inr (Zlen (pre ++ sdscatrepr [] a), a)).
Proof.
  intros Ha Hf Hrest. destruct fuel as [|fuel]; [lia|]. rewrite sdscatrepr_eq. cbn [app token_loop].
  set (line := pre ++ 34 :: (escape a ++ [34]) ++ rest).
  assert (at_ line (Zlen pre) = Some 34) as A0 by (apply (at_app _ _ _ 0); [lia|done]).
  assert (token_step line (Zlen pre) false false [] = Some (inr (Zlen pre, true, false, [], false))) as ->
    by (unfold token_step; by rewrite A0).
  cbn [mbind option_bind]. rewrite A0. cbn [mbind option_bind]. change (negb (34 =? 0)) with true. cbv iota.
  pose proof (token_loop_quoted a fuel (pre ++ [34]) rest [] Ha ltac:(lia) Hrest) as E.
  rewrite <- !app_assoc in E. cbn [app] in E. rewrite length_app in E. cbn [length] in E.
  replace (Z.of_nat (length pre + 1)) with (Zlen pre + 1) in E by lia.
  subst line. rewrite <- app_assoc. cbn [app]. exact E.
Qed.

Lemma args_loop_quoted args : forall fuel pre vector, Forall (Forall is_byte) args -> (length args < fuel)%nat ->
  args_loop fuel (pre ++ quoted_line args) (Zlen pre) vector = Some (Some (vector ++ args)).
Proof.
  induction args as [|a args IH]; intros fuel pre vector Hb Hf; (destruct fuel as [|fuel]; [lia|]); cbn [args_loop].
  { cbn [quoted_line]. rewrite app_nil_r. rewrite (skip_blanks_stop _ pre _ 0 (at_end pre) eq_refl). cbn [mbind option_bind].
    rewrite at_end. cbn [mbind option_bind]. by rewrite app_nil_r. }
  inversion_clear Hb as [|? ? Ha Hargs].
  assert (exists rest, quoted_line (a :: args) = sdscatrepr [] a ++ rest /\
    (args = [] /\ rest = [] \/ rest = 32 :: quoted_line args)) as (rest & -> & Hrest).
  { destruct args; [exists []; rewrite app_nil_r|exists (32 :: quoted_line (l :: args))]; auto. }
  assert (at_ (pre ++ sdscatrepr [] a ++ rest) (Zlen pre) = Some 34) as A0
    by (rewrite sdscatrepr_eq; apply (at_app _ _ _ 0); [lia|done]).
  rewrite (skip_blanks_stop _ _ _ _ A0 eq_refl). cbn [mbind option_bind]. rewrite A0. cbn [mbind option_bind].
  change (negb (34 =? 0)) with true. cbv iota.
  rewrite token_loop_arg; [|done| |].
  2: { rewrite sdscatrepr_eq, !length_app. cbn [length]. rewrite ?length_app. cbn [length]. lia. }
  2: { destruct Hrest as [[_ ->]| ->]; [by left|right; by eexists _, _]. }
  cbn [mbind option_bind]. rewrite app_assoc. set (pre' := pre ++ sdscatrepr [] a). simpl in Hf.
  destruct Hrest as [[-> ->]| ->].
  - pose proof (IH fuel pre' (vector ++ [a]) ltac:(done) ltac:(simpl in *; lia)) as E.
    cbn [quoted_line] in E. rewrite app_nil_r in E |- *. by rewrite <- app_assoc in E.
  - specialize (IH fuel (pre' ++ [32]) (vector ++ [a]) Hargs ltac:(lia)).
    rewrite <- !app_assoc in IH. cbn [app] in IH. rewrite <- IH.
    destruct fuel as [|fuel]; [lia|]. cbn [args_loop].
    assert (Zlen (pre' ++ [32]) = Zlen pre' + 1) as EL by (rewrite length_app; simpl; lia). rewrite EL.
    set (line := pre' ++ 32 :: quoted_line args).
    assert (exists c, at_ line (Zlen pre' + 1) = Some c /\ isspace c = false) as (c & A1 & Hc).
    { destruct args as [|a' args']; [exists 0; split; [rewrite <- EL; apply at_end|done]|].
      exists 34. split; [|done]. apply (at_app _ _ _ 1); [lia|].
      destruct args'; cbn [quoted_line]; rewrite sdscatrepr_eq; done. }
    assert (at_ line (Zlen pre') = Some 32) as A2 by (apply (at_app _ _ _ 0); [lia|done]).
    assert (exists n, length line = S n) as (n & En)
      by (exists (length pre' + length (quoted_line args))%nat; subst line; rewrite length_app; cbn [length]; lia).
    rewrite (skip_blanks_stop _ line _ c A1 Hc), En, (skip_blanks_one n line _ c A2 A1 Hc). reflexivity.
Qed.

(** C21. Quoting and argument parsing are inverse.  For any list of byte
    strings (any bytes, zero included), the line made of their [sdscatrepr]
    representations separated by blanks is split by [sdssplitargs] into exactly
    these strings. *)
Theorem sdssplitargs_quoted args : Forall (Forall is_byte) args ->
  sdssplitargs (quoted_line args) = Some (Some args).
Proof.
  intros Hb. unfold sdssplitargs. apply (args_loop_quoted args _ [] []); [done|].
  assert (length args <= length (quoted_line args))%nat; [|lia].
  clear. induction args as [|a args IH]; [done|]. destruct args as [|b args].
  - cbn [quoted_line]. rewrite sdscatrepr_eq, !length_app. simpl. lia.
  - change (quoted_line (a :: b :: args)) with (sdscatrepr [] a ++ 32 :: quoted_line (b :: args)).
    rewrite length_app. cbn [length] in *. lia.
Qed.

Lemma sdssplitargs_quoted_witness :
  sdssplitargs (quoted_line [[104; 10; 34; 92]; []; [0; 255; 200; 32; 39]]) =
    Some (Some [[104; 10; 34; 92]; []; [0; 255; 200; 32; 39]]).
Proof. apply (sdssplitargs_quoted [[104; 10; 34; 92]; []; [0; 255; 200; 32; 39]]). repeat constructor; done. Defined.

(** ** Splitting by a separator *)

Definition occurs_at (sep s : list Z) (i : nat) : Prop := sep `prefix_of` drop i s.

(** [s] is cut at the leftmost occurrences of [sep], from left to right. *)
Inductive splits (sep : list Z) : list Z -> list (list Z) -> Prop :=
| splits_last t : (forall i, ~ occurs_at sep t i) -> splits sep t [t]
| splits_cons t rest toks : (forall i, (i < length t)%nat -> ~ occurs_at sep (t ++ sep ++ rest) i) ->
    splits sep rest toks -> splits sep (t ++ sep ++ rest) (t :: toks).

Lemma join_loop_eq sep argv : forall argc j (join : list Z), argc = j + Zlen argv ->
  exists r : list Z, join_loop argc j argv sep join = join ++ r /\
    (forall a rest, argv = a :: rest -> r = match rest with [] => a | _ => a ++ sep ++ sdsjoinsds rest sep end).
Proof.
  induction argv as [|a argv IH]; intros argc j join Hj; cbn [join_loop].
  { exists []. by rewrite app_nil_r. }
  cbn [length] in Hj. destruct argv as [|b argv].
  - simpl in *. destruct (Z.eqb_spec j (argc - 1)); [|lia]. exists a. split; [done|]. by intros ? ? [= <- <-].
  - destruct (Z.eqb_spec j (argc - 1)); [simpl in *; lia|]. cbn [negb].
    destruct (IH argc (j + 1) ((join ++ a) ++ sep) ltac:(lia)) as (r & -> & Hr).
    destruct (IH (Zlen (b :: argv)) 0 [] ltac:(lia)) as (r' & E' & Hr').
    exists (a ++ sep ++ r). split; [by rewrite <- !app_assoc|]. intros ? ? [= <- <-].
    unfold sdsjoinsds. rewrite E'. cbn [app]. by rewrite (Hr b argv eq_refl), (Hr' b argv eq_refl).
Qed.

Lemma sdsjoinsds_cons a b rest sep : sdsjoinsds (a :: b :: rest) sep = a ++ sep ++ sdsjoinsds (b :: rest) sep.
Proof.
  destruct (join_loop_eq sep (a :: b :: rest) (Zlen (a :: b :: rest)) 0 [] ltac:(lia)) as (r & E & Hr).
  unfold sdsjoinsds at 1. rewrite E. by rewrite (Hr _ _ eq_refl).
Qed.

Lemma splits_join sep s toks : splits sep s toks -> sdsjoinsds toks sep = s.
Proof.
  induction 1 as [t Hn|t rest toks Hn Hs IH]; [done|].
  destruct toks as [|b toks]; [inversion Hs|]. by rewrite sdsjoinsds_cons, IH.
Qed.

Lemma slice_prefix (sep pre rest : list Z) : (length sep <= length rest)%nat ->
  slice (pre ++ rest) (Zlen pre) (Zlen sep) = slice sep 0 (Zlen sep) <-> sep `prefix_of` rest.
Proof.
  intros Hl. unfold slice. rewrite !Nat2Z.id. change (Z.to_nat 0) with 0%nat. rewrite drop_app_length, drop_0, (take_ge sep) by lia.
  split.
  - intros <-. exists (drop (length sep) rest). by rewrite take_drop.
  - intros [k ->]. by rewrite take_app_length.
Qed.

(** The comparison of one position. *)
Lemma split_test (sep pre rest : list Z) c0 sep' c rest' : sep = c0 :: sep' -> rest = c :: rest' ->
  (length sep <= length rest)%nat ->
  ((Zlen sep =? 1) && (c =? c0)) || bool_decide (slice (pre ++ rest) (Zlen pre) (Zlen sep) = slice sep 0 (Zlen sep)) = true
  <-> sep `prefix_of` rest.
Proof.
  intros Es Er Hl. rewrite orb_true_iff, andb_true_iff, bool_decide_eq_true, slice_prefix by done.
  split; [|by right]. intros [[H1%Z.eqb_eq H2%Z.eqb_eq]|H]; [|done].
  subst. destruct sep'; [|simpl in H1; lia]. by exists rest'.
Qed.

Section Split.
Context (s sep : list Z) (Hsep : sep <> []) (Hs : Zlen s < 2 ^ 30 - 2).

Lemma split_loop_spec fuel : forall pre t rest slots tokens, s = pre ++ t ++ rest -> (length rest < fuel)%nat ->
  (forall i, (i < length t)%nat -> ~ occurs_at sep (t ++ rest) i) ->
  Zlen tokens < slots -> Zlen tokens <= Zlen pre ->
  exists start slots' toks, split_loop fuel s (Zlen s) sep (Zlen sep) (Zlen (pre ++ t)) (Zlen pre) slots tokens =
      Some (start, slots', tokens ++ toks) /\ Zlen (tokens ++ toks) < slots' /\
    splits sep (t ++ rest) (toks ++ [slice s start (Zlen s - start)]).
Proof.
  induction fuel as [|fuel IH]; intros pre t rest slots tokens Es Hf Hno Hslots Hpre; [lia|]. cbn [split_loop].
  assert (Zlen s = Zlen pre + Zlen t + Zlen rest) as Hlen by (rewrite Es, !length_app; lia).
  rewrite (length_app pre t). destruct (Z.ltb_spec (Z.of_nat (length pre + length t)) (Zlen s - (Zlen sep - 1))).
  2: { exists (Zlen pre), slots, []. rewrite !app_nil_r. split_and!; [done|done|]. cbn [app].
    replace (slice s _ _) with (t ++ rest).
    2: { unfold slice. rewrite Nat2Z.id, Es, drop_app_length, take_ge; [done|]. rewrite !length_app. lia. }
    apply splits_last. intros i Hi. destruct (decide (i < length t)%nat) as [Hit|Hit]; [by eapply Hno|].
    apply prefix_length in Hi. rewrite length_drop, length_app in Hi. lia. }
  destruct sep as [|c0 sep'] eqn:Esep; [done|]. rewrite <- Esep in *.
  destruct rest as [|c rest']; [subst; simpl in *; lia|].
  set (slots2 := if slots <? Zlen tokens + 2 then slots * 2 else slots).
  assert ((if slots <? Zlen tokens + 2 then i32 (slots * 2) else Some slots) = Some slots2) as ->.
  { subst slots2. destruct (Z.ltb_spec slots (Zlen tokens + 2)); [|done]. apply i32_ok. unfold_limits. lia. }
  assert (Zlen tokens + 2 <= slots2) as Hs2 by (subst slots2; destruct (Z.ltb_spec slots (Zlen tokens + 2)); lia).
  clearbody slots2. rewrite bind_Some.
  assert (rd s (Z.of_nat (length pre + length t)) = Some c) as ->
    by (rewrite Es, app_assoc; apply rd_app; by rewrite length_app).
  rewrite bind_Some. assert (rd sep 0 = Some c0) as -> by (by rewrite Esep). rewrite bind_Some.
  assert (length sep <= length (c :: rest'))%nat as Hl by lia.
  pose proof (split_test sep (pre ++ t) (c :: rest') c0 sep' c rest' Esep eq_refl Hl) as HT.
  rewrite <- app_assoc, <- Es, length_app in HT.
  match goal with |- context [if ?b then _ else _] => destruct b eqn:Eb end.
  - destruct (proj1 HT eq_refl) as [k Hk]. destruct (Z.ltb_spec (Zlen tokens) slots2); [|lia].
    replace (slice s (Zlen pre) _) with t by (rewrite Es, slice_app; [done|done|lia]).
    destruct (IH (pre ++ t ++ sep) [] k slots2 (tokens ++ [t])) as (start & slots' & toks & E & H1 & H2).
    + rewrite Es, Hk. by rewrite <- !app_assoc.
    + rewrite Hk, length_app in Hf. rewrite Esep in Hf. simpl in Hf. lia.
    + simpl; lia.
    + rewrite length_app; simpl; lia.
    + rewrite !length_app, Esep; simpl; lia.
    + exists start, slots', (t :: toks). rewrite app_nil_r, !length_app in E.
      replace (Z.of_nat (length pre + length t) + Zlen sep - 1 + 1) with (Z.of_nat (length pre + (length t + length sep))) by lia.
      replace (Z.of_nat (length pre + length t) + Zlen sep) with (Z.of_nat (length pre + (length t + length sep))) by lia.
      rewrite E. rewrite <- app_assoc in *. split_and!; [done|done|]. cbn [app]. rewrite Hk.
      apply splits_cons; [|exact H2]. rewrite <- Hk. done.
  - destruct (IH pre (t ++ [c]) rest' slots2 tokens) as (start & slots' & toks & E & H1 & H2).
    + rewrite Es. by rewrite <- !app_assoc.
    + simpl in *; lia.
    + intros i Hi. rewrite <- app_assoc. cbn [app]. rewrite length_app in Hi. simpl in Hi.
      destruct (decide (i < length t)%nat) as [Hit|Hit]; [by apply Hno|].
      replace i with (length t) by lia. unfold occurs_at. rewrite drop_app_length. intros HP. by apply HT in HP.
    + lia.
    + done.
    + exists start, slots', toks. rewrite !length_app in E. cbn [length] in E.
      replace (Z.of_nat (length pre + length t) + 1) with (Z.of_nat (length pre + (length t + 1))) by lia.
      rewrite E. rewrite <- app_assoc in H2. done.
Qed.
End Split.

(** C22. [sdssplitlen] cuts a non-empty string (shorter than 1 GB) at the
    leftmost occurrences of a non-empty separator: it reads and fills its arrays
    within their bounds, and joining the tokens with the separator by
    [sdsjoinsds] gives back the string. *)
Theorem sdssplitlen_correct s sep : sep <> [] -> s <> [] -> Zlen s < 2 ^ 30 - 2 ->
  exists toks, sdssplitlen s (Zlen s) sep (Zlen sep) = Some (Some toks) /\ splits sep s toks /\
    sdsjoinsds toks sep = s.
Proof.
  intros Hsep Hne Hs. unfold sdssplitlen.
  assert (1 <= Zlen sep) by (destruct sep; simpl in *; [done|lia]).
  assert (1 <= Zlen s) by (destruct s; simpl in *; [done|lia]).
  destruct (Z.ltb_spec (Zlen sep) 1), (Z.ltb_spec (Zlen s) 0); try lia. cbn [orb].
  destruct (Z.eqb_spec (Zlen s) 0); [lia|].
  destruct (split_loop_spec s sep Hsep Hs (S (Z.to_nat (Zlen s))) [] [] s 5 []) as (start & slots & toks & E & Hl & Hsp);
    try (simpl; lia || done).
  cbn [app length] in E. change (Z.of_nat 0) with 0 in E. rewrite E, bind_Some. cbn [app] in Hl |- *.
  destruct (Z.ltb_spec (Zlen toks) slots); [|lia].
  eexists. split; [done|]. split; [exact Hsp|]. by apply splits_join.
Qed.

Lemma sdssplitlen_correct_witness : exists toks,
  sdssplitlen [97; 45; 45; 98; 45; 45; 45] 7 [45; 45] 2 = Some (Some toks) /\
  splits [45; 45] [97; 45; 45; 98; 45; 45; 45] toks /\ sdsjoinsds toks [45; 45] = [97; 45; 45; 98; 45; 45; 45].
Proof. apply (sdssplitlen_correct [97; 45; 45; 98; 45; 45; 45] [45; 45]); done || vm_compute; reflexivity. Defined.

(** ** Number formatting *)

Lemma digits_loop_spec fuel : forall v (A R : block), (1 <= fuel)%nat -> 0 <= v < 10 ^ Z.of_nat fuel -> (length (udec v) <= length R)%nat ->
  digits_loop fuel (A ++ R) (Zlen A) v =
    Some (A ++ (Some <$> reverse (udec v)) ++ drop (length (udec v)) R, Zlen A + Zlen (udec v)).
Proof.
  induction fuel as [|fuel IH]; intros v A R Hf Hv HR; [lia|]. cbn [digits_loop].
  rewrite Nat2Z.inj_succ, Z.pow_succ_r in Hv by lia.
  assert (is_byte (48 + v mod 10)) as Hd by (unfold is_byte; pose proof (Z.mod_pos_bound v 10); lia).
  destruct R as [|x R]; [destruct (udec v) eqn:E; [by apply udec_nonempty in E; [|lia]|simpl in HR; lia]|].
  rewrite store8_app by done. rewrite bind_Some.
  assert (Zlen A + 1 = Zlen (A ++ [Some (48 + v mod 10)])) as EA by (rewrite length_app; simpl; lia).
  rewrite (udec_eq v) in * by lia. destruct (Z.ltb_spec v 10).
  - rewrite Z.div_small, Z.mod_small by lia. cbn. done.
  - assert (v / 10 < 10 ^ Z.of_nat fuel) by (apply Z.div_lt_upper_bound; lia).
    assert (1 <= v / 10) by (apply Z.div_le_lower_bound; lia).
    destruct (Z.eqb_spec (v / 10) 0); [lia|].
    rewrite length_app in HR |- *. simpl in HR. rewrite EA.
    replace (A ++ Some (48 + v mod 10) :: R) with ((A ++ [Some (48 + v mod 10)]) ++ R) by (by rewrite <- app_assoc).
    assert (1 <= fuel)%nat by (destruct fuel; [simpl in *; lia|lia]).
    rewrite IH by lia. rewrite reverse_app, fmap_app, <- !app_assoc.
    rewrite Nat.add_1_r. cbn [drop]. f_equal. f_equal. rewrite ?length_app. cbn [length]. lia.
Qed.

Lemma reverse_loop_spec fuel : forall (m : list Z) (a c : block) s p, s = Zlen a -> p = Zlen a + Zlen m - 1 ->
  Forall is_byte m -> (length m < fuel)%nat ->
  reverse_loop fuel (a ++ (Some <$> m) ++ c) s p = Some (a ++ (Some <$> reverse m) ++ c).
Proof.
  induction fuel as [|fuel IH]; intros m a c s p -> -> Hm Hf; [lia|]. cbn [reverse_loop].
  destruct m as [|x m]; [destruct (Z.ltb_spec (Zlen a) (Zlen a + Zlen (@nil Z) - 1)); [simpl in *; lia|done]|].
  destruct m as [|y m _] using rev_ind.
  { destruct (Z.ltb_spec (Zlen a) (Zlen a + Zlen [x] - 1)); [simpl in *; lia|done]. }
  rewrite app_comm_cons, Forall_app, Forall_cons, Forall_singleton in Hm. destruct Hm as [[Hx Hm] Hy].
  cbn [length] in Hf. rewrite length_app in Hf. simpl in Hf.
  assert (Zlen a + Zlen (x :: m ++ [y]) - 1 = Zlen (a ++ Some x :: (Some <$> m))) as Ep
    by (rewrite length_app; cbn [length]; rewrite length_app, length_fmap; simpl; lia).
  assert (Zlen (a ++ Some y :: (Some <$> m)) = Zlen (a ++ Some x :: (Some <$> m))) as Exy by (by rewrite !length_app).
  rewrite Ep. destruct (Z.ltb_spec (Zlen a) (Zlen (a ++ Some x :: (Some <$> m)))) as [_|H];
    [|rewrite length_app in H; simpl in H; lia].
  cbn [fmap list_fmap app]. rewrite fmap_app. cbn [fmap list_fmap]. rewrite <- app_assoc. cbn [app]. rewrite (load8_app a _ x (Zlen a)) by done; rewrite bind_Some.
  replace (a ++ Some x :: _ ++ Some y :: c) with ((a ++ Some x :: (Some <$> m)) ++ Some y :: c) by (by rewrite <- !app_assoc).
  rewrite load8_app, bind_Some by done. rewrite <- app_assoc. cbn [app]. rewrite store8_app, bind_Some by done.
  replace (a ++ Some y :: _ ++ Some y :: c) with ((a ++ Some y :: (Some <$> m)) ++ Some y :: c) by (by rewrite <- !app_assoc).
  rewrite store8_app, bind_Some by done.
  replace ((a ++ Some y :: (Some <$> m)) ++ Some x :: c) with ((a ++ [Some y]) ++ (Some <$> m) ++ Some x :: c) by (by rewrite <- !app_assoc).
  rewrite (IH m _ _ (Zlen a + 1) (Zlen (a ++ Some x :: (Some <$> m)) - 1)); [|..|done|lia].
  - rewrite reverse_cons, reverse_app. cbn [reverse]. by rewrite !fmap_app, <- !app_assoc.
  - rewrite length_app; simpl; lia.
  - rewrite !length_app. cbn [length]. rewrite length_fmap. lia.
Qed.

Lemma udec_bytes v : 0 <= v -> Forall is_byte (udec v).
Proof.
  intros Hv. destruct (udec_canonical v Hv) as [[Hd _] _]. eapply Forall_impl; [exact Hd|].
  unfold is_digit, is_byte. lia.
Qed.

Lemma udec_length_le k : forall n, 0 <= n < 10 ^ Z.of_nat (S k) -> (length (udec n) <= S k)%nat.
Proof.
  induction k as [|k IH]; intros n Hn; rewrite udec_eq by lia; destruct (Z.ltb_spec n 10); [simpl; lia| |simpl; lia|].
  - change (10 ^ Z.of_nat 1) with 10 in Hn. lia.
  - rewrite length_app. cbn [length]. rewrite Nat2Z.inj_succ, Z.pow_succ_r in Hn by lia.
    assert (0 <= n / 10 < 10 ^ Z.of_nat (S k)) by (split; [apply Z.div_pos; lia|apply Z.div_lt_upper_bound; lia]).
    specialize (IH (n / 10) ltac:(done)). lia.
Qed.

(** The digits, a sign when there is one, the terminator, then the reversal. *)
Lemma sdsll2str_spec (R : block) v : INT64_MIN < v <= INT64_MAX -> length R = 21%nat ->
  exists R', sdsll2str R v = Some ((Some <$> sdec v) ++ Some 0 :: R', Zlen (sdec v)).
Proof.
  intros Hv HR. unfold_limits. unfold sdsll2str, sdec. set (a := if v <? 0 then - v else v).
  assert (0 <= a < 2 ^ 63) as Ha by (subst a; zcases; lia).
  assert ((if v <? 0 then i64 (- v) else Some v) = Some a) as ->.
  { subst a. destruct (Z.ltb_spec v 0); [|done]. apply i64_ok. unfold_limits. lia. }
  assert ((if v <? 0 then 45 :: udec (- v) else udec v) = (if v <? 0 then [45] else []) ++ udec a) as ->
    by (subst a; by destruct (v <? 0)).
  pose proof (udec_length_le 18 a ltac:(lia)) as Hu. pose proof (udec_bytes a ltac:(lia)) as Hub.
  set (u := udec a) in *. rewrite bind_Some.
  pose proof (digits_loop_spec 20 a [] R ltac:(lia) ltac:(lia) ltac:(fold u; lia)) as E. cbn [app length] in E. fold u in E.
  change (Z.of_nat 0) with 0 in E. rewrite E, bind_Some. clear E. rewrite Z.add_0_l.
  set (sg := if v <? 0 then [45] else []).
  assert (exists z R', (if v <? 0 then s ← store8 ((Some <$> reverse u) ++ drop (length u) R) (Zlen u) 45; Some (s, Zlen u + 1)
    else Some ((Some <$> reverse u) ++ drop (length u) R, Zlen u)) =
    Some ((Some <$> reverse (sg ++ u)) ++ z :: R', Zlen (sg ++ u))) as (z & R' & ->).
  { assert (length (drop (length u) R) = 21 - length u)%nat as HD by (rewrite length_drop; lia).
    destruct (drop (length u) R) as [|c1 [|c2 R']]; [simpl in HD; lia..|].
    subst sg. destruct (v <? 0).
    - rewrite store8_app, bind_Some by (rewrite ?length_fmap, ?length_reverse; done).
      exists c2, R'. cbn [app]. rewrite reverse_cons, fmap_app, <- app_assoc. cbn [length]. do 2 f_equal. lia.
    - by exists c1, (c2 :: R'). }
  rewrite bind_Some. rewrite store8_app, bind_Some by (rewrite ?length_fmap, ?length_reverse; done).
  assert (Forall is_byte (sg ++ u)) as Hsu by (apply Forall_app; split; [subst sg; destruct (v <? 0); repeat constructor; done|done]).
  rewrite (reverse_loop_spec _ (reverse (sg ++ u)) [] (Some 0 :: R')).
  - rewrite reverse_involutive, bind_Some. by exists R'.
  - done.
  - rewrite length_reverse. simpl. lia.
  - by apply Forall_reverse.
  - rewrite length_reverse. lia.
Qed.

Lemma sdec_bytes v : Forall is_byte (sdec v).
Proof.
  unfold sdec. destruct (Z.ltb_spec v 0); [constructor; [done|]|]; apply udec_bytes; lia.
Qed.

(** C36. [sdsfromlonglong] yields the sds string of the canonical decimal
    representation of every [long long] but the smallest, for which the negation
    in [sdsll2str] overflows. *)
Theorem sdsfromlonglong_correct v : INT64_MIN <= v <= INT64_MAX ->
  if v =? INT64_MIN then sdsfromlonglong v = None
  else exists s, sdsfromlonglong v = Some s /\ sds_ok s (sdec v).
Proof.
  intros Hv. destruct (Z.eqb_spec v INT64_MIN) as [->|Hm]; [reflexivity|]. unfold sdsfromlonglong.
  destruct (sdsll2str_spec (malloc SDS_LLSTR_SIZE) v ltac:(lia) (length_malloc _)) as (R' & ->). rewrite bind_Some.
  rewrite (load_app [] (Some 0 :: R') (sdec v)) by done. rewrite bind_Some.
  apply sdsnewlen_spec; [apply sdec_bytes|]. unfold sdec. unfold_limits.
  assert (forall n, 0 <= n < 2 ^ 63 + 1 -> Zlen (udec n) <= 19) as Hl.
  { intros n Hn. pose proof (udec_length_le 18 n ltac:(lia)). lia. }
  destruct (Z.ltb_spec v 0); cbn [length]; [specialize (Hl (- v) ltac:(lia))|specialize (Hl v ltac:(lia))]; lia.
Qed.

Lemma sdsfromlonglong_correct_witness : INT64_MIN <= -1205 <= INT64_MAX /\
  (exists s, sdsfromlonglong (-1205) = Some s /\ sds_ok s [45; 49; 50; 48; 53]).
Proof. split; [done|]. apply (sdsfromlonglong_correct (-1205)). done. Defined.
