(* ===== verification/Glob.v ===== *)
(** Glob-style pattern matching: [stringmatchlen] of [util.c].

    Pattern and string are C strings with explicit lengths; both are read up to
    their terminators, and reading past them is [None].  The characters are
    [char]s, signed on the platforms considered.

    The reference is a token language ([parse]) with an inductive matching
    relation ([matches]). *)

From S2P Require Import Prelude.

(** [tolower] of the "C" locale. *)
Definition lower (c : Z) : Z := if (65 <=? c) && (c <=? 90) then c + 32 else c.

(** [while( *pattern == '*') { pattern++; patternLen--; }] *)
Fixpoint skip_stars (fuel : nat) (pat : list Z) (p plen : Z) : option (Z * Z) :=
  match fuel with
  | O => None
  | S fuel =>
    c ← at_ pat p;
    if c =? 42 then skip_stars fuel pat (p + 1) (plen - 1) else Some (p, plen)
  end.

(** [while (pattern[1] == '*') { pattern++; patternLen--; }] *)
Fixpoint last_star (fuel : nat) (pat : list Z) (p plen : Z) : option (Z * Z) :=
  match fuel with
  | O => None
  | S fuel =>
    c ← at_ pat (p + 1);
    if c =? 42 then last_star fuel pat (p + 1) (plen - 1) else Some (p, plen)
  end.

(** The comparison of two characters. *)
Definition same (nocase : bool) (a b : Z) : bool :=
  if negb nocase then a =? b else lower (s8 a) =? lower (s8 b).

(** The test of a range: the bounds are exchanged before they are folded. *)
Definition in_range (nocase : bool) (a b c : Z) : bool :=
  let start := s8 a in let end_ := s8 b in let c := s8 c in
  let '(start, end_) := if end_ <? start then (end_, start) else (start, end_) in
  let '(start, end_, c) := if nocase then (lower start, lower end_, lower c) else (start, end_, c) in
  (start <=? c) && (c <=? end_).

(** The [while(1)] of a character class. *)
Fixpoint class_loop (fuel : nat) (pat : list Z) (p plen : Z) (str : list Z) (s : Z) (nocase matched : bool)
    : option (Z * Z * bool) :=
  match fuel with
  | O => None
  | S fuel =>
    c ← at_ pat p;
    if c =? 92 then
      c ← at_ pat (p + 1); x ← at_ str s;
      class_loop fuel pat (p + 2) (plen - 2) str s nocase (matched || (c =? x))
    else if c =? 93 then Some (p, plen, matched)
    else if plen =? 0 then Some (p - 1, plen + 1, matched)
    else
      c1 ← at_ pat (p + 1);
      if (c1 =? 45) && (3 <=? plen) then
        e ← at_ pat (p + 2); x ← at_ str s;
        class_loop fuel pat (p + 3) (plen - 3) str s nocase (matched || in_range nocase c e x)
      else
        x ← at_ str s;
        class_loop fuel pat (p + 1) (plen - 1) str s nocase (matched || same nocase c x)
  end.

(** The recursive calls of the ['*'] case. *)
Fixpoint star_loop (fuel : nat) (rec : Z -> Z -> option bool) (s slen : Z) : option bool :=
  match fuel with
  | O => None
  | S fuel =>
    if slen =? 0 then Some false else
    r ← rec s slen;
    if (r : bool) then Some true else star_loop fuel rec (s + 1) (slen - 1)
  end.

(** How the [switch] ends: with a [return], or after its last [break]. *)
Inductive verdict := Return (r : bool) | Break (p plen s slen : Z).

Definition match_switch (rec : Z -> Z -> Z -> Z -> option bool) (pat : list Z) (p plen : Z) (str : list Z) (s slen : Z)
    (nocase : bool) : option verdict :=
  c ← at_ pat p;
  if c =? 42 then
    '(p, plen) ← last_star (S (length pat)) pat p plen;
    if plen =? 1 then Some (Return true) else
    r ← star_loop (S (length str)) (rec (p + 1) (plen - 1)) s slen;
    Some (Return r)
  else if c =? 63 then
    if slen =? 0 then Some (Return false) else Some (Break p plen (s + 1) (slen - 1))
  else if c =? 91 then
    let p := p + 1 in let plen := plen - 1 in
    c ← at_ pat p;
    let not := c =? 94 in
    let '(p, plen) := if not then (p + 1, plen - 1) else (p, plen) in
    '(p, plen, matched) ← class_loop (S (S (length pat))) pat p plen str s nocase false;
    let matched := if not then negb matched else matched in
    if negb matched then Some (Return false) else Some (Break p plen (s + 1) (slen - 1))
  else
    let '(p, plen) := if (c =? 92) && (2 <=? plen) then (p + 1, plen - 1) else (p, plen) in
    c ← at_ pat p; x ← at_ str s;
    if negb (same nocase c x) then Some (Return false) else Some (Break p plen (s + 1) (slen - 1)).

(** [while(patternLen)] *)
Fixpoint match_loop (fuel : nat) (pat : list Z) (str : list Z) (nocase : bool) (p plen s slen : Z) : option bool :=
  match fuel with
  | O => None
  | S fuel =>
    if plen =? 0 then Some (slen =? 0) else
    v ← match_switch (match_loop fuel pat str nocase) pat p plen str s slen nocase;
    match v with
    | Return r => Some r
    | Break p plen s slen =>
      let p := p + 1 in let plen := plen - 1 in
      if slen =? 0 then
        '(p, plen) ← skip_stars (S (length pat)) pat p plen;
        Some ((plen =? 0) && (slen =? 0))
      else match_loop fuel pat str nocase p plen s slen
    end
  end.

Definition stringmatchlen (pattern : list Z) (patternLen : Z) (string : list Z) (stringLen : Z) (nocase : bool)
    : option bool :=
  match_loop (S (length pattern)) pattern string nocase 0 patternLen 0 stringLen.

Definition stringmatch (pattern string : list Z) (nocase : bool) : option bool :=
  stringmatchlen pattern (Zlen pattern) string (Zlen string) nocase.

(** ** Reference: tokens and their meaning *)

Inductive citem := CChar (c : Z) | CEsc (c : Z) | CRange (a b : Z).
Inductive token := TStar | TAny | TClass (neg : bool) (items : list citem) | TLit (c : Z).

(** The items of a class and what follows it; a class may be unterminated, but
    not end in a backslash. *)
Fixpoint parse_items (l : list Z) : option (list citem * list Z) :=
  match l with
  | [] => Some ([], [])
  | c :: r =>
    if c =? 92 then
      match r with
      | [] => None
      | d :: r => '(its, l') ← parse_items r; Some (CEsc d :: its, l')
      end
    else if c =? 93 then Some ([], r)
    else
      match r with
      | d :: e :: r' =>
        if d =? 45 then '(its, l') ← parse_items r'; Some (CRange c e :: its, l')
        else '(its, l') ← parse_items r; Some (CChar c :: its, l')
      | _ => '(its, l') ← parse_items r; Some (CChar c :: its, l')
      end
  end.

Fixpoint parse_fuel (n : nat) (l : list Z) : option (list token) :=
  match n with
  | O => Some []
  | S n =>
    match l with
    | [] => Some []
    | c :: r =>
      if c =? 42 then ts ← parse_fuel n r; Some (TStar :: ts)
      else if c =? 63 then ts ← parse_fuel n r; Some (TAny :: ts)
      else if c =? 91 then
        let '(neg, r) := match r with d :: r' => if d =? 94 then (true, r') else (false, r) | [] => (false, r) end in
        '(its, l') ← parse_items r; ts ← parse_fuel n l'; Some (TClass neg its :: ts)
      else if c =? 92 then
        match r with
        | [] => Some [TLit 92]
        | d :: r => ts ← parse_fuel n r; Some (TLit d :: ts)
        end
      else ts ← parse_fuel n r; Some (TLit c :: ts)
    end
  end.

Definition parse (pattern : list Z) : option (list token) := parse_fuel (length pattern) pattern.

(** What a range accepts, said on its own: the characters between the smaller
    and the larger bound, case folded on request after that choice. *)
Definition between (nocase : bool) (a b x : Z) : bool :=
  let fold c := if nocase then lower c else c in
  bool_decide (fold (Z.min (s8 a) (s8 b)) <= fold (s8 x) <= fold (Z.max (s8 a) (s8 b))).

Definition item_ok (nocase : bool) (x : Z) (i : citem) : bool :=
  match i with
  | CChar c => same nocase c x
  | CEsc c => c =? x
  | CRange a b => between nocase a b x
  end.

Inductive matches (nocase : bool) : list token -> list Z -> Prop :=
| m_nil : matches nocase [] []
| m_star_nil ts s : matches nocase ts s -> matches nocase (TStar :: ts) s
| m_star_cons ts x s : matches nocase (TStar :: ts) s -> matches nocase (TStar :: ts) (x :: s)
| m_any ts x s : matches nocase ts s -> matches nocase (TAny :: ts) (x :: s)
| m_class neg its ts x s : xorb neg (existsb (item_ok nocase x) its) = true ->
    matches nocase ts s -> matches nocase (TClass neg its :: ts) (x :: s)
| m_lit c ts x s : same nocase c x = true -> matches nocase ts s -> matches nocase (TLit c :: ts) (x :: s).

Example glob_ex1 : stringmatch [104; 42; 108; 91; 97; 45; 122; 93] [104; 101; 108; 108; 111] false = Some true.
Proof. reflexivity. Qed.

(** ** The loops *)

Lemma at_nth (a l : list Z) k : (k <= length l)%nat -> at_ (a ++ l) (Zlen a + Z.of_nat k) = Some (nth k l 0).
Proof.
  intros Hk. destruct (decide (k < length l)%nat) as [H|H].
  - apply (at_app _ _ _ k); [done|]. destruct (lookup_lt_is_Some_2 l k H) as (x & Hx). by rewrite nth_lookup, Hx.
  - rewrite nth_overflow by lia. replace (Zlen a + Z.of_nat k) with (Zlen (a ++ l)) by (rewrite length_app; lia).
    apply at_end.
Qed.

Lemma at_0 (a l : list Z) : at_ (a ++ l) (Zlen a) = Some (nth 0 l 0).
Proof. rewrite <- (at_nth a l 0) by lia. f_equal. lia. Qed.

Lemma at_1 (a l : list Z) : l <> [] -> at_ (a ++ l) (Zlen a + 1) = Some (nth 1 l 0).
Proof. intros. rewrite <- (at_nth a l 1); [done|]. destruct l; simpl; [done|lia]. Qed.

Lemma skip_stars_spec l : forall fuel pp, (length l < fuel)%nat ->
  exists k r, l = replicate k 42 ++ r /\ head r <> Some 42 /\
    skip_stars fuel (pp ++ l) (Zlen pp) (Zlen l) = Some (Zlen pp + Z.of_nat k, Zlen r).
Proof.
  induction l as [|c l IH]; intros fuel pp Hf; (destruct fuel as [|fuel]; [lia|]); cbn [skip_stars];
    rewrite at_0, bind_Some; cbn [nth].
  - exists 0%nat, []. split_and!; [done|done|]. simpl. do 2 f_equal. lia.
  - destruct (Z.eqb_spec c 42) as [->|Hc].
    + simpl in Hf. destruct (IH fuel (pp ++ [42]) ltac:(lia)) as (k & r & -> & Hr & E).
      exists (S k), r. split_and!; [done|done|]. rewrite snoc_len, <- app_assoc in E. cbn [app] in E.
      cbn [length]. replace (Zlen (replicate k 42 ++ r) + 1 - 1) with (Zlen (replicate k 42 ++ r)) by lia.
      replace (Z.of_nat (S (length (replicate k 42 ++ r))) - 1) with (Zlen (replicate k 42 ++ r)) by lia.
      rewrite E. do 2 f_equal. lia.
    + exists 0%nat, (c :: l). split_and!; [done|by intros [= ->]|]. do 2 f_equal. lia.
Qed.

Lemma last_star_spec l : forall fuel pp, (length l < fuel)%nat ->
  exists k r, l = replicate k 42 ++ r /\ head r <> Some 42 /\
    last_star fuel (pp ++ 42 :: l) (Zlen pp) (Zlen (42 :: l)) = Some (Zlen pp + Z.of_nat k, Zlen (42 :: r)).
Proof.
  induction l as [|c l IH]; intros fuel pp Hf; (destruct fuel as [|fuel]; [lia|]); cbn [last_star];
    rewrite at_1, bind_Some by done; cbn [nth].
  - exists 0%nat, []. split_and!; [done|done|]. simpl. do 2 f_equal. lia.
  - destruct (Z.eqb_spec c 42) as [->|Hc].
    + simpl in Hf. destruct (IH fuel (pp ++ [42]) ltac:(lia)) as (k & r & -> & Hr & E).
      exists (S k), r. split_and!; [done|done|]. rewrite snoc_len, <- app_assoc in E. cbn [app] in E.
      replace (Zlen (42 :: 42 :: replicate k 42 ++ r) - 1) with (Zlen (42 :: replicate k 42 ++ r)) by (cbn [length]; lia).
      rewrite E. do 2 f_equal. lia.
    + exists 0%nat, (c :: l). split_and!; [done|by intros [= ->]|]. do 2 f_equal. lia.
Qed.

Lemma in_range_between nocase a b c : in_range nocase a b c = between nocase a b c.
Proof.
  unfold in_range, between. apply eq_bool_prop_intro. rewrite bool_decide_spec.
  destruct (Z.ltb_spec (s8 b) (s8 a)).
  - rewrite Z.min_r, Z.max_l by lia. destruct nocase; rewrite Is_true_true, andb_true_iff, !Z.leb_le; done.
  - rewrite Z.min_l, Z.max_r by lia. destruct nocase; rewrite Is_true_true, andb_true_iff, !Z.leb_le; done.
Qed.

(** A class is scanned as it is parsed. *)
Lemma class_loop_spec nocase str s x : at_ str s = Some x -> forall fuel l pp matched its l',
  parse_items l = Some (its, l') -> (length l < fuel)%nat ->
  exists mid q, l = mid ++ l' /\ q + 1 = Zlen (pp ++ mid) /\
    class_loop fuel (pp ++ l) (Zlen pp) (Zlen l) str s nocase matched =
      Some (q, Zlen l' + 1, matched || existsb (item_ok nocase x) its).
Proof.
  intros Hx. induction fuel as [|fuel IH]; intros l pp matched its l' Hp Hf; [lia|].
  assert (forall pre rest its' i, l = pre ++ rest -> pre <> [] -> parse_items rest = Some (its', l') -> its = i :: its' ->
    exists mid q, l = mid ++ l' /\ q + 1 = Zlen (pp ++ mid) /\
      class_loop fuel (pp ++ l) (Zlen pp + Zlen pre) (Zlen l - Zlen pre) str s nocase (matched || item_ok nocase x i) =
        Some (q, Zlen l' + 1, matched || existsb (item_ok nocase x) its)) as Hstep.
  { intros pre rest its' i -> Hne Hr ->. rewrite length_app in Hf.
    assert (1 <= length pre)%nat by (destruct pre; simpl; [done|lia]).
    destruct (IH rest (pp ++ pre) (matched || item_ok nocase x i) its' l' Hr ltac:(lia)) as (mid & q & -> & Hq & E).
    exists (pre ++ mid), q. rewrite <- !app_assoc in *. split_and!; [done|done|].
    replace (Zlen pp + Zlen pre) with (Zlen (pp ++ pre)) by (rewrite length_app; lia).
    replace (Zlen (pre ++ mid ++ l') - Zlen pre) with (Zlen (mid ++ l')) by (rewrite (length_app pre); lia).
    rewrite E. cbn [existsb]. by rewrite orb_assoc. }
  cbn [class_loop]. rewrite at_0, bind_Some.
  destruct l as [|c r]; cbn [nth].
  { simpl in Hp. simplify_eq. exists [], (Zlen pp - 1). split_and!; [done|rewrite app_nil_r; lia|].
    simpl. by rewrite orb_false_r. }
  cbn [parse_items] in Hp. destruct (Z.eqb_spec c 92) as [->|H92].
  { destruct r as [|d r]; [done|]. apply option.bind_Some in Hp as ([its' l''] & Hp & [= <- <-]).
    rewrite at_1, bind_Some by done. cbn [nth]. rewrite Hx, bind_Some. by apply (Hstep [92; d] r its' (CEsc d)). }
  destruct (Z.eqb_spec c 93) as [->|H93].
  { simplify_eq. exists [93], (Zlen pp). split_and!; [done|by rewrite snoc_len|]. simpl. rewrite orb_false_r. do 3 f_equal. lia. }
  destruct (Z.eqb_spec (Zlen (c :: r)) 0) as [E0|_]; [simpl in E0; lia|].
  rewrite at_1, bind_Some by done.
  destruct r as [|d [|e r']]; cbn [nth].
  1-2: apply option.bind_Some in Hp as ([its' l''] & Hp & [= <- <-]); rewrite andb_comm; simpl (3 <=? _); cbn [andb];
    rewrite Hx, bind_Some; by eapply (Hstep [c] _ its' (CChar c)).
  destruct (Z.leb_spec 3 (Zlen (c :: d :: e :: r'))); [|simpl in *; lia].
  rewrite andb_true_r. destruct (Z.eqb_spec d 45) as [->|Hd].
  - apply option.bind_Some in Hp as ([its' l''] & Hp & [= <- <-]).
    pose proof (at_nth pp (c :: 45 :: e :: r') 2 ltac:(simpl; lia)) as A2. change (Z.of_nat 2) with 2 in A2.
    rewrite A2, bind_Some. cbn [nth]. rewrite Hx, bind_Some, in_range_between.
    by apply (Hstep [c; 45; e] r' its' (CRange c e)).
  - apply option.bind_Some in Hp as ([its' l''] & Hp & [= <- <-]). rewrite Hx, bind_Some.
    by eapply (Hstep [c] _ its' (CChar c)).
Qed.

(** ** Parsing *)

Lemma parse_items_suffix l its l' : parse_items l = Some (its, l') -> exists mid, l = mid ++ l'.
Proof.
  intros H. destruct (class_loop_spec false [] 0 0 eq_refl (S (length l)) l [] false its l' H ltac:(lia)) as (mid & _ & E & _).
  by exists mid.
Qed.

Lemma parse_stars k : forall n r ts, parse_fuel n (replicate k 42 ++ r) = Some ts -> (k + length r <= n)%nat ->
  exists n' ts', ts = replicate k TStar ++ ts' /\ parse_fuel n' r = Some ts' /\ (length r <= n' <= n)%nat.
Proof.
  induction k as [|k IH]; intros n r ts Hp Hn; [exists n, ts; split_and!; done || lia|].
  destruct n as [|n]; [lia|]. cbn [replicate app parse_fuel] in Hp. change (42 =? 42) with true in Hp. cbv iota in Hp.
  apply option.bind_Some in Hp as (ts0 & Hp & [= <-]).
  destruct (IH n r ts0 Hp ltac:(lia)) as (n' & ts' & -> & Hp' & Hn'). exists n', ts'. split_and!; done || lia.
Qed.

Lemma parse_nonstar n r ts : parse_fuel n r = Some ts -> (length r <= n)%nat -> r <> [] -> head r <> Some 42 ->
  exists t ts', ts = t :: ts' /\ t <> TStar.
Proof.
  intros Hp Hn Hr Hh. destruct r as [|c r]; [done|]. destruct n as [|n]; [simpl in Hn; lia|]. cbn [parse_fuel] in Hp.
  destruct (Z.eqb_spec c 42) as [->|]; [done|].
  repeat (case_match; simplify_eq; try (apply option.bind_Some in Hp as (? & Hp1 & Hp));
    repeat (case_match; simplify_eq); try (apply option.bind_Some in Hp as (? & Hp2 & Hp)); simplify_eq); eauto.
Qed.

Lemma matches_stars nocase k ts s :
  matches nocase (replicate (S k) TStar ++ ts) s <-> exists s1 s2, s = s1 ++ s2 /\ matches nocase ts s2.
Proof.
  split.
  - revert s. induction k as [|k IH]; intros s Hm.
    + cbn [replicate app] in Hm. remember (TStar :: ts) as l eqn:El. induction Hm; simplify_eq.
      * by exists [], s.
      * destruct IHHm as (s1 & s2 & -> & ?); [done|]. by exists (x :: s1), s2.
    + change (replicate (S (S k)) TStar ++ ts) with (TStar :: replicate (S k) TStar ++ ts) in Hm.
      remember (TStar :: replicate (S k) TStar ++ ts) as l eqn:El. induction Hm; simplify_eq.
      * by apply IH.
      * destruct IHHm as (s1 & s2 & -> & ?); [done|]. by exists (x :: s1), s2.
  - intros (s1 & s2 & -> & Hm). assert (matches nocase (replicate (S k) TStar ++ ts) s2) as H.
    { induction k as [|k IH]; [by constructor|]. by constructor. }
    clear Hm. induction s1 as [|x s1 IH]; [done|]. by apply m_star_cons.
Qed.

(** An exhausted string matches exactly the patterns of stars. *)
Lemma matches_exhausted nocase k r n ts : parse_fuel n (replicate k 42 ++ r) = Some ts -> (k + length r <= n)%nat ->
  head r <> Some 42 -> matches nocase ts [] <-> r = [].
Proof.
  intros Hp Hn Hh. destruct (parse_stars k n r ts Hp Hn) as (n' & ts' & -> & Hp' & Hn').
  assert (matches nocase (replicate k TStar ++ ts') [] <-> matches nocase ts' []) as ->.
  { destruct k as [|k]; [done|]. rewrite matches_stars. split; [|by exists [], []].
    intros (s1 & s2 & E & ?). symmetry in E. apply app_eq_nil in E as [-> ->]. done. }
  destruct r as [|c r].
  { assert (ts' = []) as -> by (destruct n'; simpl in Hp'; by simplify_eq). split; [done|constructor]. }
  destruct (parse_nonstar _ _ _ Hp' ltac:(lia) ltac:(done) Hh) as (t & ts'' & -> & Ht).
  split; [|done]. intros Hm. by inversion Hm.
Qed.

Lemma star_loop_spec rec (P : list Z -> Prop) s : forall fuel (ss : list Z), (length s < fuel)%nat ->
  (forall s1 s2, s = s1 ++ s2 -> s2 <> [] -> exists b, rec (Zlen (ss ++ s1)) (Zlen s2) = Some b /\ (b = true <-> P s2)) ->
  exists b, star_loop fuel rec (Zlen ss) (Zlen s) = Some b /\
    (b = true <-> exists s1 s2, s = s1 ++ s2 /\ s2 <> [] /\ P s2).
Proof.
  induction s as [|x s IH]; intros fuel ss Hf Hrec; (destruct fuel as [|fuel]; [lia|]); cbn [star_loop].
  { exists false. split; [done|]. split; [done|]. intros (s1 & s2 & E & Hn & _). by destruct s1, s2. }
  destruct (Z.eqb_spec (Zlen (x :: s)) 0) as [E|_]; [simpl in E; lia|].
  destruct (Hrec [] (x :: s) eq_refl ltac:(done)) as (b & E & Hb). rewrite app_nil_r in E. rewrite E, bind_Some.
  destruct b.
  { exists true. split; [done|]. split; [|done]. intros _. exists [], (x :: s). split_and!; [done|done|by apply Hb]. }
  simpl in Hf. destruct (IH fuel (ss ++ [x]) ltac:(lia)) as (b & E' & Hb').
  { intros s1 s2 -> Hn. destruct (Hrec (x :: s1) s2 eq_refl Hn) as (b & ? & ?). exists b. by rewrite <- app_assoc. }
  rewrite snoc_len in E'. exists b. replace (Zlen (x :: s) - 1) with (Zlen s) by (cbn [length]; lia). split; [done|].
  rewrite Hb'. split.
  - intros (s1 & s2 & -> & ? & ?). by exists (x :: s1), s2.
  - intros ([|y s1] & s2 & E2 & ? & HP); simplify_eq/=; [|by exists s1, s2].
    apply Hb in HP. done.
Qed.

(** ** The matcher *)

Section Matcher.
Context (nocase : bool) (pat str : list Z).

Definition loop_ok (fuel : nat) : Prop := forall n l pp s ss toks, pat = pp ++ l -> str = ss ++ s -> s <> [] ->
  (length l < fuel)%nat -> (length l <= n)%nat -> parse_fuel n l = Some toks ->
  exists b, match_loop fuel pat str nocase (Zlen pp) (Zlen l) (Zlen ss) (Zlen s) = Some b /\
    (b = true <-> matches nocase toks s).

(** What follows the [switch] once a character was consumed. *)
Lemma continue_spec fuel n l pp s ss ts : loop_ok fuel -> pat = pp ++ l -> str = ss ++ s ->
  (length l < fuel)%nat -> (length l <= n)%nat -> parse_fuel n l = Some ts ->
  exists b, (if Zlen s =? 0 then
      '(p, plen) ← skip_stars (S (length pat)) pat (Zlen pp) (Zlen l); Some ((plen =? 0) && (Zlen s =? 0))
    else match_loop fuel pat str nocase (Zlen pp) (Zlen l) (Zlen ss) (Zlen s)) = Some b /\
    (b = true <-> matches nocase ts s).
Proof.
  intros HR Ep Es Hf Hn Hp. destruct s as [|x s].
  - change (Zlen (@nil Z) =? 0) with true. cbv iota.
    destruct (skip_stars_spec l (S (length pat)) pp) as (k & r & El & Hh & E); [rewrite Ep, length_app; lia|].
    rewrite Ep in E |- *. rewrite E, bind_Some. eexists. split; [done|]. rewrite andb_true_r.
    rewrite El in Hp. rewrite (matches_exhausted nocase k r n ts Hp); [|rewrite El, length_app, length_replicate in Hn; lia|done].
    destruct r; simpl; split; done || lia.
  - destruct (Z.eqb_spec (Zlen (x :: s)) 0) as [E|_]; [simpl in E; lia|]. by eapply HR.
Qed.

(** A token other than the star consumes one character, or fails. *)
Lemma switch_consume rec n l pp x s ss toks : pat = pp ++ l -> str = ss ++ x :: s -> l <> [] -> head l <> Some 42 ->
  (length l <= S n)%nat -> parse_fuel (S n) l = Some toks ->
  exists mid l' ts (ok : bool) p, l = mid ++ l' /\ mid <> [] /\ parse_fuel n l' = Some ts /\ p + 1 = Zlen (pp ++ mid) /\
    match_switch rec pat (Zlen pp) (Zlen l) str (Zlen ss) (Zlen (x :: s)) nocase =
      Some (if ok then Break p (Zlen l' + 1) (Zlen ss + 1) (Zlen (x :: s) - 1) else Return false) /\
    (matches nocase toks (x :: s) <-> ok = true /\ matches nocase ts s).
Proof.
  intros Ep Es Hl Hh Hn Hp. destruct l as [|c r]; [done|]. unfold match_switch.
  assert (at_ pat (Zlen pp) = Some c) as -> by (rewrite Ep; apply at_0). rewrite bind_Some.
  assert (at_ str (Zlen ss) = Some x) as Hx by (rewrite Es; apply at_0).
  cbn [parse_fuel] in Hp. destruct (Z.eqb_spec c 42) as [->|H42]; [done|].
  destruct (Z.eqb_spec c 63) as [->|H63].
  { apply option.bind_Some in Hp as (ts & Hp & [= <-]). destruct (Z.eqb_spec (Zlen (x :: s)) 0) as [E|_]; [simpl in E; lia|].
    exists [63], r, ts, true, (Zlen pp). split_and!; [done|done|done|by rewrite snoc_len| |].
    - do 2 f_equal. cbn [length]. lia.
    - split; [intros Hm; by inversion Hm|intros [_ ?]; by constructor]. }
  destruct (Z.eqb_spec c 91) as [->|H91].
  { set (nr := match r with d :: r' => if d =? 94 then (true, r') else (false, r) | [] => (false, r) end) in Hp.
    assert (exists not pre r', r = pre ++ r' /\ nr = (not, r') /\ (nth 0 r 0 =? 94) = not /\ Zlen pre = if not then 1 else 0)
      as (not & pre & r' & -> & -> & Enot & Hpre).
    { subst nr. destruct r as [|d r']; [by exists false, [], []|]. cbn [nth]. destruct (Z.eqb_spec d 94) as [->|].
      - by exists true, [94], r'.
      - by exists false, [], (d :: r'). }
    cbv zeta in Hp. apply option.bind_Some in Hp as ([its l'] & Hi & Hp). apply option.bind_Some in Hp as (ts & Hp & [= <-]).
    assert (Ep1 : pat = (pp ++ [91]) ++ pre ++ r') by (rewrite Ep; by rewrite <- app_assoc).
    replace (Zlen pp + 1) with (Zlen (pp ++ [91])) by apply snoc_len.
    assert (at_ pat (Zlen (pp ++ [91])) = Some (nth 0 (pre ++ r') 0)) as -> by (rewrite Ep1; apply at_0).
    rewrite bind_Some, Enot. cbv zeta.
    assert ((if not then (Zlen (pp ++ [91]) + 1, Zlen (91 :: pre ++ r') - 1 - 1) else (Zlen (pp ++ [91]), Zlen (91 :: pre ++ r') - 1)) =
      (Zlen ((pp ++ [91]) ++ pre), Zlen r')) as ->.
    { rewrite (length_app (pp ++ [91])). cbn [length]. rewrite (length_app pre). destruct not; f_equal; lia. }
    rewrite app_assoc in Ep1. destruct (class_loop_spec nocase str (Zlen ss) x Hx (S (S (length pat))) r' ((pp ++ [91]) ++ pre) false its l' Hi)
      as (mid & q & Er & Hq & E); [rewrite Ep1, length_app; lia|].
    rewrite <- Ep1 in E. rewrite E, bind_Some. cbn [orb]. clear E.
    exists (91 :: pre ++ mid), l', ts, (xorb not (existsb (item_ok nocase x) its)), q. split_and!; [|done|done| | |].
    - rewrite Er. cbn [app]. by rewrite app_assoc.
    - rewrite Hq. by rewrite <- !app_assoc.
    - destruct not; cbn [xorb]; destruct (existsb _ _); cbn [negb]; done.
    - split; [intros Hm; by inversion Hm|intros [? ?]; by constructor]. }
  assert (exists k tok l' ts, (if (c =? 92) && (2 <=? Zlen (c :: r)) then (Zlen pp + 1, Zlen (c :: r) - 1) else (Zlen pp, Zlen (c :: r))) =
      (Zlen pp + Z.of_nat k, Zlen l' + 1) /\ (exists mid, c :: r = mid ++ tok :: l' /\ length mid = k) /\
      toks = TLit tok :: ts /\ parse_fuel n l' = Some ts) as (k & tok & l' & ts & -> & (mid & El & Hk) & -> & Hp').
  { destruct (Z.eqb_spec c 92) as [->|H92].
    - destruct r as [|d r].
      + simplify_eq. exists 0%nat, 92, [], []. split_and!; [simpl; f_equal; lia|by exists []|done|by destruct n].
      + apply option.bind_Some in Hp as (ts & Hp & [= <-]). destruct (Z.leb_spec 2 (Zlen (92 :: d :: r))); [|simpl in *; lia].
        exists 1%nat, d, r, ts. split_and!; [simpl; f_equal; lia|by exists [92]|done|done].
    - apply option.bind_Some in Hp as (ts & Hp & [= <-]). exists 0%nat, c, r, ts. cbn [andb length].
      split_and!; [f_equal; lia|by exists []|done|done]. }
  assert (at_ pat (Zlen pp + Z.of_nat k) = Some tok) as ->.
  { rewrite Ep, El, app_assoc. replace (Zlen pp + Z.of_nat k) with (Zlen (pp ++ mid)) by (rewrite length_app; lia). apply at_0. }
  rewrite bind_Some, Hx, bind_Some.
  exists (mid ++ [tok]), l', ts, (same nocase tok x), (Zlen pp + Z.of_nat k). split_and!; [|by destruct mid|done| | |].
  - by rewrite El, <- app_assoc.
  - rewrite app_assoc, snoc_len, length_app. lia.
  - by destruct (same nocase tok x).
  - split; [intros Hm; by inversion Hm|intros [? ?]; by constructor].
Qed.

Lemma match_loop_spec fuel : loop_ok fuel.
Proof.
  induction fuel as [|fuel IH]; intros n l pp s ss toks Ep Es Hs Hf Hn Hp; [lia|]. cbn [match_loop].
  destruct l as [|c r].
  { assert (toks = []) as -> by (destruct n; simpl in Hp; by simplify_eq). change (Zlen (@nil Z) =? 0) with true. cbv iota.
    eexists. split; [done|]. destruct s; [done|]. simpl. split; [done|]. intros Hm. by inversion Hm. }
  destruct (Z.eqb_spec (Zlen (c :: r)) 0) as [E|_]; [simpl in E; lia|].
  destruct n as [|n]; [simpl in Hn; lia|]. destruct (Z.eq_dec c 42) as [->|Hc].
  - unfold match_switch.
    assert (at_ pat (Zlen pp) = Some 42) as -> by (rewrite Ep; apply at_0). rewrite bind_Some. change (42 =? 42) with true. cbv iota.
    destruct (last_star_spec r (S (length pat)) pp) as (k & r' & -> & Hh & E); [rewrite Ep, length_app; simpl; lia|].
    rewrite <- Ep in E. rewrite E, bind_Some. clear E.
    change (42 :: replicate k 42 ++ r') with (replicate (S k) 42 ++ r') in *.
    destruct (parse_stars (S k) _ r' toks Hp) as (n' & ts' & -> & Hp' & Hn');
      [rewrite length_app, length_replicate in Hn; lia|].
    destruct r' as [|d r'].
    { change (Zlen [42] =? 1) with true. cbv iota. rewrite bind_Some. exists true. split; [done|]. split; [|done]. intros _.
      assert (ts' = []) as -> by (destruct n'; simpl in Hp'; by simplify_eq).
      apply matches_stars. exists s, []. rewrite app_nil_r. split; [done|constructor]. }
    destruct (Z.eqb_spec (Zlen (42 :: d :: r')) 1) as [E|_]; [simpl in E; lia|].
    rewrite length_app, length_replicate in Hf.
    destruct (star_loop_spec (match_loop fuel pat str nocase (Zlen pp + Z.of_nat k + 1) (Zlen (42 :: d :: r') - 1))
      (matches nocase ts') s (S (length str)) ss) as (b & E & Hb); [rewrite Es, length_app; lia| |].
    { intros s1 s2 E2 Hn2.
      destruct (IH n' (d :: r') (pp ++ replicate (S k) 42) s2 (ss ++ s1) ts') as (b & E & Hb).
      - by rewrite Ep, app_assoc.
      - by rewrite Es, E2, app_assoc.
      - done.
      - lia.
      - lia.
      - done.
      - exists b. split; [|done]. rewrite <- E. f_equal; [|cbn [length]; lia]. rewrite length_app, length_replicate. lia. }
    rewrite E, !bind_Some. exists b. split; [done|]. rewrite Hb, matches_stars. split.
    + intros (s1 & s2 & -> & ? & ?). by exists s1, s2.
    + intros (s1 & s2 & -> & Hm). exists s1, s2. split_and!; [done| |done]. intros ->.
      destruct (parse_nonstar _ _ _ Hp' ltac:(lia) ltac:(done) Hh) as (t & ts'' & -> & Ht). by inversion Hm.
  - destruct s as [|x s]; [done|].
    destruct (switch_consume (match_loop fuel pat str nocase) n (c :: r) pp x s ss toks Ep Es) as
      (mid & l' & ts & ok & p & El & Hmid & Hp' & Hpos & -> & Hm); [done|by intros [= ->]|done|done|].
    rewrite bind_Some. setoid_rewrite Hm. destruct ok; [|exists false; split; [done|]; split; [done|by intros []]].
    assert (1 <= length mid)%nat by (destruct mid; simpl; [done|lia]).
    rewrite El, length_app in Hf, Hn.
    destruct (continue_spec fuel n l' (pp ++ mid) s (ss ++ [x]) ts IH) as (b & E & Hb); [..|exists b; split; [|rewrite Hb; naive_solver]].
    + by rewrite Ep, El, app_assoc.
    + by rewrite Es, <- app_assoc.
    + lia.
    + lia.
    + done.
    + rewrite <- E, Hpos, snoc_len. replace (Zlen (x :: s) - 1) with (Zlen s) by (cbn [length]; lia).
      replace (Zlen l' + 1 - 1) with (Zlen l') by lia. done.
Qed.
End Matcher.

(** C13. [stringmatchlen] decides the glob language.  For a pattern that the
    reference grammar accepts (no character class ending in a backslash) and a
    non-empty string, it returns without reading past either terminator, and
    answers whether the tokens of the pattern match the string. *)
Theorem stringmatchlen_correct pattern string nocase toks : parse pattern = Some toks -> string <> [] ->
  exists b, stringmatchlen pattern (Zlen pattern) string (Zlen string) nocase = Some b /\
    (b = true <-> matches nocase toks string).
Proof.
  intros Hp Hs. unfold stringmatchlen.
  by apply (match_loop_spec nocase pattern string (S (length pattern)) (length pattern) pattern [] string [] toks); try lia.
Qed.

Lemma stringmatchlen_correct_witness :
  exists b, stringmatchlen [104; 42; 91; 94; 97; 45; 99; 93; 63; 92; 42] 11 [72; 101; 108; 108; 111; 42] 6 true = Some b /\
    (b = true <-> matches true [TLit 104; TStar; TClass true [CRange 97 99]; TAny; TLit 42] [72; 101; 108; 108; 111; 42]).
Proof.
  apply (stringmatchlen_correct [104; 42; 91; 94; 97; 45; 99; 93; 63; 92; 42] [72; 101; 108; 108; 111; 42] true).
  - vm_compute. reflexivity.
  - discriminate.
Defined.

(** ** Past the terminators *)

(** The only class body the grammar refuses ends in a backslash that escapes
    nothing.  On it the loop of the class steps over the terminator of the
    pattern and goes on from the position behind it. *)
Lemma class_loop_overrun nocase str s x : at_ str s = Some x -> forall fuel l pp matched,
  parse_items l = None -> (length l < fuel)%nat ->
  exists fuel' matched', (0 < fuel')%nat /\
    class_loop fuel (pp ++ l) (Zlen pp) (Zlen l) str s nocase matched =
      class_loop fuel' (pp ++ l) (Zlen (pp ++ l) + 1) (-1) str s nocase matched'.
Proof.
  intros Hx. induction fuel as [|fuel IH]; intros l pp matched Hp Hf; [lia|].
  assert (forall pre rest m, l = pre ++ rest -> pre <> [] -> parse_items rest = None ->
    exists fuel' matched', (0 < fuel')%nat /\
      class_loop fuel (pp ++ l) (Zlen pp + Zlen pre) (Zlen l - Zlen pre) str s nocase m =
      class_loop fuel' (pp ++ l) (Zlen (pp ++ l) + 1) (-1) str s nocase matched') as Hstep.
  { intros pre rest m -> Hne Hr. rewrite length_app in Hf.
    assert (1 <= length pre)%nat by (destruct pre; simpl; [done|lia]).
    destruct (IH rest (pp ++ pre) m Hr ltac:(lia)) as (f & m' & ? & E). exists f, m'.
    split; [done|].
    rewrite <- !app_assoc in E. rewrite <- E. f_equal; rewrite ?length_app; lia. }
  cbn [class_loop]. rewrite at_0, bind_Some.
  destruct l as [|c r]; [done|]. cbn [nth]. cbn [parse_items] in Hp.
  destruct (Z.eqb_spec c 92) as [->|H92].
  { rewrite at_1, bind_Some, Hx, bind_Some by done. destruct r as [|d r]; cbn [nth].
    - exists fuel, (matched || (0 =? x)). split; [simpl in Hf; lia|].
      replace (Zlen pp + 2) with (Zlen (pp ++ [92]) + 1) by (rewrite snoc_len; lia). done.
    - apply (Hstep [92; d] r); [done|done|]. by destruct (parse_items r) as [[]|]. }
  destruct (Z.eqb_spec c 93) as [->|H93]; [done|].
  destruct (Z.eqb_spec (Zlen (c :: r)) 0) as [E0|_]; [simpl in E0; lia|].
  rewrite at_1, bind_Some by done.
  destruct r as [|d [|e r']]; cbn [nth].
  - done.
  - rewrite andb_comm; simpl (3 <=? _); cbn [andb]. rewrite Hx, bind_Some.
    apply (Hstep [c] [d]); [done|done|]. by destruct (parse_items [d]) as [[]|].
  - destruct (Z.leb_spec 3 (Zlen (c :: d :: e :: r'))); [|simpl in *; lia].
    rewrite andb_true_r. destruct (Z.eqb_spec d 45) as [->|Hd].
    + pose proof (at_nth pp (c :: 45 :: e :: r') 2 ltac:(simpl; lia)) as A2. change (Z.of_nat 2) with 2 in A2.
      rewrite A2, bind_Some. cbn [nth]. rewrite Hx, bind_Some.
      apply (Hstep [c; 45; e] r'); [done|done|]. by destruct (parse_items r') as [[]|].
    + rewrite Hx, bind_Some. apply (Hstep [c] (d :: e :: r')); [done|done|].
      by destruct (parse_items (d :: e :: r')) as [[]|].
Qed.

Lemma at_past (l : list Z) : at_ l (Zlen l + 1) = None.
Proof. unfold at_. apply rd_None. right. rewrite length_app. simpl. lia. Qed.

(** A class at the start of the pattern, possibly negated. *)
Definition opening (neg : bool) : list Z := 91 :: if neg then [94] else [].

Definition class_start (neg : bool) (body : list Z) : Prop := neg = false -> head body <> Some 94.

Lemma class_switch rec neg body str s slen nocase : class_start neg body ->
  let pat := opening neg ++ body in
  match_switch rec pat 0 (Zlen pat) str s slen nocase =
    '(p, plen, matched) ← class_loop (S (S (length pat))) pat (Zlen (opening neg)) (Zlen body) str s nocase false;
    Some (if xorb neg matched then Break p plen (s + 1) (slen - 1) else Return false).
Proof.
  intros Hs pat. unfold match_switch.
  assert (at_ pat 0 = Some 91) as -> by apply (at_0 [] pat). rewrite bind_Some.
  change (91 =? 42) with false. change (91 =? 63) with false. change (91 =? 91) with true. cbv iota zeta.
  assert (at_ pat (0 + 1) = Some (if neg then 94 else nth 0 body 0)) as ->.
  { pose proof (at_0 [91] (tail pat)) as E. subst pat. by destruct neg. }
  rewrite bind_Some.
  assert (((if neg then 94 else nth 0 body 0) =? 94) = neg) as ->.
  { destruct neg; [done|]. apply Z.eqb_neq. destruct body as [|c body]; [done|]. simpl.
    intros ->. by apply Hs. }
  assert ((if neg then (0 + 1 + 1, Zlen pat - 1 - 1) else (0 + 1, Zlen pat - 1)) =
    (Zlen (opening neg), Zlen body)) as ->.
  { subst pat. rewrite length_app. destruct neg; simpl; f_equal; lia. }
  destruct (class_loop _ _ _ _ _ _ _ _) as [[[p plen] m]|]; [|done]. rewrite !bind_Some.
  by destruct neg, m.
Qed.

(** A literal that ends the pattern, tried with a negative length left: no
    match, or a read outside the string. *)
Lemma last_literal_negative fuel nocase pp d str s slen : (2 <= fuel)%nat -> d ∉ [42; 63; 91; 92] ->
  slen < 0 -> match_loop fuel (pp ++ [d]) str nocase (Zlen pp) 1 s slen =
    match at_ str s with Some _ => Some false | None => None end.
Proof.
  intros Hf Hd Hs. destruct fuel as [|[|fuel]]; [lia..|]. cbn [match_loop].
  change (1 =? 0) with false. cbv iota. unfold match_switch. rewrite at_0, bind_Some. cbn [nth].
  rewrite !not_elem_of_cons in Hd. destruct Hd as (H42 & H63 & H91 & H92 & _).
  rewrite (proj2 (Z.eqb_neq d 42)), (proj2 (Z.eqb_neq d 63)), (proj2 (Z.eqb_neq d 91)),
    (proj2 (Z.eqb_neq d 92)) by done. cbn [andb]. rewrite at_0, bind_Some. cbn [nth]. destruct (at_ str s) as [x|]; [|done].
  rewrite bind_Some. destruct (same nocase d x); [|done]. cbn [negb]. rewrite bind_Some. cbv zeta.
  destruct (Z.eqb_spec (slen - 1) 0); [lia|]. change (1 - 1 =? 0) with true. done.
Qed.

(** The star loop over the characters up to position [e], none of which ends
    the search, goes on at [e]. *)
Lemma star_loop_walk rec : forall n fuel s slen,
  (forall k, s <= k < s + Z.of_nat n -> rec k (slen - (k - s)) = Some false) -> slen < 0 ->
  star_loop (n + fuel) rec s slen = star_loop fuel rec (s + Z.of_nat n) (slen - Z.of_nat n).
Proof.
  induction n as [|n IH]; intros fuel s slen Hr Hs; [f_equal; simpl; lia|].
  cbn [Nat.add star_loop]. destruct (Z.eqb_spec slen 0); [lia|].
  pose proof (Hr s ltac:(lia)) as E. rewrite Z.sub_diag, Z.sub_0_r in E. rewrite E, bind_Some. cbv iota.
  rewrite IH; [f_equal; lia| |lia]. intros k Hk. rewrite <- (Hr k) by lia. f_equal. lia.
Qed.

Lemma at_in (l : list Z) i : 0 <= i <= Zlen l -> exists x, at_ l i = Some x.
Proof.
  intros Hi. unfold at_. replace i with (Z.of_nat (Z.to_nat i)) by lia. rewrite rd_lookup.
  apply lookup_lt_is_Some_2. rewrite length_app. simpl. lia.
Qed.

(** The empty string escapes the length check of the class: the remaining
    length becomes -1 and the star loop, which only stops at 0, tries every
    position from the byte behind the terminator on. *)
Lemma star_overrun nocase neg body its d t : parse_items body = Some (its, [42; d]) ->
  class_start neg body -> d ∉ [42; 63; 91; 92] ->
  xorb neg (existsb (item_ok nocase 0) its) = true ->
  let pat := opening neg ++ body in
  let str := 0 :: t in
  let rest := match_loop (length pat - 1) pat str nocase (Zlen pat - 1) 1 in
  stringmatchlen pat (Zlen pat) str 0 nocase = star_loop (S (length str)) rest 1 (-1) /\
  star_loop (S (length str)) rest 1 (-1) = star_loop 1 rest (Zlen str + 1) (- (Zlen str + 1)) /\
  rest (Zlen str + 1) (- (Zlen str + 1)) = None.
Proof.
  intros Hp Hs Hd Hneg pat str rest.
  destruct (class_loop_spec nocase str 0 0 eq_refl (S (S (length pat))) body (opening neg) false its [42; d] Hp)
    as (mid & q & Eb & Hq & E); [subst pat; rewrite length_app; lia|].
  assert (pat = ((opening neg ++ mid) ++ [42]) ++ [d]) as Epat.
  { subst pat. rewrite Eb, <- !app_assoc. done. }
  assert (length pat = length (opening neg ++ mid) + 2)%nat as Hlp by (rewrite Epat, !length_app; simpl; lia).
  assert (2 <= length pat - 1)%nat as Hl2 by (rewrite Hlp; destruct neg; simpl; lia).
  assert (Hrest : forall s slen, slen < 0 ->
    rest s slen = match at_ str s with Some _ => Some false | None => None end).
  { intros s slen Hsl. subst rest. rewrite Epat at 2. rewrite <- (last_literal_negative (length pat - 1) nocase
      ((opening neg ++ mid) ++ [42]) d str s slen) by done. f_equal. rewrite snoc_len. lia. }
  split_and!.
  - unfold stringmatchlen. cbn [match_loop].
    destruct (Z.eqb_spec (Zlen pat) 0) as [?|_]; [lia|].
    subst pat. rewrite class_switch, E, bind_Some by done. cbn [orb]. rewrite Hneg, bind_Some. cbv zeta.
    change (0 - 1 =? 0) with false. cbv iota.
    set (pat := opening neg ++ body) in *. destruct (length pat) as [|fuel] eqn:Ef; [lia|].
    cbn [match_loop]. change (Zlen [42; d] + 1 - 1 =? 0) with false. cbv iota. unfold match_switch.
    rewrite Hq. assert (at_ pat (Zlen (opening neg ++ mid)) = Some 42) as ->.
    { rewrite Epat, <- app_assoc. apply at_0. }
    rewrite bind_Some. change (42 =? 42) with true. cbv iota.
    destruct (last_star_spec [d] (S (length pat)) (opening neg ++ mid)) as (k & r & Er & Hr & El); [simpl; lia|].
    assert (k = 0%nat /\ r = [d]) as [-> ->].
    { destruct k as [|k]; [done|]. injection Er as -> _. set_solver. }
    assert ((opening neg ++ mid) ++ [42; d] = pat) as Epat' by (rewrite Epat, <- !app_assoc; done).
    rewrite Epat' in El. change (Zlen [42; d]) with 2 in El |- *.
    change (2 + 1 - 1) with 2. rewrite El, bind_Some. change (2 =? 1) with false. cbv iota.
    change (Z.of_nat 0) with 0. rewrite Z.add_0_r. change (2 - 1) with 1. change (0 + 1) with 1. change (0 - 1) with (-1).
    subst rest. replace (S fuel - 1)%nat with fuel by lia.
    replace (Z.of_nat (S fuel) - 1) with (Zlen (opening neg ++ mid) + 1) by lia.
    by destruct (star_loop _ _ _ _).
  - replace (S (length str)) with (length str + 1)%nat by lia. rewrite star_loop_walk; [|..|lia].
    + f_equal; lia.
    + intros k Hk. rewrite Hrest by lia. destruct (at_in str k) as (x & ->); [lia|done].
  - rewrite Hrest by lia. by rewrite at_past.
Qed.

(** C37. Two ways past a terminator, for every pattern and string of the kind.
    (1) A pattern that opens a class, possibly negated, which the grammar
    refuses, that is whose items end in a backslash that escapes nothing: on
    any string the loop of the class passes the terminator of the pattern and
    is at a position outside the pattern with fuel left, where it reads.
    (2) A pattern of a class that accepts the NUL byte, a star and a last
    literal, on an empty string, whatever bytes [t] lie behind its terminator:
    the class takes the terminator for a character, the remaining length goes
    to -1, and the star loop tries every position of that memory until it reads
    past its end, so no amount of memory is enough. *)
Theorem stringmatchlen_overruns nocase neg body : class_start neg body ->
  let pat := opening neg ++ body in
  (forall str, parse_items body = None ->
    (exists fuel matched, (0 < fuel)%nat /\
       class_loop (S (S (length pat))) pat (Zlen (opening neg)) (Zlen body) str 0 nocase false =
       class_loop fuel pat (Zlen pat + 1) (-1) str 0 nocase matched) /\
    at_ pat (Zlen pat + 1) = None /\ stringmatch pat str nocase = None) /\
  (forall its d t, parse_items body = Some (its, [42; d]) -> d ∉ [42; 63; 91; 92] ->
    xorb neg (existsb (item_ok nocase 0) its) = true ->
    let str := 0 :: t in
    let rest := match_loop (length pat - 1) pat str nocase (Zlen pat - 1) 1 in
    star_loop (S (length str)) rest 1 (-1) = star_loop 1 rest (Zlen str + 1) (- (Zlen str + 1)) /\
    at_ str (Zlen str + 1) = None /\ stringmatchlen pat (Zlen pat) str 0 nocase = None).
Proof.
  intros Hs pat. split.
  - intros str Hp. destruct (at_in str 0 ltac:(lia)) as (x & Hx).
    destruct (class_loop_overrun nocase str 0 x Hx (S (S (length pat))) body (opening neg) false Hp)
      as (fuel & m & Hf & E); [subst pat; rewrite length_app; lia|].
    fold pat in E. split_and!; [by exists fuel, m|apply at_past|].
    unfold stringmatch, stringmatchlen. cbn [match_loop].
    destruct (Z.eqb_spec (Zlen pat) 0) as [E0|_]; [done|].
    subst pat. rewrite class_switch, E by done. destruct fuel as [|fuel]; [lia|]. cbn [class_loop].
    by rewrite at_past.
  - intros its d t Hp Hd Hn str rest.
    destruct (star_overrun nocase neg body its d t Hp Hs Hd Hn) as (E1 & E2 & E3).
    fold pat str in E1, E2, E3. fold rest in E1, E2, E3. split_and!; [done|apply at_past|].
    rewrite E1, E2. cbn [star_loop]. destruct (Z.eqb_spec (- (Zlen str + 1)) 0); [lia|]. by rewrite E3.
Qed.

(** The patterns "[a-z\" on "q", and "[^a]*b" on an empty string that lies in
    front of four bytes, a b among them. *)
Lemma stringmatchlen_overruns_witness :
  stringmatch [91; 97; 45; 122; 92] [113] false = None /\
  stringmatchlen [91; 94; 97; 93; 42; 98] 6 [0; 120; 98; 7; 0] 0 true = None.
Proof.
  split.
  - refine (proj2 (proj2 (proj1 (stringmatchlen_overruns false false [97; 45; 122; 92] _) [113] _))).
    + by intros _ [=].
    + reflexivity.
  - refine (proj2 (proj2 (proj2 (stringmatchlen_overruns true true [97; 93; 42; 98] _) [CChar 97] 98
      [120; 98; 7; 0] _ _ _))).
    + by intros [=].
    + reflexivity.
    + set_solver.
    + reflexivity.
Defined.
