(* ===== verification/Zipmap.v ===== *)
(** String to string maps in one memory block: [zipmap.c].

    The zipmap is a [block]; pointers into it are offsets.  [unsigned int]
    computations wrap at 32 bits.  Keys and values are byte lists whose lengths
    are the [klen] and [vlen] arguments. *)

From S2P Require Import Prelude Endian.

Section Zipmap.
Context {HOST : Host}.

Definition ZIPMAP_BIGLEN : Z := 254.
Definition ZIPMAP_END : Z := 255.
Definition ZIPMAP_VALUE_MAX_FREE : Z := 4.

(** Also [zipmapEncodeLength] with a NULL pointer. *)
Definition ZIPMAP_LEN_BYTES (l : Z) : Z := if l <? ZIPMAP_BIGLEN then 1 else 4 + 1.

Definition zipmapNew : option block :=
  zm ← store8 (malloc 2) 0 0; store8 zm 1 ZIPMAP_END.

Definition zipmapDecodeLength (zm : block) (p : Z) : option Z :=
  len ← load8 zm p;
  if len <? ZIPMAP_BIGLEN then Some len else
  len ← load zm (p + 1) 4; len ← memrev32ifbe len; Some (host_val len).

(** With a non-NULL pointer. *)
Definition zipmapEncodeLength (zm : block) (p len : Z) : option (block * Z) :=
  if len <? ZIPMAP_BIGLEN then zm ← store8 zm p len; Some (zm, 1) else
  zm ← store8 zm p ZIPMAP_BIGLEN;
  zm ← store zm (p + 1) (host_bytes 4 len);
  bs ← load zm (p + 1) 4; bs ← memrev32ifbe bs; zm ← store zm (p + 1) bs;
  Some (zm, 1 + 4).

(** [memcmp(p,key,l) == 0] *)
Definition key_at (zm : block) (p : Z) (key : list Z) : option bool :=
  bs ← load zm p (Zlen key); Some (bool_decide (bs = key)).

(** [while( *p != ZIPMAP_END)]: [p] and [k] at its end, or the early return. *)
Fixpoint lookup_loop (fuel : nat) (zm : block) (key : option (list Z)) (totlen : bool) (p : Z) (k : option Z)
    : option (Z * option Z) :=
  match fuel with
  | O => None
  | S fuel =>
    c ← load8 zm p;
    if c =? ZIPMAP_END then Some (p, k) else
    l ← zipmapDecodeLength zm p;
    let llen := ZIPMAP_LEN_BYTES l in
    found ← match key, k with
            | Some key, None => if l =? Zlen key then key_at zm (p + llen) key else Some false
            | _, _ => Some false
            end;
    if (found : bool) && negb totlen then Some (p, Some p) else
    let k := if found then Some p else k in
    let p := p + u32 (llen + l) in
    l ← zipmapDecodeLength zm p;
    let p := p + ZIPMAP_LEN_BYTES l in
    free ← load8 zm p;
    let p := p + u32 (l + 1 + free) in
    lookup_loop fuel zm key totlen p k
  end.

(** The entry of the key, or NULL, and the total length when asked for. *)
Definition zipmapLookupRaw (zm : block) (key : option (list Z)) (totlen : bool) : option (option Z * Z) :=
  '(p, k) ← lookup_loop (length zm) zm key totlen 1 None;
  Some (k, u32 (u32 p + 1)).

Definition zipmapRequiredLength (klen vlen : Z) : Z :=
  let l := u32 (klen + vlen + 3) in
  let l := if ZIPMAP_BIGLEN <=? klen then u32 (l + 4) else l in
  if ZIPMAP_BIGLEN <=? vlen then u32 (l + 4) else l.

Definition zipmapRawKeyLength (zm : block) (p : Z) : option Z :=
  l ← zipmapDecodeLength zm p; Some (u32 (ZIPMAP_LEN_BYTES l + l)).

Definition zipmapRawValueLength (zm : block) (p : Z) : option Z :=
  l ← zipmapDecodeLength zm p;
  let used := ZIPMAP_LEN_BYTES l in
  free ← load8 zm (p + used);
  Some (u32 (used + u32 (free + 1 + l))).

Definition zipmapRawEntryLength (zm : block) (p : Z) : option Z :=
  l ← zipmapRawKeyLength zm p; l2 ← zipmapRawValueLength zm (p + l); Some (u32 (l + l2)).

Definition zipmapResize (zm : block) (len : Z) : option block :=
  store8 (zrealloc zm len) (u32 (len - 1)) ZIPMAP_END.

(** The first part of [zipmapSet]: room for the entry at [p]; the block, [p],
    [zmlen], [freelen] and [update]. *)
Definition set_room (zm : block) (key : list Z) (reqlen : Z) : option (block * Z * Z * Z * bool) :=
  '(p, zmlen) ← zipmapLookupRaw zm (Some key) true;
  match p with
  | None =>
    zm ← zipmapResize zm (u32 (zmlen + reqlen));
    let p := zmlen - 1 in
    let zmlen := u32 (zmlen + reqlen) in
    n ← load8 zm 0;
    zm ← (if n <? ZIPMAP_BIGLEN then store8 zm 0 (n + 1) else Some zm);
    Some (zm, p, zmlen, reqlen, false)
  | Some p =>
    freelen ← zipmapRawEntryLength zm p;
    if freelen <? reqlen then
      let offset := p in
      zm ← zipmapResize zm (u32 (zmlen - freelen + reqlen));
      zm ← memmove zm (p + reqlen) (p + freelen) (u32 (zmlen - (offset + freelen + 1)));
      Some (zm, p, u32 (zmlen - freelen + reqlen), reqlen, true)
    else Some (zm, p, zmlen, freelen, true)
  end.

(** The last part: the entry is written at [p]. *)
Definition write_entry (zm : block) (p : Z) (key val : list Z) (vempty : Z) : option block :=
  '(zm, n) ← zipmapEncodeLength zm p (Zlen key);
  let p := p + n in
  zm ← store zm p key;
  let p := p + Zlen key in
  '(zm, n) ← zipmapEncodeLength zm p (Zlen val);
  let p := p + n in
  zm ← store8 zm p vempty;
  store zm (p + 1) val.

(** The zipmap and [update]. *)
Definition zipmapSet (zm : block) (key val : list Z) : option (block * bool) :=
  let reqlen := zipmapRequiredLength (Zlen key) (Zlen val) in
  '(zm, p, zmlen, freelen, update) ← set_room zm key reqlen;
  let empty := u32 (freelen - reqlen) in
  '(zm, vempty) ← (if ZIPMAP_VALUE_MAX_FREE <=? empty then
      let offset := p in
      zm ← memmove zm (p + reqlen) (p + freelen) (u32 (zmlen - (offset + freelen + 1)));
      zm ← zipmapResize zm (u32 (zmlen - empty));
      Some (zm, 0)
    else Some (zm, empty));
  zm ← write_entry zm p key val vempty;
  Some (zm, update).

(** The zipmap and [deleted]. *)
Definition zipmapDel (zm : block) (key : list Z) : option (block * bool) :=
  '(p, zmlen) ← zipmapLookupRaw zm (Some key) true;
  match p with
  | Some p =>
    freelen ← zipmapRawEntryLength zm p;
    zm ← memmove zm p (p + freelen) (u32 (zmlen - (p + freelen + 1)));
    zm ← zipmapResize zm (u32 (zmlen - freelen));
    n ← load8 zm 0;
    zm ← (if n <? ZIPMAP_BIGLEN then store8 zm 0 (n - 1) else Some zm);
    Some (zm, true)
  | None => Some (zm, false)
  end.

Definition zipmapRewind : Z := 1.

(** Key pointer and length, value pointer and length, the next entry; or NULL. *)
Definition zipmapNext (zm : block) (p : Z) : option (option (Z * Z * Z * Z * Z)) :=
  c ← load8 zm p;
  if c =? ZIPMAP_END then Some None else
  klen ← zipmapDecodeLength zm p;
  let key := p + ZIPMAP_LEN_BYTES klen in
  l ← zipmapRawKeyLength zm p;
  let p := p + l in
  vlen ← zipmapDecodeLength zm p;
  let value := p + 1 + ZIPMAP_LEN_BYTES vlen in
  l ← zipmapRawValueLength zm p;
  Some (Some (key, klen, value, vlen, p + l)).

(** Value pointer and length. *)
Definition zipmapGet (zm : block) (key : list Z) : option (option (Z * Z)) :=
  '(p, _) ← zipmapLookupRaw zm (Some key) false;
  match p with
  | None => Some None
  | Some p =>
    l ← zipmapRawKeyLength zm p;
    let p := p + l in
    vlen ← zipmapDecodeLength zm p;
    Some (Some (p + ZIPMAP_LEN_BYTES vlen + 1, vlen))
  end.

Definition zipmapExists (zm : block) (key : list Z) : option bool :=
  '(p, _) ← zipmapLookupRaw zm (Some key) false;
  Some (bool_decide (is_Some p)).

(** [while((p = zipmapNext(p,...)) != NULL) len++;] *)
Fixpoint len_loop (fuel : nat) (zm : block) (p len : Z) : option Z :=
  match fuel with
  | O => None
  | S fuel =>
    r ← zipmapNext zm p;
    match r with
    | None => Some len
    | Some (_, _, _, _, p) => len_loop fuel zm p (u32 (len + 1))
    end
  end.

(** The length, and the block, whose count is stored again when it fits. *)
Definition zipmapLen (zm : block) : option (Z * block) :=
  n ← load8 zm 0;
  if n <? ZIPMAP_BIGLEN then Some (n, zm) else
  len ← len_loop (length zm) zm zipmapRewind 0;
  zm ← (if len <? ZIPMAP_BIGLEN then store8 zm 0 len else Some zm);
  Some (len, zm).

Definition zipmapBlobLen (zm : block) : option Z :=
  '(_, totlen) ← zipmapLookupRaw zm None true; Some totlen.

(** ** The layout *)

Record entry := Entry { e_key : list Z; e_val : list Z; e_free : block }.

Definition enc_len (l : Z) : list Z := if l <? 254 then [l] else 254 :: le_bytes 4 l.

(** The written part of an entry. *)
Definition enc_kv (k v : list Z) (free : Z) : list Z :=
  enc_len (Zlen k) ++ k ++ enc_len (Zlen v) ++ [free] ++ v.

Definition enc_entry (e : entry) : block := (Some <$> enc_kv (e_key e) (e_val e) (Zlen (e_free e))) ++ e_free e.
Definition body (es : list entry) : block := concat (enc_entry <$> es).

Definition entry_ok (e : entry) : Prop := Forall is_byte (e_key e) /\ Forall is_byte (e_val e) /\ Zlen (e_free e) < 4.

(** [c] is the count byte; once at 254 it only says that the length is unknown. *)
Definition zip_ok (zm : block) (es : list entry) : Prop :=
  exists c, zm = Some c :: body es ++ [Some 255] /\ Forall entry_ok es /\ NoDup (e_key <$> es) /\
    (0 <= c < 254 /\ c = Zlen es \/ c = 254).

Lemma len_bytes_eq l : ZIPMAP_LEN_BYTES l = Zlen (enc_len l).
Proof. unfold ZIPMAP_LEN_BYTES, enc_len, ZIPMAP_BIGLEN. by destruct (l <? 254). Qed.

Lemma enc_len_range l : 1 <= Zlen (enc_len l) <= 5.
Proof. unfold enc_len. destruct (l <? 254); cbn [length]; rewrite ?length_le_bytes; lia. Qed.

Lemma decode_spec (A C : block) l p : p = Zlen A -> 0 <= l < 2 ^ 32 ->
  zipmapDecodeLength (A ++ (Some <$> enc_len l) ++ C) p = Some l.
Proof.
  intros -> Hl. unfold zipmapDecodeLength, enc_len, ZIPMAP_BIGLEN. destruct (Z.ltb_spec l 254).
  - cbn [fmap list_fmap app]. rewrite load8_app, bind_Some by done. by destruct (Z.ltb_spec l 254); [|lia].
  - cbn [fmap list_fmap app]. rewrite load8_app, bind_Some by done. change (254 <? 254) with false. cbv iota.
    change (Some <$> le_bytes 4 l) with (Some <$> le_bytes 4 l).
    replace (A ++ Some 254 :: (Some <$> le_bytes 4 l) ++ C) with ((A ++ [Some 254]) ++ (Some <$> le_bytes 4 l) ++ C)
      by (by rewrite <- app_assoc).
    rewrite load_app, bind_Some by (rewrite ?snoc_len, ?length_le_bytes; done).
    pose proof (memrevifbe_val 4 (le_bytes 4 l) memrev32 memrev32_rev (length_le_bytes _ _)) as HR.
    unfold memrev32ifbe. destruct (if big_endian then _ else _) as [x|]; [|done]. rewrite bind_Some. cbn in HR. simplify_eq.
    rewrite HR, le_val_bytes. f_equal. by apply Z.mod_small.
Qed.

Lemma encode_spec (A B C : block) l p : p = Zlen A -> 0 <= l < 2 ^ 32 -> length B = length (enc_len l) ->
  zipmapEncodeLength (A ++ B ++ C) p l = Some (A ++ (Some <$> enc_len l) ++ C, Zlen (enc_len l)).
Proof.
  intros -> Hl HB. unfold zipmapEncodeLength, enc_len, ZIPMAP_BIGLEN in *. destruct (Z.ltb_spec l 254).
  - destruct B as [|b [|]]; [done| |done]. cbn [app]. rewrite store8_app by (unfold is_byte; done || lia). by rewrite bind_Some.
  - destruct B as [|b B]; [done|]. cbn [length] in HB. rewrite length_le_bytes in HB. injection HB as HB.
    cbn [app]. rewrite store8_app, bind_Some by done.
    replace (A ++ Some 254 :: B ++ C) with ((A ++ [Some 254]) ++ B ++ C) by (by rewrite <- app_assoc).
    rewrite store_app, bind_Some by (rewrite ?snoc_len, ?length_host_bytes; done).
    rewrite load_app, bind_Some by (rewrite ?snoc_len, ?length_host_bytes; done).
    pose proof (memrevifbe_bytes 4 l memrev32 memrev32_rev) as HR. unfold memrev32ifbe. rewrite HR, bind_Some.
    rewrite store_app, bind_Some by (rewrite ?snoc_len, ?length_fmap, ?length_host_bytes, ?length_le_bytes; done).
    rewrite <- app_assoc. cbn [fmap list_fmap app length]. by rewrite length_le_bytes.
Qed.

Lemma length_enc_kv k v f : Zlen (enc_kv k v f) = Zlen (enc_len (Zlen k)) + Zlen k + Zlen (enc_len (Zlen v)) + 1 + Zlen v.
Proof. unfold enc_kv. rewrite !length_app. cbn [length]. lia. Qed.

Lemma length_enc_entry e : Zlen (enc_entry e) = Zlen (enc_kv (e_key e) (e_val e) (Zlen (e_free e))) + Zlen (e_free e).
Proof. unfold enc_entry. rewrite length_app, length_fmap. lia. Qed.

Lemma required_spec k v f : Zlen (enc_kv k v f) < 2 ^ 32 -> zipmapRequiredLength (Zlen k) (Zlen v) = Zlen (enc_kv k v f).
Proof.
  rewrite length_enc_kv. unfold zipmapRequiredLength, enc_len, ZIPMAP_BIGLEN. intros H.
  destruct (Z.ltb_spec (Zlen k) 254), (Z.leb_spec 254 (Zlen k)), (Z.ltb_spec (Zlen v) 254), (Z.leb_spec 254 (Zlen v)); try lia;
    cbn [length] in *; rewrite ?length_le_bytes in *; rewrite (wrapu_id 32 (Zlen k + Zlen v + 3)) by lia;
    rewrite ?(wrapu_id 32 (Zlen k + Zlen v + 3 + 4)) by lia; rewrite ?(wrapu_id 32 (Zlen k + Zlen v + 3 + 4 + 4)) by lia; lia.
Qed.

(** *** Decoding an entry *)

Section Entry.
Context (A C : block) (e : entry) (zm : block) (Ezm : zm = A ++ enc_entry e ++ C) (Hsz : Zlen zm < 2 ^ 32) (He : entry_ok e).

Lemma entry_sizes : Zlen A + Zlen (enc_entry e) + Zlen C < 2 ^ 32.
Proof. rewrite Ezm, !length_app in Hsz. lia. Qed.

Lemma entry_key_len : zipmapDecodeLength zm (Zlen A) = Some (Zlen (e_key e)).
Proof.
  pose proof entry_sizes as Hs. rewrite length_enc_entry, length_enc_kv in Hs. rewrite Ezm. unfold enc_entry, enc_kv.
  rewrite fmap_app, <- !app_assoc. apply decode_spec; lia.
Qed.

Lemma entry_val_len : zipmapDecodeLength zm (Zlen A + (Zlen (enc_len (Zlen (e_key e))) + Zlen (e_key e))) = Some (Zlen (e_val e)).
Proof.
  pose proof entry_sizes as Hs. rewrite length_enc_entry, length_enc_kv in Hs. rewrite Ezm. unfold enc_entry, enc_kv.
  rewrite !fmap_app, <- !app_assoc. rewrite (app_assoc A), (app_assoc (A ++ _)).
  apply decode_spec; [rewrite !length_app, !length_fmap; lia|lia].
Qed.

Lemma entry_free : load8 zm (Zlen A + (Zlen (enc_len (Zlen (e_key e))) + Zlen (e_key e)) + Zlen (enc_len (Zlen (e_val e)))) =
  Some (Zlen (e_free e)).
Proof.
  rewrite Ezm. unfold enc_entry, enc_kv. rewrite !fmap_app, <- !app_assoc. rewrite (app_assoc A), (app_assoc (A ++ _)), (app_assoc ((A ++ _) ++ _)).
  apply load8_app. rewrite !length_app, !length_fmap. lia.
Qed.

Lemma entry_raw_key : zipmapRawKeyLength zm (Zlen A) = Some (Zlen (enc_len (Zlen (e_key e))) + Zlen (e_key e)).
Proof.
  pose proof entry_sizes as Hs. rewrite length_enc_entry, length_enc_kv in Hs.
  unfold zipmapRawKeyLength. rewrite entry_key_len, bind_Some, len_bytes_eq. f_equal. apply wrapu_id. lia.
Qed.

Lemma entry_raw_val : zipmapRawValueLength zm (Zlen A + (Zlen (enc_len (Zlen (e_key e))) + Zlen (e_key e))) =
  Some (Zlen (enc_len (Zlen (e_val e))) + (1 + Zlen (e_val e) + Zlen (e_free e))).
Proof.
  pose proof entry_sizes as Hs. rewrite length_enc_entry, length_enc_kv in Hs.
  unfold zipmapRawValueLength. rewrite entry_val_len, bind_Some. rewrite len_bytes_eq, entry_free, bind_Some. f_equal.
  rewrite (wrapu_id 32 (Zlen (e_free e) + 1 + Zlen (e_val e))) by lia. rewrite (wrapu_id 32); lia.
Qed.

Lemma entry_raw : zipmapRawEntryLength zm (Zlen A) = Some (Zlen (enc_entry e)).
Proof.
  pose proof entry_sizes as Hs. rewrite length_enc_entry, length_enc_kv in Hs.
  unfold zipmapRawEntryLength. rewrite entry_raw_key, bind_Some, entry_raw_val, bind_Some. f_equal.
  rewrite (wrapu_id 32), length_enc_entry, length_enc_kv; lia.
Qed.

Lemma entry_head : exists c, load8 zm (Zlen A) = Some c /\ (c =? ZIPMAP_END) = false.
Proof.
  rewrite Ezm. unfold enc_entry, enc_kv, enc_len. destruct (Z.ltb_spec (Zlen (e_key e)) 254).
  - exists (Zlen (e_key e)). cbn [app fmap list_fmap]. rewrite load8_app by done. split; [done|].
    apply Z.eqb_neq. unfold ZIPMAP_END. lia.
  - exists 254. cbn [app fmap list_fmap]. by rewrite load8_app by done.
Qed.

Lemma entry_key key : key_at zm (Zlen A + Zlen (enc_len (Zlen (e_key e)))) key = Some (bool_decide (e_key e = key)) \/
  Zlen key <> Zlen (e_key e).
Proof.
  destruct (decide (Zlen key = Zlen (e_key e))) as [El|]; [left|by right].
  unfold key_at. rewrite El, Ezm. unfold enc_entry, enc_kv. rewrite !fmap_app, <- !app_assoc, (app_assoc A).
  rewrite load_app; [done| |done]. rewrite length_app, length_fmap. lia.
Qed.
End Entry.

(** One iteration of the lookup on an entry. *)
Lemma lookup_step fuel A C e zm key totlen k : zm = A ++ enc_entry e ++ C -> Zlen zm < 2 ^ 32 -> entry_ok e ->
  lookup_loop (S fuel) zm key totlen (Zlen A) k =
    let found := match key, k with Some key, None => bool_decide (e_key e = key) | _, _ => false end in
    if found && negb totlen then Some (Zlen A, Some (Zlen A))
    else lookup_loop fuel zm key totlen (Zlen (A ++ enc_entry e)) (if found then Some (Zlen A) else k).
Proof.
  intros Ezm Hsz He. cbn [lookup_loop]. destruct (entry_head A C e zm Ezm) as (c & -> & Hc). rewrite bind_Some, Hc.
  pose proof (entry_sizes A C e zm Ezm Hsz) as Hs. rewrite length_enc_entry, length_enc_kv in Hs.
  rewrite (entry_key_len A C e zm Ezm Hsz), bind_Some, len_bytes_eq.
  set (found := match key, k with Some key, None => bool_decide (e_key e = key) | _, _ => false end).
  assert ((match key, k with
    | Some key, None => if Zlen (e_key e) =? Zlen key then key_at zm (Zlen A + Zlen (enc_len (Zlen (e_key e)))) key else Some false
    | _, _ => Some false end) = Some found) as ->.
  { subst found. destruct key as [key|]; [|done]. destruct k; [done|].
    destruct (entry_key A C e zm Ezm key) as [->|Hne].
    - destruct (Z.eqb_spec (Zlen (e_key e)) (Zlen key)); [done|]. rewrite bool_decide_eq_false_2; [done|congruence].
    - destruct (Z.eqb_spec (Zlen (e_key e)) (Zlen key)); [lia|]. rewrite bool_decide_eq_false_2; [done|congruence]. }
  clearbody found. rewrite bind_Some. cbv zeta. destruct (found && negb totlen); [done|].
  rewrite (wrapu_id 32) by lia. rewrite (entry_val_len A C e zm Ezm Hsz), bind_Some, len_bytes_eq.
  rewrite (entry_free A C e zm Ezm), bind_Some. rewrite (wrapu_id 32) by lia.
  f_equal. rewrite length_app. rewrite Nat2Z.inj_add, length_enc_entry, length_enc_kv. lia.
Qed.

(** *** Lookup *)

Lemma body_app es1 es2 : body (es1 ++ es2) = body es1 ++ body es2.
Proof. unfold body. by rewrite fmap_app, concat_app. Qed.

Lemma body_cons e es : body (e :: es) = enc_entry e ++ body es.
Proof. done. Qed.

Lemma entry_len_pos e : 4 <= Zlen (enc_entry e) + 1.
Proof.
  rewrite length_enc_entry, length_enc_kv. pose proof (enc_len_range (Zlen (e_key e))). pose proof (enc_len_range (Zlen (e_val e))). lia.
Qed.

Lemma body_len es : Zlen es <= Zlen (body es).
Proof.
  induction es as [|e es IH]; [done|]. rewrite body_cons, length_app. cbn [length]. pose proof (entry_len_pos e). lia.
Qed.

(** Entries that cannot be the result are passed over. *)
Lemma lookup_skip key totlen k zm C es : forall fuel A, zm = A ++ body es ++ C -> Zlen zm < 2 ^ 32 -> Forall entry_ok es ->
  match key, k with Some key, None => key ∉ e_key <$> es | _, _ => True end ->
  lookup_loop (length es + fuel) zm key totlen (Zlen A) k = lookup_loop fuel zm key totlen (Zlen (A ++ body es)) k.
Proof.
  induction es as [|e es IH]; intros fuel A Ezm Hsz Hok Hk; [by rewrite app_nil_r|].
  inversion_clear Hok as [|? ? He Hes]. rewrite body_cons in *. cbn [length Nat.add].
  rewrite (lookup_step _ A (body es ++ C) e zm) by (done || (rewrite Ezm, <- ?app_assoc; done)).
  assert (match key, k with Some key, None => bool_decide (e_key e = key) | _, _ => false end = false) as ->.
  { destruct key as [key|]; [|done]. destruct k; [done|]. apply bool_decide_eq_false_2. intros <-. apply Hk. cbn. left. }
  cbn [andb]. cbv zeta. rewrite (IH fuel (A ++ enc_entry e)).
  - by rewrite <- app_assoc.
  - by rewrite Ezm, <- !app_assoc.
  - done.
  - done.
  - destruct key as [key|]; [|done]. destruct k; [done|]. intros Hin. apply Hk. cbn. by right.
Qed.

Lemma lookup_end fuel A zm key totlen k : zm = A ++ [Some 255] ->
  lookup_loop (S fuel) zm key totlen (Zlen A) k = Some (Zlen A, k).
Proof. intros ->. cbn [lookup_loop]. by rewrite load8_app, bind_Some by done. Qed.

Lemma zip_len c es : Zlen (Some c :: body es ++ [Some 255]) = Zlen (body es) + 2.
Proof. cbn [length]. rewrite length_app. cbn [length]. lia. Qed.

(** With enough fuel for the entries. *)
Lemma zip_fuel c es : exists fuel, length (Some c :: body es ++ [Some 255]) = (length es + S fuel)%nat.
Proof.
  exists (length (Some c :: body es ++ [Some 255%Z]) - length es - 1)%nat. pose proof (body_len es). pose proof (zip_len c es). lia.
Qed.

Lemma lookup_missing c es key totlen : Zlen (Some c :: body es ++ [Some 255]) < 2 ^ 32 -> Forall entry_ok es ->
  (forall k, key = Some k -> k ∉ e_key <$> es) ->
  zipmapLookupRaw (Some c :: body es ++ [Some 255]) key totlen = Some (None, Zlen (Some c :: body es ++ [Some 255])).
Proof.
  intros Hsz Hok Hk. unfold zipmapLookupRaw. destruct (zip_fuel c es) as (fuel & Ef).
  set (zm := Some c :: body es ++ [Some 255]) in *. rewrite Ef at 1.
  pose proof (lookup_skip key totlen None zm [Some 255] es (S fuel) [Some c] eq_refl Hsz Hok ltac:(destruct key; auto)) as E.
  change (Zlen [Some c]) with 1 in E. rewrite E.
  rewrite lookup_end by done. rewrite bind_Some. do 2 f_equal. pose proof (zip_len c es) as HL. fold zm in HL. clearbody zm.
  cbn [app length]. rewrite (wrapu_id 32 (Z.of_nat (S (length (body es))))) by lia. rewrite (wrapu_id 32); lia.
Qed.

Lemma lookup_found c es1 e es2 totlen es zm : es = es1 ++ e :: es2 -> zm = Some c :: body es ++ [Some 255] ->
  Zlen zm < 2 ^ 32 -> Forall entry_ok es -> NoDup (e_key <$> es) ->
  exists n, zipmapLookupRaw zm (Some (e_key e)) totlen = Some (Some (1 + Zlen (body es1)), n) /\ (totlen = true -> n = Zlen zm).
Proof.
  intros -> Ez Hsz Hok Hnd. rewrite fmap_app in Hnd. cbn in Hnd. apply NoDup_app in Hnd as (_ & Hnd1 & Hnd2).
  apply Forall_app in Hok as [Hok1 Hok]. inversion_clear Hok as [|? ? He Hok2].
  assert (e_key e ∉ e_key <$> es1) as Hn1 by (intros Hin; apply (Hnd1 _ Hin); left).
  unfold zipmapLookupRaw. destruct (zip_fuel c (es1 ++ e :: es2)) as (fuel & Ef). rewrite <- Ez in Ef. rewrite Ef.
  assert (zm = [Some c] ++ body es1 ++ enc_entry e ++ body es2 ++ [Some 255]) as Ezm
    by (rewrite Ez, body_app, body_cons, <- !app_assoc; done).
  rewrite length_app. cbn [length]. replace (length es1 + S (length es2) + S fuel)%nat with (length es1 + S (length es2 + S fuel))%nat by lia.
  pose proof (lookup_skip (Some (e_key e)) totlen None zm (enc_entry e ++ body es2 ++ [Some 255]) es1 (S (length es2 + S fuel))
    [Some c] Ezm Hsz Hok1 Hn1) as E. change (Zlen [Some c]) with 1 in E. rewrite E.
  rewrite (lookup_step _ _ (body es2 ++ [Some 255]) e zm) by (done || (rewrite Ezm, <- ?app_assoc; done)).
  rewrite bool_decide_eq_true_2 by done. cbn [andb]. cbv zeta.
  destruct totlen; cbn [negb].
  - rewrite (lookup_skip _ true (Some _) zm [Some 255] es2) by (done || (rewrite Ezm, <- ?app_assoc; done)).
    rewrite lookup_end by (rewrite Ezm, <- !app_assoc; done). rewrite bind_Some. eexists. split; [do 3 f_equal; rewrite length_app; simpl; lia|].
    intros _. pose proof (f_equal length Ezm) as HL. rewrite !length_app in HL |- *. simpl in HL |- *.
    rewrite !length_app in HL, Ef. simpl in HL, Ef. rewrite (wrapu_id 32 (Z.of_nat _)) by lia. rewrite (wrapu_id 32); lia.
  - rewrite bind_Some. eexists. split; [|intros ?; discriminate]. do 3 f_equal. rewrite length_app. simpl. lia.
Qed.

(** *** Resizing and writing *)

Lemma zip_resize_grow (X : block) z n : 0 <= n -> Zlen X + 1 + n < 2 ^ 32 ->
  exists J, Zlen J = n /\ zipmapResize (X ++ [z]) (Zlen X + 1 + n) = Some (X ++ J ++ [Some 255]).
Proof.
  intros Hn Hsz. unfold zipmapResize. rewrite zrealloc_grow by (rewrite snoc_len; lia). rewrite snoc_len.
  replace (Zlen X + 1 + n - (Zlen X + 1)) with n by lia. rewrite (wrapu_id 32) by lia.
  destruct (Z.eq_dec n 0) as [->|Hn0].
  - exists []. split; [done|]. rewrite app_nil_r. cbn [app]. by rewrite store8_app by (unfold is_byte, ZIPMAP_END; lia).
  - exists (z :: replicate (Z.to_nat n - 1) None). split; [cbn [length]; rewrite length_replicate; lia|].
    replace (Z.to_nat n) with (Z.to_nat n - 1 + 1)%nat at 1 by lia. rewrite replicate_add.
    replace ((X ++ [z]) ++ replicate (Z.to_nat n - 1) None ++ replicate 1 None) with
      ((X ++ z :: replicate (Z.to_nat n - 1) None) ++ None :: []) by (by rewrite <- !app_assoc).
    rewrite store8_app; [by rewrite <- app_assoc| |done]. rewrite length_app. cbn [length]. rewrite length_replicate. lia.
Qed.

Lemma resize_shrink (X Y : block) : Y <> [] -> Zlen X + 1 < 2 ^ 32 ->
  zipmapResize (X ++ Y) (Zlen X + 1) = Some (X ++ [Some 255]).
Proof.
  intros HY Hsz. destruct Y as [|y Y]; [done|]. unfold zipmapResize. replace (X ++ y :: Y) with ((X ++ [y]) ++ Y) by (by rewrite <- app_assoc).
  rewrite zrealloc_shrink by (rewrite snoc_len; done). rewrite (wrapu_id 32) by lia.
  rewrite store8_app; [done|lia|done].
Qed.

Lemma write_entry_spec (A J F C : block) k v : Zlen (A ++ J ++ F ++ C) < 2 ^ 32 -> Zlen J = Zlen (enc_kv k v (Zlen F)) -> Zlen F < 4 ->
  write_entry (A ++ J ++ F ++ C) (Zlen A) k v (Zlen F) = Some (A ++ enc_entry (Entry k v F) ++ C).
Proof.
  intros Hsz HJ HF. rewrite !length_app in Hsz. rewrite length_enc_kv in HJ. unfold write_entry, enc_entry, enc_kv. cbn [e_key e_val e_free].
  destruct (block_split J (Zlen (enc_len (Zlen k)))) as (J1 & J' & -> & H1); [lia|]. rewrite length_app in HJ.
  destruct (block_split J' (Zlen k)) as (J2 & J'' & -> & H2); [lia|]. rewrite length_app in HJ.
  destruct (block_split J'' (Zlen (enc_len (Zlen v)))) as (J3 & J4 & -> & H3); [lia|]. rewrite length_app in HJ.
  destruct J4 as [|j J4]; [simpl in HJ; lia|]. cbn [length] in HJ. rewrite !length_app in Hsz. cbn [length] in Hsz. rewrite <- !app_assoc.
  rewrite encode_spec, bind_Some by lia. set (P1 := Some <$> enc_len (Zlen k)). assert (Zlen P1 = Zlen (enc_len (Zlen k))) as HP1 by (subst P1; by rewrite length_fmap).
  rewrite (app_assoc A P1), store_app, bind_Some by (rewrite ?length_app; lia).
  rewrite (app_assoc (A ++ P1)). rewrite (encode_spec ((A ++ P1) ++ (Some <$> k)) J3), bind_Some; [|rewrite !length_app, !length_fmap; lia|lia|lia].
  set (P3 := Some <$> enc_len (Zlen v)). assert (Zlen P3 = Zlen (enc_len (Zlen v))) as HP3 by (subst P3; by rewrite length_fmap).
  rewrite (app_assoc _ P3). cbn [app]. rewrite store8_app, bind_Some; [|rewrite !length_app, !length_fmap; lia|unfold is_byte; lia].
  set (X := ((A ++ P1) ++ (Some <$> k)) ++ P3).
  replace (X ++ Some (Zlen F) :: J4 ++ F ++ C) with ((X ++ [Some (Zlen F)]) ++ J4 ++ F ++ C) by (by rewrite <- app_assoc).
  rewrite store_app; [|rewrite snoc_len; subst X; rewrite !length_app, !length_fmap; lia|lia].
  subst X P1 P3. f_equal. rewrite !fmap_app, <- !app_assoc. done.
Qed.

(** *** Insertion *)

Definition bump (c : Z) : Z := if c <? 254 then c + 1 else c.

Lemma store8_head (c v : Z) (X : block) : is_byte v -> store8 (Some c :: X) 0 v = Some (Some v :: X).
Proof. intros. by apply (store8_app [] X (Some c)). Qed.

Lemma load8_head (c : Z) (X : block) : load8 (Some c :: X) 0 = Some c.
Proof. by apply (load8_app [] X c). Qed.

Lemma set_missing c es k v : Zlen (Some c :: body es ++ [Some 255]) + Zlen (enc_kv k v 0) < 2 ^ 32 -> Forall entry_ok es ->
  k ∉ e_key <$> es -> 0 <= c <= 254 ->
  zipmapSet (Some c :: body es ++ [Some 255]) k v = Some (Some (bump c) :: body (es ++ [Entry k v []]) ++ [Some 255], false).
Proof.
  intros Hsz Hok Hk Hc. unfold zipmapSet. rewrite (required_spec k v 0) by lia. unfold set_room.
  rewrite lookup_missing; [|lia|done|by intros ? [= <-]]. rewrite bind_Some. set (R := Zlen (enc_kv k v 0)) in *.
  rewrite zip_len in *. pose proof (length_enc_kv k v 0) as HR. fold R in HR. pose proof (enc_len_range (Zlen k)). pose proof (enc_len_range (Zlen v)).
  rewrite (wrapu_id 32) by lia. set (X := Some c :: body es).
  destruct (zip_resize_grow X (Some 255) R) as (J & HJ & EJ); [lia|subst X; cbn [length]; lia|].
  change (Some c :: body es ++ [Some 255]) with (X ++ [Some 255 : cell]).
  replace (Zlen (body es) + 2 + R) with (Zlen X + 1 + R) by (subst X; cbn [length]; lia). rewrite EJ, bind_Some. clear EJ.
  subst X. cbn [app]. rewrite load8_head, bind_Some. unfold ZIPMAP_BIGLEN.
  assert ((if c <? 254 then store8 (Some c :: body es ++ J ++ [Some 255]) 0 (c + 1) else Some (Some c :: body es ++ J ++ [Some 255])) =
    Some (Some (bump c) :: body es ++ J ++ [Some 255])) as ->.
  { unfold bump. destruct (Z.ltb_spec c 254); [|done]. apply store8_head. unfold is_byte. lia. }
  rewrite !bind_Some. rewrite Z.sub_diag. change (u32 0) with 0. unfold ZIPMAP_VALUE_MAX_FREE. cbn [Z.leb Z.compare]. cbv iota. rewrite bind_Some.
  pose proof (write_entry_spec (Some (bump c) :: body es) J [] [Some 255] k v) as HW. cbn [app length] in HW. change (Z.of_nat 0) with 0 in HW.
  replace (Zlen (body es) + 2 - 1) with (Z.of_nat (S (length (body es)))) by lia.
  rewrite HW; [|rewrite ?length_app; cbn [length] in *; rewrite ?length_app; cbn [length]; lia|done|done].
  rewrite bind_Some, body_app, body_cons. cbn [body fmap list_fmap concat]. rewrite app_nil_r, <- app_assoc. done.
Qed.

(** The tail after the entry is moved so that [n] cells are left for it. *)
Lemma move_up (A E T J : block) n : Zlen E + Zlen J = n -> Zlen (A ++ E ++ T ++ J ++ [Some 255 : cell]) < 2 ^ 32 ->
  exists J', Zlen J' = n /\ memmove (A ++ E ++ T ++ J ++ [Some 255]) (Zlen A + n) (Zlen A + Zlen E) (Zlen T) =
    Some (A ++ J' ++ T ++ [Some 255]).
Proof.
  intros Hn Hsz. destruct (block_split (E ++ T ++ J) n) as (J' & B & E' & HJ'); [rewrite !length_app; lia|].
  exists J'. split; [done|]. pose proof (f_equal length E') as HL. rewrite !length_app in HL.
  replace (A ++ J' ++ T ++ [Some 255]) with ((A ++ J') ++ T ++ [Some 255]) by (by rewrite <- app_assoc).
  apply (memmove_app _ (A ++ E) T (J ++ [Some 255]) (A ++ J') B [Some 255]).
  - by rewrite <- !app_assoc.
  - rewrite <- !app_assoc. f_equal. rewrite (app_assoc J'), <- E', <- !app_assoc. done.
  - rewrite length_app. lia.
  - done.
  - rewrite length_app. lia.
  - lia.
Qed.

Lemma move_down (A E1 E2 T C : block) : 
  exists Y, Zlen Y = Zlen E2 + Zlen C /\ memmove (A ++ (E1 ++ E2) ++ T ++ C) (Zlen A + Zlen E1) (Zlen A + Zlen (E1 ++ E2)) (Zlen T) =
    Some ((A ++ E1) ++ T ++ Y).
Proof.
  destruct (block_split (E2 ++ T) (Zlen T)) as (B & Y & E' & HB); [rewrite length_app; lia|].
  pose proof (f_equal length E') as HL. rewrite !length_app in HL. exists (Y ++ C). split; [rewrite length_app; lia|].
  apply (memmove_app _ (A ++ E1 ++ E2) T C (A ++ E1) B (Y ++ C)).
  - by rewrite <- !app_assoc.
  - rewrite <- !app_assoc. do 2 f_equal. rewrite (app_assoc B), <- E', <- !app_assoc. done.
  - rewrite !length_app. lia.
  - done.
  - rewrite length_app. lia.
  - lia.
Qed.

Lemma set_found c es1 e es2 v zm : zm = Some c :: body (es1 ++ e :: es2) ++ [Some 255] ->
  Zlen zm + Zlen (enc_kv (e_key e) v 0) < 2 ^ 32 -> Forall entry_ok (es1 ++ e :: es2) -> NoDup (e_key <$> es1 ++ e :: es2) ->
  exists F, Zlen F < 4 /\
    zipmapSet zm (e_key e) v = Some (Some c :: body (es1 ++ Entry (e_key e) v F :: es2) ++ [Some 255], true).
Proof.
  intros Ez Hsz Hok Hnd. unfold zipmapSet. rewrite (required_spec (e_key e) v 0) by lia. unfold set_room.
  set (R := Zlen (enc_kv (e_key e) v 0)) in *.
  destruct (lookup_found c es1 e es2 true _ zm eq_refl Ez ltac:(lia) Hok Hnd) as (n & -> & Hn). rewrite bind_Some, (Hn eq_refl). clear Hn n.
  set (A := Some c :: body es1). set (E := enc_entry e). set (T := body es2).
  assert (zm = A ++ E ++ T ++ [Some 255]) as Ezm by (rewrite Ez, body_app, body_cons; cbn [app]; by rewrite <- !app_assoc).
  assert (entry_ok e) as He by (by apply Forall_app in Hok as [_ Hok]; inversion Hok).
  replace (1 + Zlen (body es1)) with (Zlen A) by (subst A; cbn [length]; lia).
  rewrite (entry_raw A (T ++ [Some 255]) e zm Ezm ltac:(lia)), bind_Some. fold E.
  assert (Zlen zm = Zlen A + Zlen E + Zlen T + 1) as HL by (rewrite Ezm, !length_app; cbn [length]; lia).
  assert (forall F, Some c :: body (es1 ++ Entry (e_key e) v F :: es2) ++ [Some 255] = A ++ enc_entry (Entry (e_key e) v F) ++ T ++ [Some 255]) as Efin
    by (intros F; rewrite body_app, body_cons; cbn [app]; by rewrite <- !app_assoc).
  assert (forall F : block, Zlen (enc_kv (e_key e) v (Zlen F)) = R) as HRF by (intros F; subst R; by rewrite !length_enc_kv).
  destruct (Z.ltb_spec (Zlen E) R) as [Hlt|Hge].
  - rewrite (wrapu_id 32 (Zlen zm - Zlen E + R)) by lia.
    destruct (zip_resize_grow (A ++ E ++ T) (Some 255) (R - Zlen E)) as (J & HJ & EJ); [lia|rewrite !length_app; lia|].
    replace (Zlen (A ++ E ++ T) + 1 + (R - Zlen E)) with (Zlen zm - Zlen E + R) in EJ by (rewrite !length_app; lia).
    replace ((A ++ E ++ T) ++ [Some 255]) with zm in EJ by (rewrite Ezm; by rewrite <- !app_assoc).
    rewrite EJ, bind_Some. rewrite (wrapu_id 32) by lia. replace (Zlen zm - (Zlen A + Zlen E + 1)) with (Zlen T) by lia.
    destruct (move_up A E T J R) as (J' & HJ' & EM); [lia|rewrite !length_app; cbn [length]; lia|].
    rewrite <- !app_assoc. rewrite EM, !bind_Some. rewrite Z.sub_diag. change (u32 0) with 0. unfold ZIPMAP_VALUE_MAX_FREE.
    cbn [Z.leb Z.compare]. cbv iota. rewrite bind_Some. exists []. split; [simpl; lia|]. rewrite Efin.
    pose proof (write_entry_spec A J' [] (T ++ [Some 255]) (e_key e) v) as HW. cbn [app length] in HW. change (Z.of_nat 0) with 0 in HW.
    rewrite HW; [by rewrite bind_Some|rewrite !length_app; cbn [length]; lia|fold R; lia|done].
  - rewrite bind_Some. rewrite (wrapu_id 32 (Zlen E - R)) by lia. unfold ZIPMAP_VALUE_MAX_FREE.
    destruct (block_split E R) as (E1 & E2 & EE & HE1); [lia|]. pose proof (f_equal length EE) as HLE. rewrite length_app in HLE.
    destruct (Z.leb_spec 4 (Zlen E - R)).
    + rewrite (wrapu_id 32 (_ - (_ + _ + 1))) by lia. replace (Zlen zm - (Zlen A + Zlen E + 1)) with (Zlen T) by lia.
      destruct (move_down A E1 E2 T [Some 255]) as (Y & HY & EM). rewrite <- EE, HE1 in EM.
      rewrite <- Ezm in EM. rewrite EM, bind_Some. rewrite (wrapu_id 32) by lia.
      pose proof (resize_shrink ((A ++ E1) ++ T) Y) as HS. replace (((A ++ E1) ++ T) ++ Y) with ((A ++ E1) ++ T ++ Y) in HS by (by rewrite <- !app_assoc).
      replace (Zlen ((A ++ E1) ++ T) + 1) with (Zlen zm - (Zlen E - R)) in HS by (rewrite !length_app; lia).
      rewrite HS; [|intros ->; simpl in HY; lia|lia]. rewrite !bind_Some. exists []. split; [simpl; lia|]. rewrite Efin.
      rewrite <- !app_assoc. pose proof (write_entry_spec A E1 [] (T ++ [Some 255]) (e_key e) v) as HW. cbn [app length] in HW. change (Z.of_nat 0) with 0 in HW.
      rewrite HW; [by rewrite bind_Some|rewrite !length_app; cbn [length]; lia|fold R; lia|done].
    + rewrite bind_Some. exists E2. split; [lia|]. rewrite Efin, Ezm, EE. replace (Zlen (E1 ++ E2) - R) with (Zlen E2) by (rewrite length_app; lia).
      rewrite <- !app_assoc. rewrite write_entry_spec; [by rewrite bind_Some|rewrite !length_app; cbn [length]; lia|by rewrite HRF|lia].
Qed.

(** *** Deletion *)

Definition unbump (c : Z) : Z := if c <? 254 then c - 1 else c.

Lemma del_found c es1 e es2 zm : zm = Some c :: body (es1 ++ e :: es2) ++ [Some 255] -> Zlen zm < 2 ^ 32 ->
  Forall entry_ok (es1 ++ e :: es2) -> NoDup (e_key <$> es1 ++ e :: es2) -> 1 <= c <= 254 ->
  zipmapDel zm (e_key e) = Some (Some (unbump c) :: body (es1 ++ es2) ++ [Some 255], true).
Proof.
  intros Ez Hsz Hok Hnd Hc. unfold zipmapDel.
  destruct (lookup_found c es1 e es2 true _ zm eq_refl Ez Hsz Hok Hnd) as (n & -> & Hn). rewrite bind_Some, (Hn eq_refl). clear Hn n.
  set (A := Some c :: body es1). set (E := enc_entry e). set (T := body es2).
  assert (zm = A ++ E ++ T ++ [Some 255]) as Ezm by (rewrite Ez, body_app, body_cons; cbn [app]; by rewrite <- !app_assoc).
  assert (entry_ok e) as He by (by apply Forall_app in Hok as [_ Hok]; inversion Hok).
  replace (1 + Zlen (body es1)) with (Zlen A) by (subst A; cbn [length]; lia).
  rewrite (entry_raw A (T ++ [Some 255]) e zm Ezm ltac:(lia)), bind_Some. fold E.
  assert (Zlen zm = Zlen A + Zlen E + Zlen T + 1) as HL by (rewrite Ezm, !length_app; cbn [length]; lia).
  rewrite (wrapu_id 32 (_ - (_ + _ + 1))) by lia. replace (Zlen zm - (Zlen A + Zlen E + 1)) with (Zlen T) by lia.
  destruct (move_down A [] E T [Some 255]) as (Y & HY & EM). cbn [app] in EM. rewrite <- Ezm, app_nil_r in EM.
  change (Zlen (@nil cell)) with 0 in EM. rewrite Z.add_0_r in EM. rewrite EM, bind_Some.
  rewrite (wrapu_id 32) by lia. pose proof (resize_shrink (A ++ T) Y) as HS. rewrite <- app_assoc in HS.
  replace (Zlen (A ++ T) + 1) with (Zlen zm - Zlen E) in HS by (rewrite length_app; lia).
  rewrite HS; [|intros ->; simpl in HY; lia|lia]. rewrite bind_Some. subst A. cbn [app]. rewrite load8_head, bind_Some.
  rewrite body_app. fold T. unfold unbump, ZIPMAP_BIGLEN. destruct (Z.ltb_spec c 254); [|by rewrite bind_Some].
  rewrite store8_head by (unfold is_byte; lia). by rewrite bind_Some.
Qed.

(** *** Queries *)

Lemma entry_value A C e zm : zm = A ++ enc_entry e ++ C ->
  load zm (Zlen A + (Zlen (enc_len (Zlen (e_key e))) + Zlen (e_key e)) + Zlen (enc_len (Zlen (e_val e))) + 1) (Zlen (e_val e)) = Some (e_val e).
Proof.
  intros ->. unfold enc_entry, enc_kv. rewrite !fmap_app, <- !app_assoc.
  rewrite (app_assoc A), (app_assoc (A ++ _)), (app_assoc ((A ++ _) ++ _)), (app_assoc (((A ++ _) ++ _) ++ _)).
  apply load_app; [|done]. rewrite !length_app, !length_fmap. cbn [length]. lia.
Qed.

Lemma get_found c es1 e es2 zm : zm = Some c :: body (es1 ++ e :: es2) ++ [Some 255] -> Zlen zm < 2 ^ 32 ->
  Forall entry_ok (es1 ++ e :: es2) -> NoDup (e_key <$> es1 ++ e :: es2) ->
  exists p n, zipmapGet zm (e_key e) = Some (Some (p, n)) /\ load zm p n = Some (e_val e).
Proof.
  intros Ez Hsz Hok Hnd. unfold zipmapGet.
  destruct (lookup_found c es1 e es2 false _ zm eq_refl Ez Hsz Hok Hnd) as (n & -> & _). rewrite bind_Some.
  set (A := Some c :: body es1).
  assert (zm = A ++ enc_entry e ++ body es2 ++ [Some 255]) as Ezm by (rewrite Ez, body_app, body_cons; cbn [app]; by rewrite <- !app_assoc).
  replace (1 + Zlen (body es1)) with (Zlen A) by (subst A; cbn [length]; lia).
  rewrite (entry_raw_key A (body es2 ++ [Some 255]) e zm Ezm Hsz), bind_Some.
  rewrite (entry_val_len A (body es2 ++ [Some 255]) e zm Ezm Hsz), bind_Some, len_bytes_eq.
  eexists _, _. split; [done|]. by eapply entry_value.
Qed.

Lemma next_spec A C e zm : zm = A ++ enc_entry e ++ C -> Zlen zm < 2 ^ 32 ->
  exists kp kn vp vn, zipmapNext zm (Zlen A) = Some (Some (kp, kn, vp, vn, Zlen (A ++ enc_entry e))) /\
    load zm kp kn = Some (e_key e) /\ load zm vp vn = Some (e_val e).
Proof.
  intros Ezm Hsz. unfold zipmapNext. destruct (entry_head A C e zm Ezm) as (c & -> & Hc). rewrite bind_Some, Hc.
  rewrite (entry_key_len A C e zm Ezm Hsz), bind_Some, len_bytes_eq. rewrite (entry_raw_key A C e zm Ezm Hsz), bind_Some.
  rewrite (entry_val_len A C e zm Ezm Hsz), bind_Some, len_bytes_eq. rewrite (entry_raw_val A C e zm Ezm Hsz), bind_Some.
  eexists _, _, _, _. split; [|split].
  - do 3 f_equal. rewrite length_app, Nat2Z.inj_add, length_enc_entry, length_enc_kv. lia.
  - rewrite Ezm. unfold enc_entry, enc_kv. rewrite !fmap_app, <- !app_assoc, (app_assoc A). apply load_app; [|done].
    rewrite length_app, length_fmap. lia.
  - rewrite <- (entry_value A C e zm Ezm). f_equal. lia.
Qed.

(** The iteration shown in the comment of [zipmapNext]. *)
Fixpoint iterate (fuel : nat) (zm : block) (p : Z) : option (list (list Z * list Z)) :=
  match fuel with
  | O => None
  | S fuel =>
    r ← zipmapNext zm p;
    match r with
    | None => Some []
    | Some (key, klen, value, vlen, p) =>
      k ← load zm key klen; v ← load zm value vlen; kvs ← iterate fuel zm p; Some ((k, v) :: kvs)
    end
  end.

Definition kv (e : entry) : list Z * list Z := (e_key e, e_val e).

Lemma next_end A zm : zm = A ++ [Some 255] -> zipmapNext zm (Zlen A) = Some None.
Proof. intros ->. unfold zipmapNext. by rewrite load8_app, bind_Some by done. Qed.

Lemma iterate_spec zm es : forall fuel A, zm = A ++ body es ++ [Some 255] -> Zlen zm < 2 ^ 32 -> (length es < fuel)%nat ->
  iterate fuel zm (Zlen A) = Some (kv <$> es) /\
  (forall n, 0 <= n -> len_loop fuel zm (Zlen A) n = Some (u32 (n + Zlen es)) \/ n + Zlen es >= 2 ^ 32).
Proof.
  induction es as [|e es IH]; intros fuel A Ezm Hsz Hf; (destruct fuel as [|fuel]; [lia|]); cbn [iterate len_loop].
  - rewrite next_end by done. rewrite !bind_Some. split; [done|]. intros n Hn. rewrite bind_Some. simpl.
    destruct (Z.lt_ge_cases (n + 0) (2 ^ 32)); [left|right; lia]. rewrite (wrapu_id 32), Z.add_0_r; [done|lia].
  - rewrite body_cons, <- app_assoc in Ezm.
    destruct (next_spec A (body es ++ [Some 255]) e zm Ezm Hsz) as (kp & kn & vp & vn & -> & Hk & Hv). rewrite !bind_Some.
    cbn [length] in Hf. destruct (IH fuel (A ++ enc_entry e)) as [E1 E2]; [by rewrite Ezm, <- !app_assoc|done|lia|].
    rewrite Hk, bind_Some, Hv, bind_Some, E1, bind_Some. split; [done|]. intros n Hn. rewrite bind_Some. cbn [length].
    destruct (Z.lt_ge_cases (n + Z.of_nat (S (length es))) (2 ^ 32)); [left|right; lia].
    rewrite (wrapu_id 32 (n + 1)) by lia. destruct (E2 (n + 1) ltac:(lia)) as [->|]; [|lia]. do 2 f_equal. lia.
Qed.

(** ** Refinement of a finite map *)

Definition to_map (es : list entry) : gmap (list Z) (list Z) := list_to_map (kv <$> es).

Lemma keys_kv es : (kv <$> es).*1 = e_key <$> es.
Proof. rewrite <- list_fmap_compose. done. Qed.

Lemma to_map_missing es k : k ∉ e_key <$> es -> to_map es !! k = None.
Proof. intros H. apply not_elem_of_list_to_map_1. by rewrite keys_kv. Qed.

Lemma to_map_mid es1 e es2 : NoDup (e_key <$> es1 ++ e :: es2) ->
  to_map (es1 ++ e :: es2) = <[e_key e := e_val e]> (to_map (es1 ++ es2)) /\ to_map (es1 ++ es2) !! e_key e = None.
Proof.
  intros Hnd. assert (es1 ++ e :: es2 ≡ₚ e :: es1 ++ es2) as HP by (by rewrite Permutation_middle).
  split.
  - unfold to_map. rewrite (list_to_map_proper _ (kv <$> e :: es1 ++ es2)); [done|by rewrite keys_kv|by rewrite HP].
  - rewrite HP in Hnd. apply NoDup_cons in Hnd as [Hn _]. by apply to_map_missing.
Qed.

Lemma to_map_size es : NoDup (e_key <$> es) -> size (to_map es) = length es.
Proof.
  intros H. unfold to_map. rewrite <- length_map_to_list, map_to_list_to_map by (by rewrite keys_kv). by rewrite length_fmap.
Qed.

Lemma key_cases es k : {k ∉ e_key <$> es} + {exists es1 e es2, es = es1 ++ e :: es2 /\ e_key e = k}.
Proof.
  destruct (decide (k ∈ e_key <$> es)) as [H|H]; [right|by left].
  apply list_elem_of_fmap in H as (e & -> & Hin). apply list_elem_of_split in Hin as (es1 & es2 & ->). by exists es1, e, es2.
Qed.

Inductive cmd := ZSet (k v : list Z) | ZDel (k : list Z) | ZGet (k : list Z) | ZExists (k : list Z) | ZLen | ZIterate.
Inductive answer := ABool (b : bool) | AVal (v : option (list Z)) | ANum (n : Z) | APairs (l : list (list Z * list Z)).

Definition run_cmd (zm : block) (c : cmd) : option (block * answer) :=
  match c with
  | ZSet k v => '(zm, u) ← zipmapSet zm k v; Some (zm, ABool u)
  | ZDel k => '(zm, d) ← zipmapDel zm k; Some (zm, ABool d)
  | ZGet k =>
    r ← zipmapGet zm k;
    match r with None => Some (zm, AVal None) | Some (p, n) => v ← load zm p n; Some (zm, AVal (Some v)) end
  | ZExists k => b ← zipmapExists zm k; Some (zm, ABool b)
  | ZLen => '(n, zm) ← zipmapLen zm; Some (zm, ANum n)
  | ZIterate => l ← iterate (length zm) zm zipmapRewind; Some (zm, APairs l)
  end.

Fixpoint run (zm : block) (cs : list cmd) : option (block * list answer) :=
  match cs with
  | [] => Some (zm, [])
  | c :: cs => '(zm, a) ← run_cmd zm c; '(zm, l) ← run zm cs; Some (zm, a :: l)
  end.

(** The abstract map: its next state, and what it allows as an answer. *)
Definition spec_next (m : gmap (list Z) (list Z)) (c : cmd) : gmap (list Z) (list Z) :=
  match c with ZSet k v => <[k := v]> m | ZDel k => delete k m | _ => m end.

Definition spec_answer (m : gmap (list Z) (list Z)) (c : cmd) (a : answer) : Prop :=
  match c, a with
  | ZSet k _, ABool b | ZDel k, ABool b | ZExists k, ABool b => b = bool_decide (is_Some (m !! k))
  | ZGet k, AVal v => v = m !! k
  | ZLen, ANum n => n = Z.of_nat (size m)
  | ZIterate, APairs l => l ≡ₚ map_to_list m
  | _, _ => False
  end.

Fixpoint spec_run (m : gmap (list Z) (list Z)) (cs : list cmd) (l : list answer) : Prop :=
  match cs, l with
  | [], [] => True
  | c :: cs, a :: l => spec_answer m c a /\ spec_run (spec_next m c) cs l
  | _, _ => False
  end.

Definition cmd_ok (c : cmd) : Prop := match c with ZSet k v => Forall is_byte k /\ Forall is_byte v | _ => True end.
Definition cmd_grow (c : cmd) : Z := match c with ZSet k v => Zlen k + Zlen v + 11 | _ => 0 end.

Lemma enc_kv_bound k v : 0 <= Zlen (enc_kv k v 0) <= Zlen k + Zlen v + 11.
Proof. rewrite length_enc_kv. pose proof (enc_len_range (Zlen k)). pose proof (enc_len_range (Zlen v)). lia. Qed.

Lemma zip_len_bound zm es : zip_ok zm es -> Zlen zm = Zlen (body es) + 2 /\ Zlen es <= Zlen (body es).
Proof. intros (c & -> & _). split; [apply zip_len|apply body_len]. Qed.

(** *** Each operation *)

Lemma set_ok zm es k v : zip_ok zm es -> cmd_ok (ZSet k v) -> Zlen zm + cmd_grow (ZSet k v) < 2 ^ 32 ->
  exists zm' es', zipmapSet zm k v = Some (zm', bool_decide (is_Some (to_map es !! k))) /\ zip_ok zm' es' /\
    to_map es' = <[k := v]> (to_map es) /\ Zlen zm' <= Zlen zm + cmd_grow (ZSet k v).
Proof.
  intros (c & -> & Hok & Hnd & Hc) [Hk Hv] Hsz. cbn [cmd_grow] in *. pose proof (enc_kv_bound k v) as HR. rewrite zip_len in *.
  destruct (key_cases es k) as [Hm|(es1 & e & es2 & -> & <-)].
  - rewrite set_missing; [|rewrite zip_len; lia|done|done|lia]. rewrite to_map_missing, bool_decide_eq_false_2 by (done || by intros []).
    exists (Some (bump c) :: body (es ++ [Entry k v []]) ++ [Some 255]), (es ++ [Entry k v []]). split_and!; [done| | |].
    + exists (bump c). split_and!; [done| | |].
      * apply Forall_app. split; [done|]. repeat constructor; done.
      * rewrite fmap_app. cbn. apply NoDup_app. split_and!; [done| |apply NoDup_singleton]. intros x Hx ->%list_elem_of_singleton. done.
      * unfold bump. rewrite length_app. cbn [length]. destruct (Z.ltb_spec c 254); lia.
    + unfold to_map. rewrite fmap_app. change (kv <$> [Entry k v []]) with [(k, v)]. rewrite list_to_map_snoc; [done|]. by rewrite keys_kv.
    + rewrite zip_len, body_app, body_cons. cbn [body fmap list_fmap concat]. rewrite app_nil_r, length_app.
      rewrite Nat2Z.inj_add, length_enc_entry. cbn. change (Z.of_nat 0) with 0. lia.
  - destruct (to_map_mid es1 e es2 Hnd) as [Em Em'].
    destruct (set_found c es1 e es2 v _ eq_refl) as (F & HF & ->); [rewrite zip_len; lia|done|done|].
    rewrite Em, lookup_insert_eq, bool_decide_eq_true_2 by done.
    eexists _, (es1 ++ Entry (e_key e) v F :: es2). split_and!; [done| | |].
    + exists c. split_and!; [done| | |].
      * apply Forall_app in Hok as [Hok1 Hok]. inversion_clear Hok. apply Forall_app. split; [done|]. constructor; done.
      * by rewrite fmap_app in *.
      * rewrite length_app in *. cbn [length] in *. lia.
    + destruct (to_map_mid es1 (Entry (e_key e) v F) es2) as [-> _]; [by rewrite fmap_app in *|]. cbn [e_key e_val].
      by rewrite insert_insert_eq.
    + rewrite zip_len, !body_app, !body_cons, !length_app in *. rewrite !Nat2Z.inj_add, !length_enc_entry, !length_enc_kv in *.
      cbn [e_key e_val e_free] in *. pose proof (enc_len_range (Zlen v)). pose proof (enc_len_range (Zlen (e_key e))).
      pose proof (enc_len_range (Zlen (e_val e))). lia.
Qed.

Lemma del_ok zm es k : zip_ok zm es -> Zlen zm < 2 ^ 32 ->
  exists zm' es', zipmapDel zm k = Some (zm', bool_decide (is_Some (to_map es !! k))) /\ zip_ok zm' es' /\
    to_map es' = delete k (to_map es) /\ Zlen zm' <= Zlen zm.
Proof.
  intros (c & -> & Hok & Hnd & Hc) Hsz. destruct (key_cases es k) as [Hm|(es1 & e & es2 & -> & <-)].
  - unfold zipmapDel. rewrite lookup_missing; [|done|done|by intros ? [= <-]]. rewrite bind_Some, to_map_missing by done.
    rewrite bool_decide_eq_false_2 by (by intros []). eexists _, es. split_and!; [done|by exists c| |done].
    symmetry. apply delete_id. by apply to_map_missing.
  - destruct (to_map_mid es1 e es2 Hnd) as [Em Em'].
    rewrite (del_found c es1 e es2 _ eq_refl Hsz Hok Hnd); [|rewrite length_app in Hc; cbn [length] in Hc; lia].
    rewrite Em, lookup_insert_eq, bool_decide_eq_true_2 by done. eexists _, (es1 ++ es2). split_and!; [done| | |].
    + exists (unbump c). split_and!; [done| | |].
      * apply Forall_app in Hok as [Hok1 Hok]. inversion_clear Hok. by apply Forall_app.
      * rewrite fmap_app in *. cbn in Hnd. apply NoDup_app in Hnd as (Hn1 & Hn2 & Hn3). apply NoDup_cons in Hn3 as [_ Hn3].
        apply NoDup_app. split_and!; [done| |done]. intros x Hx Hx'. apply (Hn2 x Hx). by right.
      * unfold unbump. rewrite length_app in *. cbn [length] in Hc. destruct (Z.ltb_spec c 254); lia.
    + by rewrite delete_insert_id.
    + rewrite !zip_len, !body_app, body_cons, !length_app. lia.
Qed.

Lemma query_ok zm es c : zip_ok zm es -> Zlen zm < 2 ^ 32 -> (forall k v, c <> ZSet k v) -> (forall k, c <> ZDel k) ->
  exists zm' a, run_cmd zm c = Some (zm', a) /\ zip_ok zm' es /\ spec_answer (to_map es) c a /\ Zlen zm' = Zlen zm.
Proof.
  intros (c0 & Ez & Hok & Hnd & Hc) Hsz Hset Hdel.
  assert (zip_ok zm es) as Hz by (by exists c0).
  assert ((length es < length zm)%nat) as Hf by (pose proof (zip_len_bound zm es Hz); lia).
  destruct (iterate_spec zm es (length zm) [Some c0] ltac:(rewrite Ez; done) Hsz Hf) as [EI EL]. change (Zlen [Some c0]) with zipmapRewind in EI, EL.
  destruct c as [k v|k|k|k| |]; [by destruct (Hset k v)|by destruct (Hdel k)|..]; cbn [run_cmd].
  - destruct (key_cases es k) as [Hm|(es1 & e & es2 & Ee & <-)].
    + unfold zipmapGet. rewrite Ez in *. rewrite lookup_missing; [|done|done|by intros ? [= <-]]. rewrite !bind_Some.
      eexists _, _. split_and!; [done|done| |done]. cbn. by rewrite to_map_missing.
    + rewrite Ee in Ez, Hok, Hnd. destruct (get_found c0 es1 e es2 zm Ez Hsz Hok Hnd) as (p & n & -> & Hl). rewrite bind_Some, Hl, bind_Some.
      eexists _, _. split_and!; [done|done| |done]. cbn. rewrite Ee. destruct (to_map_mid es1 e es2 Hnd) as [-> _]. by rewrite lookup_insert_eq.
  - destruct (key_cases es k) as [Hm|(es1 & e & es2 & Ee & <-)]; unfold zipmapExists.
    + rewrite Ez in *. rewrite lookup_missing; [|done|done|by intros ? [= <-]]. rewrite !bind_Some.
      eexists _, _. split_and!; [done|done| |done]. cbn. by rewrite to_map_missing.
    + rewrite Ee in Ez, Hok, Hnd. destruct (lookup_found c0 es1 e es2 false _ zm eq_refl Ez Hsz Hok Hnd) as (n & -> & _). rewrite !bind_Some.
      eexists _, _. split_and!; [done|done| |done]. cbn. rewrite Ee. destruct (to_map_mid es1 e es2 Hnd) as [-> _]. by rewrite lookup_insert_eq.
  - unfold zipmapLen. assert (load8 zm 0 = Some c0) as -> by (rewrite Ez; apply load8_head). rewrite bind_Some. unfold ZIPMAP_BIGLEN.
    destruct (Z.ltb_spec c0 254).
    + rewrite bind_Some. eexists _, _. split_and!; [done|done| |done]. cbn. rewrite to_map_size by done. lia.
    + pose proof (zip_len_bound zm es Hz) as [? ?]. destruct (EL 0 ltac:(lia)) as [->|]; [|lia]. rewrite bind_Some. rewrite (wrapu_id 32), Z.add_0_l by lia.
      destruct (Z.ltb_spec (Zlen es) 254).
      * assert (store8 zm 0 (Zlen es) = Some (Some (Zlen es) :: body es ++ [Some 255])) as ->
          by (rewrite Ez; apply store8_head; unfold is_byte; lia).
        rewrite !bind_Some. eexists _, _. split_and!; [done| | |].
        -- exists (Zlen es). split_and!; [done|done|done|left; lia].
        -- cbn. by rewrite to_map_size.
        -- by rewrite Ez.
      * rewrite !bind_Some. eexists _, _. split_and!; [done|done| |done]. cbn. by rewrite to_map_size.
  - rewrite EI, bind_Some. eexists _, _. split_and!; [done|done| |done]. cbn. unfold to_map.
    rewrite map_to_list_to_map; [done|by rewrite keys_kv].
Qed.

Lemma cmd_spec zm es c : zip_ok zm es -> cmd_ok c -> Zlen zm + cmd_grow c < 2 ^ 32 ->
  exists zm' es' a, run_cmd zm c = Some (zm', a) /\ zip_ok zm' es' /\ spec_answer (to_map es) c a /\
    to_map es' = spec_next (to_map es) c /\ Zlen zm' <= Zlen zm + cmd_grow c.
Proof.
  intros Hz Hc Hsz. destruct c as [k v|k|k|k| |].
  1: { destruct (set_ok zm es k v Hz Hc Hsz) as (zm' & es' & E & ? & ? & ?). exists zm', es', (ABool (bool_decide (is_Some (to_map es !! k)))).
    cbn [run_cmd]. rewrite E, bind_Some. done. }
  1: { cbn [cmd_grow] in *. destruct (del_ok zm es k Hz ltac:(lia)) as (zm' & es' & E & ? & ? & ?). exists zm', es', (ABool (bool_decide (is_Some (to_map es !! k)))).
    cbn [run_cmd]. rewrite E, bind_Some. split_and!; try done. lia. }
  all: cbn [cmd_grow] in *; edestruct (query_ok zm es) as (zm' & a & E & Hz' & Ha & Hl); [done|lia|shelve|shelve|exists zm', es, a; split_and!; [exact E|done|done|done|lia]].
  Unshelve. all: done.
Qed.

Lemma zip_run_spec cs : forall zm es, zip_ok zm es -> Forall cmd_ok cs -> Zlen zm + foldr (fun c n => cmd_grow c + n) 0 cs < 2 ^ 32 ->
  exists zm' es' l, run zm cs = Some (zm', l) /\ zip_ok zm' es' /\ spec_run (to_map es) cs l /\
    to_map es' = foldl spec_next (to_map es) cs /\ Zlen zm' < 2 ^ 32.
Proof.
  induction cs as [|c cs IH]; intros zm es Hz Hcs Hsz; cbn [run foldr foldl] in *.
  { exists zm, es, []. split_and!; done || lia. }
  inversion_clear Hcs as [|? ? Hc Hcs'].
  assert (0 <= foldr (fun c n => cmd_grow c + n) 0 cs) as Hpos by (clear; induction cs as [|[]]; cbn in *; lia).
  destruct (cmd_spec zm es c Hz Hc ltac:(lia)) as (zm1 & es1 & a & -> & Hz1 & Ha & Em & Hl). rewrite bind_Some.
  destruct (IH zm1 es1 Hz1 Hcs' ltac:(lia)) as (zm2 & es2 & l & -> & Hz2 & Hr & Em2 & Hl2). rewrite bind_Some.
  exists zm2, es2, (a :: l). rewrite Em in Hr, Em2. split_and!; done.
Qed.

Lemma blob_len zm es : zip_ok zm es -> Zlen zm < 2 ^ 32 -> zipmapBlobLen zm = Some (Zlen zm).
Proof. intros (c & -> & Hok & _) Hsz. unfold zipmapBlobLen. rewrite lookup_missing; done. Qed.

(** C11. A zipmap is a finite map.  For any sequence of insertions, deletions,
    lookups, length queries and iterations starting from [zipmapNew] and within
    the 4 GB an [unsigned int] can address, every operation returns without
    touching a cell outside the block or reading an unwritten one, answers like
    the finite map of the same updates (on hosts of either byte order), and leaves
    a block in the zipmap layout whose exact size [zipmapBlobLen] reports. *)
Theorem zipmap_refines_map cs : Forall cmd_ok cs -> 2 + foldr (fun c n => cmd_grow c + n) 0 cs < 2 ^ 32 ->
  exists zm0 zm es l, zipmapNew = Some zm0 /\ run zm0 cs = Some (zm, l) /\ spec_run ∅ cs l /\
    zip_ok zm es /\ to_map es = foldl spec_next ∅ cs /\ zipmapBlobLen zm = Some (Zlen zm).
Proof.
  intros Hcs Hsz.
  assert (zip_ok [Some 0; Some 255] []) as H0 by (exists 0; split_and!; [done|constructor|constructor|left; simpl; lia]).
  destruct (zip_run_spec cs _ [] H0 Hcs Hsz) as (zm & es & l & E & Hz & Hr & Em & Hl).
  exists [Some 0; Some 255], zm, es, l. split_and!; try done. by eapply blob_len.
Qed.

End Zipmap.

Definition sample_zip : list cmd :=
  [ZSet [1; 2] [3]; ZSet [7] (repeat 9 300); ZGet [7]; ZSet [1; 2] [4; 5; 6]; ZSet [7] [8; 8]; ZLen; ZSet [1; 2] []; ZGet [1; 2];
   ZDel [7]; ZExists [7]; ZIterate; ZDel [5]].

Lemma zipmap_refines_map_witness : 2 + foldr (fun c n => cmd_grow c + n) 0 sample_zip < 2 ^ 32 /\
  exists zm0 zm es l, zipmapNew = Some zm0 /\ run (HOST := true) zm0 sample_zip = Some (zm, l) /\ spec_run ∅ sample_zip l /\
    zip_ok zm es /\ to_map es = foldl spec_next ∅ sample_zip /\ zipmapBlobLen (HOST := true) zm = Some (Zlen zm).
Proof.
  split; [vm_compute; reflexivity|]. apply (zipmap_refines_map (HOST := true) sample_zip); [|vm_compute; reflexivity].
  repeat (constructor; [vm_compute; try exact I; split; repeat (constructor; [split; discriminate || reflexivity|]); constructor|]). constructor.
Defined.

Example zipmap_ex : (zm ← zipmapNew; '(zm, _) ← zipmapSet (HOST := true) zm [1; 2] [3];
  '(zm, _) ← zipmapSet (HOST := false) zm [7] (replicate 300 9); '(zm, _) ← zipmapSet (HOST := false) zm [1; 2] [4; 5; 6];
  '(zm, _) ← zipmapSet (HOST := true) zm [7] [8; 8]; '(zm, u) ← zipmapSet (HOST := false) zm [1; 2] [];
  n ← zipmapBlobLen zm (HOST := false); Some (zm, u, n)) =
  Some ([Some 2; Some 2; Some 1; Some 2; Some 0; Some 3; Some 4; Some 5; Some 6; Some 1; Some 7; Some 2; Some 0; Some 8; Some 8; Some 255], true, 16).
Proof. vm_compute. reflexivity. Qed.
