(* ===== verification/Scores.v ===== *)
(** The order of sorted-set elements: scores, members, ranges.

    A [double] is an IEEE binary64 datum ([spec_float]) with the IEEE
    comparisons, for which NaN is unordered and the two zeros are equal.  A member
    is a string object, represented by its bytes whatever its encoding.  Covers
    [compareStringObjects] and [equalStringObjects] of [object.c] and the range
    predicates of [t_zset.c]. *)

From Stdlib Require Import SpecFloat.
From S2P Require Import Prelude SdsText.

(** ** Definitions *)

Abbreviation double := spec_float.

Definition isnan (x : double) : bool := match x with S754_nan => true | _ => false end.

(** [a < b], [a == b], [a <= b], [a > b], [a >= b] on doubles. *)
Definition d_lt (a b : double) : bool := SFltb a b.
Definition d_eq (a b : double) : bool := SFeqb a b.
Definition d_le (a b : double) : bool := SFleb a b.
Definition d_gt (a b : double) : bool := SFltb b a.
Definition d_ge (a b : double) : bool := SFleb b a.

Definition compareStringObjects (a b : list Z) : Z :=
  let alen := Zlen a in let blen := Zlen b in
  let minlen := if alen <? blen then alen else blen in
  let cmp := memcmp a b (Z.to_nat minlen) in
  if cmp =? 0 then s32 (u64 (alen - blen)) else cmp.

Definition equalStringObjects (a b : list Z) : bool := compareStringObjects a b =? 0.

Record zrangespec := RangeSpec { r_min : double; r_max : double; r_minex : bool; r_maxex : bool }.

Definition zslValueGteMin (value : double) (spec : zrangespec) : bool :=
  if r_minex spec then d_gt value (r_min spec) else d_ge value (r_min spec).

Definition zslValueLteMax (value : double) (spec : zrangespec) : bool :=
  if r_maxex spec then d_lt value (r_max spec) else d_le value (r_max spec).

(** A bound of a lexicographic range: [shared.minstring], [shared.maxstring] or
    another string object. *)
Inductive lexbound := MinString | MaxString | Str (s : list Z).

#[export] Instance lexbound_eq_dec : EqDecision lexbound.
Proof. solve_decision. Defined.

Record zlexrangespec := LexRangeSpec { l_min : lexbound; l_max : lexbound; l_minex : bool; l_maxex : bool }.

(** The bytes of the shared objects: "minstring" and "maxstring". *)
Definition bound_bytes (b : lexbound) : list Z :=
  match b with
  | MinString => [109; 105; 110; 115; 116; 114; 105; 110; 103]
  | MaxString => [109; 97; 120; 115; 116; 114; 105; 110; 103]
  | Str s => s
  end.

(** [a == b] compares pointers; two equal strings that are different objects
    compare equal by their bytes anyway. *)
Definition compareStringObjectsForLexRange (a b : lexbound) : Z :=
  if bool_decide (a = b) then 0 else
  if bool_decide (a = MinString) || bool_decide (b = MaxString) then -1 else
  if bool_decide (a = MaxString) || bool_decide (b = MinString) then 1 else
  compareStringObjects (bound_bytes a) (bound_bytes b).

Definition zslLexValueGteMin (value : list Z) (spec : zlexrangespec) : bool :=
  if l_minex spec then 0 <? compareStringObjectsForLexRange (Str value) (l_min spec)
  else 0 <=? compareStringObjectsForLexRange (Str value) (l_min spec).

Definition zslLexValueLteMax (value : list Z) (spec : zlexrangespec) : bool :=
  if l_maxex spec then compareStringObjectsForLexRange (Str value) (l_max spec) <? 0
  else compareStringObjectsForLexRange (Str value) (l_max spec) <=? 0.

(** [zslParseLexRangeItem]: the bound and whether it is exclusive, or C_ERR. *)
Definition zslParseLexRangeItem (item : list Z) : option (lexbound * bool) :=
  match item with
  | 43 :: rest => if bool_decide (head rest = None \/ head rest = Some 0) then Some (MaxString, false) else None
  | 45 :: rest => if bool_decide (head rest = None \/ head rest = Some 0) then Some (MinString, false) else None
  | 40 :: rest => Some (Str rest, true)
  | 91 :: rest => Some (Str rest, false)
  | _ => None
  end.

(** [zslParseLexRange] on two string-encoded objects. *)
Definition zslParseLexRange (min max : list Z) : option zlexrangespec :=
  '(lo, minex) ← zslParseLexRangeItem min;
  '(hi, maxex) ← zslParseLexRangeItem max;
  Some (LexRangeSpec lo hi minex maxex).

(** ** Lexicographic order of integer lists *)

Fixpoint lexcmp (a b : list Z) : comparison :=
  match a, b with
  | [], [] => Eq
  | [], _ => Lt
  | _, [] => Gt
  | x :: a, y :: b => match x ?= y with Eq => lexcmp a b | c => c end
  end.

Lemma lexcmp_refl a : lexcmp a a = Eq.
Proof. induction a as [|x a IH]; [done|]. cbn [lexcmp]. by rewrite Z.compare_refl. Qed.

Lemma lexcmp_eq a b : lexcmp a b = Eq -> a = b.
Proof.
  revert b. induction a as [|x a IH]; intros [|y b]; cbn [lexcmp]; try done.
  destruct (Z.compare_spec x y); try done. intros. subst. f_equal. auto.
Qed.

Lemma lexcmp_antisym a b : lexcmp b a = CompOpp (lexcmp a b).
Proof.
  revert b. induction a as [|x a IH]; intros [|y b]; cbn [lexcmp]; try done.
  rewrite Z.compare_antisym. by destruct (x ?= y); simpl.
Qed.

Lemma lexcmp_trans a b c : lexcmp a b = Lt -> lexcmp b c = Lt -> lexcmp a c = Lt.
Proof.
  revert b c. induction a as [|x a IH]; intros [|y b] [|z c]; cbn [lexcmp]; try done.
  destruct (Z.compare_spec x y) as [->|Hxy|Hxy]; [| |done].
  - intros H1. destruct (y ?= z); eauto.
  - intros _. destruct (Z.compare_spec y z) as [->|Hyz|Hyz]; [| |done]; intros _; rewrite (proj2 (Z.compare_lt_iff _ _)); done || lia.
Qed.

Lemma lexcmp_app_l p a b : lexcmp (p ++ a) (p ++ b) = lexcmp a b.
Proof. induction p as [|x p IH]; [done|]. cbn [app lexcmp]. by rewrite Z.compare_refl. Qed.

(** Prefixes of the same length decide first. *)
Lemma lexcmp_app p q a b : length p = length q ->
  lexcmp (p ++ a) (q ++ b) = match lexcmp p q with Eq => lexcmp a b | c => c end.
Proof.
  revert q. induction p as [|x p IH]; intros [|y q] Hl; try done. injection Hl as Hl. cbn [app lexcmp].
  destruct (x ?= y); auto.
Qed.

(** ** Doubles are ordered by a key *)

Definition dkey (x : double) : list Z :=
  match x with
  | S754_nan => [3; 0; 0]
  | S754_infinity s => [if s then -2 else 2; 0; 0]
  | S754_zero _ => [0; 0; 0]
  | S754_finite true m e => [-1; - e; - Z.pos m]
  | S754_finite false m e => [1; e; Z.pos m]
  end.

Lemma SFcompare_key a b : isnan a = false -> isnan b = false -> SFcompare a b = Some (lexcmp (dkey a) (dkey b)).
Proof.
  intros Ha Hb. destruct a as [sa|sa| |sa ma ea], b as [sb|sb| |sb mb eb]; try done; try (by destruct sa); try (by destruct sb);
    try (by destruct sa, sb).
  destruct sa, sb; cbn; try done; f_equal.
  - rewrite Z.compare_opp, (Z.compare_antisym ea eb). destruct (ea ?= eb); cbn; try done.
    change (- Z.pos ma ?= - Z.pos mb) with (CompOpp (ma ?= mb)%positive).
    change (Pos.compare_cont Eq ma mb) with (ma ?= mb)%positive. by destruct (ma ?= mb)%positive.
  - destruct (ea ?= eb); cbn; try done. change (Z.pos ma ?= Z.pos mb) with (ma ?= mb)%positive.
    change (Pos.compare_cont Eq ma mb) with (ma ?= mb)%positive. by destruct (ma ?= mb)%positive.
Qed.

Lemma length_dkey x : length (dkey x) = 3%nat.
Proof. by destruct x as [| | |[]]. Qed.

(** ** String objects are ordered by their bytes *)

Lemma memcmp_lex a b : forall n, n = Nat.min (length a) (length b) ->
  match lexcmp a b with
  | Eq => a = b
  | Lt => memcmp a b n < 0 \/ memcmp a b n = 0 /\ (length a < length b)%nat
  | Gt => memcmp a b n > 0 \/ memcmp a b n = 0 /\ (length a > length b)%nat
  end.
Proof.
  revert b. induction a as [|x a IH]; intros [|y b] n ->; cbn [lexcmp length Nat.min memcmp]; [done|right; split; [done|lia]..|].
  destruct (Z.compare_spec x y) as [->|Hc|Hc].
  - rewrite Z.eqb_refl. specialize (IH b _ eq_refl). destruct (lexcmp a b); [by subst|destruct IH; [by left|right; lia]..].
  - destruct (Z.eqb_spec x y); [lia|]. left; lia.
  - destruct (Z.eqb_spec x y); [lia|]. left; lia.
Qed.

(** A [size_t] difference returned as an [int]. *)
Lemma s32_u64 x : - 2 ^ 31 <= x < 2 ^ 31 -> s32 (u64 x) = x.
Proof.
  intros Hx. unfold wraps, wrapu. change (2 ^ (32 - 1)) with (2 ^ 31). destruct (Z.lt_ge_cases x 0).
  - rewrite <- (Z.mod_unique x (2 ^ 64) (-1) (x + 2 ^ 64)) by lia.
    replace (x + 2 ^ 64 + 2 ^ 31) with (x + 2 ^ 31 + 2 ^ 32 * 2 ^ 32) by lia.
    rewrite Z_mod_plus_full, Z.mod_small; lia.
  - rewrite (Z.mod_small x), Z.mod_small; lia.
Qed.

Definition short (s : list Z) : Prop := Zlen s < 2 ^ 31.

Lemma compareStringObjects_lex a b : short a -> short b ->
  match lexcmp a b with
  | Eq => a = b /\ compareStringObjects a b = 0
  | Lt => compareStringObjects a b < 0
  | Gt => compareStringObjects a b > 0
  end.
Proof.
  intros Ha Hb. unfold short in *. unfold compareStringObjects.
  set (n := Z.to_nat (if Zlen a <? Zlen b then Zlen a else Zlen b)).
  assert (n = Nat.min (length a) (length b)) as En by (subst n; destruct (Z.ltb_spec (Zlen a) (Zlen b)); lia).
  pose proof (memcmp_lex a b n En) as H. clearbody n.
  assert (s32 (u64 (Zlen a - Zlen b)) = Zlen a - Zlen b) as Ew.
  { apply s32_u64. lia. }
  destruct (lexcmp a b) eqn:El.
  - subst b. split; [done|]. assert (forall m c, memcmp c c m = 0) as ->.
    { induction m as [|m IH]; intros [|x c]; cbn [memcmp]; try done. rewrite Z.eqb_refl. apply IH. }
    rewrite Z.sub_diag. done.
  - destruct (Z.eqb_spec (memcmp a b n) 0) as [E|E]; [rewrite Ew; lia|lia].
  - destruct (Z.eqb_spec (memcmp a b n) 0) as [E|E]; [rewrite Ew; lia|lia].
Qed.

Lemma equalStringObjects_spec a b : short a -> short b -> equalStringObjects a b = true <-> a = b.
Proof.
  intros Ha Hb. pose proof (compareStringObjects_lex a b Ha Hb) as H. unfold equalStringObjects. rewrite Z.eqb_eq.
  destruct (lexcmp a b) eqn:E.
  - destruct H as [-> ->]. done.
  - split; [lia|]. intros ->. rewrite lexcmp_refl in E. done.
  - split; [lia|]. intros ->. rewrite lexcmp_refl in E. done.
Qed.
