(* ===== verification/Skiplist.v ===== *)
(** Skip lists of sorted sets: the [zsl*] functions of [t_zset.c].

    Nodes live in a heap addressed by pointers ([Z], 0 is NULL); a node has an
    array of levels, each with a forward pointer and a span.  Accesses through
    NULL or freed pointers, or past a node's levels, are [None], and so are failed
    assertions.  The fields of a new node that [zslCreateNode] leaves unset hold
    [garbage].  [random()] is the list of the numbers it will return. *)

From S2P Require Import Prelude Scores.

(** ** Data *)

Record zskiplistLevel := Level { forward : Z; span : Z }.
Record zskiplistNode := ZNode { obj : option (list Z); score : double; backward : Z; level : list zskiplistLevel }.
Record zskiplist := ZSL { header : Z; tail : Z; length_ : Z; level_ : nat }.

(** [h_brk] is the next fresh address; the heap is one per skip list. *)
Record zheap := ZHeap { h_cells : gmap Z zskiplistNode; h_brk : Z }.

Definition NULL : Z := 0.
Definition ZSKIPLIST_MAXLEVEL : nat := 32.

Section Skiplist.
(** What uninitialised fields hold. *)
Context (garbage : zskiplistLevel) (garbage_ptr : Z).

Implicit Types (h : zheap) (zsl : zskiplist) (x y : Z) (i : nat).

(** ** Heap accesses *)

Definition deref h x : option zskiplistNode := if x =? NULL then None else h_cells h !! x.
Definition put h x (n : zskiplistNode) : zheap := ZHeap (<[x := n]> (h_cells h)) (h_brk h).
Definition zfree h x : option zheap := _ ← deref h x; Some (ZHeap (delete x (h_cells h)) (h_brk h)).

Definition get_level h x i : option zskiplistLevel := n ← deref h x; level n !! i.
Definition set_level h x i (v : zskiplistLevel) : option zheap :=
  n ← deref h x; _ ← level n !! i;
  Some (put h x (ZNode (obj n) (score n) (backward n) (<[i := v]> (level n)))).
Definition set_backward h x y : option zheap :=
  n ← deref h x; Some (put h x (ZNode (obj n) (score n) y (level n))).

(** ** Creation *)

Definition zslCreateNode h (lvl : nat) (sc : double) (o : option (list Z)) : zheap * Z :=
  (ZHeap (<[h_brk h := ZNode o sc garbage_ptr (replicate lvl garbage)]> (h_cells h)) (h_brk h + 1), h_brk h).

(** [for (j = 0; j < ZSKIPLIST_MAXLEVEL; j++)], counted from [j] up. *)
Fixpoint clear_levels (n : nat) (j : nat) h x : option zheap :=
  match n with
  | O => Some h
  | S n => h ← set_level h x j (Level NULL 0); clear_levels n (S j) h x
  end.

Definition zslCreate h : option (zheap * zskiplist) :=
  let '(h, hd) := zslCreateNode h ZSKIPLIST_MAXLEVEL (SpecFloat.S754_zero false) None in
  h ← clear_levels ZSKIPLIST_MAXLEVEL 0 h hd;
  h ← set_backward h hd NULL;
  Some (h, ZSL hd NULL 0 1).

(** [while ((random()&0xFFFF) < (ZSKIPLIST_P * 0xFFFF)) level += 1;]: the bound
    is 16383.75. *)
Fixpoint random_loop (rs : list Z) (lvl : Z) : option (Z * list Z) :=
  match rs with
  | [] => None
  | r :: rs => if Z.land r 65535 <=? 16383 then random_loop rs (lvl + 1) else Some (lvl, rs)
  end.

Definition zslRandomLevel (rs : list Z) : option (nat * list Z) :=
  '(lvl, rs) ← random_loop rs 1;
  Some (Z.to_nat (if lvl <? Z.of_nat ZSKIPLIST_MAXLEVEL then lvl else Z.of_nat ZSKIPLIST_MAXLEVEL), rs).

(** ** Traversal

    [while (x->level[i].forward && go(...)) { rank += x->level[i].span;
    x = x->level[i].forward; }]: [go] sees the object and score of the next node
    and the rank it would be reached with; [w] is the width of the rank. *)
Fixpoint walk (w : Z) (fuel : nat) h i (go : option (list Z) -> double -> Z -> bool) x (rank : Z) : option (Z * Z) :=
  match fuel with
  | O => None
  | S fuel =>
    lv ← get_level h x i;
    if forward lv =? NULL then Some (x, rank) else
    n ← deref h (forward lv);
    let next := wrapu w (rank + span lv) in
    if go (obj n) (score n) next then walk w fuel h i go (forward lv) next else Some (x, rank)
  end.

(** [for (i = zsl->level-1; i >= 0; i--)]; the entry of [update] at [i] is
    [update[i]] with [rank[i]]. *)
Fixpoint descend (w : Z) (fuel : nat) h i go x (rank : Z) (update : list (Z * Z)) : option (Z * Z * list (Z * Z)) :=
  match i with
  | O => Some (x, rank, update)
  | S i =>
    '(x, rank) ← walk w fuel h i go x rank;
    descend w fuel h i go x rank ((x, rank) :: update)
  end.

(** The same with a test for an early return after each level. *)
Fixpoint descend_until (w : Z) (fuel : nat) h i go (stop : option (list Z) -> Z -> bool) x (rank : Z) : option (option (Z * Z)) :=
  match i with
  | O => Some None
  | S i =>
    '(x, rank) ← walk w fuel h i go x rank;
    n ← deref h x;
    if stop (obj n) rank then Some (Some (x, rank)) else descend_until w fuel h i go stop x rank
  end.

Definition nodes zsl : nat := S (Z.to_nat (length_ zsl)).

(** The comparison of insertion, deletion and rank. *)
Definition before (sc : double) (o : list Z) (o' : option (list Z)) (sc' : double) : bool :=
  d_lt sc' sc || (d_eq sc' sc && match o' with Some o' => compareStringObjects o' o <? 0 | None => false end).
Definition before_or_at (sc : double) (o : list Z) (o' : option (list Z)) (sc' : double) : bool :=
  d_lt sc' sc || (d_eq sc' sc && match o' with Some o' => compareStringObjects o' o <=? 0 | None => false end).

(** ** Insertion *)

(** [for (i = zsl->level; i < level; i++)]: [n] levels from [i] on. *)
Fixpoint raise_levels (n : nat) i h zsl (update : list (Z * Z)) : option (zheap * list (Z * Z)) :=
  match n with
  | O => Some (h, update)
  | S n =>
    lv ← get_level h (header zsl) i;
    h ← set_level h (header zsl) i (Level (forward lv) (u32 (length_ zsl)));
    raise_levels n (S i) h zsl (update ++ [(header zsl, 0)])
  end.

(** [for (i = 0; i < level; i++)]: [n] levels from [i] on; [rank0] is [rank[0]]. *)
Fixpoint link_levels (n : nat) i h x (update : list (Z * Z)) (rank0 : Z) : option zheap :=
  match n with
  | O => Some h
  | S n =>
    '(u, rank) ← update !! i;
    lv ← get_level h u i;
    h ← set_level h x i (Level (forward lv) (u32 (span lv - u32 (rank0 - rank))));
    h ← set_level h u i (Level x (u32 (u32 (rank0 - rank) + 1)));
    link_levels n (S i) h x update rank0
  end.

(** [for (i = level; i < zsl->level; i++) update[i]->level[i].span++;] *)
Fixpoint bump_levels (n : nat) i h (update : list (Z * Z)) : option zheap :=
  match n with
  | O => Some h
  | S n =>
    '(u, _) ← update !! i;
    lv ← get_level h u i;
    h ← set_level h u i (Level (forward lv) (u32 (span lv + 1)));
    bump_levels n (S i) h update
  end.

(** The heap, the skip list, the new node and the remaining random numbers. *)
Definition zslInsert h zsl (sc : double) (o : list Z) (rs : list Z) : option (zheap * zskiplist * Z * list Z) :=
  if isnan sc then None else
  '(_, _, update) ← descend 32 (nodes zsl) h (level_ zsl) (fun o' sc' _ => before sc o o' sc') (header zsl) 0 [];
  '(lvl, rs) ← zslRandomLevel rs;
  '(h, update) ← raise_levels (lvl - level_ zsl) (level_ zsl) h zsl update;
  let zl := Nat.max (level_ zsl) lvl in
  let '(h, x) := zslCreateNode h lvl sc (Some o) in
  '(update0, rank0) ← update !! 0%nat;
  h ← link_levels lvl 0 h x update rank0;
  h ← bump_levels (zl - lvl) lvl h update;
  h ← set_backward h x (if update0 =? header zsl then NULL else update0);
  lv ← get_level h x 0;
  '(h, tl) ← (if negb (forward lv =? NULL) then h ← set_backward h (forward lv) x; Some (h, tail zsl)
    else Some (h, x));
  Some (h, ZSL (header zsl) tl (u64 (length_ zsl + 1)) zl, x, rs).

(** ** Deletion *)

(** The [for] of [zslDeleteNode]: [n] levels from [i] on. *)
Fixpoint unlink_levels (n : nat) i h x (update : list (Z * Z)) : option zheap :=
  match n with
  | O => Some h
  | S n =>
    '(u, _) ← update !! i;
    lv ← get_level h u i;
    h ← (if forward lv =? x then
        lx ← get_level h x i;
        set_level h u i (Level (forward lx) (u32 (span lv + u32 (span lx - 1))))
      else set_level h u i (Level (forward lv) (u32 (span lv - 1))));
    unlink_levels n (S i) h x update
  end.

(** [while(zsl->level > 1 && zsl->header->level[zsl->level-1].forward == NULL)] *)
Fixpoint shrink_level (n : nat) h (hd : Z) : option nat :=
  match n with
  | S (S n as m) =>
    lv ← get_level h hd m;
    if forward lv =? NULL then shrink_level m h hd else Some (S m)
  | _ => Some n
  end.

Definition zslDeleteNode h zsl x (update : list (Z * Z)) : option (zheap * zskiplist) :=
  h ← unlink_levels (level_ zsl) 0 h x update;
  lv ← get_level h x 0;
  nx ← deref h x;
  '(h, tl) ← (if negb (forward lv =? NULL) then h ← set_backward h (forward lv) (backward nx); Some (h, tail zsl)
    else Some (h, backward nx));
  zl ← shrink_level (level_ zsl) h (header zsl);
  Some (h, ZSL (header zsl) tl (u64 (length_ zsl - 1)) zl).

Definition zslDelete h zsl (sc : double) (o : list Z) : option (zheap * zskiplist * bool) :=
  '(x, _, update) ← descend 64 (nodes zsl) h (level_ zsl) (fun o' sc' _ => before sc o o' sc') (header zsl) 0 [];
  lv ← get_level h x 0;
  let x := forward lv in
  if x =? NULL then Some (h, zsl, false) else
  n ← deref h x;
  if d_eq sc (score n) && match obj n with Some o' => equalStringObjects o' o | None => false end then
    '(h, zsl) ← zslDeleteNode h zsl x update;
    h ← zfree h x;
    Some (h, zsl, true)
  else Some (h, zsl, false).

(** The deletion loop of the range functions: [stay] sees the node and the value
    of [traversed]; the objects passed to [dictDelete], in order. *)
Fixpoint delete_while (fuel : nat) h zsl (stay : option (list Z) -> double -> Z -> bool) (update : list (Z * Z)) x (traversed : Z)
    (removed : list (option (list Z))) : option (zheap * zskiplist * list (option (list Z))) :=
  match fuel with
  | O => None
  | S fuel =>
    if x =? NULL then Some (h, zsl, removed) else
    n ← deref h x;
    if stay (obj n) (score n) traversed then
      lv ← get_level h x 0;
      let next := forward lv in
      '(h, zsl) ← zslDeleteNode h zsl x update;
      h ← zfree h x;
      delete_while fuel h zsl stay update next (traversed + 1) (removed ++ [obj n])
    else Some (h, zsl, removed)
  end.

Definition zslDeleteRangeByScore h zsl (range : zrangespec) : option (zheap * zskiplist * list (option (list Z))) :=
  '(x, _, update) ← descend 64 (nodes zsl) h (level_ zsl)
    (fun _ sc _ => if r_minex range then d_le sc (r_min range) else d_lt sc (r_min range)) (header zsl) 0 [];
  lv ← get_level h x 0;
  delete_while (nodes zsl) h zsl (fun _ sc _ => if r_maxex range then d_lt sc (r_max range) else d_le sc (r_max range))
    update (forward lv) 0 [].

Definition zslDeleteRangeByLex h zsl (range : zlexrangespec) : option (zheap * zskiplist * list (option (list Z))) :=
  '(x, _, update) ← descend 64 (nodes zsl) h (level_ zsl)
    (fun o _ _ => match o with Some o => negb (zslLexValueGteMin o range) | None => false end) (header zsl) 0 [];
  lv ← get_level h x 0;
  delete_while (nodes zsl) h zsl (fun o _ _ => match o with Some o => zslLexValueLteMax o range | None => false end)
    update (forward lv) 0 [].

Definition zslDeleteRangeByRank h zsl (start end_ : Z) : option (zheap * zskiplist * list (option (list Z))) :=
  '(x, traversed, update) ← descend 64 (nodes zsl) h (level_ zsl) (fun _ _ t => t <? start) (header zsl) 0 [];
  lv ← get_level h x 0;
  delete_while (nodes zsl) h zsl (fun _ _ t => t <=? end_) update (forward lv) (traversed + 1) [].

(** [zslFree]: the header, then the nodes of the lowest level. *)
Fixpoint free_loop (fuel : nat) h x : option zheap :=
  match fuel with
  | O => None
  | S fuel =>
    if x =? NULL then Some h else
    lv ← get_level h x 0; h ← zfree h x; free_loop fuel h (forward lv)
  end.

Definition zslFree h zsl : option zheap :=
  lv ← get_level h (header zsl) 0; h ← zfree h (header zsl); free_loop (nodes zsl) h (forward lv).

(** ** Queries *)

Definition zslGetRank h zsl (sc : double) (o : list Z) : option Z :=
  r ← descend_until 64 (nodes zsl) h (level_ zsl) (fun o' sc' _ => before_or_at sc o o' sc')
    (fun o' _ => match o' with Some o' => equalStringObjects o' o | None => false end) (header zsl) 0;
  Some (match r with Some (_, rank) => rank | None => 0 end).

Definition zslGetElementByRank h zsl (rank : Z) : option Z :=
  r ← descend_until 64 (nodes zsl) h (level_ zsl) (fun _ _ t => t <=? rank) (fun _ t => t =? rank) (header zsl) 0;
  Some (match r with Some (x, _) => x | None => NULL end).

(** The last node and the first node, when there is one. *)
Definition zslIsInRange h zsl (range : zrangespec) : option bool :=
  if d_gt (r_min range) (r_max range) || (d_eq (r_min range) (r_max range) && (r_minex range || r_maxex range)) then Some false else
  if tail zsl =? NULL then Some false else
  n ← deref h (tail zsl);
  if negb (zslValueGteMin (score n) range) then Some false else
  lv ← get_level h (header zsl) 0;
  if forward lv =? NULL then Some false else
  n ← deref h (forward lv);
  if negb (zslValueLteMax (score n) range) then Some false else Some true.

Definition zslFirstInRange h zsl (range : zrangespec) : option Z :=
  b ← zslIsInRange h zsl range;
  if negb b then Some NULL else
  '(x, _, _) ← descend 64 (nodes zsl) h (level_ zsl) (fun _ sc _ => negb (zslValueGteMin sc range)) (header zsl) 0 [];
  lv ← get_level h x 0;
  let x := forward lv in
  if x =? NULL then None else
  n ← deref h x;
  if negb (zslValueLteMax (score n) range) then Some NULL else Some x.

Definition zslLastInRange h zsl (range : zrangespec) : option Z :=
  b ← zslIsInRange h zsl range;
  if negb b then Some NULL else
  '(x, _, _) ← descend 64 (nodes zsl) h (level_ zsl) (fun _ sc _ => zslValueLteMax sc range) (header zsl) 0 [];
  n ← deref h x;
  if negb (zslValueGteMin (score n) range) then Some NULL else Some x.

Definition zslIsInLexRange h zsl (range : zlexrangespec) : option bool :=
  if (1 <? compareStringObjectsForLexRange (l_min range) (l_max range)) ||
     ((compareStringObjects (bound_bytes (l_min range)) (bound_bytes (l_max range)) =? 0) && (l_minex range || l_maxex range))
  then Some false else
  if tail zsl =? NULL then Some false else
  n ← deref h (tail zsl); o ← obj n;
  if negb (zslLexValueGteMin o range) then Some false else
  lv ← get_level h (header zsl) 0;
  if forward lv =? NULL then Some false else
  n ← deref h (forward lv); o ← obj n;
  if negb (zslLexValueLteMax o range) then Some false else Some true.

Definition zslFirstInLexRange h zsl (range : zlexrangespec) : option Z :=
  b ← zslIsInLexRange h zsl range;
  if negb b then Some NULL else
  '(x, _, _) ← descend 64 (nodes zsl) h (level_ zsl)
    (fun o _ _ => match o with Some o => negb (zslLexValueGteMin o range) | None => false end) (header zsl) 0 [];
  lv ← get_level h x 0;
  let x := forward lv in
  if x =? NULL then None else
  n ← deref h x; o ← obj n;
  if negb (zslLexValueLteMax o range) then Some NULL else Some x.

Definition zslLastInLexRange h zsl (range : zlexrangespec) : option Z :=
  b ← zslIsInLexRange h zsl range;
  if negb b then Some NULL else
  '(x, _, _) ← descend 64 (nodes zsl) h (level_ zsl)
    (fun o _ _ => match o with Some o => zslLexValueLteMax o range | None => false end) (header zsl) 0 [];
  n ← deref h x; o ← obj n;
  if negb (zslLexValueGteMin o range) then Some NULL else Some x.

End Skiplist.
