(* ===== verification/SkiplistInv.v ===== *)
(** The representation invariant of the skip list of [Skiplist.v].

    The nodes of a skip list are described by a list of [elt]s; what a level of a
    node must hold is a function of the elements that follow it ([next_at]): the
    first of them high enough, and its distance.  The traversals and the pointer
    updates are proved against this description. *)

From S2P Require Import Prelude Scores Skiplist.

(** ** Segments *)

Record elt := Elt { e_ptr : Z; e_h : nat; e_obj : option (list Z); e_score : double; e_back : Z }.

Implicit Types (h : zheap) (e y : elt) (l s P T : list elt) (i j k : nat) (v : zskiplistLevel).

(** The level [i] of a node followed by [l]: the next node that has this level. *)
Fixpoint next_at i l (d : Z) : zskiplistLevel :=
  match l with
  | [] => Level NULL d
  | e :: l => if decide (i < e_h e)%nat then Level (e_ptr e) (d + 1) else next_at i l (d + 1)
  end.

Definition low i l : Prop := Forall (fun e => (e_h e <= i)%nat) l.

Lemma next_at_shift i l d : next_at i l d = Level (forward (next_at i l 0)) (span (next_at i l 0) + d).
Proof.
  revert d. induction l as [|e l IH]; intros d; cbn [next_at]; [simpl; f_equal; lia|].
  destruct (decide (i < e_h e)%nat); [simpl; f_equal; lia|].
  rewrite IH, (IH (0 + 1)). simpl. f_equal. lia.
Qed.

Lemma next_at_low i a l d : low i a -> next_at i (a ++ l) d = next_at i l (d + Zlen a).
Proof.
  intros Ha. revert d. induction Ha as [|e a He Ha IH]; intros d; cbn [app next_at length]; [f_equal; lia|].
  destruct (decide (i < e_h e)%nat); [lia|]. rewrite IH. f_equal. lia.
Qed.

Lemma next_at_hit i e l d : (i < e_h e)%nat -> next_at i (e :: l) d = Level (e_ptr e) (d + 1).
Proof. intros. cbn [next_at]. by destruct (decide (i < e_h e)%nat). Qed.

Lemma low_split i l : low i l \/ exists a e b, l = a ++ e :: b /\ low i a /\ (i < e_h e)%nat.
Proof.
  induction l as [|e l IH]; [left; constructor|]. destruct (decide (i < e_h e)%nat) as [Hi|Hi].
  - right. exists [], e, l. split_and!; [done|constructor|done].
  - destruct IH as [IH|(a & e' & b & -> & Ha & He)]; [left; constructor; [lia|done]|].
    right. exists (e :: a), e', b. split_and!; [done|constructor; [lia|done]|done].
Qed.

(** What a hit inside the first part decides. *)
Lemma next_at_inside i a T T' d : ~ low i a -> next_at i (a ++ T) d = next_at i (a ++ T') d.
Proof.
  intros Ha. destruct (low_split i a) as [|(b & e & c & -> & Hb & He)]; [done|].
  rewrite <- !app_assoc. cbn [app]. rewrite !(next_at_low i b) by done. rewrite !next_at_hit by done. done.
Qed.

Lemma next_at_forward i l d : forward (next_at i l d) = NULL -> Forall (fun e => e_ptr e <> NULL) l -> low i l.
Proof.
  revert d. induction l as [|e l IH]; intros d E Hp; [constructor|]. inversion_clear Hp. cbn [next_at] in E.
  destruct (decide (i < e_h e)%nat); [done|]. constructor; [lia|]. by eapply IH.
Qed.

Lemma next_at_range i l d : d <= span (next_at i l d) <= d + Zlen l.
Proof.
  revert d. induction l as [|e l IH]; intros d; cbn [next_at length]; [simpl; lia|].
  destruct (decide (i < e_h e)%nat); [simpl; lia|]. specialize (IH (d + 1)). lia.
Qed.

(** A node followed by [s], whose levels satisfy [g]. *)
Definition node_ok h (g : nat -> list elt -> zskiplistLevel -> Prop) e s : Prop :=
  exists lv, deref h (e_ptr e) = Some (ZNode (e_obj e) (e_score e) (e_back e) lv) /\ length lv = e_h e /\
    forall i v, lv !! i = Some v -> g i s v.

Fixpoint seg h (g : nat -> list elt -> zskiplistLevel -> Prop) l : Prop :=
  match l with [] => True | e :: s => node_ok h g e s /\ seg h g s end.

(** The levels of a segment followed by [T]; the spans of the levels from [lvl]
    on are stale. *)
Definition good (lvl : nat) T i s v : Prop :=
  forward v = forward (next_at i (s ++ T) 0) /\ ((i < lvl)%nat -> v = next_at i (s ++ T) 0).

Lemma seg_impl h g g' l : seg h g l ->
  (forall a e s i v, l = a ++ e :: s -> (i < e_h e)%nat -> g i s v -> g' i s v) -> seg h g' l.
Proof.
  induction l as [|e l IH]; [done|]. intros [(lv & Hd & Hl & Hg) Hs] Himp. split.
  - exists lv. split_and!; [done|done|]. intros i v Hv. apply (Himp [] e l); [done| |by apply Hg].
    rewrite <- Hl. by eapply lookup_lt_Some.
  - apply IH; [done|]. intros a e' s i v -> Hi Hv. by apply (Himp (e :: a) e' s).
Qed.

Lemma seg_app h lvl T l1 l2 : seg h (good lvl T) (l1 ++ l2) <-> seg h (good lvl (l2 ++ T)) l1 /\ seg h (good lvl T) l2.
Proof.
  induction l1 as [|e l1 IH]; cbn [app seg]; [tauto|]. rewrite IH. unfold node_ok, good. setoid_rewrite <- app_assoc. tauto.
Qed.

Lemma seg_frame h h' g l : (forall e, e ∈ l -> deref h' (e_ptr e) = deref h (e_ptr e)) -> seg h g l -> seg h' g l.
Proof.
  induction l as [|e l IH]; [done|]. intros Hf [(lv & Hd & Hlv) Hs]. split.
  - exists lv. rewrite Hf by left. done.
  - apply IH; [|done]. intros e' He'. apply Hf. by right.
Qed.

Lemma seg_mid h g a e s : seg h g (a ++ e :: s) -> node_ok h g e s.
Proof. induction a as [|e' a IH]; [by intros []|intros [_ Hs]; auto]. Qed.

Lemma node_level h g e s i : node_ok h g e s -> (i < e_h e)%nat -> exists v, get_level h (e_ptr e) i = Some v /\ g i s v.
Proof.
  intros (lv & Hd & Hl & Hg) Hi. destruct (lookup_lt_is_Some_2 lv i ltac:(lia)) as (v & Hv).
  exists v. unfold get_level. rewrite Hd, bind_Some. split; [done|by apply Hg].
Qed.

(** *** Stores *)

Lemma deref_put h p n q : p <> NULL -> deref (put h p n) q = if decide (q = p) then Some n else deref h q.
Proof.
  intros Hp. unfold deref, put. cbn [h_cells]. destruct (Z.eqb_spec q NULL) as [->|Hq]; case_decide; try done.
  - subst. by rewrite lookup_insert_eq.
  - by rewrite lookup_insert_ne.
Qed.

(** The parts of the heap outside one node. *)
Definition same_but h h' (p : Z) : Prop :=
  (forall q, q <> p -> deref h' q = deref h q) /\ h_brk h' = h_brk h /\
  (forall q, is_Some (h_cells h' !! q) <-> is_Some (h_cells h !! q)).

Lemma put_same_but h p n n' : deref h p = Some n -> same_but h (put h p n') p.
Proof.
  intros Hd. assert (p <> NULL) as Hp by (intros ->; unfold deref in Hd; by rewrite Z.eqb_refl in Hd).
  assert (h_cells h !! p = Some n) as Hc by (unfold deref in Hd; by destruct (Z.eqb_spec p NULL)).
  split_and!.
  - intros q Hq. rewrite deref_put by done. by case_decide.
  - done.
  - intros q. unfold put. cbn [h_cells]. destruct (decide (q = p)) as [->|]; [rewrite lookup_insert_eq, Hc; split; by eexists|].
    by rewrite lookup_insert_ne.
Qed.

Lemma app_cons_inj {A} (a1 a2 b1 b2 : list A) (x1 x2 : A) : a1 ++ x1 :: b1 = a2 ++ x2 :: b2 -> length a1 = length a2 ->
  a1 = a2 /\ x1 = x2 /\ b1 = b2.
Proof. intros E Hl. apply app_inj_1 in E as [-> [= -> ->]]; done. Qed.

Lemma node_not_null h g e s : node_ok h g e s -> e_ptr e <> NULL.
Proof. intros (lv & Hd & _) E. unfold deref in Hd. rewrite E in Hd. done. Qed.

Lemma NoDup_ptr_mid a e s e' : NoDup (e_ptr <$> a ++ e :: s) -> e' ∈ a ++ s -> e_ptr e' <> e_ptr e.
Proof.
  intros Hnd Hin E. rewrite <- Permutation_middle in Hnd. cbn in Hnd. apply NoDup_cons in Hnd as [Hn _]. apply Hn.
  rewrite <- E. by apply list_elem_of_fmap_2.
Qed.

(** Storing one level of one node. *)
Lemma set_level_spec h g g' a e s i v : seg h g (a ++ e :: s) -> NoDup (e_ptr <$> a ++ e :: s) -> (i < e_h e)%nat ->
  g' i s v ->
  (forall a' e' s' j w, a ++ e :: s = a' ++ e' :: s' -> (j < e_h e')%nat -> (length a' <> length a \/ j <> i) -> g j s' w -> g' j s' w) ->
  exists h', set_level h (e_ptr e) i v = Some h' /\ seg h' g' (a ++ e :: s) /\ same_but h h' (e_ptr e).
Proof.
  intros Hseg Hnd Hi Hv Hg'. destruct (seg_mid h g a e s Hseg) as (lv & Hd & Hl & Hlv).
  assert (e_ptr e <> NULL) as Hp by (eapply node_not_null, seg_mid, Hseg).
  unfold set_level. rewrite Hd, bind_Some. cbn [level obj score backward].
  destruct (lookup_lt_is_Some_2 lv i ltac:(lia)) as (w0 & ->). rewrite bind_Some.
  eexists. split; [done|]. split; [|by eapply put_same_but].
  set (h' := put h (e_ptr e) _).
  assert (forall a' e' s', a ++ e :: s = a' ++ e' :: s' -> node_ok h g e' s' -> node_ok h' g' e' s') as Hnode.
  { intros a' e' s' E (lv' & Hd' & Hl' & Hlv'). destruct (decide (length a' = length a)) as [El|El].
    - destruct (app_cons_inj _ _ _ _ _ _ E (eq_sym El)) as (<- & <- & <-). rewrite Hd in Hd'. injection Hd' as <-.
      exists (<[i := v]> lv). unfold h'. rewrite deref_put by done. rewrite decide_True by done. rewrite length_insert. split_and!; [done|done|].
      intros j w Hj. apply list_lookup_insert_Some in Hj as [(-> & -> & _)|(Hne & Hj)]; [done|].
      apply (Hg' a e s); [done| |by right|by apply Hlv]. rewrite <- Hl. by eapply lookup_lt_Some.
    - exists lv'. split_and!; [|done|].
      + unfold h'. rewrite deref_put by done. rewrite decide_False; [done|].
        intros Ep. apply El. assert (e_ptr <$> a' ++ e' :: s' = e_ptr <$> a ++ e :: s) as EE by (by rewrite E).
        rewrite !fmap_app in EE. cbn in EE. rewrite fmap_app in Hnd. cbn in Hnd.
        assert ((e_ptr <$> a) !! length a' = Some (e_ptr e) \/ length a' = length a \/ (e_ptr <$> s) !! (length a' - length a - 1)%nat = Some (e_ptr e)) as Hc.
        { assert (((e_ptr <$> a) ++ e_ptr e :: (e_ptr <$> s)) !! length a' = Some (e_ptr e)) as Hlk.
          { rewrite <- EE, lookup_app_r by (by rewrite length_fmap). rewrite length_fmap, Nat.sub_diag. cbn. by rewrite Ep. }
          destruct (decide (length a' < length a)%nat).
          - left. rewrite lookup_app_l in Hlk by (by rewrite length_fmap). done.
          - right. destruct (decide (length a' = length a)); [by left|right].
            rewrite lookup_app_r in Hlk by (rewrite length_fmap; lia). rewrite length_fmap in Hlk.
            replace (length a' - length a)%nat with (S (length a' - length a - 1)) in Hlk by lia. done. }
        apply NoDup_app in Hnd as (_ & Hn1 & Hn2). apply NoDup_cons in Hn2 as [Hn2 _].
        destruct Hc as [Hc|[Hc|Hc]]; [|done|].
        * apply list_elem_of_lookup_2 in Hc. exfalso. by apply (Hn1 _ Hc); left.
        * apply list_elem_of_lookup_2 in Hc. done.
      + intros j w Hj. apply (Hg' a' e' s'); [done| |by left|by apply Hlv']. rewrite <- Hl'. by eapply lookup_lt_Some. }
  clear -Hseg Hnode. remember (a ++ e :: s) as l eqn:El. clear El.
  assert (forall b l', l = b ++ l' -> seg h g l' -> seg h' g' l') as H; [|by apply (H [] l)].
  intros b l'. revert b. induction l' as [|e' l' IH]; intros b Eb Hs; [done|]. destruct Hs as [Hn Hs]. split.
  - by apply (Hnode b e' l').
  - apply (IH (b ++ [e'])); [by rewrite <- app_assoc|done].
Qed.

(** ** The last node of a level *)

(** [p] is the last node of [P] that has level [i], [r] its index. *)
Definition is_last i P (p r : Z) : Prop :=
  exists a y s, P = a ++ y :: s /\ (i < e_h y)%nat /\ low i s /\ p = e_ptr y /\ r = Zlen a.

(** Levels below [k] already follow [gn], the others still [go]. *)
Definition mix k (gn go : nat -> list elt -> zskiplistLevel -> Prop) i s v : Prop :=
  if decide (i < k)%nat then gn i s v else go i s v.

Lemma mix_step h gn go k P a y s v : seg h (mix k gn go) P -> NoDup (e_ptr <$> P) ->
  P = a ++ y :: s -> (k < e_h y)%nat -> low k s -> gn k s v ->
  (forall s' w, ~ low k s' -> go k s' w -> gn k s' w) ->
  exists h', set_level h (e_ptr y) k v = Some h' /\ seg h' (mix (S k) gn go) P /\ same_but h h' (e_ptr y).
Proof.
  intros Hseg Hnd -> Hk Hlow Hv Himp. eapply set_level_spec; [exact Hseg|done|done| |].
  - unfold mix. by rewrite decide_True by lia.
  - intros a' e' s' j w E Hj Hne. unfold mix. destruct (decide (j < k)%nat); [by rewrite decide_True by lia|].
    destruct (decide (j < S k)%nat); [|done]. assert (j = k) as -> by lia. destruct Hne as [Hne|]; [|done].
    apply Himp. intros Hlow'. destruct (Nat.lt_trichotomy (length a') (length a)) as [Hlt|[|Hgt]]; [|done|].
    + assert (y ∈ s') as Hin; [|unfold low in Hlow'; rewrite Forall_forall in Hlow'; specialize (Hlow' _ Hin); lia].
      assert ((a' ++ e' :: s') !! length a = Some y) as Hl by (rewrite <- E, lookup_app_r, Nat.sub_diag by lia; done).
      rewrite lookup_app_r in Hl by lia. destruct (length a - length a')%nat as [|m] eqn:En; [lia|]. cbn in Hl.
      by eapply list_elem_of_lookup_2.
    + assert (e' ∈ s) as Hin; [|unfold low in Hlow; rewrite Forall_forall in Hlow; specialize (Hlow _ Hin); lia].
      assert ((a ++ y :: s) !! length a' = Some e') as Hl by (rewrite E, lookup_app_r, Nat.sub_diag by lia; done).
      rewrite lookup_app_r in Hl by lia. destruct (length a' - length a)%nat as [|m] eqn:En; [lia|]. cbn in Hl.
      by eapply list_elem_of_lookup_2.
Qed.

(** ** Traversals *)

Lemma last_zero (H : elt) L1 (Hpos : Forall (fun e => (1 <= e_h e)%nat) L1) a y s : H :: L1 = a ++ y :: s -> low 0 s -> s = [].
Proof.
  intros E Hlow. destruct s as [|z s]; [done|]. exfalso. inversion_clear Hlow as [|? ? Hz _].
  assert (z ∈ L1) as Hin.
  { destruct a as [|x a]; cbn [app] in E; injection E as _ E; rewrite E; [left|]. apply elem_of_app. right. right. left. }
  rewrite Forall_forall in Hpos. specialize (Hpos _ Hin). lia.
Qed.

(** The traversal ends at the last node before the cut. *)
Lemma is_last_zero (H : elt) L1 (Hpos : Forall (fun e => (1 <= e_h e)%nat) L1) p r : is_last 0 (H :: L1) p r -> p = e_ptr (default H (last L1)) /\ r = Zlen L1.
Proof.
  intros (a & y & s & E & Hy & Hlow & -> & ->). pose proof (last_zero H L1 Hpos a y s E Hlow) as ->.
  pose proof (f_equal last E) as El. rewrite last_snoc, last_cons in El.
  pose proof (f_equal length E) as Ell. rewrite length_app in Ell. simpl in Ell. split; [|lia].
  destruct (last L1); simplify_eq/=; done.
Qed.

Section Traverse.
Context (h : zheap) (lvl : nat) (H : elt) (L1 T : list elt) (w : Z) (go : option (list Z) -> double -> Z -> bool).
Context (HP : seg h (good lvl T) (H :: L1)) (HT : seg h (good lvl []) T) (Hw : 32 <= w) (Hlen : Zlen (L1 ++ T) < 2 ^ 32)
  (HH : (lvl <= e_h H)%nat)
  (Htrue : forall a e b, L1 = a ++ e :: b -> go (e_obj e) (e_score e) (Zlen a + 1) = true)
  (Hfalse : forall a e b, T = a ++ e :: b -> go (e_obj e) (e_score e) (Zlen L1 + Zlen a + 1) = false).

Lemma rank_small x : 0 <= x <= Zlen (L1 ++ T) -> wrapu w x = x.
Proof. intros. apply wrapu_id. pose proof (Z.pow_le_mono_r 2 32 w). lia. Qed.

Lemma walk_spec i : (i < lvl)%nat -> forall fuel a y s, H :: L1 = a ++ y :: s -> (i < e_h y)%nat -> (length s < fuel)%nat ->
  exists p r, walk w fuel h i go (e_ptr y) (Zlen a) = Some (p, r) /\ is_last i (H :: L1) p r.
Proof.
  intros Hi. induction fuel as [|fuel IH]; intros a y s E Hy Hf; [lia|]. cbn [walk].
  assert (node_ok h (good lvl T) y s) as Hn by (apply (seg_mid h _ a); by rewrite <- E).
  destruct (node_level _ _ _ _ i Hn Hy) as (v & -> & Hv). rewrite bind_Some. destruct Hv as [_ Hv]. specialize (Hv Hi). subst v.
  assert (Zlen L1 = Zlen a + Zlen s) as Hl by (pose proof (f_equal length E) as El; rewrite length_app in El; simpl in El; lia).
  destruct (low_split i s) as [Hlow|(b & z & c & -> & Hb & Hz)].
  - rewrite next_at_low by done. destruct (low_split i T) as [HlowT|(b & z & c & ET & Hb & Hz)].
    + rewrite <- (app_nil_r T), next_at_low by done. cbn [next_at forward]. exists (e_ptr y), (Zlen a). split; [done|]. by exists a, y, s.
    + assert (next_at i T (0 + Zlen s) = Level (e_ptr z) (0 + Zlen s + Zlen b + 1)) as ->
        by (rewrite ET, next_at_low, next_at_hit; done).
      cbn [forward span]. assert (node_ok h (good lvl []) z c) as Hnz by (apply (seg_mid h _ b); by rewrite <- ET).
      pose proof (node_not_null _ _ _ _ Hnz). destruct (Z.eqb_spec (e_ptr z) NULL); [done|].
      destruct Hnz as (lv & -> & _). rewrite bind_Some. cbn [obj score].
      rewrite rank_small by (rewrite length_app, ET, length_app; cbn [length]; lia).
      replace (Zlen a + (0 + Zlen s + Zlen b + 1)) with (Zlen L1 + Zlen b + 1) by lia. rewrite (Hfalse b z c) by done.
      exists (e_ptr y), (Zlen a). split; [done|]. by exists a, y, s.
  - rewrite <- app_assoc. cbn [app]. rewrite next_at_low, next_at_hit by done. cbn [forward span].
    assert (H :: L1 = (a ++ y :: b) ++ z :: c) as E' by (rewrite E, <- app_assoc; done).
    assert (node_ok h (good lvl T) z c) as Hnz by (apply (seg_mid h _ (a ++ y :: b)); by rewrite <- E').
    pose proof (node_not_null _ _ _ _ Hnz). destruct (Z.eqb_spec (e_ptr z) NULL); [done|].
    destruct Hnz as (lv & -> & _). rewrite bind_Some. cbn [obj score].
    rewrite length_app in Hl, Hf. cbn [length] in Hl, Hf.
    rewrite rank_small by (rewrite length_app; lia).
    replace (Zlen a + (0 + Zlen b + 1)) with (Zlen (a ++ y :: b)) by (rewrite length_app; cbn [length]; lia).
    assert (exists a', L1 = a' ++ z :: c /\ Zlen a' + 1 = Zlen (a ++ y :: b)) as (a' & EL & Ha').
    { destruct a as [|x a]; cbn [app] in E'; injection E' as _ E'.
      - exists b. split; [done|]. cbn [length app]. lia.
      - exists (a ++ y :: b). split; [done|]. cbn [length app]. lia. }
    rewrite <- Ha', (Htrue a' z c EL), Ha'. apply (IH (a ++ y :: b) z c); [done|done|lia].
Qed.

Lemma descend_spec fuel : (length L1 < fuel)%nat -> forall i a y s U, (i <= lvl)%nat -> H :: L1 = a ++ y :: s -> (i <= e_h y)%nat ->
  exists x r U', descend w fuel h i go (e_ptr y) (Zlen a) U = Some (x, r, U' ++ U) /\ length U' = i /\
    (forall j p r, U' !! j = Some (p, r) -> is_last j (H :: L1) p r) /\
    match i with O => x = e_ptr y /\ r = Zlen a | S _ => is_last 0 (H :: L1) x r end.
Proof.
  intros Hfuel. induction i as [|i IH]; intros a y s U Hi E Hy; cbn [descend].
  { exists (e_ptr y), (Zlen a), []. split_and!; done. }
  assert ((length s < fuel)%nat) by (pose proof (f_equal length E) as El; rewrite length_app in El; simpl in El; lia).
  destruct (walk_spec i ltac:(lia) fuel a y s E ltac:(lia) ltac:(done)) as (p & r & -> & Hlast). rewrite bind_Some.
  destruct Hlast as (a' & y' & s' & E' & Hy' & Hlow & -> & ->).
  destruct (IH a' y' s' ((e_ptr y', Zlen a') :: U) ltac:(lia) E' ltac:(lia)) as (x & r & U' & -> & HU & HU' & Hz).
  exists x, r, (U' ++ [(e_ptr y', Zlen a')]). rewrite <- app_assoc. split_and!; [done|rewrite length_app; simpl; lia| |].
  - intros j p q Hj. apply lookup_app_Some in Hj as [Hj|[Hge Hj]]; [by apply HU'|].
    apply list_lookup_singleton_Some in Hj as [Hj [= <- <-]]. assert (j = i) as -> by lia. by exists a', y', s'.
  - destruct i as [|i]; [|done]. destruct Hz as [-> ->]. by exists a', y', s'.
Qed.
Context (Hpos : Forall (fun e => (1 <= e_h e)%nat) L1).

Lemma descend_until_never fuel stop : (length L1 < fuel)%nat ->
  (forall a y s, H :: L1 = a ++ y :: s -> stop (e_obj y) (Zlen a) = false) ->
  forall i a y s, (i <= lvl)%nat -> H :: L1 = a ++ y :: s -> (i <= e_h y)%nat ->
  descend_until w fuel h i go stop (e_ptr y) (Zlen a) = Some None.
Proof.
  intros Hfuel Hstop. induction i as [|i IH]; intros a y s Hi E Hy; cbn [descend_until]; [done|].
  assert ((length s < fuel)%nat) by (pose proof (f_equal length E) as El; rewrite length_app in El; simpl in El; lia).
  destruct (walk_spec i ltac:(lia) fuel a y s E ltac:(lia) ltac:(done)) as (p & r & -> & Hlast). rewrite bind_Some.
  destruct Hlast as (a' & y' & s' & E' & Hy' & Hlow & -> & ->).
  assert (node_ok h (good lvl T) y' s') as (lv & -> & _) by (apply (seg_mid h _ a'); by rewrite <- E').
  rewrite bind_Some. cbn [obj]. rewrite (Hstop a' y' s' E'). by apply (IH a' y' s'); [lia| |lia].
Qed.

Lemma descend_until_last fuel stop : (length L1 < fuel)%nat ->
  (forall a y s, H :: L1 = a ++ y :: s -> stop (e_obj y) (Zlen a) = bool_decide (s = [])) ->
  forall i a y s, (0 < i <= lvl)%nat -> H :: L1 = a ++ y :: s -> (i <= e_h y)%nat ->
  descend_until w fuel h i go stop (e_ptr y) (Zlen a) = Some (Some (e_ptr (default H (last L1)), Zlen L1)).
Proof.
  intros Hfuel Hstop. induction i as [|i IH]; intros a y s Hi E Hy; cbn [descend_until]; [lia|].
  assert ((length s < fuel)%nat) by (pose proof (f_equal length E) as El; rewrite length_app in El; simpl in El; lia).
  destruct (walk_spec i ltac:(lia) fuel a y s E ltac:(lia) ltac:(done)) as (p & r & -> & Hlast). rewrite bind_Some.
  pose proof Hlast as (a' & y' & s' & E' & Hy' & Hlow & -> & ->).
  assert (node_ok h (good lvl T) y' s') as (lv & -> & _) by (apply (seg_mid h _ a'); by rewrite <- E').
  rewrite bind_Some. cbn [obj]. rewrite (Hstop a' y' s' E'). case_bool_decide as Hs.
  - subst s'. destruct (is_last_zero H L1 Hpos (e_ptr y') (Zlen a')) as [-> ->]; [|done].
    exists a', y', []. split_and!; [done|lia|constructor|done|done].
  - destruct i as [|i]; [by apply (last_zero H L1 Hpos a' y' s') in Hlow|]. by apply (IH a' y' s'); [lia| |lia].
Qed.

(** From the header down. *)
Lemma descend_header fuel : (length L1 < fuel)%nat -> (1 <= lvl)%nat ->
  exists U, descend w fuel h lvl go (e_ptr H) 0 [] = Some (e_ptr (default H (last L1)), Zlen L1, U) /\ length U = lvl /\
    (forall j p r, U !! j = Some (p, r) -> is_last j (H :: L1) p r).
Proof.
  intros Hf Hl. destruct (descend_spec fuel Hf lvl [] H L1 []) as (x & r & U & E & HU & HU' & Hz); [lia|done|done|].
  assert (is_last 0 (H :: L1) x r) as Hz' by (destruct lvl; [lia|exact Hz]).
  destruct (is_last_zero H L1 Hpos x r Hz') as [-> ->]. exists U. rewrite app_nil_r in E. done.
Qed.
End Traverse.

(** ** The invariant *)

Fixpoint backs (prev : Z) l : Prop :=
  match l with [] => True | e :: l => e_back e = prev /\ backs (e_ptr e) l end.

Definition last_ptr l : Z := match last l with Some e => e_ptr e | None => NULL end.

Record zsl_ok h zsl (H : elt) (L : list elt) : Prop := {
  ok_seg : seg h (good (level_ zsl) []) (H :: L);
  ok_nodup : NoDup (e_ptr <$> H :: L);
  ok_ptr : Forall (fun e => 0 < e_ptr e < h_brk h) (H :: L);
  ok_dom : forall p, is_Some (h_cells h !! p) <-> p ∈ e_ptr <$> H :: L;
  ok_head : e_ptr H = header zsl /\ e_h H = 32%nat /\ e_obj H = None;
  ok_lvl : (1 <= level_ zsl <= 32)%nat;
  ok_h : Forall (fun e => (1 <= e_h e <= level_ zsl)%nat) L;
  ok_len : length_ zsl = Zlen L;
  ok_back : backs NULL L;
  ok_tail : tail zsl = last_ptr L
}.

Lemma last_ptr_snoc l e : last_ptr (l ++ [e]) = e_ptr e.
Proof. unfold last_ptr. by rewrite last_snoc. Qed.

Lemma backs_app prev l1 l2 : backs prev (l1 ++ l2) <-> backs prev l1 /\ backs (if decide (l1 = []) then prev else last_ptr l1) l2.
Proof.
  revert prev. induction l1 as [|e l1 IH]; intros prev; cbn [app backs]; [by rewrite decide_True; [tauto|]|].
  rewrite decide_False, IH by done. destruct l1 as [|e' l1]; [rewrite decide_True by done; unfold last_ptr; simpl; tauto|].
  rewrite decide_False by done. unfold last_ptr. rewrite last_cons_cons. tauto.
Qed.

(** ** Insertion *)

Definition same_dom h h' : Prop := h_brk h' = h_brk h /\ (forall q, is_Some (h_cells h' !! q) <-> is_Some (h_cells h !! q)).

Lemma same_dom_refl h : same_dom h h.
Proof. done. Qed.

Lemma same_dom_trans h1 h2 h3 : same_dom h1 h2 -> same_dom h2 h3 -> same_dom h1 h3.
Proof. intros [E1 H1] [E2 H2]. split; [congruence|]. intros q. by rewrite H2. Qed.

Lemma same_but_dom h h' p : same_but h h' p -> same_dom h h'.
Proof. intros (_ & ? & ?). done. Qed.

Lemma seg_other h h' p g l : same_but h h' p -> p ∉ e_ptr <$> l -> seg h g l -> seg h' g l.
Proof.
  intros (Hs & _) Hp. apply seg_frame. intros e He. apply Hs. intros E. apply Hp. rewrite <- E. by apply list_elem_of_fmap_2.
Qed.

(** Levels above the current one are empty, so their spans are the length. *)
Lemma raise_spec zsl H L n : forall i h U, seg h (good i []) (H :: L) -> NoDup (e_ptr <$> H :: L) -> low i L ->
  (i + n <= e_h H)%nat -> header zsl = e_ptr H -> length_ zsl = Zlen L -> Zlen L < 2 ^ 32 ->
  exists h', raise_levels n i h zsl U = Some (h', U ++ replicate n (e_ptr H, 0)) /\
    seg h' (good (i + n) []) (H :: L) /\ same_dom h h'.
Proof.
  induction n as [|n IH]; intros i h U Hseg Hnd Hlow Hn Eh El Hl; cbn [raise_levels].
  { exists h. rewrite app_nil_r, Nat.add_0_r. done. }
  rewrite Eh, El. pose proof Hseg as [HnH _].
  destruct (node_level _ _ _ _ i HnH ltac:(lia)) as (lv & -> & Hlv & _). rewrite bind_Some, (wrapu_id 32) by lia.
  rewrite <- (app_nil_l (H :: L)) in Hseg, Hnd.
  destruct (set_level_spec h (good i []) (good (S i) []) [] H L i (Level (forward lv) (Zlen L)) Hseg Hnd ltac:(lia)) as (h1 & -> & Hseg1 & Hsame).
  - assert (next_at i (L ++ []) 0 = Level NULL (Zlen L)) as EN by (by rewrite next_at_low). rewrite EN in Hlv.
    split; rewrite EN; cbn [forward] in *; [done|by rewrite Hlv].
  - intros a' e' s' j w E Hj Hne [Hg1 Hg2]. split; [done|]. intros Hji. destruct (decide (j < i)%nat) as [|Hge]; [by apply Hg2|].
    assert (j = i) as -> by lia. destruct Hne as [Hne|]; [|done]. exfalso. destruct a' as [|x a']; [done|].
    cbn [app] in E. injection E as _ E. unfold low in Hlow. rewrite E, Forall_app, Forall_cons in Hlow. lia.
  - rewrite bind_Some. cbn [app] in *.
    assert (low (S i) L) as Hlow' by (eapply Forall_impl; [exact Hlow|simpl; lia]).
    destruct (IH (S i) h1 (U ++ [(e_ptr H, 0)]) Hseg1 Hnd Hlow' ltac:(lia) Eh El Hl) as (h2 & E & Hseg2 & Hd2).
    rewrite Eh, El in *. exists h2. rewrite E, <- app_assoc. replace (i + S n)%nat with (S i + n)%nat by lia.
    split_and!; [done|done|]. eapply same_dom_trans; [by eapply same_but_dom|done].
Qed.

Section Insert.
Context (zl : nat) (P T : list elt) (e : elt) (U : list (Z * Z)).
Context (HU : forall j, (j < zl)%nat -> exists p r, U !! j = Some (p, r) /\ is_last j P p r)
  (Hnd : NoDup (e_ptr <$> P ++ e :: T)) (Hlen : Zlen P + Zlen T < 2 ^ 32) (Hzl : (e_h e <= zl)%nat).

(** The levels below [k] of the new node are set. *)
Definition fresh_ok h k : Prop := node_ok h (fun i _ v => (i < k)%nat -> v = next_at i T 0) e [].

Lemma nd_P : NoDup (e_ptr <$> P).
Proof. rewrite fmap_app in Hnd. by apply NoDup_app in Hnd as (? & _). Qed.

Lemma nd_x : e_ptr e ∉ e_ptr <$> P /\ e_ptr e ∉ e_ptr <$> T.
Proof.
  rewrite fmap_app in Hnd. cbn in Hnd. apply NoDup_app in Hnd as (_ & H1 & H2). apply NoDup_cons in H2 as [H2 _].
  split; [|done]. intros Hin. apply (H1 _ Hin). left.
Qed.

Lemma nd_PT p : p ∈ e_ptr <$> P -> p ∉ e_ptr <$> T /\ p <> e_ptr e.
Proof.
  intros Hp. rewrite fmap_app in Hnd. cbn in Hnd. apply NoDup_app in Hnd as (_ & H1 & _). specialize (H1 _ Hp).
  split; [intros Hin; apply H1; by right|]. intros ->. apply H1. left.
Qed.

(** A level that the new node has. *)
Lemma good_new_hit i s w : ~ low i s -> good zl T i s w -> good zl (e :: T) i s w.
Proof. intros Hs [H1 H2]. unfold good. rewrite (next_at_inside i s (e :: T) T) by done. done. Qed.

Lemma link_spec n : forall k h, (k + n = e_h e)%nat -> seg h (mix k (good zl (e :: T)) (good zl T)) P ->
  seg h (good zl []) T -> fresh_ok h k ->
  exists h', link_levels n k h (e_ptr e) U (Zlen P - 1) = Some h' /\
    seg h' (mix (k + n) (good zl (e :: T)) (good zl T)) P /\ seg h' (good zl []) T /\ fresh_ok h' (k + n) /\ same_dom h h'.
Proof.
  induction n as [|n IH]; intros k h Hk HP HT He; cbn [link_levels].
  { exists h. rewrite Nat.add_0_r. done. }
  destruct (HU k ltac:(lia)) as (p & r & -> & (a & y & s & EP & Hy & Hlow & -> & ->)). rewrite bind_Some.
  assert (node_ok h (mix k (good zl (e :: T)) (good zl T)) y s) as Hn by (apply (seg_mid h _ a); by rewrite <- EP).
  destruct (node_level _ _ _ _ k Hn Hy) as (lv & -> & Hlv). rewrite bind_Some.
  unfold mix in Hlv. rewrite decide_False in Hlv by lia. destruct Hlv as [_ Hlv]. specialize (Hlv ltac:(lia)).
  rewrite next_at_low, next_at_shift in Hlv by done. subst lv. cbn [forward span].
  assert (Zlen P = Zlen a + Zlen s + 1) as HPl by (rewrite EP, length_app; cbn [length]; lia).
  pose proof (next_at_range k T 0) as Hr.
  rewrite (wrapu_id 32 (Zlen P - 1 - Zlen a)) by lia. rewrite (wrapu_id 32 (span _ + _ - _)) by lia. rewrite (wrapu_id 32) by lia.
  replace (span (next_at k T 0) + (0 + Zlen s) - (Zlen P - 1 - Zlen a)) with (span (next_at k T 0)) by lia.
  replace (Zlen P - 1 - Zlen a + 1) with (Zlen s + 1) by lia.
  destruct nd_x as [HxP HxT].
  destruct (set_level_spec h (fun i _ v => (i < k)%nat -> v = next_at i T 0) (fun i _ v => (i < S k)%nat -> v = next_at i T 0)
    [] e [] k (Level (forward (next_at k T 0)) (span (next_at k T 0)))) as (h1 & -> & Hx1 & Hs1).
  { by split. }
  { cbn. apply NoDup_singleton. }
  { lia. }
  { intros _. by destruct (next_at k T 0). }
  { intros a' e' s' j w E Hj Hne Hg Hjk. destruct a' as [|? a']; [|by destruct a'].
    destruct Hne as [|Hne]; [done|]. apply Hg. lia. }
  rewrite bind_Some. cbn [app seg] in Hx1. destruct Hx1 as [Hx1 _].
  apply (seg_other _ _ _ _ _ Hs1 HxP) in HP. apply (seg_other _ _ _ _ _ Hs1 HxT) in HT.
  assert (e_ptr y ∈ e_ptr <$> P) as HyP by (rewrite EP, fmap_app; apply elem_of_app; right; left).
  destruct (nd_PT _ HyP) as [HyT Hyx].
  destruct (mix_step h1 (good zl (e :: T)) (good zl T) k P a y s (Level (e_ptr e) (Zlen s + 1)) HP nd_P EP Hy Hlow) as (h2 & -> & HP2 & Hs2).
  { unfold good. rewrite next_at_low, next_at_hit by (done || lia). split; [done|]. intros _. f_equal. }
  { intros. by apply good_new_hit. }
  rewrite bind_Some. destruct (IH (S k) h2 ltac:(lia) HP2) as (h3 & E3 & HP3 & HT3 & Hx3 & Hd3).
  - by apply (seg_other _ _ _ _ _ Hs2 HyT).
  - destruct Hx1 as (lv & Hd & Hrest). exists lv. destruct Hs2 as [Hs2 _]. by rewrite Hs2 by done.
  - exists h3. replace (k + S n)%nat with (S k + n)%nat by lia. split_and!; try done.
    eapply same_dom_trans; [by eapply same_but_dom|]. eapply same_dom_trans; [by eapply same_but_dom|done].
Qed.

(** The levels above the new node only get farther. *)
Lemma bump_spec n : forall k h, (k + n = zl)%nat -> (e_h e <= k)%nat -> seg h (mix k (good zl (e :: T)) (good zl T)) P ->
  seg h (good zl []) T -> fresh_ok h (e_h e) ->
  exists h', bump_levels n k h U = Some h' /\
    seg h' (mix zl (good zl (e :: T)) (good zl T)) P /\ seg h' (good zl []) T /\ fresh_ok h' (e_h e) /\ same_dom h h'.
Proof.
  induction n as [|n IH]; intros k h Hk Hek HP HT He; cbn [bump_levels].
  { exists h. assert (k = zl) as -> by lia. done. }
  destruct (HU k ltac:(lia)) as (p & r & -> & (a & y & s & EP & Hy & Hlow & -> & ->)). rewrite bind_Some.
  assert (node_ok h (mix k (good zl (e :: T)) (good zl T)) y s) as Hn by (apply (seg_mid h _ a); by rewrite <- EP).
  destruct (node_level _ _ _ _ k Hn Hy) as (lv & -> & Hlv). rewrite bind_Some.
  unfold mix in Hlv. rewrite decide_False in Hlv by lia. destruct Hlv as [_ Hlv]. specialize (Hlv ltac:(lia)).
  rewrite next_at_low, next_at_shift in Hlv by done. subst lv. cbn [forward span].
  assert (Zlen P = Zlen a + Zlen s + 1) as HPl by (rewrite EP, length_app; cbn [length]; lia).
  pose proof (next_at_range k T 0) as Hr. rewrite (wrapu_id 32) by lia.
  assert (e_ptr y ∈ e_ptr <$> P) as HyP by (rewrite EP, fmap_app; apply elem_of_app; right; left).
  destruct (nd_PT _ HyP) as [HyT Hyx].
  destruct (mix_step h (good zl (e :: T)) (good zl T) k P a y s
    (Level (forward (next_at k T 0)) (span (next_at k T 0) + (0 + Zlen s) + 1)) HP nd_P EP Hy Hlow) as (h2 & -> & HP2 & Hs2).
  { assert (next_at k (s ++ e :: T) 0 = Level (forward (next_at k T 0)) (span (next_at k T 0) + (0 + Zlen s) + 1)) as EN.
    { rewrite next_at_low by done. cbn [next_at]. rewrite decide_False by lia. rewrite next_at_shift. f_equal. lia. }
    unfold good. by rewrite EN. }
  { intros. by apply good_new_hit. }
  rewrite bind_Some. destruct (IH (S k) h2 ltac:(lia) ltac:(lia) HP2) as (h3 & E3 & HP3 & HT3 & Hx3 & Hd3).
  - by apply (seg_other _ _ _ _ _ Hs2 HyT).
  - destruct He as (lv & Hd & Hrest). exists lv. destruct Hs2 as [Hs2 _]. by rewrite Hs2 by done.
  - exists h3. split_and!; try done. eapply same_dom_trans; [by eapply same_but_dom|done].
Qed.
End Insert.

Definition with_back e (b : Z) : elt := Elt (e_ptr e) (e_h e) (e_obj e) (e_score e) b.
Definition back_head (b : Z) l : list elt := match l with [] => [] | e :: l => with_back e b :: l end.

Lemma set_backward_spec h g e s b : node_ok h g e s ->
  exists h', set_backward h (e_ptr e) b = Some h' /\ node_ok h' g (with_back e b) s /\ same_but h h' (e_ptr e).
Proof.
  intros Hn. pose proof (node_not_null _ _ _ _ Hn) as Hp. destruct Hn as (lv & Hd & Hl & Hg). unfold set_backward.
  rewrite Hd, bind_Some. eexists. split; [done|]. split; [|by eapply put_same_but].
  exists lv. cbn [with_back e_ptr e_obj e_score e_back e_h obj score level]. rewrite deref_put, decide_True by done. done.
Qed.

Lemma next_at_back_head i s b T d : next_at i (s ++ back_head b T) d = next_at i (s ++ T) d.
Proof. revert d. induction s as [|e s IH]; intros d; cbn [app next_at]; [by destruct T|]. by rewrite IH. Qed.

Lemma seg_tail_ext h lvl T T' l : (forall i s, next_at i (s ++ T') 0 = next_at i (s ++ T) 0) ->
  seg h (good lvl T) l -> seg h (good lvl T') l.
Proof. intros HT Hs. eapply seg_impl; [exact Hs|]. intros a e s i v _ _. unfold good. by rewrite HT. Qed.

Lemma ptr_back_head b T : e_ptr <$> back_head b T = e_ptr <$> T.
Proof. by destruct T. Qed.

(** A node too low for a level is invisible on it. *)
Lemma next_at_skip i s e T d : (e_h e <= i)%nat -> forward (next_at i (s ++ e :: T) d) = forward (next_at i (s ++ T) d).
Proof.
  intros Hi. revert d. induction s as [|z s IH]; intros d; cbn [app next_at].
  - rewrite decide_False by lia. rewrite next_at_shift, (next_at_shift i T d). done.
  - by destruct (decide (i < e_h z)%nat).
Qed.

Lemma forward_first i T : (forall z r, T = z :: r -> (i < e_h z)%nat) -> forward (next_at i T 0) = match T with [] => NULL | z :: _ => e_ptr z end.
Proof. intros Hz. destruct T as [|z r]; [done|]. by rewrite next_at_hit by (by eapply Hz). Qed.

Section Spec.
Context (garbage : zskiplistLevel) (garbage_ptr : Z).

(** A node created in the heap. *)
Lemma create_spec h lvl sc o (x := h_brk h) (h' := fst (zslCreateNode garbage garbage_ptr h lvl sc o)) : 0 < h_brk h ->
  deref h' x = Some (ZNode o sc garbage_ptr (replicate lvl garbage)) /\ (forall q, q <> x -> deref h' q = deref h q) /\
  h_brk h' = h_brk h + 1 /\ (forall q, is_Some (h_cells h' !! q) <-> q = x \/ is_Some (h_cells h !! q)).
Proof.
  intros Hb. subst x h'. unfold zslCreateNode, deref. cbn [fst h_cells h_brk]. split_and!.
  - destruct (Z.eqb_spec (h_brk h) NULL); [unfold NULL in *; lia|]. by rewrite lookup_insert_eq.
  - intros q Hq. by rewrite lookup_insert_ne by done.
  - done.
  - intros q. destruct (decide (q = h_brk h)) as [->|]; [rewrite lookup_insert_eq; naive_solver|].
    rewrite lookup_insert_ne by done. naive_solver.
Qed.

Definition inserted (x : Z) (lvl : nat) (sc : double) (o : list Z) (L1 L2 : list elt) : list elt :=
  L1 ++ Elt x lvl (Some o) sc (last_ptr L1) :: back_head x L2.

Lemma update0_spec zsl H L1 L2 p : header zsl = e_ptr H -> NoDup (e_ptr <$> H :: L1 ++ L2) -> p = e_ptr (default H (last L1)) ->
  (if p =? header zsl then NULL else p) = last_ptr L1.
Proof.
  intros Eh Hnd ->. unfold last_ptr. destruct (last L1) as [z|] eqn:El; cbn [default from_option id].
  - assert (z ∈ L1) as Hz by (by apply last_Some_elem_of). cbn in Hnd. apply NoDup_cons in Hnd as [Hn _].
    destruct (Z.eqb_spec (e_ptr z) (header zsl)) as [E|]; [|done]. exfalso. apply Hn. rewrite <- Eh, <- E.
    rewrite fmap_app. apply elem_of_app. left. by apply list_elem_of_fmap_2.
  - by rewrite Eh, Z.eqb_refl.
Qed.
Lemma mix_done h zl P T e : seg h (mix zl (good zl (e :: T)) (good zl T)) P -> (e_h e <= zl)%nat ->
  seg h (good zl (e :: T)) P.
Proof.
  intros Hs He. eapply seg_impl; [exact Hs|]. intros a z s i v _ _ Hv. unfold mix in Hv.
  destruct (decide (i < zl)%nat); [done|]. destruct Hv as [Hv _]. split; [|lia]. rewrite Hv. symmetry. apply next_at_skip. lia.
Qed.

Definition first_ptr l : Z := match l with [] => NULL | z :: _ => e_ptr z end.

(** The backward pointer of the node after the change, or the tail. *)
Lemma relink_spec h zl P M T b tl : seg h (good zl (M ++ T)) P -> seg h (good zl []) T -> NoDup (e_ptr <$> P ++ M ++ T) ->
  exists h', (if negb (first_ptr T =? NULL) then h ← set_backward h (first_ptr T) b; Some (h, tl) else Some (h, b)) =
      Some (h', if decide (T = []) then b else tl) /\
    seg h' (good zl (M ++ back_head b T)) P /\ seg h' (good zl []) (back_head b T) /\
    (forall q, q ∉ e_ptr <$> T -> deref h' q = deref h q) /\ same_dom h h'.
Proof.
  intros HP HT Hnd. destruct T as [|z r]; cbn [first_ptr back_head].
  { rewrite decide_True by done. by exists h. }
  rewrite decide_False by done. destruct HT as [Hz Hr]. pose proof (node_not_null _ _ _ _ Hz) as Hp.
  destruct (Z.eqb_spec (e_ptr z) NULL); [done|]. cbn [negb].
  destruct (set_backward_spec h _ z r b Hz) as (h' & -> & Hz' & Hs). rewrite bind_Some. exists h'.
  rewrite !fmap_app in Hnd. apply NoDup_app in Hnd as (_ & Hn1 & Hn2). apply NoDup_app in Hn2 as (_ & _ & Hn2).
  cbn in Hn2. apply NoDup_cons in Hn2 as [Hn2 _]. split_and!; [done| | | |by eapply same_but_dom].
  - apply (seg_other _ _ _ _ _ Hs) in HP; [|intros Hin; apply (Hn1 _ Hin), elem_of_app; right; left].
    eapply seg_tail_ext; [|exact HP]. intros i s. rewrite !app_assoc. apply (next_at_back_head i (s ++ M) b (z :: r)).
  - split; [done|]. by apply (seg_other _ _ _ _ _ Hs).
  - intros q Hq. apply Hs. intros ->. apply Hq. left.
Qed.

Lemma zslInsert_spec h zsl H L1 L2 sc o rs lvl rs' : zsl_ok h zsl H (L1 ++ L2) -> isnan sc = false ->
  (forall e, e ∈ L1 -> before sc o (e_obj e) (e_score e) = true) -> (forall e, e ∈ L2 -> before sc o (e_obj e) (e_score e) = false) ->
  zslRandomLevel rs = Some (lvl, rs') -> (1 <= lvl <= 32)%nat -> Zlen (L1 ++ L2) + 2 < 2 ^ 32 ->
  exists h' zsl', zslInsert garbage garbage_ptr h zsl sc o rs = Some (h', zsl', h_brk h, rs') /\
    zsl_ok h' zsl' H (inserted (h_brk h) lvl sc o L1 L2).
Proof.
  intros [Hseg Hnd Hptr Hdom (Eh & EH & EO) Hlvl Hh Elen Hback Etail] Hnan HL1 HL2 Ers Hl Hsz.
  unfold zslInsert. rewrite Hnan.
  assert (Forall (fun e => (1 <= e_h e)%nat) (L1 ++ L2)) as Hpos by (eapply Forall_impl; [exact Hh|simpl; lia]).
  apply Forall_app in Hpos as [Hpos1 Hpos2].
  pose proof Hseg as Hseg0. rewrite app_comm_cons, seg_app in Hseg0. destruct Hseg0 as [HP0 HT0]. rewrite app_nil_r in HP0.
  destruct (descend_header h (level_ zsl) H L1 L2 32 (fun o' sc' _ => before sc o o' sc') HP0 HT0 ltac:(lia) ltac:(lia) ltac:(lia))
    with (fuel := nodes zsl) as (U & EU & HUl & HU); [| | |unfold nodes; rewrite Elen, length_app; lia|lia|].
  { intros a e b ->. apply HL1. apply elem_of_app. right. left. }
  { intros a e b ->. apply HL2. apply elem_of_app. right. left. }
  { done. }
  rewrite Eh in EU. rewrite EU, bind_Some, Ers, bind_Some.
  set (zl := Nat.max (level_ zsl) lvl).
  assert (low (level_ zsl) (L1 ++ L2)) as Hlow by (eapply Forall_impl; [exact Hh|simpl; lia]).
  destruct (raise_spec zsl H (L1 ++ L2) (lvl - level_ zsl) (level_ zsl) h U Hseg Hnd Hlow ltac:(lia) (eq_sym Eh) Elen ltac:(lia)) as (h1 & -> & Hseg1 & Hd1).
  rewrite bind_Some. replace (level_ zsl + (lvl - level_ zsl))%nat with zl in Hseg1 by lia.
  set (U1 := U ++ replicate (lvl - level_ zsl) (e_ptr H, 0)).
  assert (forall j, (j < zl)%nat -> exists p r, U1 !! j = Some (p, r) /\ is_last j (H :: L1) p r) as HU1.
  { intros j Hj. subst U1. destruct (decide (j < level_ zsl)%nat) as [Hjl|Hjl].
    - destruct (lookup_lt_is_Some_2 U j ltac:(lia)) as ([p r] & Ej). exists p, r. rewrite lookup_app_l by lia. auto.
    - exists (e_ptr H), 0. rewrite lookup_app_r by lia. split; [apply lookup_replicate_2; lia|].
      exists [], H, L1. split_and!; [done|lia| |done|done]. apply Forall_app in Hlow as [Hlow _].
      eapply Forall_impl; [exact Hlow|simpl; lia]. }
  destruct Hd1 as [Hb1 Hdom1].
  assert (0 < h_brk h1) as Hb0 by (rewrite Hb1; inversion_clear Hptr; lia).
  destruct (create_spec h1 lvl sc (Some o) Hb0) as (Hx2 & Hf2 & Hb2 & Hdom2).
  destruct (zslCreateNode garbage garbage_ptr h1 lvl sc (Some o)) as [h2 x] eqn:Ecr.
  assert (x = h_brk h) as -> by (unfold zslCreateNode in Ecr; injection Ecr as _ <-; done).
  cbn [fst] in *. rewrite Hb1 in *.
  set (e := Elt (h_brk h) lvl (Some o) sc garbage_ptr).
  assert (h_brk h ∉ e_ptr <$> H :: L1 ++ L2) as Hfresh.
  { intros Hin. apply list_elem_of_fmap in Hin as (z & Ez & Hz). rewrite Forall_forall in Hptr. specialize (Hptr _ Hz). lia. }
  assert (NoDup (e_ptr <$> (H :: L1) ++ e :: L2)) as Hnd2.
  { rewrite <- Permutation_middle. cbn [fmap list_fmap e_ptr e]. apply NoDup_cons. done. }
  assert (seg h2 (good zl []) (H :: L1 ++ L2)) as Hseg2.
  { eapply seg_frame; [|exact Hseg1]. intros z Hz. apply Hf2. intros E. apply Hfresh. rewrite <- E. by apply list_elem_of_fmap_2. }
  rewrite app_comm_cons, seg_app in Hseg2. destruct Hseg2 as [HP2 HT2]. rewrite app_nil_r in HP2.
  destruct (HU1 0%nat ltac:(lia)) as (p0 & r0 & EU0 & Hlast0). rewrite EU0, bind_Some.
  destruct (is_last_zero H L1 Hpos1 p0 r0 Hlast0) as [Hp0 ->].
  assert (Zlen (H :: L1) + Zlen L2 < 2 ^ 32) as Hlen2 by (rewrite length_app in Hsz; cbn [length]; lia).
  destruct (link_spec zl (H :: L1) L2 e U1 HU1 Hnd2 Hlen2 ltac:(cbn; lia) lvl 0 h2) as (h3 & E3 & HP3 & HT3 & Hx3 & Hd3).
  { done. }
  { eapply seg_impl; [exact HP2|]. intros. unfold mix. by rewrite decide_False by lia. }
  { done. }
  { exists (replicate lvl garbage). cbn [e e_ptr e_obj e_score e_back e_h]. rewrite length_replicate. split_and!; [done|done|]. intros. lia. }
  replace (Zlen (H :: L1) - 1) with (Zlen L1) in E3 by (cbn [length]; lia). cbn [e e_ptr] in E3. rewrite E3, bind_Some. cbn [Nat.add] in HP3, Hx3.
  destruct (bump_spec zl (H :: L1) L2 e U1 HU1 Hnd2 Hlen2 ltac:(cbn; lia) (zl - lvl) lvl h3 ltac:(lia) ltac:(cbn; lia) HP3 HT3 Hx3)
    as (h4 & -> & HP4 & HT4 & Hx4 & Hd4).
  rewrite bind_Some. rewrite (update0_spec zsl H L1 L2 p0 (eq_sym Eh) Hnd Hp0).
  destruct (set_backward_spec h4 _ e [] (last_ptr L1) Hx4) as (h5 & E5 & Hx5 & Hs5). cbn [e e_ptr] in E5. rewrite E5, bind_Some.
  destruct (nd_x (H :: L1) L2 e Hnd2) as [HxP HxT].
  apply mix_done in HP4; [|cbn; lia]. apply (seg_other _ _ _ _ _ Hs5 HxP) in HP4. apply (seg_other _ _ _ _ _ Hs5 HxT) in HT4.
  set (e' := with_back e (last_ptr L1)) in *.
  destruct (node_level _ _ _ _ 0 Hx5 ltac:(cbn; lia)) as (lv0 & Elv0 & Hlv0). specialize (Hlv0 ltac:(cbn; lia)). subst lv0.
  cbn [e' with_back e e_ptr] in Elv0. rewrite Elv0, bind_Some.
  rewrite forward_first; [|intros z r ->; inversion_clear Hpos2; lia].
  assert (NoDup (e_ptr <$> (H :: L1) ++ [e'] ++ L2)) as Hnd5 by (rewrite fmap_app in *; exact Hnd2).
  apply (seg_tail_ext _ _ _ ([e'] ++ L2)) in HP4; [|intros i s; apply (next_at_back_head i s (last_ptr L1) (e :: L2))].
  destruct (relink_spec h5 zl (H :: L1) [e'] L2 (h_brk h) (tail zsl) HP4 HT4 Hnd5) as (h6 & E6 & HP6 & HT6 & Hf6 & Hd6).
  fold (first_ptr L2). rewrite E6, bind_Some. rewrite (wrapu_id 64) by lia.
  eexists _, _. split; [done|].
  assert (node_ok h6 (good zl []) e' (back_head (h_brk h) L2)) as Hx6.
  { destruct Hx5 as (lv & Hd & Hl5 & Hg). exists lv. rewrite Hf6 by done. split_and!; [done|done|]. intros i v Hv.
    assert (v = next_at i L2 0) as -> by (apply Hg; [done|]; change (e_h e) with (e_h e'); rewrite <- Hl5; by eapply lookup_lt_Some).
    unfold good. rewrite app_nil_r. pose proof (next_at_back_head i [] (h_brk h) L2 0) as EE. cbn [app] in EE. by rewrite EE. }
  assert (same_dom h2 h6) as [Hb6 Hdom6].
  { eapply same_dom_trans; [exact Hd3|]. eapply same_dom_trans; [exact Hd4|]. eapply same_dom_trans; [by eapply same_but_dom|exact Hd6]. }
  assert (e_ptr <$> H :: inserted (h_brk h) lvl sc o L1 L2 = e_ptr <$> (H :: L1) ++ e :: L2) as Eptr.
  { unfold inserted. cbn [app fmap list_fmap]. rewrite !fmap_app. cbn [fmap list_fmap e_ptr]. by rewrite ptr_back_head. }
  split; cbn [level_ header tail length_].
  - unfold inserted. rewrite app_comm_cons, seg_app, app_nil_r. split; [exact HP6|]. split; [exact Hx6|exact HT6].
  - by rewrite Eptr.
  - apply Forall_forall. intros z Hz. assert (e_ptr z ∈ e_ptr <$> (H :: L1) ++ e :: L2) as Hin
      by (rewrite <- Eptr; by apply list_elem_of_fmap_2).
    rewrite Hb6, Hb2. rewrite <- Permutation_middle in Hin. cbn [fmap list_fmap] in Hin. apply elem_of_cons in Hin as [->|Hin]; [cbn; lia|].
    apply list_elem_of_fmap in Hin as (z' & -> & Hz'). rewrite Forall_forall in Hptr. specialize (Hptr _ Hz'). lia.
  - intros q. rewrite Eptr, Hdom6, Hdom2, Hdom1, Hdom. rewrite <- Permutation_middle.
    change (e_ptr <$> e :: (H :: L1) ++ L2) with (h_brk h :: (e_ptr <$> H :: L1 ++ L2)). by rewrite elem_of_cons.
  - done.
  - lia.
  - unfold inserted. apply Forall_app in Hh as [Hh1 Hh2]. apply Forall_app. split; [eapply Forall_impl; [exact Hh1|simpl; lia]|].
    constructor; [cbn; lia|]. destruct L2 as [|z r]; [constructor|]. inversion_clear Hh2 as [|? ? Hz Hr].
    constructor; [cbn; lia|eapply Forall_impl; [exact Hr|simpl; lia]].
  - unfold inserted. rewrite Elen, !length_app. cbn [length]. replace (length (back_head (h_brk h) L2)) with (length L2) by (by destruct L2). lia.
  - unfold inserted. apply backs_app in Hback as [Hb1' Hb2']. apply backs_app. split; [done|]. cbn [backs e_back e_ptr].
    split; [destruct L1; done|]. destruct L2 as [|z r]; [done|]. cbn [back_head backs with_back e_back e_ptr]. destruct Hb2' as [_ ?]. done.
  - unfold inserted. rewrite Etail. destruct L2 as [|z r]; [by rewrite last_ptr_snoc|]. rewrite decide_False by done. cbn [back_head].
    destruct r as [|z' r _] using rev_ind; [unfold last_ptr; by rewrite !last_app|].
    rewrite !app_comm_cons, !app_assoc, !last_ptr_snoc. done.
Qed.

End Spec.

(** ** Deletion *)

Lemma next_at_in i l d : forward (next_at i l d) = NULL \/ forward (next_at i l d) ∈ e_ptr <$> l.
Proof.
  revert d. induction l as [|e l IH]; intros d; cbn [next_at fmap list_fmap]; [by left|].
  destruct (decide (i < e_h e)%nat); [right; left|]. destruct (IH (d + 1)); [by left|right; by right].
Qed.

Section Delete.
Context (zl : nat) (P T : list elt) (x : elt) (U : list (Z * Z)).
Context (HU : forall j, (j < zl)%nat -> exists p r, U !! j = Some (p, r) /\ is_last j P p r)
  (Hnd : NoDup (e_ptr <$> P ++ x :: T)) (Hlen : Zlen P + Zlen T + 1 < 2 ^ 32).

Lemma good_old_hit i s w : ~ low i s -> good zl (x :: T) i s w -> good zl T i s w.
Proof. intros Hs [H1 H2]. unfold good. rewrite (next_at_inside i s T (x :: T)) by done. done. Qed.

Lemma unlink_levels_spec n : forall k h, (k + n = zl)%nat -> seg h (mix k (good zl T) (good zl (x :: T))) P -> seg h (good zl []) (x :: T) ->
  exists h', unlink_levels n k h (e_ptr x) U = Some h' /\ seg h' (mix zl (good zl T) (good zl (x :: T))) P /\
    seg h' (good zl []) (x :: T) /\ same_dom h h'.
Proof.
  induction n as [|n IH]; intros k h Hk HP HT; cbn [unlink_levels].
  { exists h. assert (k = zl) as -> by lia. done. }
  destruct (HU k ltac:(lia)) as (p & r & -> & (a & y & s & EP & Hy & Hlow & -> & ->)). rewrite bind_Some.
  assert (node_ok h (mix k (good zl T) (good zl (x :: T))) y s) as Hn by (apply (seg_mid h _ a); by rewrite <- EP).
  destruct (node_level _ _ _ _ k Hn Hy) as (lv & -> & Hlv). rewrite bind_Some.
  unfold mix in Hlv. rewrite decide_False in Hlv by lia. destruct Hlv as [_ Hlv]. specialize (Hlv ltac:(lia)).
  assert (Zlen P = Zlen a + Zlen s + 1) as HPl by (rewrite EP, length_app; cbn [length]; lia).
  assert (e_ptr y ∈ e_ptr <$> P) as HyP by (rewrite EP, fmap_app; apply elem_of_app; right; left).
  pose proof Hnd as Hnd'. rewrite fmap_app in Hnd'. apply NoDup_app in Hnd' as (HndP & Hd1 & Hd2). cbn in Hd2.
  apply NoDup_cons in Hd2 as [HxT _]. specialize (Hd1 _ HyP). pose proof (next_at_range k T 0) as Hr.
  set (v := Level (forward (next_at k T 0)) (span (next_at k T 0) + Zlen s)).
  assert (next_at k (s ++ T) 0 = v) as Ev by (rewrite next_at_low by done; rewrite next_at_shift; subst v; f_equal; lia).
  assert ((if forward lv =? e_ptr x then
      lx ← get_level h (e_ptr x) k; set_level h (e_ptr y) k (Level (forward lx) (u32 (span lv + u32 (span lx - 1))))
    else set_level h (e_ptr y) k (Level (forward lv) (u32 (span lv - 1)))) = set_level h (e_ptr y) k v) as ->.
  { rewrite next_at_low in Hlv by done. destruct (decide (k < e_h x)%nat) as [Hkx|Hkx].
    - rewrite next_at_hit in Hlv by done. subst lv. cbn [forward span]. rewrite Z.eqb_refl. pose proof HT as [Hx _].
      destruct (node_level _ _ _ _ k Hx Hkx) as (lx & -> & _ & Hlx). specialize (Hlx ltac:(lia)). rewrite app_nil_r in Hlx. subst lx.
      rewrite bind_Some. f_equal. subst v. f_equal. unfold wrapu. rewrite Zplus_mod_idemp_r.
      rewrite Z.mod_small; lia.
    - cbn [next_at] in Hlv. rewrite decide_False in Hlv by done. rewrite next_at_shift in Hlv. subst lv. cbn [forward span].
      destruct (Z.eqb_spec (forward (next_at k T 0)) (e_ptr x)) as [E|_].
      + exfalso. destruct (next_at_in k T 0) as [E0|Hin]; [|rewrite E in Hin; done].
        pose proof HT as [Hx _]. apply node_not_null in Hx. congruence.
      + f_equal. subst v. f_equal. rewrite (wrapu_id 32); lia. }
  destruct (mix_step h (good zl T) (good zl (x :: T)) k P a y s v HP HndP EP Hy Hlow) as (h2 & -> & HP2 & Hs2).
  { unfold good. by rewrite Ev. }
  { intros. by apply good_old_hit. }
  rewrite bind_Some. destruct (IH (S k) h2 ltac:(lia) HP2) as (h3 & E3 & HP3 & HT3 & Hd3).
  - by apply (seg_other _ _ _ _ _ Hs2).
  - exists h3. split_and!; try done. eapply same_dom_trans; [by eapply same_but_dom|done].
Qed.
End Delete.

Lemma shrink_spec h H L n : (1 <= n <= e_h H)%nat -> low n L -> seg h (good n []) (H :: L) ->
  exists m, shrink_level n h (e_ptr H) = Some m /\ (1 <= m <= n)%nat /\ low m L /\ seg h (good m []) (H :: L).
Proof.
  induction n as [|n IH]; intros Hn Hlow Hseg; [lia|]. destruct n as [|n]; [exists 1%nat; split_and!; done || lia|].
  cbn [shrink_level]. pose proof Hseg as [HH HL].
  destruct (node_level _ _ _ _ (S n) HH ltac:(lia)) as (lv & -> & Hlv & _). rewrite bind_Some, app_nil_r in *.
  destruct (Z.eqb_spec (forward lv) NULL) as [E|_].
  - rewrite Hlv in E. apply next_at_forward in E.
    + destruct IH as (m & Em & Hm & Hlm & Hsm); [lia|done| |exists m; split_and!; done || lia].
      eapply seg_impl; [exact Hseg|]. intros a e s i v _ _ [H1 H2]. split; [done|]. intros. apply H2. lia.
    + clear -HL. induction L as [|e L IH]; [constructor|]. destruct HL as [He HL]. constructor; [by eapply node_not_null|by apply IH].
  - exists (S (S n)). split_and!; done || lia.
Qed.

Lemma zsl_zfree_spec h e s g : node_ok h g e s -> exists h', zfree h (e_ptr e) = Some h' /\
  (forall q, q <> e_ptr e -> deref h' q = deref h q) /\ h_brk h' = h_brk h /\
  (forall q, is_Some (h_cells h' !! q) <-> q <> e_ptr e /\ is_Some (h_cells h !! q)).
Proof.
  intros (lv & Hd & _). unfold zfree. rewrite Hd, bind_Some. eexists. split; [done|]. cbn [h_cells h_brk]. split_and!.
  - intros q Hq. unfold deref. cbn [h_cells]. by rewrite lookup_delete_ne.
  - done.
  - intros q. destruct (decide (q = e_ptr e)) as [->|]; [rewrite lookup_delete_eq; split; [by intros []|tauto]|].
    rewrite lookup_delete_ne by done. tauto.
Qed.

(** Unlinking and freeing one node. *)
Lemma delete_node_spec h zsl H L1 x L2 U : zsl_ok h zsl H (L1 ++ x :: L2) -> Zlen (L1 ++ x :: L2) + 2 < 2 ^ 32 ->
  (forall j, (j < level_ zsl)%nat -> exists p r, U !! j = Some (p, r) /\ is_last j (H :: L1) p r) ->
  exists h1 zsl' h2, zslDeleteNode h zsl (e_ptr x) U = Some (h1, zsl') /\ zfree h1 (e_ptr x) = Some h2 /\
    zsl_ok h2 zsl' H (L1 ++ back_head (e_back x) L2) /\ (level_ zsl' <= level_ zsl)%nat.
Proof.
  intros [Hseg Hnd Hptr Hdom (Eh & EH & EO) Hlvl Hh Elen Hback Etail] Hsz HU. unfold zslDeleteNode.
  pose proof Hseg as Hseg0. rewrite app_comm_cons, seg_app, app_nil_r in Hseg0. destruct Hseg0 as [HP HT].
  set (zl := level_ zsl) in *. rewrite length_app in Hsz. cbn [length] in Hsz.
  destruct (unlink_levels_spec zl (H :: L1) L2 x U HU Hnd ltac:(cbn [length]; lia) zl 0 h ltac:(lia)) as (h1 & -> & HP1 & HT1 & Hd1).
  { eapply seg_impl; [exact HP|]. intros. unfold mix. by rewrite decide_False by lia. }
  { done. }
  rewrite bind_Some. destruct HT1 as [Hx1 HT1].
  assert (1 <= e_h x <= zl)%nat as Hhx by (apply Forall_app in Hh as [_ Hh]; by inversion Hh).
  destruct (node_level _ _ _ _ 0 Hx1 ltac:(lia)) as (lv & -> & _ & Hlv). rewrite bind_Some. specialize (Hlv ltac:(lia)).
  rewrite app_nil_r in Hlv. subst lv.
  assert (Forall (fun e => (1 <= e_h e <= zl)%nat) (L1 ++ back_head (e_back x) L2)) as Hh'.
  { apply Forall_app in Hh as [Hh1 Hh2]. apply Forall_app. split; [done|]. inversion_clear Hh2 as [|? ? _ Hh3].
    destruct L2 as [|z r]; [constructor|]. by inversion_clear Hh3; constructor. }
  rewrite forward_first; [|intros z r ->; apply Forall_app in Hh as [_ Hh]; inversion_clear Hh as [|? ? _ Hh3]; inversion_clear Hh3; lia].
  destruct Hx1 as (lvx & Hdx & Hlx & Hgx). rewrite Hdx, bind_Some. cbn [backward]. fold (first_ptr L2).
  assert (seg h1 (good zl L2) (H :: L1)) as HP2.
  { eapply seg_impl; [exact HP1|]. intros a z s i v _ _ Hv. unfold mix in Hv. destruct (decide (i < zl)%nat); [done|].
    destruct Hv as [Hv _]. split; [|lia]. rewrite Hv. apply next_at_skip. lia. }
  assert (NoDup (e_ptr <$> (H :: L1) ++ [] ++ L2) /\ e_ptr x ∉ e_ptr <$> H :: L1 ++ L2) as [Hnd2 Hxn].
  { rewrite app_comm_cons, <- Permutation_middle in Hnd. cbn in Hnd. apply NoDup_cons in Hnd as [? ?]. done. }
  destruct (relink_spec h1 zl (H :: L1) [] L2 (e_back x) (tail zsl) HP2 HT1 Hnd2) as (h2 & -> & HP3 & HT3 & Hf3 & Hd3).
  rewrite bind_Some. cbn [app] in HP3.
  assert (seg h2 (good zl []) (H :: L1 ++ back_head (e_back x) L2)) as Hseg3 by (rewrite app_comm_cons, seg_app, app_nil_r; done).
  assert (low zl (L1 ++ back_head (e_back x) L2)) as Hlow by (eapply Forall_impl; [exact Hh'|simpl; lia]).
  destruct (shrink_spec h2 H _ zl ltac:(lia) Hlow Hseg3) as (m & Em & Hm & Hlm & Hsm). rewrite <- Eh, Em, bind_Some.
  assert (node_ok h2 (good zl []) x L2) as Hx3.
  { exists lvx. rewrite Hf3; [done|]. intros Hin. apply Hxn. cbn. right. rewrite fmap_app. apply elem_of_app. by right. }
  destruct (zsl_zfree_spec h2 x L2 _ Hx3) as (h3 & E3 & Hf4 & Hb4 & Hdom4).
  eexists _, _, h3. split; [done|]. split; [exact E3|]. split; [|cbn; lia].
  assert (e_ptr <$> H :: L1 ++ back_head (e_back x) L2 = e_ptr <$> H :: L1 ++ L2) as Eptr
    by (cbn [fmap list_fmap]; rewrite !fmap_app, ptr_back_head; done).
  destruct Hd1 as [Hb1 Hdom1], Hd3 as [Hb3 Hdom3].
  split; cbn [level_ header tail length_].
  - eapply seg_frame; [|exact Hsm]. intros z Hz. apply Hf4. intros E. apply Hxn. rewrite <- E, <- Eptr. by apply list_elem_of_fmap_2.
  - by rewrite Eptr.
  - rewrite Hb4, Hb3, Hb1. apply Forall_forall. intros z Hz.
    assert (e_ptr z ∈ e_ptr <$> H :: L1 ++ L2) as Hin by (rewrite <- Eptr; by apply list_elem_of_fmap_2).
    apply list_elem_of_fmap in Hin as (z' & -> & Hz'). rewrite Forall_forall in Hptr. apply Hptr.
    revert Hz'. rewrite !elem_of_cons, !elem_of_app, elem_of_cons. tauto.
  - intros q. rewrite Eptr, Hdom4, Hdom3, Hdom1, Hdom. rewrite app_comm_cons, <- Permutation_middle.
    change (e_ptr <$> x :: (H :: L1) ++ L2) with (e_ptr x :: (e_ptr <$> H :: L1 ++ L2)). rewrite elem_of_cons.
    split; [tauto|]. intros Hq. split; [intros ->; done|by right].
  - done.
  - lia.
  - rewrite Forall_forall. intros z Hz. unfold low in Hlm. rewrite Forall_forall in Hlm, Hh'. specialize (Hlm _ Hz). specialize (Hh' _ Hz). simpl in *. lia.
  - rewrite Elen, !length_app. cbn [length]. replace (length (back_head (e_back x) L2)) with (length L2) by (by destruct L2).
    rewrite (wrapu_id 64); lia.
  - apply backs_app in Hback as [Hb1' [Hbx Hb2']]. apply backs_app. split; [done|]. destruct L2 as [|z r]; [done|].
    cbn [back_head backs with_back e_back e_ptr] in *. split; [done|]. by destruct Hb2'.
  - apply backs_app in Hback as [_ [Hbx _]]. rewrite Etail. destruct L2 as [|z r].
    + rewrite decide_True by done. cbn [back_head]. rewrite app_nil_r, Hbx. by destruct L1.
    + rewrite decide_False by done. cbn [back_head]. destruct r as [|z' r _] using rev_ind; [unfold last_ptr; by rewrite !last_app|].
      rewrite !app_comm_cons, !app_assoc, !last_ptr_snoc. done.
Qed.
