(* ===== verification/SkiplistSpec.v ===== *)
(** Correctness of the skip list operations of [Skiplist.v].

    The abstract state is the list of (score, member) items, strictly increasing
    by score and then by the bytes of the member. *)

From Stdlib Require Import Sorted.
From S2P Require Import Prelude Scores Skiplist SkiplistInv.

(** ** Items and their order *)

Abbreviation item := (double * list Z)%type.

Definition ikey (x : item) : list Z := dkey x.1 ++ x.2.
Definition item_ok (x : item) : Prop := isnan x.1 = false /\ short x.2.
Definition ilt (a b : item) : Prop := lexcmp (ikey a) (ikey b) = Lt.
Definition isorted (l : list item) : Prop := StronglySorted ilt l.

Lemma ikey_cmp a b : lexcmp (ikey a) (ikey b) = match lexcmp (dkey a.1) (dkey b.1) with Eq => lexcmp a.2 b.2 | c => c end.
Proof. unfold ikey. apply lexcmp_app. by rewrite !length_dkey. Qed.

Lemma d_lt_key a b : isnan a = false -> isnan b = false -> d_lt a b = match lexcmp (dkey a) (dkey b) with Lt => true | _ => false end.
Proof. intros Ha Hb. unfold d_lt, SpecFloat.SFltb. rewrite SFcompare_key by done. by destruct (lexcmp _ _). Qed.

Lemma d_eq_key a b : isnan a = false -> isnan b = false -> d_eq a b = match lexcmp (dkey a) (dkey b) with Eq => true | _ => false end.
Proof. intros Ha Hb. unfold d_eq, SpecFloat.SFeqb. rewrite SFcompare_key by done. by destruct (lexcmp _ _). Qed.

Lemma d_le_key a b : isnan a = false -> isnan b = false -> d_le a b = match lexcmp (dkey a) (dkey b) with Gt => false | _ => true end.
Proof. intros Ha Hb. unfold d_le, SpecFloat.SFleb. rewrite SFcompare_key by done. by destruct (lexcmp _ _). Qed.

Lemma cmp_lt a b : short a -> short b -> (compareStringObjects a b <? 0) = match lexcmp a b with Lt => true | _ => false end.
Proof.
  intros Ha Hb. pose proof (compareStringObjects_lex a b Ha Hb) as H. destruct (Z.ltb_spec (compareStringObjects a b) 0), (lexcmp a b); lia || done.
Qed.

Lemma cmp_le a b : short a -> short b -> (compareStringObjects a b <=? 0) = match lexcmp a b with Gt => false | _ => true end.
Proof.
  intros Ha Hb. pose proof (compareStringObjects_lex a b Ha Hb) as H. destruct (Z.leb_spec (compareStringObjects a b) 0), (lexcmp a b); lia || done.
Qed.

Lemma before_key x y : item_ok x -> item_ok y -> before x.1 x.2 (Some y.2) y.1 = match lexcmp (ikey y) (ikey x) with Lt => true | _ => false end.
Proof.
  intros [Hx1 Hx2] [Hy1 Hy2]. unfold before. rewrite d_lt_key, d_eq_key, cmp_lt, ikey_cmp by done. by destruct (lexcmp (dkey y.1) (dkey x.1)).
Qed.

Lemma before_or_at_key x y : item_ok x -> item_ok y -> before_or_at x.1 x.2 (Some y.2) y.1 = match lexcmp (ikey y) (ikey x) with Gt => false | _ => true end.
Proof.
  intros [Hx1 Hx2] [Hy1 Hy2]. unfold before_or_at. rewrite d_lt_key, d_eq_key, cmp_le, ikey_cmp by done. by destruct (lexcmp (dkey y.1) (dkey x.1)).
Qed.

(** Comparing with a fixed element is monotone. *)
Lemma lexcmp_le_l a b c : lexcmp a b <> Gt -> (lexcmp b c = Lt -> lexcmp a c = Lt) /\ (lexcmp b c <> Gt -> lexcmp a c <> Gt).
Proof.
  intros Hab. destruct (lexcmp a b) eqn:E; [apply lexcmp_eq in E as ->; done| |done]. split.
  - intros. by eapply lexcmp_trans.
  - intros Hbc. destruct (lexcmp b c) eqn:E'; [apply lexcmp_eq in E' as ->; by rewrite E| |done].
    by rewrite (lexcmp_trans a b c).
Qed.

Lemma ilt_score a b : ilt a b -> lexcmp (dkey a.1) (dkey b.1) <> Gt.
Proof. unfold ilt. rewrite ikey_cmp. by destruct (lexcmp (dkey a.1) (dkey b.1)). Qed.

(** A downward closed predicate cuts a sorted list. *)
Lemma cut_sorted (q : item -> bool) l : isorted l -> (forall a b, a ∈ l -> b ∈ l -> ilt a b -> q b = true -> q a = true) ->
  exists l1 l2, l = l1 ++ l2 /\ (forall a, a ∈ l1 -> q a = true) /\ (forall a, a ∈ l2 -> q a = false).
Proof.
  induction l as [|x l IH]; intros Hs Hq; [by exists [], []; split_and!; [|intros ? ?%elem_of_nil..]|].
  apply StronglySorted_inv in Hs as [Hs Hx]. destruct (q x) eqn:Ex.
  - destruct IH as (l1 & l2 & -> & H1 & H2); [done|intros a b Ha Hb; apply Hq; by right|].
    exists (x :: l1), l2. split_and!; [done| |done]. intros a [->|Ha]%elem_of_cons; auto.
  - exists [], (x :: l). split_and!; [done|by intros ? ?%elem_of_nil|]. intros a [->|Ha]%elem_of_cons; [done|].
    destruct (q a) eqn:Ea; [|done]. rewrite <- Ex. symmetry. apply (Hq x a); [left|by right| |done].
    rewrite List.Forall_forall in Hx. apply Hx. by apply list_elem_of_In.
Qed.

(** ** Items of a skip list *)

Definition holds1 (e : elt) (x : item) : Prop := e_obj e = Some x.2 /\ e_score e = x.1.
Definition holds (L : list elt) (its : list item) : Prop := Forall2 holds1 L its.

Definition zsl_inv (h : zheap) (zsl : zskiplist) (its : list item) : Prop :=
  exists H L, zsl_ok h zsl H L /\ holds L its /\ isorted its /\ Forall item_ok its.

Lemma holds_back_head b L its : holds (back_head b L) its <-> holds L its.
Proof.
  unfold holds. destruct L as [|e L]; [done|]. cbn [back_head]. split; intros HF; inversion_clear HF as [|? ? ? ? H1 H2]; by constructor.
Qed.

Lemma holds_in L its e : holds L its -> e ∈ L -> exists x, x ∈ its /\ holds1 e x.
Proof.
  intros HF He. apply list_elem_of_lookup in He as (i & Hi). destruct (Forall2_lookup_l _ _ _ _ _ HF Hi) as (x & Hx & Hh).
  exists x. split; [|done]. by eapply list_elem_of_lookup_2.
Qed.

(** The search with a predicate on positions, and with one on items. *)
Lemma search_pos w h zsl H L1 L2 go : zsl_ok h zsl H (L1 ++ L2) ->
  (forall a e b, L1 = a ++ e :: b -> go (e_obj e) (e_score e) (Zlen a + 1) = true) ->
  (forall a e b, L2 = a ++ e :: b -> go (e_obj e) (e_score e) (Zlen L1 + Zlen a + 1) = false) ->
  32 <= w -> Zlen (L1 ++ L2) < 2 ^ 32 ->
  exists U, descend w (nodes zsl) h (level_ zsl) go (header zsl) 0 [] = Some (e_ptr (default H (last L1)), Zlen L1, U) /\
    (forall j, (j < level_ zsl)%nat -> exists p r, U !! j = Some (p, r) /\ is_last j (H :: L1) p r).
Proof.
  intros [Hseg Hnd Hptr Hdom (Eh & EH & EO) Hlvl Hh Elen Hback Etail] Hq1 Hq2 Hw Hsz.
  rewrite app_comm_cons, seg_app, app_nil_r in Hseg. destruct Hseg as [HP HT].
  destruct (descend_header h (level_ zsl) H L1 L2 w go HP HT Hw Hsz ltac:(lia) Hq1 Hq2) with (fuel := nodes zsl) as (U & EU & HUl & HU).
  - apply Forall_app in Hh as [Hh _]. eapply Forall_impl; [exact Hh|simpl; lia].
  - unfold nodes. rewrite Elen, length_app. lia.
  - lia.
  - exists U. rewrite <- Eh. split; [done|]. intros j Hj. destruct (lookup_lt_is_Some_2 U j ltac:(lia)) as ([p r] & Ej).
    exists p, r. split; [done|]. by apply HU.
Qed.

Lemma holds_pred L its (go : option (list Z) -> double -> Z -> bool) (q : item -> bool) b : holds L its -> (forall x t, go (Some x.2) x.1 t = q x) -> (forall x, x ∈ its -> q x = b) ->
  forall a e c t, L = a ++ e :: c -> go (e_obj e) (e_score e) t = b.
Proof.
  intros HF Hgo Hq a e c t ->. destruct (holds_in _ _ e HF) as (x & Hx & -> & ->); [apply elem_of_app; right; left|].
  rewrite Hgo. auto.
Qed.

Lemma zsl_search_spec w h zsl H L1 L2 i1 i2 go q : zsl_ok h zsl H (L1 ++ L2) -> holds L1 i1 -> holds L2 i2 ->
  (forall x t, go (Some x.2) x.1 t = q x) -> (forall x, x ∈ i1 -> q x = true) -> (forall x, x ∈ i2 -> q x = false) ->
  32 <= w -> Zlen (L1 ++ L2) < 2 ^ 32 ->
  exists U, descend w (nodes zsl) h (level_ zsl) go (header zsl) 0 [] = Some (e_ptr (default H (last L1)), Zlen L1, U) /\
    (forall j, (j < level_ zsl)%nat -> exists p r, U !! j = Some (p, r) /\ is_last j (H :: L1) p r).
Proof.
  intros Hok Hh1 Hh2 Hgo Hq1 Hq2. apply search_pos; [done| |].
  - intros a e b E. by eapply (holds_pred L1 i1).
  - intros a e b E. by eapply (holds_pred L2 i2).
Qed.

(** The node after the cut. *)
Lemma next_after h zsl H L1 L2 : zsl_ok h zsl H (L1 ++ L2) ->
  exists lv, get_level h (e_ptr (default H (last L1))) 0 = Some lv /\ forward lv = first_ptr L2 /\
    (forall z r, L2 = z :: r -> e_ptr z <> NULL /\
      exists n, deref h (e_ptr z) = Some n /\ obj n = e_obj z /\ score n = e_score z /\ backward n = e_back z).
Proof.
  intros [Hseg Hnd Hptr Hdom (Eh & EH & EO) Hlvl Hh Elen Hback Etail].
  rewrite app_comm_cons, seg_app, app_nil_r in Hseg. destruct Hseg as [HP HT].
  assert (exists a, H :: L1 = a ++ [default H (last L1)] /\ (0 < e_h (default H (last L1)))%nat) as (a & Ea & Hpos).
  { destruct L1 as [|e L1 _] using rev_ind; [exists []; simpl; split; [done|lia]|]. rewrite last_snoc. exists (H :: L1). split; [done|].
    apply Forall_app in Hh as [Hh _]. apply Forall_app in Hh as [_ Hh]. inversion_clear Hh. simpl. lia. }
  rewrite Ea in HP. apply seg_mid in HP. destruct (node_level _ _ _ _ 0 HP Hpos) as (lv & El & Hlv & _).
  exists lv. split; [done|]. split.
  - rewrite Hlv. cbn [app]. rewrite forward_first; [done|]. intros z r ->. apply Forall_app in Hh as [_ Hh]. inversion_clear Hh. lia.
  - intros z r ->. destruct HT as [Hz _]. split; [by eapply node_not_null|]. destruct Hz as (lvz & -> & _). by eexists.
Qed.

(** ** Insertion *)

Fixpoint sins (x : item) (l : list item) : list item :=
  match l with
  | [] => [x]
  | y :: l => match lexcmp (ikey y) (ikey x) with Lt => y :: sins x l | _ => x :: y :: l end
  end.

Definition iltb (x y : item) : bool := match lexcmp (ikey y) (ikey x) with Lt => true | _ => false end.

Lemma sins_cut x l1 l2 : (forall a, a ∈ l1 -> iltb x a = true) -> (forall a, a ∈ l2 -> iltb x a = false) ->
  sins x (l1 ++ l2) = l1 ++ x :: l2.
Proof.
  unfold iltb. intros H1 H2. induction l1 as [|y l1 IH]; cbn [app sins].
  - destruct l2 as [|z l2]; [done|]. cbn [sins]. specialize (H2 z ltac:(left)). by destruct (lexcmp (ikey z) (ikey x)).
  - specialize (H1 y ltac:(left)) as Hy. destruct (lexcmp (ikey y) (ikey x)); [done| |done].
    rewrite IH; [done|]. intros a Ha. apply H1. by right.
Qed.

Lemma random_loop_ge rs : forall lvl n rs', random_loop rs lvl = Some (n, rs') -> lvl <= n.
Proof.
  induction rs as [|r rs IH]; intros lvl n rs'; cbn [random_loop]; [done|]. destruct (_ <=? _); [|intros [= <- _]; lia].
  intros E. apply IH in E. lia.
Qed.

Lemma random_level_range rs lvl rs' : zslRandomLevel rs = Some (lvl, rs') -> (1 <= lvl <= 32)%nat.
Proof.
  unfold zslRandomLevel. destruct (random_loop rs 1) as [[n rs0]|] eqn:E; [|done]. rewrite bind_Some. intros [= <- _].
  apply random_loop_ge in E. unfold ZSKIPLIST_MAXLEVEL. destruct (Z.ltb_spec n (Z.of_nat 32)); lia.
Qed.

Lemma holds_app_inv L i1 i2 : holds L (i1 ++ i2) -> exists L1 L2, L = L1 ++ L2 /\ holds L1 i1 /\ holds L2 i2.
Proof. intros H. apply Forall2_app_inv_r in H as (L1 & L2 & ? & ? & ->). by exists L1, L2. Qed.

Lemma sorted_app l1 l2 : isorted (l1 ++ l2) <-> isorted l1 /\ isorted l2 /\ (forall a b, a ∈ l1 -> b ∈ l2 -> ilt a b).
Proof.
  unfold isorted. induction l1 as [|x l1 IH]; cbn [app].
  - split; [intros H; split_and!; [constructor|done|by intros ? ? ?%elem_of_nil]|by intros (_ & ? & _)].
  - split.
    + intros [Hs Hx]%StronglySorted_inv. apply IH in Hs as (H1 & H2 & H3). apply List.Forall_app in Hx as [Hx1 Hx2]. split_and!.
      * by constructor.
      * done.
      * intros a b [->|Ha]%elem_of_cons Hb; [|by apply H3]. rewrite List.Forall_forall in Hx2. by apply Hx2, list_elem_of_In.
    + intros ([H1 Hx]%StronglySorted_inv & H2 & H3). constructor.
      * apply IH. split_and!; [done|done|]. intros a b Ha. apply H3. by right.
      * apply List.Forall_app. split; [done|]. apply List.Forall_forall. intros b Hb%list_elem_of_In. apply H3; [left|done].
Qed.

Lemma sins_elem x l a : a ∈ sins x l <-> a = x \/ a ∈ l.
Proof.
  induction l as [|y l IH]; cbn [sins]; [by rewrite list_elem_of_singleton, elem_of_nil; tauto|].
  destruct (lexcmp (ikey y) (ikey x)); rewrite !elem_of_cons, ?IH; tauto.
Qed.

Lemma iltb_down x a b : ilt a b -> iltb x b = true -> iltb x a = true.
Proof.
  unfold ilt, iltb. intros Hab. destruct (lexcmp (ikey b) (ikey x)) eqn:E; try done. by rewrite (lexcmp_trans _ _ _ Hab E).
Qed.

Section Ops.
Context (garbage : zskiplistLevel) (garbage_ptr : Z).

Lemma insert_inv h zsl its x rs lvl rs' : zsl_inv h zsl its -> item_ok x -> (forall y, y ∈ its -> ikey y <> ikey x) ->
  zslRandomLevel rs = Some (lvl, rs') -> Zlen its + 2 < 2 ^ 32 ->
  exists h' zsl' p, zslInsert garbage garbage_ptr h zsl x.1 x.2 rs = Some (h', zsl', p, rs') /\ zsl_inv h' zsl' (sins x its).
Proof.
  intros (H & L & Hok & Hh & Hs & Hi) Hx Hnew Ers Hsz.
  destruct (cut_sorted (iltb x) its Hs) as (i1 & i2 & -> & H1 & H2); [intros a b _ _; apply iltb_down|].
  destruct (holds_app_inv L i1 i2 Hh) as (L1 & L2 & -> & HL1 & HL2).
  assert (forall e L its b, holds L its -> (forall a, a ∈ its -> iltb x a = b) -> Forall item_ok its -> e ∈ L -> before x.1 x.2 (e_obj e) (e_score e) = b) as Hb.
  { intros e L its b HF Hq Hit He. destruct (holds_in _ _ _ HF He) as (y & Hy & -> & ->).
    rewrite Forall_forall in Hit. rewrite before_key by auto. by apply Hq. }
  apply Forall_app in Hi as [Hi1 Hi2]. apply Forall2_length in HL1 as Hl1. apply Forall2_length in HL2 as Hl2. rewrite length_app in Hsz.
  destruct (zslInsert_spec garbage garbage_ptr h zsl H L1 L2 x.1 x.2 rs lvl rs' Hok (proj1 Hx)) as (h' & zsl' & E & Hok'); [..|].
  - intros e He. by apply (Hb e L1 i1).
  - intros e He. by apply (Hb e L2 i2).
  - done.
  - by eapply random_level_range.
  - rewrite length_app. lia.
  - exists h', zsl', (h_brk h). split; [done|]. rewrite sins_cut by done. exists H, (inserted (h_brk h) lvl x.1 x.2 L1 L2).
    split_and!; [done| | |].
    + unfold inserted. apply Forall2_app; [done|]. constructor; [done|]. by apply holds_back_head.
    + apply sorted_app in Hs as (Hs1 & Hs2 & Hs12). apply sorted_app. split_and!; [done| |].
      * constructor; [done|]. apply List.Forall_forall. intros b Hin%list_elem_of_In. specialize (H2 b Hin). unfold iltb in H2. unfold ilt.
        rewrite lexcmp_antisym. destruct (lexcmp (ikey b) (ikey x)) eqn:Ec; [|done|done].
        apply lexcmp_eq in Ec. exfalso. apply (Hnew b); [apply elem_of_app; by right|done].
      * intros a b Ha [->|Hin]%elem_of_cons; [|by apply Hs12]. specialize (H1 a Ha). unfold iltb in H1. unfold ilt.
        by destruct (lexcmp (ikey a) (ikey x)).
    + apply Forall_app. split; [done|]. by constructor.
Qed.

(** ** Deletion *)

Definition same_item (x y : item) : bool := match lexcmp (ikey y) (ikey x) with Eq => true | _ => false end.

Lemma del_inv h zsl its x : zsl_inv h zsl its -> item_ok x -> Zlen its + 2 < 2 ^ 32 ->
  exists h' zsl', zslDelete h zsl x.1 x.2 = Some (h', zsl', existsb (same_item x) its) /\
    zsl_inv h' zsl' (List.filter (fun y => negb (same_item x y)) its).
Proof.
  intros (H & L & Hok & Hh & Hs & Hi) Hx Hsz.
  destruct (cut_sorted (iltb x) its Hs) as (i1 & i2 & -> & H1 & H2); [intros a b _ _; apply iltb_down|].
  destruct (holds_app_inv L i1 i2 Hh) as (L1 & L2 & -> & HL1 & HL2).
  apply Forall_app in Hi as Hi'. destruct Hi' as [Hi1 Hi2]. apply Forall2_length in HL1 as Hl1. apply Forall2_length in HL2 as Hl2.
  rewrite length_app in Hsz. assert (Zlen (L1 ++ L2) + 2 < 2 ^ 32) as Hsz' by (rewrite length_app; lia).
  assert (forall a, a ∈ i1 -> same_item x a = false) as Hn1.
  { intros a Ha. specialize (H1 a Ha). unfold iltb, same_item in *. by destruct (lexcmp (ikey a) (ikey x)). }
  assert (forall l, (forall a, a ∈ l -> same_item x a = false) -> existsb (same_item x) l = false /\ List.filter (fun y => negb (same_item x y)) l = l) as Hnone.
  { induction l as [|a l IH]; intros Hl; [done|]. cbn. rewrite (Hl a ltac:(left)). cbn. destruct IH as [-> ->]; [|done]. intros b Hb. apply Hl. by right. }
  rewrite existsb_app, List.filter_app. destruct (Hnone i1 Hn1) as [-> ->]. cbn [orb].
  unfold zslDelete. apply sorted_app in Hs as Hs'. destruct Hs' as (Hs1 & Hs2 & Hs12).
  assert (exists U, descend 64 (nodes zsl) h (level_ zsl) (fun o' sc' _ => before x.1 x.2 o' sc') (header zsl) 0 [] =
      Some (e_ptr (default H (last L1)), Zlen L1, U) /\
    (forall j, (j < level_ zsl)%nat -> exists p r, U !! j = Some (p, r) /\ is_last j (H :: L1) p r)) as (U & -> & HU).
  { eapply (zsl_search_spec 64 h zsl H L1 L2 i1 i2 _ (fun y => before x.1 x.2 (Some y.2) y.1)); try done; try lia.
    - intros a Ha. rewrite Forall_forall in Hi1. rewrite before_key by auto. by apply H1.
    - intros a Ha. rewrite Forall_forall in Hi2. rewrite before_key by auto. by apply H2. }
  rewrite bind_Some. destruct (next_after h zsl H L1 L2 Hok) as (lv & Elv & Efw & Hz). rewrite Elv, bind_Some, Efw.
  destruct L2 as [|z L2]; inversion HL2 as [|? y ? i2' Hzy HL2' E1 E2]; subst; cbn [first_ptr].
  { cbn. rewrite app_nil_r in *. eexists _, _. split; [done|]. exists H, L1. done. }
  destruct (Hz z L2 eq_refl) as (Hzn & n & En & Eo & Es & _). destruct (Z.eqb_spec (e_ptr z) NULL); [done|].
  rewrite En, bind_Some, Eo, Es. destruct Hzy as [-> ->].
  inversion_clear Hi2 as [|? ? Hy Hi2']. apply StronglySorted_inv in Hs2 as [Hs2 Hy2]. rewrite List.Forall_forall in Hy2.
  assert (d_eq x.1 y.1 && equalStringObjects y.2 x.2 = same_item x y) as ->.
  { destruct Hx as [Hx1 Hx2], Hy as [Hy1 Hy2']. rewrite d_eq_key by done. unfold same_item. rewrite ikey_cmp, lexcmp_antisym.
    pose proof (compareStringObjects_lex y.2 x.2 Hy2' Hx2) as Hc. unfold equalStringObjects.
    destruct (lexcmp (dkey y.1) (dkey x.1)); cbn; try done. destruct (lexcmp y.2 x.2); destruct (Z.eqb_spec (compareStringObjects y.2 x.2) 0); done || lia. }
  cbn [existsb List.filter]. destruct (same_item x y) eqn:Exy; cbn [orb negb].
  - assert (forall a, a ∈ i2' -> same_item x a = false) as Hn2.
    { intros a Ha. specialize (Hy2 a ltac:(by apply list_elem_of_In)). unfold same_item, ilt in *.
      destruct (lexcmp (ikey y) (ikey x)) eqn:Ec; try done. apply lexcmp_eq in Ec. rewrite Ec in Hy2. by rewrite lexcmp_antisym, Hy2. }
    destruct (delete_node_spec h zsl H L1 z L2 U Hok ltac:(lia) HU) as (h1 & zsl' & h2 & -> & Ef & Hok' & _). rewrite bind_Some, Ef, bind_Some.
    eexists _, _. split; [done|]. destruct (Hnone i2' Hn2) as [_ ->]. exists H, (L1 ++ back_head (e_back z) L2). split_and!; [done| | |].
    + apply Forall2_app; [done|]. by apply holds_back_head.
    + apply sorted_app. split_and!; [done|done|]. intros a b Ha Hb. apply Hs12; [done|by right].
    + by apply Forall_app.
  - assert (forall a, a ∈ i2' -> same_item x a = false) as Hn2.
    { intros a Ha. specialize (Hy2 a ltac:(by apply list_elem_of_In)). specialize (H2 y ltac:(left)). unfold same_item, ilt, iltb in *.
      destruct (lexcmp (ikey y) (ikey x)) eqn:Ec; try done. rewrite lexcmp_antisym in Ec.
      destruct (lexcmp (ikey x) (ikey y)) eqn:Ec'; try done. by rewrite lexcmp_antisym, (lexcmp_trans _ _ _ Ec' Hy2). }
    destruct (Hnone i2' Hn2) as [-> ->]. eexists _, _. split; [done|]. exists H, (L1 ++ z :: L2). done.
Qed.
End Ops.

(** *** Ranges *)

(** The deletion loop removes the run of items it may. *)
Lemma delete_while_spec stay U H L1 i1 : holds L1 i1 -> forall im i2 fuel h zsl N t rem, zsl_ok h zsl H (L1 ++ N) -> holds N (im ++ i2) ->
  (forall j, (j < level_ zsl)%nat -> exists p r, U !! j = Some (p, r) /\ is_last j (H :: L1) p r) ->
  (forall k x, im !! k = Some x -> stay (Some x.2) x.1 (t + Z.of_nat k) = true) ->
  (forall x r, i2 = x :: r -> stay (Some x.2) x.1 (t + Zlen im) = false) ->
  (length im < fuel)%nat -> Zlen (L1 ++ N) + 2 < 2 ^ 32 ->
  exists h' zsl' N', delete_while fuel h zsl stay U (first_ptr N) t rem = Some (h', zsl', rem ++ (Some <$> im.*2)) /\
    zsl_ok h' zsl' H (L1 ++ N') /\ holds N' i2.
Proof.
  intros HL1. induction im as [|x im IH]; intros i2 fuel h zsl N t rem Hok HN HU Hstay Hstop Hf Hsz; (destruct fuel as [|fuel]; [lia|]); cbn [delete_while].
  - cbn [app] in HN. destruct (next_after h zsl H L1 N Hok) as (lv & _ & _ & Hz). destruct N as [|z N].
    + cbn. rewrite app_nil_r. eexists _, _, []. done.
    + inversion HN as [|? y ? i2' [Ho Hsc] HN' E1 E2]; subst. destruct (Hz z N eq_refl) as (Hzn & n & En & Eo & Es & _).
      cbn [first_ptr]. destruct (Z.eqb_spec (e_ptr z) NULL); [done|]. rewrite En, bind_Some, Eo, Es, Ho, Hsc.
      specialize (Hstop y i2' eq_refl). rewrite Z.add_0_r in Hstop. rewrite Hstop. rewrite app_nil_r. by eexists _, _, _.
  - cbn [app] in HN. destruct (next_after h zsl H L1 N Hok) as (lv & _ & _ & Hz).
    inversion HN as [|z ? N' ? [Ho Hsc] HN' E1 E2]; subst. destruct (Hz z N' eq_refl) as (Hzn & n & En & Eo & Es & _).
    cbn [first_ptr]. destruct (Z.eqb_spec (e_ptr z) NULL); [done|]. rewrite En, bind_Some, Eo, Es, Ho, Hsc.
    pose proof (Hstay 0%nat x eq_refl) as Hx. rewrite Z.add_0_r in Hx. rewrite Hx.
    assert (zsl_ok h zsl H ((L1 ++ [z]) ++ N')) as Hok2 by (by rewrite <- app_assoc).
    destruct (next_after h zsl H (L1 ++ [z]) N' Hok2) as (lv' & Elv & Efw & _). rewrite last_snoc in Elv. cbn in Elv.
    rewrite Elv, bind_Some, Efw.
    destruct (delete_node_spec h zsl H L1 z N' U Hok ltac:(lia) HU) as (h1 & zsl' & h2 & -> & Ef & Hok' & Hlv'). rewrite bind_Some, Ef, bind_Some.
    rewrite length_app in Hsz. cbn [length] in Hsz, Hf.
    destruct (IH i2 fuel h2 zsl' (back_head (e_back z) N') (t + 1) (rem ++ [Some x.2]) Hok') as (h3 & zsl3 & N3 & E3 & Hok3 & HN3).
    + by apply holds_back_head.
    + intros j Hj. apply HU. lia.
    + intros k y Hk. specialize (Hstay (S k) y Hk). rewrite <- Hstay. f_equal. lia.
    + intros y r Er. specialize (Hstop y r Er). rewrite <- Hstop. f_equal. cbn [length]. lia.
    + lia.
    + rewrite length_app. replace (length (back_head (e_back z) N')) with (length N') by (by destruct N'). lia.
    + exists h3, zsl3, N3. split_and!; [|done|done].
      replace (first_ptr (back_head (e_back z) N')) with (first_ptr N') in E3 by (by destruct N').
      rewrite E3. cbn. by rewrite <- app_assoc.
Qed.

(** Items split in three by a lower and an upper predicate. *)
Lemma range_split (low_ high : item -> bool) its : isorted its ->
  (forall a b, a ∈ its -> b ∈ its -> ilt a b -> low_ b = true -> low_ a = true) ->
  (forall a b, a ∈ its -> b ∈ its -> ilt a b -> high b = true -> high a = true) ->
  exists i1 im i2, its = i1 ++ im ++ i2 /\ (forall a, a ∈ i1 -> low_ a = true) /\ (forall a, a ∈ im ++ i2 -> low_ a = false) /\
    (forall a, a ∈ im -> high a = true) /\ (forall a, a ∈ i2 -> high a = false).
Proof.
  intros Hs Hl Hh. destruct (cut_sorted low_ its Hs Hl) as (i1 & i' & -> & H1 & H2). apply sorted_app in Hs as (_ & Hs & _).
  destruct (cut_sorted high i' Hs) as (im & i2 & -> & H3 & H4); [|by exists i1, im, i2].
  intros a b Ha Hb. apply Hh; apply elem_of_app; by right.
Qed.

Lemma sorted_drop_mid i1 im i2 : isorted (i1 ++ im ++ i2) -> isorted (i1 ++ i2).
Proof.
  intros Hs. apply sorted_app in Hs as (H1 & Hs & H12). apply sorted_app in Hs as (_ & H2 & _). apply sorted_app.
  split_and!; [done|done|]. intros a b Ha Hb. apply H12; [done|]. apply elem_of_app. by right.
Qed.

(** A search followed by the deletion loop, for predicates on items. *)
Lemma range_delete h zsl its low_ high go stay i1 im i2 : zsl_inv h zsl its -> Zlen its + 2 < 2 ^ 32 -> its = i1 ++ im ++ i2 ->
  (forall a, a ∈ i1 -> low_ a = true) -> (forall a, a ∈ im ++ i2 -> low_ a = false) ->
  (forall a, a ∈ im -> high a = true) -> (forall a, a ∈ i2 -> high a = false) ->
  (forall x t, go (Some x.2) x.1 t = low_ x) -> (forall x t, stay (Some x.2) x.1 t = high x) ->
  exists h' zsl', ('(x, _, update) ← descend 64 (nodes zsl) h (level_ zsl) go (header zsl) 0 [];
      lv ← get_level h x 0; delete_while (nodes zsl) h zsl stay update (forward lv) 0 []) =
    Some (h', zsl', Some <$> im.*2) /\ zsl_inv h' zsl' (i1 ++ i2).
Proof.
  intros (H & L & Hok & Hh & Hs & Hi) Hsz -> H1 H2 H3 H4 Hgo Hstay.
  destruct (holds_app_inv L i1 (im ++ i2) Hh) as (L1 & N & -> & HL1 & HN).
  apply Forall2_length in HL1 as Hl1. apply Forall2_length in HN as Hln. rewrite !length_app in Hsz. rewrite length_app in Hln.
  destruct (zsl_search_spec 64 h zsl H L1 N i1 (im ++ i2) go low_ Hok HL1 HN Hgo H1 H2 ltac:(lia)) as (U & -> & HU); [rewrite length_app; lia|].
  rewrite bind_Some. destruct (next_after h zsl H L1 N Hok) as (lv & Elv & Efw & _). rewrite Elv, bind_Some, Efw.
  destruct (delete_while_spec stay U H L1 i1 HL1 im i2 (nodes zsl) h zsl N 0 [] Hok HN HU) as (h' & zsl' & N' & E & Hok' & HN').
  - intros k x Hk. rewrite Hstay. apply H3. by eapply list_elem_of_lookup_2.
  - intros x r ->. rewrite Hstay. apply H4. left.
  - unfold nodes. rewrite (ok_len _ _ _ _ Hok), length_app. lia.
  - rewrite length_app. lia.
  - exists h', zsl'. split; [exact E|]. exists H, (L1 ++ N'). split_and!; [done|by apply Forall2_app|by eapply sorted_drop_mid|].
    apply Forall_app in Hi as [Hi1 Hi2]. apply Forall_app in Hi2 as [_ Hi2]. by apply Forall_app.
Qed.

(** ** Range operations *)

Definition in_score_range (r : zrangespec) (x : item) : bool := zslValueGteMin x.1 r && zslValueLteMax x.1 r.
Definition in_lexrange (r : zlexrangespec) (x : item) : bool := zslLexValueGteMin x.2 r && zslLexValueLteMax x.2 r.
Definition range_ok (r : zrangespec) : Prop := isnan (r_min r) = false /\ isnan (r_max r) = false.

(** Lexicographic ranges are meant for items of one score. *)
Definition one_score (its : list item) : Prop := forall a b, a ∈ its -> b ∈ its -> dkey a.1 = dkey b.1.
Definition bound_short (b : lexbound) : Prop := match b with Str s => short s | _ => True end.
Definition lexrange_ok (r : zlexrangespec) : Prop := bound_short (l_min r) /\ bound_short (l_max r).

Lemma gte_key s r : range_ok r -> isnan s = false ->
  zslValueGteMin s r = match lexcmp (dkey s) (dkey (r_min r)) with Lt => false | Eq => negb (r_minex r) | Gt => true end.
Proof.
  intros [Hmin _] Hs. unfold zslValueGteMin, d_gt, d_ge. change (SpecFloat.SFltb (r_min r) s) with (d_lt (r_min r) s).
  change (SpecFloat.SFleb (r_min r) s) with (d_le (r_min r) s). rewrite d_lt_key, d_le_key, (lexcmp_antisym (dkey s)) by done.
  destruct (lexcmp (dkey s) (dkey (r_min r))), (r_minex r); done.
Qed.

Lemma lte_key s r : range_ok r -> isnan s = false ->
  zslValueLteMax s r = match lexcmp (dkey s) (dkey (r_max r)) with Lt => true | Eq => negb (r_maxex r) | Gt => false end.
Proof.
  intros [_ Hmax] Hs. unfold zslValueLteMax. rewrite d_lt_key, d_le_key by done.
  destruct (lexcmp (dkey s) (dkey (r_max r))), (r_maxex r); done.
Qed.

(** The two tests of a range are monotone. *)
Lemma gte_up a b r : range_ok r -> item_ok a -> item_ok b -> ilt a b -> zslValueGteMin b.1 r = false -> zslValueGteMin a.1 r = false.
Proof.
  intros Hr [Ha _] [Hb _] Hab%ilt_score. rewrite !gte_key by done.
  destruct (lexcmp_le_l _ _ (dkey (r_min r)) Hab) as [H1 H2].
  destruct (lexcmp (dkey b.1) (dkey (r_min r))); [|by rewrite H1|done].
  destruct (lexcmp (dkey a.1) (dkey (r_min r))); [done|done|by destruct H2].
Qed.

Lemma lte_down a b r : range_ok r -> item_ok a -> item_ok b -> ilt a b -> zslValueLteMax b.1 r = true -> zslValueLteMax a.1 r = true.
Proof.
  intros Hr [Ha _] [Hb _] Hab%ilt_score. rewrite !lte_key by done.
  destruct (lexcmp_le_l _ _ (dkey (r_max r)) Hab) as [H1 H2].
  destruct (lexcmp (dkey b.1) (dkey (r_max r))); [|by rewrite H1|done].
  destruct (lexcmp (dkey a.1) (dkey (r_max r))); [done|done|by destruct H2].
Qed.

(** The bounds of a lexicographic range, as an order. *)
Definition bcmp (v : list Z) (b : lexbound) : comparison :=
  match b with MinString => Gt | MaxString => Lt | Str s => lexcmp v s end.

Lemma bcmp_sign v b : short v -> bound_short b ->
  match bcmp v b with
  | Lt => compareStringObjectsForLexRange (Str v) b < 0
  | Eq => compareStringObjectsForLexRange (Str v) b = 0
  | Gt => compareStringObjectsForLexRange (Str v) b > 0
  end.
Proof.
  intros Hv Hb. unfold compareStringObjectsForLexRange. destruct b as [| |s]; cbn; try done. case_bool_decide as E.
  - simplify_eq. by rewrite lexcmp_refl.
  - pose proof (compareStringObjects_lex v s Hv Hb) as H. destruct (lexcmp v s); [by destruct H; subst|done|done].
Qed.

Lemma lexgte_key v r : short v -> lexrange_ok r ->
  zslLexValueGteMin v r = match bcmp v (l_min r) with Lt => false | Eq => negb (l_minex r) | Gt => true end.
Proof.
  intros Hv [Hb _]. pose proof (bcmp_sign v (l_min r) Hv Hb) as H. unfold zslLexValueGteMin.
  destruct (bcmp v (l_min r)), (l_minex r); cbn; (apply Z.ltb_lt || apply Z.leb_le || apply Z.ltb_ge || apply Z.leb_gt); lia.
Qed.

Lemma lexlte_key v r : short v -> lexrange_ok r ->
  zslLexValueLteMax v r = match bcmp v (l_max r) with Lt => true | Eq => negb (l_maxex r) | Gt => false end.
Proof.
  intros Hv [_ Hb]. pose proof (bcmp_sign v (l_max r) Hv Hb) as H. unfold zslLexValueLteMax.
  destruct (bcmp v (l_max r)), (l_maxex r); cbn; (apply Z.ltb_lt || apply Z.leb_le || apply Z.ltb_ge || apply Z.leb_gt); lia.
Qed.

Lemma bcmp_mono u v b : lexcmp u v = Lt -> (bcmp v b = Lt -> bcmp u b = Lt) /\ (bcmp v b <> Gt -> bcmp u b <> Gt).
Proof. intros H. destruct b as [| |s]; cbn; try done. apply lexcmp_le_l. by rewrite H. Qed.

Lemma one_score_lt its a b : one_score its -> a ∈ its -> b ∈ its -> ilt a b -> lexcmp a.2 b.2 = Lt.
Proof. intros H1 Ha Hb. unfold ilt. rewrite ikey_cmp, (H1 a b Ha Hb), lexcmp_refl. done. Qed.

Lemma lexgte_up u v r : lexrange_ok r -> short u -> short v -> lexcmp u v = Lt -> zslLexValueGteMin v r = false -> zslLexValueGteMin u r = false.
Proof.
  intros Hr Hu Hv Huv. rewrite !lexgte_key by done. destruct (bcmp_mono u v (l_min r) Huv) as [H1 H2].
  destruct (bcmp v (l_min r)); [|by rewrite H1|done]. destruct (bcmp u (l_min r)); [done|done|by destruct H2].
Qed.

Lemma lexlte_down u v r : lexrange_ok r -> short u -> short v -> lexcmp u v = Lt -> zslLexValueLteMax v r = true -> zslLexValueLteMax u r = true.
Proof.
  intros Hr Hu Hv Huv. rewrite !lexlte_key by done. destruct (bcmp_mono u v (l_max r) Huv) as [H1 H2].
  destruct (bcmp v (l_max r)); [|by rewrite H1|done]. destruct (bcmp u (l_max r)); [done|done|by destruct H2].
Qed.

(** What is left and what is removed, as filters. *)
Lemma filter_split (gte lte : item -> bool) i1 im i2 (q := fun x => gte x && lte x) :
  (forall a, a ∈ i1 -> gte a = false) -> (forall a, a ∈ im ++ i2 -> gte a = true) ->
  (forall a, a ∈ im -> lte a = true) -> (forall a, a ∈ i2 -> lte a = false) ->
  List.filter q (i1 ++ im ++ i2) = im /\ List.filter (fun x => negb (q x)) (i1 ++ im ++ i2) = i1 ++ i2.
Proof.
  intros H1 H2 H3 H4.
  assert (forall l b, (forall a, a ∈ l -> q a = b) -> List.filter q l = (if b then l else []) /\ List.filter (fun x => negb (q x)) l = if b then [] else l) as Hf.
  { induction l as [|a l IH]; intros b Hb; [by destruct b|]. cbn. rewrite (Hb a ltac:(left)).
    destruct (IH b) as [-> ->]; [intros; apply Hb; by right|]. by destruct b. }
  rewrite !List.filter_app. destruct (Hf i1 false) as [-> ->]; [intros a Ha; unfold q; by rewrite H1|].
  destruct (Hf im true) as [-> ->]; [intros a Ha; unfold q; rewrite H2, H3; [done|done|apply elem_of_app; by left]|].
  destruct (Hf i2 false) as [-> ->]; [intros a Ha; unfold q; rewrite H2, H4; [done|done|apply elem_of_app; by right]|].
  rewrite app_nil_r. done.
Qed.

Lemma delscore_inv h zsl its r : zsl_inv h zsl its -> Zlen its + 2 < 2 ^ 32 -> range_ok r ->
  exists h' zsl', zslDeleteRangeByScore h zsl r = Some (h', zsl', Some <$> (List.filter (in_score_range r) its).*2) /\
    zsl_inv h' zsl' (List.filter (fun x => negb (in_score_range r x)) its).
Proof.
  intros Hinv Hsz Hr. pose proof Hinv as (H & L & Hok & Hh & Hs & Hi). rewrite Forall_forall in Hi.
  destruct (range_split (fun x => negb (zslValueGteMin x.1 r)) (fun x => zslValueLteMax x.1 r) its Hs) as (i1 & im & i2 & -> & H1 & H2 & H3 & H4).
  { intros a b Ha Hb Hab. rewrite !negb_true_iff. apply gte_up; auto. }
  { intros a b Ha Hb Hab. apply lte_down; auto. }
  destruct (filter_split (fun x => zslValueGteMin x.1 r) (fun x => zslValueLteMax x.1 r) i1 im i2) as [F1 F2]; [|..|done|done|].
  { intros a Ha. apply negb_true_iff. by apply H1. }
  { intros a Ha. apply negb_false_iff. by apply H2. }
  assert (List.filter (in_score_range r) (i1 ++ im ++ i2) = im) as -> by exact F1.
  assert (List.filter (fun x => negb (in_score_range r x)) (i1 ++ im ++ i2) = i1 ++ i2) as -> by exact F2.
  unfold zslDeleteRangeByScore. eapply (range_delete _ _ _ (fun x => if r_minex r then d_le x.1 (r_min r) else d_lt x.1 (r_min r)) (fun x => zslValueLteMax x.1 r)); try done.
  - intros a Ha. specialize (H1 a Ha). apply negb_true_iff in H1. destruct (Hi a ltac:(apply elem_of_app; by left)) as [Hn _].
    rewrite gte_key in H1 by done. rewrite d_le_key, d_lt_key by (done || apply Hr). destruct (lexcmp _ _), (r_minex r); done.
  - intros a Ha. specialize (H2 a Ha). apply negb_false_iff in H2. destruct (Hi a ltac:(apply elem_of_app; by right)) as [Hn _].
    rewrite gte_key in H2 by done. rewrite d_le_key, d_lt_key by (done || apply Hr). destruct (lexcmp _ _), (r_minex r); done.
Qed.

Lemma dellex_inv h zsl its r : zsl_inv h zsl its -> Zlen its + 2 < 2 ^ 32 -> lexrange_ok r -> one_score its ->
  exists h' zsl', zslDeleteRangeByLex h zsl r = Some (h', zsl', Some <$> (List.filter (in_lexrange r) its).*2) /\
    zsl_inv h' zsl' (List.filter (fun x => negb (in_lexrange r x)) its).
Proof.
  intros Hinv Hsz Hr Hone. pose proof Hinv as (H & L & Hok & Hh & Hs & Hi). rewrite Forall_forall in Hi.
  destruct (range_split (fun x => negb (zslLexValueGteMin x.2 r)) (fun x => zslLexValueLteMax x.2 r) its Hs) as (i1 & im & i2 & E & H1 & H2 & H3 & H4).
  { intros a b Ha Hb Hab%(one_score_lt its); try done. rewrite !negb_true_iff. apply lexgte_up; [done|by apply Hi..|done]. }
  { intros a b Ha Hb Hab%(one_score_lt its); try done. apply lexlte_down; [done|by apply Hi..|done]. }
  rewrite E. destruct (filter_split (fun x => zslLexValueGteMin x.2 r) (fun x => zslLexValueLteMax x.2 r) i1 im i2) as [F1 F2]; [|..|done|done|].
  { intros a Ha. apply negb_true_iff. by apply H1. }
  { intros a Ha. apply negb_false_iff. by apply H2. }
  assert (List.filter (in_lexrange r) (i1 ++ im ++ i2) = im) as -> by exact F1.
  assert (List.filter (fun x => negb (in_lexrange r x)) (i1 ++ im ++ i2) = i1 ++ i2) as -> by exact F2.
  unfold zslDeleteRangeByLex. by eapply (range_delete _ _ its (fun x => negb (zslLexValueGteMin x.2 r)) (fun x => zslLexValueLteMax x.2 r)).
Qed.

(** Ranks [start] to [end_], counted from 1. *)
Lemma delrank_inv h zsl its start end_ : zsl_inv h zsl its -> Zlen its + 2 < 2 ^ 32 -> 1 <= start ->
  exists h' zsl', zslDeleteRangeByRank h zsl start end_ =
      Some (h', zsl', Some <$> (slice its (start - 1) (end_ - start + 1)).*2) /\
    zsl_inv h' zsl' (take (Z.to_nat (start - 1)) its ++ drop (Z.to_nat (end_ - start + 1)) (drop (Z.to_nat (start - 1)) its)).
Proof.
  intros (H & L & Hok & Hh & Hs & Hi) Hsz Hst. unfold slice.
  set (i1 := take (Z.to_nat (start - 1)) its). set (im := take (Z.to_nat (end_ - start + 1)) (drop (Z.to_nat (start - 1)) its)).
  set (i2 := drop (Z.to_nat (end_ - start + 1)) (drop (Z.to_nat (start - 1)) its)).
  assert (its = i1 ++ im ++ i2) as Eits by (subst i1 im i2; by rewrite !take_drop).
  assert (Zlen i1 <= start - 1 /\ (Zlen i1 < start - 1 -> im ++ i2 = [])) as [Hl1 Hl1'].
  { subst i1 im i2. rewrite length_take, take_drop. split; [lia|]. intros. apply drop_ge. lia. }
  assert (Zlen im <= Z.max 0 (end_ - start + 1) /\ (Zlen im < end_ - start + 1 -> i2 = [])) as [Hlm Hlm'].
  { subst im i2. rewrite length_take. split; [lia|]. intros. apply drop_ge. lia. }
  clearbody i1 im i2. subst its. destruct (holds_app_inv L i1 (im ++ i2) Hh) as (L1 & N & -> & HL1 & HN).
  apply Forall2_length in HL1 as Hll. apply Forall2_length in HN as Hln. rewrite !length_app in Hsz. rewrite length_app in Hln.
  unfold zslDeleteRangeByRank.
  destruct (search_pos 64 h zsl H L1 N (fun _ _ t => t <? start) Hok) as (U & -> & HU).
  { intros a e b ->. rewrite length_app in Hll. cbn [length] in Hll. apply Z.ltb_lt. lia. }
  { intros a e b ->. apply Z.ltb_ge. destruct (Z.lt_ge_cases (Zlen i1) (start - 1)) as [Hlt|]; [|lia].
    rewrite (Hl1' Hlt) in HN. inversion HN. destruct a; done. }
  { lia. }
  { rewrite length_app. lia. }
  rewrite bind_Some. destruct (next_after h zsl H L1 N Hok) as (lv & Elv & Efw & _). rewrite Elv, bind_Some, Efw.
  destruct (delete_while_spec (fun _ _ t => t <=? end_) U H L1 i1 HL1 im i2 (nodes zsl) h zsl N (Zlen L1 + 1) [] Hok HN HU) as (h' & zsl' & N' & E & Hok' & HN').
  - intros k x Hk. apply lookup_lt_Some in Hk. apply Z.leb_le. lia.
  - intros x r ->. apply Z.leb_gt. destruct (Z.lt_ge_cases (Zlen im) (end_ - start + 1)) as [Hlt|]; [by apply Hlm' in Hlt|].
    destruct (Z.lt_ge_cases (Zlen i1) (start - 1)) as [Hlt|]; [|lia]. specialize (Hl1' Hlt). by destruct im.
  - unfold nodes. rewrite (ok_len _ _ _ _ Hok), length_app. lia.
  - rewrite length_app. lia.
  - exists h', zsl'. split; [exact E|]. exists H, (L1 ++ N'). split_and!; [done|by apply Forall2_app|by eapply sorted_drop_mid|].
    apply Forall_app in Hi as [Hi1 Hi2]. apply Forall_app in Hi2 as [_ Hi2]. by apply Forall_app.
Qed.

(** ** Queries *)

(** [p] is the node of the item, or NULL for none. *)
Definition points (h : zheap) (p : Z) (x : option item) : Prop :=
  match x with
  | None => p = NULL
  | Some x => exists n, deref h p = Some n /\ obj n = Some x.2 /\ score n = x.1
  end.

Lemma holds_last L its : holds L its -> match last L, last its with Some e, Some x => holds1 e x | None, None => True | _, _ => False end.
Proof.
  intros HF. destruct L as [|e L _] using rev_ind; [by inversion HF|].
  apply Forall2_app_inv_l in HF as (i1 & i2 & _ & H2 & ->). inversion H2 as [|? x ? ? Hx H2' E1 E2]; subst. inversion H2'; subst. by rewrite !last_snoc.
Qed.

Lemma node_of h zsl H L e : zsl_ok h zsl H L -> e ∈ L -> e_ptr e <> NULL /\ exists n, deref h (e_ptr e) = Some n /\ obj n = e_obj e /\ score n = e_score e.
Proof.
  intros [Hseg _ _ _ _ _ _ _ _ _] He. apply list_elem_of_split in He as (a & b & ->). rewrite app_comm_cons in Hseg. apply seg_mid in Hseg.
  split; [by eapply node_not_null|]. destruct Hseg as (lv & -> & _). by eexists.
Qed.

Lemma points_node h zsl H L e x : zsl_ok h zsl H L -> e ∈ L -> holds1 e x -> points h (e_ptr e) (Some x).
Proof. intros Hok He [Ho Hs]. destruct (node_of _ _ _ _ _ Hok He) as (_ & n & En & Eo & Es). exists n. split_and!; congruence. Qed.

(** The early-return searches. *)
Section Find.
Context (h : zheap) (zsl : zskiplist) (H : elt) (L1 L2 : list elt) (go : option (list Z) -> double -> Z -> bool) (stop : option (list Z) -> Z -> bool).
Context (Hok : zsl_ok h zsl H (L1 ++ L2)) (Hsz : Zlen (L1 ++ L2) < 2 ^ 32)
  (Htrue : forall a e b, L1 = a ++ e :: b -> go (e_obj e) (e_score e) (Zlen a + 1) = true)
  (Hfalse : forall a e b, L2 = a ++ e :: b -> go (e_obj e) (e_score e) (Zlen L1 + Zlen a + 1) = false).

Lemma find_last : (forall a y s, H :: L1 = a ++ y :: s -> stop (e_obj y) (Zlen a) = bool_decide (s = [])) ->
  descend_until 64 (nodes zsl) h (level_ zsl) go stop (header zsl) 0 = Some (Some (e_ptr (default H (last L1)), Zlen L1)).
Proof.
  intros Hstop. destruct Hok as [Hseg Hnd Hptr Hdom (Eh & EH & EO) Hlvl Hhh Elen Hback Etail].
  rewrite app_comm_cons, seg_app, app_nil_r in Hseg. destruct Hseg as [HP HT]. apply Forall_app in Hhh as [Hh1 _].
  assert (Forall (fun e => (1 <= e_h e)%nat) L1) as Hpos by (eapply Forall_impl; [exact Hh1|simpl; lia]).
  assert (length L1 < nodes zsl)%nat as Hf by (unfold nodes; rewrite Elen, length_app; lia).
  pose proof (descend_until_last h (level_ zsl) H L1 L2 64 go HP HT ltac:(lia) Hsz ltac:(lia) Htrue Hfalse Hpos (nodes zsl) stop Hf Hstop
    (level_ zsl) [] H L1 ltac:(lia) eq_refl ltac:(lia)) as E. rewrite Eh in E. exact E.
Qed.

Lemma find_never : (forall a y s, H :: L1 = a ++ y :: s -> stop (e_obj y) (Zlen a) = false) ->
  descend_until 64 (nodes zsl) h (level_ zsl) go stop (header zsl) 0 = Some None.
Proof.
  intros Hstop. destruct Hok as [Hseg Hnd Hptr Hdom (Eh & EH & EO) Hlvl Hhh Elen Hback Etail].
  rewrite app_comm_cons, seg_app, app_nil_r in Hseg. destruct Hseg as [HP HT].
  assert (length L1 < nodes zsl)%nat as Hf by (unfold nodes; rewrite Elen, length_app; lia).
  pose proof (descend_until_never h (level_ zsl) H L1 L2 64 go HP HT ltac:(lia) Hsz ltac:(lia) Htrue Hfalse (nodes zsl) stop Hf Hstop
    (level_ zsl) [] H L1 ltac:(lia) eq_refl ltac:(lia)) as E. rewrite Eh in E. exact E.
Qed.
End Find.

Lemma getbyrank_inv h zsl its r : zsl_inv h zsl its -> Zlen its + 2 < 2 ^ 32 -> 1 <= r ->
  exists p, zslGetElementByRank h zsl r = Some p /\ points h p (its !! Z.to_nat (r - 1)).
Proof.
  intros (H & L & Hok & Hh & Hs & Hi) Hsz Hr. apply Forall2_length in Hh as Hl. unfold zslGetElementByRank.
  destruct (Z.le_gt_cases r (Zlen its)) as [Hle|Hgt].
  - rewrite <- (take_drop (Z.to_nat r) its) in Hh. destruct (holds_app_inv _ _ _ Hh) as (L1 & L2 & -> & HL1 & HL2).
    apply Forall2_length in HL1 as Hl1. rewrite length_take in Hl1.
    rewrite (find_last h zsl H L1 L2); [|done|lia|..].
    + rewrite bind_Some. eexists. split; [done|].
      assert (L1 <> []) as Hne by (intros ->; simpl in Hl1; lia). pose proof (holds_last _ _ HL1) as Hla.
      destruct (last L1) as [e|] eqn:Ela; [|by apply last_None in Ela].
      assert (its !! Z.to_nat (r - 1) = last (take (Z.to_nat r) its)) as ->.
      { rewrite last_lookup, length_take, lookup_take_lt by lia. f_equal. lia. }
      destruct (last (take _ its)) as [x|]; [|done]. eapply points_node; [exact Hok| |done]. apply elem_of_app. left. by apply last_Some_elem_of.
    + intros a y b ->. rewrite length_app in Hl1. cbn [length] in Hl1. apply Z.leb_le. lia.
    + intros a e b ->. apply Z.leb_gt. lia.
    + intros a y s E. pose proof (f_equal length E) as El. rewrite length_app in El. cbn [length] in El.
      destruct (Z.eqb_spec (Zlen a) r); case_bool_decide as Es; try done; [destruct s; [done|simpl in El; lia]|subst; simpl in El; lia].
  - rewrite (find_never h zsl H L []); [|by rewrite app_nil_r|rewrite app_nil_r; lia|..].
    + rewrite bind_Some. eexists. split; [done|]. rewrite lookup_ge_None_2 by lia. done.
    + intros a e b ->. rewrite length_app in Hl. cbn [length] in Hl. apply Z.leb_le. lia.
    + intros [|a0 a] e0 b; done.
    + intros a y s E. pose proof (f_equal length E) as El. rewrite length_app in El. cbn [length] in El. apply Z.eqb_neq. lia.
Qed.

Definition at_most (x y : item) : bool := match lexcmp (ikey y) (ikey x) with Gt => false | _ => true end.

(** Elements up to [x], for the rank. *)
Lemma rank_cut h zsl its x : zsl_inv h zsl its -> item_ok x -> Zlen its + 2 < 2 ^ 32 ->
  exists H L1 L2 i1 i2, zsl_ok h zsl H (L1 ++ L2) /\ its = i1 ++ i2 /\ holds L1 i1 /\ holds L2 i2 /\ Zlen (L1 ++ L2) < 2 ^ 32 /\ e_obj H = None /\
    (forall a, a ∈ i1 -> at_most x a = true) /\ (forall a, a ∈ i2 -> at_most x a = false) /\
    (forall a e b, L1 = a ++ e :: b -> before_or_at x.1 x.2 (e_obj e) (e_score e) = true) /\
    (forall a e b, L2 = a ++ e :: b -> before_or_at x.1 x.2 (e_obj e) (e_score e) = false).
Proof.
  intros (H & L & Hok & Hh & Hs & Hi) Hx Hsz. destruct (cut_sorted (at_most x) its Hs) as (i1 & i2 & -> & H1 & H2).
  { intros a b _ _ Hab. unfold at_most. destruct (lexcmp_le_l (ikey a) (ikey b) (ikey x)) as [_ Hc]; [by rewrite Hab|].
    destruct (lexcmp (ikey b) (ikey x)), (lexcmp (ikey a) (ikey x)); try done; by destruct Hc. }
  destruct (holds_app_inv L i1 i2 Hh) as (L1 & L2 & -> & HL1 & HL2). apply Forall2_length in Hh as Hl. apply Forall_app in Hi as [Hi1 Hi2].
  assert (forall L its b, holds L its -> Forall item_ok its -> (forall a, a ∈ its -> at_most x a = b) ->
    forall a e c, L = a ++ e :: c -> before_or_at x.1 x.2 (e_obj e) (e_score e) = b) as Hall.
  { intros L its b HF Hit Hq a e c ->. destruct (holds_in _ _ e HF) as (y & Hy & -> & ->); [apply elem_of_app; right; left|].
    rewrite Forall_forall in Hit. rewrite before_or_at_key by auto. by apply Hq. }
  exists H, L1, L2, i1, i2. split_and!; try done.
  - lia.
  - by destruct Hok as [_ _ _ _ (_ & _ & ?) _ _ _ _ _].
  - intros a e b. by apply (Hall L1 i1).
  - intros a e b. by apply (Hall L2 i2).
Qed.

Lemma getrank_inv h zsl its x : zsl_inv h zsl its -> item_ok x -> Zlen its + 2 < 2 ^ 32 -> NoDup its.*2 ->
  (forall k, its !! k = Some x -> zslGetRank h zsl x.1 x.2 = Some (Z.of_nat k + 1)) /\
  (x.2 ∉ its.*2 -> zslGetRank h zsl x.1 x.2 = Some 0).
Proof.
  intros Hinv Hx Hsz Hnd. pose proof Hinv as (_ & _ & _ & _ & Hs & Hi). rewrite Forall_forall in Hi.
  destruct (rank_cut h zsl its x Hinv Hx Hsz) as (H & L1 & L2 & i1 & i2 & Hok & -> & HL1 & HL2 & Hl & HO & H1 & H2 & Ht & Hf).
  assert (forall a y s, L1 = a ++ y :: s -> exists z ia is_, i1 = ia ++ z :: is_ /\ holds1 y z /\ length ia = length a /\ length is_ = length s) as Hsplit.
  { intros a y s ->. apply Forall2_app_inv_l in HL1 as (ia & i' & Ha & Hb & ->). inversion Hb as [|? z ? is_ Hz Hb' E1 E2]; subst.
    exists z, ia, is_. apply Forall2_length in Ha, Hb'. done. }
  unfold zslGetRank. split.
  - intros k Hk. assert (i1 !! k = Some x /\ length i1 = S k) as [Hk1 Hlk].
    { apply lookup_app_Some in Hk as [Hk|[Hge Hk]].
      - split; [done|]. apply lookup_lt_Some in Hk as Hlt. destruct (decide (length i1 = S k)); [done|exfalso].
        destruct (lookup_lt_is_Some_2 i1 (S k) ltac:(lia)) as (y & Hy). apply list_elem_of_lookup_2 in Hy as Hin. specialize (H1 y Hin).
        assert (ilt x y) as Hxy.
        { apply sorted_app in Hs as (Hs & _ & _). rewrite <- (take_drop (S k) i1) in Hs. apply sorted_app in Hs as (_ & _ & Hs).
          apply Hs; [apply list_elem_of_lookup; exists k; by rewrite lookup_take_lt by lia|].
          apply list_elem_of_lookup. exists 0%nat. by rewrite lookup_drop, Nat.add_0_r. }
        unfold at_most in H1. by rewrite lexcmp_antisym, Hxy in H1.
      - exfalso. apply list_elem_of_lookup_2 in Hk. specialize (H2 x Hk). unfold at_most in H2. by rewrite lexcmp_refl in H2. }
    apply Forall2_length in HL1 as Hl1.
    rewrite (find_last h zsl H L1 L2 _ _ Hok Hl); [rewrite bind_Some; f_equal; lia| | |].
    + intros a e b E. by apply (Ht a e b).
    + intros a e b E. by apply (Hf a e b).
    + intros [|h0 a] y s E; cbn [app] in E; injection E as Ey E.
      * subst y s. rewrite HO, bool_decide_eq_false_2; [done|]. intros ->. simpl in Hl1. lia.
      * destruct (Hsplit a y s E) as (z & ia & is_ & Ei & [-> _] & Ha & Hs').
        assert (z ∈ i1 ++ i2) as Hz by (rewrite Ei, !elem_of_app, elem_of_cons; tauto).
        assert (equalStringObjects z.2 x.2 = true <-> s = []) as Hiff; [|case_bool_decide as Es; [by apply Hiff|]; destruct (equalStringObjects _ _); [exfalso; tauto|done]].
        rewrite equalStringObjects_spec; [|by apply Hi|by apply Hx].
        assert (length i1 = length ia + S (length is_))%nat as Hlen by (rewrite Ei, length_app; done). split.
        -- intros Eo. destruct s as [|s0 s]; [done|exfalso]. cbn [length] in Hs'.
           assert ((i1 ++ i2).*2 !! length ia = Some x.2) as K1.
           { rewrite list_lookup_fmap, Ei, <- app_assoc, lookup_app_r, Nat.sub_diag by lia. cbn. by rewrite Eo. }
           assert ((i1 ++ i2).*2 !! k = Some x.2) as K2 by (rewrite list_lookup_fmap, Hk; done).
           pose proof (NoDup_lookup _ _ _ _ Hnd K1 K2). lia.
        -- intros ->. cbn [length] in Hs'. assert (length ia = k) as Hlia by lia. rewrite Ei in Hk1.
           rewrite <- Hlia, lookup_app_r, Nat.sub_diag in Hk1 by lia. cbn in Hk1. by simplify_eq.
  - intros Hn. rewrite (find_never h zsl H L1 L2 _ _ Hok Hl); [by rewrite bind_Some| | |].
    + intros a e b E. by apply (Ht a e b).
    + intros a e b E. by apply (Hf a e b).
    + intros [|h0 a] y s E; cbn [app] in E; injection E as Ey E; [subst y; by rewrite HO|].
      destruct (Hsplit a y s E) as (z & ia & is_ & Ei & [-> _] & _).
      assert (z ∈ i1 ++ i2) as Hz by (rewrite Ei, !elem_of_app, elem_of_cons; tauto).
      destruct (equalStringObjects z.2 x.2) eqn:Eq; [|done]. apply equalStringObjects_spec in Eq; [|by apply Hi|by apply Hx].
      exfalso. apply Hn. rewrite <- Eq. by apply list_elem_of_fmap_2.
Qed.
