(* ===== verification/SkiplistRange.v ===== *)
(** Queries of skip lists by range, and the sorted set operations as refinements
    of the sorted list of items: the theorems about [Skiplist.v]. *)

From Stdlib Require Import Sorted.
From S2P Require Import Prelude Scores Skiplist SkiplistInv SkiplistSpec.

(** ** First and last in a range *)

Lemma filter_nil (q : item -> bool) l : (forall a, a ∈ l -> q a = false) -> List.filter q l = [].
Proof. induction l as [|a l IH]; intros H; [done|]. cbn. rewrite (H a ltac:(left)). apply IH. intros b Hb. apply H. by right. Qed.

Lemma head_filter_cut (gte lte : item -> bool) i1 i2 : isorted i2 ->
  (forall a, a ∈ i1 -> gte a = false) -> (forall a, a ∈ i2 -> gte a = true) ->
  (forall a b, a ∈ i2 -> b ∈ i2 -> ilt a b -> lte b = true -> lte a = true) ->
  head (List.filter (fun x => gte x && lte x) (i1 ++ i2)) = match i2 with [] => None | z :: _ => if lte z then Some z else None end.
Proof.
  intros Hs H1 H2 Hd. rewrite List.filter_app, filter_nil by (intros a Ha; by rewrite H1). cbn [app].
  destruct i2 as [|z r]; [done|]. cbn [List.filter]. rewrite (H2 z ltac:(left)). cbn [andb]. destruct (lte z) eqn:Ez; [done|].
  rewrite filter_nil; [done|]. intros a Ha. apply andb_false_iff. right. destruct (lte a) eqn:Ea; [|done]. rewrite <- Ez. symmetry.
  apply (Hd z a); [left|by right| |done]. apply StronglySorted_inv in Hs as [_ Hs]. rewrite List.Forall_forall in Hs. by apply Hs, list_elem_of_In.
Qed.

Lemma last_filter_cut (gte lte : item -> bool) i1 i2 : isorted i1 ->
  (forall a, a ∈ i1 -> lte a = true) -> (forall a, a ∈ i2 -> lte a = false) ->
  (forall a b, a ∈ i1 -> b ∈ i1 -> ilt a b -> gte b = false -> gte a = false) ->
  last (List.filter (fun x => gte x && lte x) (i1 ++ i2)) = match last i1 with None => None | Some z => if gte z then Some z else None end.
Proof.
  intros Hs H1 H2 Hd. rewrite List.filter_app, (filter_nil _ i2) by (intros a Ha; by rewrite H2, andb_false_r). rewrite app_nil_r.
  destruct i1 as [|z r _] using rev_ind; [done|]. rewrite last_snoc, List.filter_app. cbn [List.filter].
  rewrite (H1 z) by (apply elem_of_app; right; left). rewrite andb_true_r. destruct (gte z) eqn:Ez; [by rewrite last_snoc|].
  rewrite app_nil_r, filter_nil; [done|]. intros a Ha. apply andb_false_iff. left.
  apply sorted_app in Hs as (_ & _ & Hs). apply (Hd a z); [apply elem_of_app; by left|apply elem_of_app; right; left| |done]. apply Hs; [done|left].
Qed.

(** The ends of the list, as the range checks read them. *)
Lemma ends h zsl H L its : zsl_ok h zsl H L -> holds L its ->
  points h (tail zsl) (last its) /\ (tail zsl = NULL <-> its = []) /\
  exists lv, get_level h (header zsl) 0 = Some lv /\ points h (forward lv) (head its) /\ (forward lv = NULL <-> its = []).
Proof.
  intros Hok Hh. pose proof Hok as [_ _ _ _ (Eh & _) _ _ _ _ Et].
  assert (zsl_ok h zsl H ([] ++ L)) as Hok' by done. destruct (next_after h zsl H [] L Hok') as (lv & El & Ef & _). cbn in El. rewrite Eh in El.
  pose proof (holds_last L its Hh) as Hl. rewrite Et. unfold last_ptr. split_and!.
  - destruct (last L) as [e|] eqn:E, (last its) as [x|]; try done. eapply points_node; [done| |done]. by apply last_Some_elem_of.
  - destruct (last L) as [e|] eqn:E, (last its) as [x|] eqn:E'; try done.
    + split; [intros Ep|intros ->; done]. apply last_Some_elem_of in E. destruct (node_of _ _ _ _ e Hok E). done.
    + apply last_None in E'. done.
  - exists lv. split; [done|]. rewrite Ef. inversion Hh as [|e x L' its' Hx Hh' E1 E2]; subst; [done|]. cbn [first_ptr head]. split.
    + eapply points_node; [done|left|done].
    + destruct (node_of _ _ _ _ e Hok ltac:(left)). done.
Qed.

Lemma sorted_ends its x : isorted its -> x ∈ its -> (forall y, head its = Some y -> x = y \/ ilt y x) /\ (forall y, last its = Some y -> x = y \/ ilt x y).
Proof.
  intros Hs Hx. split.
  - intros y Hy. destruct its as [|z r]; [done|]. cbn in Hy. simplify_eq. apply elem_of_cons in Hx as [->|Hx]; [by left|right].
    apply StronglySorted_inv in Hs as [_ Hs]. rewrite List.Forall_forall in Hs. by apply Hs, list_elem_of_In.
  - intros y Hy. destruct its as [|z r _] using rev_ind; [done|]. rewrite last_snoc in Hy. simplify_eq.
    apply elem_of_app in Hx as [Hx|Hx%list_elem_of_singleton]; [right|by left]. apply sorted_app in Hs as (_ & _ & Hs). apply Hs; [done|left].
Qed.

(** The node before and after the cut of a search. *)
Lemma search_items h zsl its i1 i2 go q : zsl_inv h zsl its -> Zlen its + 2 < 2 ^ 32 -> its = i1 ++ i2 ->
  (forall x t, go (Some x.2) x.1 t = q x) -> (forall x, x ∈ i1 -> q x = true) -> (forall x, x ∈ i2 -> q x = false) ->
  exists x r U lv, descend 64 (nodes zsl) h (level_ zsl) go (header zsl) 0 [] = Some (x, r, U) /\
    get_level h x 0 = Some lv /\ points h (forward lv) (head i2) /\ (forward lv = NULL <-> i2 = []) /\ (i1 <> [] -> points h x (last i1)).
Proof.
  intros (H & L & Hok & Hh & Hs & Hi) Hsz -> Hgo H1 H2. destruct (holds_app_inv L i1 i2 Hh) as (L1 & L2 & -> & HL1 & HL2).
  apply Forall2_length in Hh as Hl. rewrite length_app in Hl.
  destruct (zsl_search_spec 64 h zsl H L1 L2 i1 i2 go q Hok HL1 HL2 Hgo H1 H2 ltac:(lia)) as (U & EU & _); [rewrite !length_app in *; lia|].
  destruct (next_after h zsl H L1 L2 Hok) as (lv & Elv & Efw & Hz). eexists _, _, U, lv. split_and!; [exact EU|exact Elv|..].
  - rewrite Efw. inversion HL2 as [|e x L' its' Hx Hh' E1 E2]; subst; [done|]. eapply points_node; [exact Hok| |done]. apply elem_of_app. right. left.
  - rewrite Efw. inversion HL2 as [|e x L' its' Hx Hh' E1 E2]; subst; [done|]. cbn [first_ptr]. destruct (Hz e L' eq_refl). done.
  - intros Hne. pose proof (holds_last L1 i1 HL1) as Hla. destruct (last i1) as [x|] eqn:El; [|by apply last_None in El].
    destruct (last L1) as [e|] eqn:El'; [|done]. eapply points_node; [exact Hok| |done]. apply elem_of_app. left. by apply last_Some_elem_of.
Qed.

(** *** Both kinds of range, through their two tests *)

Section Ranged.
Context (h : zheap) (zsl : zskiplist) (its : list item) (gte lte : item -> bool).
Context (Hinv : zsl_inv h zsl its) (Hsz : Zlen its + 2 < 2 ^ 32)
  (Hup : forall a b, a ∈ its -> b ∈ its -> ilt a b -> gte b = false -> gte a = false)
  (Hdown : forall a b, a ∈ its -> b ∈ its -> ilt a b -> lte b = true -> lte a = true).

Definition matches (x : item) : bool := gte x && lte x.

Lemma no_match_last y : last its = Some y -> gte y = false -> List.filter matches its = [].
Proof.
  intros Ey Eg. pose proof Hinv as (_ & _ & _ & _ & Hs & _). apply filter_nil. intros x Hx. unfold matches.
  destruct (sorted_ends its x Hs Hx) as [_ Hl]. destruct (Hl y Ey) as [->|Hlt]; [by rewrite Eg|].
  rewrite (Hup x y); [done|done|by apply last_Some_elem_of|done|done].
Qed.

Lemma no_match_head z : head its = Some z -> lte z = false -> List.filter matches its = [].
Proof.
  intros Ez Eg. pose proof Hinv as (_ & _ & _ & _ & Hs & _). apply filter_nil. intros x Hx. unfold matches.
  destruct (sorted_ends its x Hs Hx) as [Hl _]. destruct (lte x) eqn:Ex; [|by rewrite andb_false_r].
  destruct (Hl z Ez) as [->|Hlt]; [congruence|]. rewrite (Hdown z x) in Eg; [done| |done..].
  by apply head_Some_elem_of.
Qed.

Lemma first_search go : (forall x t, go (Some x.2) x.1 t = negb (gte x)) -> its <> [] -> (forall y, last its = Some y -> gte y = true) ->
  exists x r U lv z, descend 64 (nodes zsl) h (level_ zsl) go (header zsl) 0 [] = Some (x, r, U) /\ get_level h x 0 = Some lv /\
    forward lv <> NULL /\ points h (forward lv) (Some z) /\ head (List.filter matches its) = if lte z then Some z else None.
Proof.
  intros Hgo Hne Hg. pose proof Hinv as (_ & _ & _ & _ & Hs & _).
  destruct (cut_sorted (fun x => negb (gte x)) its Hs) as (i1 & i2 & E & H1 & H2).
  { intros a c Ha Hc Hac. rewrite !negb_true_iff. by apply Hup. }
  destruct (search_items h zsl _ i1 i2 go (fun x => negb (gte x)) Hinv Hsz E Hgo H1 H2) as (x & rk & U & lv & E1 & E2 & Hp & Hp0 & _).
  rewrite E in Hs. apply sorted_app in Hs as (_ & Hs2 & _). destruct i2 as [|z i2].
  { exfalso. rewrite app_nil_r in E. destruct (last its) as [y|] eqn:Ey; [|by apply last_None in Ey]. specialize (Hg y eq_refl).
    apply last_Some_elem_of in Ey. rewrite E in Ey. specialize (H1 y Ey). by rewrite Hg in H1. }
  exists x, rk, U, lv, z. split_and!; [done|done| |done|].
  - intros E0. by apply Hp0 in E0.
  - rewrite E. unfold matches. rewrite (head_filter_cut gte lte i1 (z :: i2)); [done|done| | |].
    + intros a Ha. apply negb_true_iff. by apply H1.
    + intros a Ha. apply negb_false_iff. by apply H2.
    + intros a c Ha Hc. apply Hdown; rewrite E; apply elem_of_app; by right.
Qed.

Lemma last_search go : (forall x t, go (Some x.2) x.1 t = lte x) -> its <> [] -> (forall y, head its = Some y -> lte y = true) ->
  exists x r U z, descend 64 (nodes zsl) h (level_ zsl) go (header zsl) 0 [] = Some (x, r, U) /\
    points h x (Some z) /\ last (List.filter matches its) = if gte z then Some z else None.
Proof.
  intros Hgo Hne Hg. pose proof Hinv as (_ & _ & _ & _ & Hs & _).
  destruct (cut_sorted lte its Hs) as (i1 & i2 & E & H1 & H2); [by intros a c Ha Hc Hac; apply Hdown|].
  destruct (search_items h zsl _ i1 i2 go lte Hinv Hsz E Hgo H1 H2) as (x & rk & U & lv & E1 & _ & _ & _ & Hp).
  rewrite E in Hs. apply sorted_app in Hs as (Hs1 & _ & _).
  assert (i1 <> []) as Hne1.
  { intros ->. destruct i2 as [|z i2]; [by cbn in E; congruence|]. specialize (H2 z ltac:(left)). rewrite (Hg z) in H2; [done|]. by rewrite E. }
  specialize (Hp Hne1). destruct (last i1) as [z|] eqn:Ez; [|by apply last_None in Ez].
  exists x, rk, U, z. split_and!; [done|done|]. rewrite E. unfold matches.
  rewrite (last_filter_cut gte lte i1 i2), Ez; [done|done|done|done|].
  intros a c Ha Hc. apply Hup; rewrite E; apply elem_of_app; by left.
Qed.
End Ranged.

(** *** Score ranges *)

Lemma score_monotone (its : list item) r : range_ok r -> (forall x, x ∈ its -> item_ok x) ->
  (forall a b, a ∈ its -> b ∈ its -> ilt a b -> zslValueGteMin b.1 r = false -> zslValueGteMin a.1 r = false) /\
  (forall a b, a ∈ its -> b ∈ its -> ilt a b -> zslValueLteMax b.1 r = true -> zslValueLteMax a.1 r = true).
Proof. intros Hr Hi. split; intros a b Ha Hb; [apply gte_up|apply lte_down]; auto. Qed.

Lemma isinrange_inv h zsl its r : zsl_inv h zsl its -> range_ok r ->
  exists b, zslIsInRange h zsl r = Some b /\
    (b = false -> List.filter (in_score_range r) its = []) /\
    (b = true -> (forall y, last its = Some y -> zslValueGteMin y.1 r = true) /\ (forall y, head its = Some y -> zslValueLteMax y.1 r = true) /\ its <> []).
Proof.
  intros Hinv Hr. pose proof Hinv as (H & L & Hok & Hh & Hs & Hi). rewrite Forall_forall in Hi. unfold zslIsInRange, d_gt.
  change (SpecFloat.SFltb (r_max r) (r_min r)) with (d_lt (r_max r) (r_min r)). rewrite d_lt_key, d_eq_key by apply Hr.
  destruct (_ || _) eqn:Ee.
  { exists false. split_and!; [done| |done]. intros _. apply filter_nil. intros x Hx. unfold in_score_range.
    destruct (Hi x Hx) as [Hn _]. rewrite gte_key, lte_key by done.
    destruct (lexcmp (dkey x.1) (dkey (r_min r))) eqn:E1, (lexcmp (dkey x.1) (dkey (r_max r))) eqn:E2; rewrite ?andb_false_r; try done.
    - apply lexcmp_eq in E1, E2. rewrite <- E1, <- E2, lexcmp_refl in Ee. by destruct (r_minex r), (r_maxex r).
    - apply lexcmp_eq in E1. rewrite <- E1, (lexcmp_antisym (dkey x.1)), E2 in Ee. done.
    - apply lexcmp_eq in E2. rewrite <- E2, E1, (lexcmp_antisym (dkey x.1)), E1 in Ee. done.
    - assert (lexcmp (dkey (r_min r)) (dkey (r_max r)) = Lt) as Elt
        by (apply (lexcmp_trans _ (dkey x.1)); [by rewrite lexcmp_antisym, E1|done]).
      rewrite (lexcmp_antisym (dkey (r_min r))), Elt in Ee. done. }
  clear Ee. destruct (ends h zsl H L its Hok Hh) as (Ht & Ht0 & lv & El & Hf & Hf0).
  destruct (Z.eqb_spec (tail zsl) NULL) as [E0|E0].
  { apply Ht0 in E0 as ->. exists false. done. }
  destruct (last its) as [y|] eqn:Ely; [|by destruct E0].
  destruct Ht as (n & En & _ & Es). rewrite En, bind_Some, Es.
  pose proof (score_monotone its r Hr Hi) as [Hup Hdown].
  destruct (zslValueGteMin y.1 r) eqn:Eg; cbn [negb].
  2: { exists false. split_and!; [done| |done]. intros _. by apply (no_match_last h zsl its (fun x => zslValueGteMin x.1 r) (fun x => zslValueLteMax x.1 r) Hinv Hup y). }
  rewrite El, bind_Some. destruct (Z.eqb_spec (forward lv) NULL) as [E1|E1]; [by apply Hf0 in E1 as ->|].
  destruct (head its) as [z|] eqn:Ehz; [|by destruct E1].
  destruct Hf as (n' & En' & _ & Es'). rewrite En', bind_Some, Es'. destruct (zslValueLteMax z.1 r) eqn:Eg2; cbn [negb].
  - exists true. split_and!; [done|done|]. intros _. split_and!; [by intros ? [= <-]..|]. intros ->. done.
  - exists false. split_and!; [done| |done]. intros _. by apply (no_match_head h zsl its (fun x => zslValueGteMin x.1 r) (fun x => zslValueLteMax x.1 r) Hinv Hdown z).
Qed.

Lemma firstinrange_inv h zsl its r : zsl_inv h zsl its -> Zlen its + 2 < 2 ^ 32 -> range_ok r ->
  exists p, zslFirstInRange h zsl r = Some p /\ points h p (head (List.filter (in_score_range r) its)).
Proof.
  intros Hinv Hsz Hr. unfold zslFirstInRange. destruct (isinrange_inv h zsl its r Hinv Hr) as (b & -> & Hb0 & Hb1). rewrite bind_Some.
  destruct b; cbn [negb]; [|exists NULL; by rewrite Hb0]. destruct (Hb1 eq_refl) as (Hg & _ & Hne).
  pose proof Hinv as (_ & _ & _ & _ & _ & Hi). rewrite Forall_forall in Hi. pose proof (score_monotone its r Hr Hi) as [Hup Hdown].
  destruct (first_search h zsl its (fun x => zslValueGteMin x.1 r) (fun x => zslValueLteMax x.1 r) Hinv Hsz Hup Hdown
    (fun _ sc _ => negb (zslValueGteMin sc r))) as (x & rk & U & lv & z & -> & Elv & Hn & Hp & Ez); [done..|].
  rewrite bind_Some, Elv, bind_Some. destruct (Z.eqb_spec (forward lv) NULL); [done|].
  pose proof Hp as (n' & En & _ & Es). rewrite En, bind_Some, Es. unfold matches in Ez. fold (in_score_range r) in Ez. rewrite Ez.
  destruct (zslValueLteMax z.1 r); cbn [negb]; by eexists.
Qed.

Lemma lastinrange_inv h zsl its r : zsl_inv h zsl its -> Zlen its + 2 < 2 ^ 32 -> range_ok r ->
  exists p, zslLastInRange h zsl r = Some p /\ points h p (last (List.filter (in_score_range r) its)).
Proof.
  intros Hinv Hsz Hr. unfold zslLastInRange. destruct (isinrange_inv h zsl its r Hinv Hr) as (b & -> & Hb0 & Hb1). rewrite bind_Some.
  destruct b; cbn [negb]; [|exists NULL; by rewrite Hb0]. destruct (Hb1 eq_refl) as (_ & Hl & Hne).
  pose proof Hinv as (_ & _ & _ & _ & _ & Hi). rewrite Forall_forall in Hi. pose proof (score_monotone its r Hr Hi) as [Hup Hdown].
  destruct (last_search h zsl its (fun x => zslValueGteMin x.1 r) (fun x => zslValueLteMax x.1 r) Hinv Hsz Hup Hdown
    (fun _ sc _ => zslValueLteMax sc r)) as (x & rk & U & z & -> & Hp & Ez); [done..|].
  rewrite bind_Some. pose proof Hp as (n' & En & _ & Es). rewrite En, bind_Some, Es. unfold matches in Ez. fold (in_score_range r) in Ez. rewrite Ez.
  destruct (zslValueGteMin z.1 r); cbn [negb]; by eexists.
Qed.

(** *** Lexicographic ranges *)

(** The emptiness test compares the sentinels by their bytes: it is exact when no
    proper bound spells the name of a sentinel. *)
Definition sentinel_free (r : zlexrangespec) : Prop := bound_bytes (l_min r) = bound_bytes (l_max r) -> l_min r = l_max r.

Lemma lex_empty r x : lexrange_ok r -> sentinel_free r -> short x ->
  (1 <? compareStringObjectsForLexRange (l_min r) (l_max r)) ||
     ((compareStringObjects (bound_bytes (l_min r)) (bound_bytes (l_max r)) =? 0) && (l_minex r || l_maxex r)) = true ->
  zslLexValueGteMin x r && zslLexValueLteMax x r = false.
Proof.
  intros Hr Hsf Hx Hc. pose proof Hr as [Hmin Hmax]. rewrite lexgte_key, lexlte_key by done.
  assert (short (bound_bytes (l_min r)) /\ short (bound_bytes (l_max r))) as [Hb1 Hb2]
    by (destruct (l_min r), (l_max r); cbn; unfold short in *; cbn; split; done || lia).
  apply orb_true_iff in Hc as [Hc%Z.ltb_lt|[Hc%Z.eqb_eq Hex]%andb_true_iff].
  - destruct (l_min r) as [| |s], (l_max r) as [| |t]; unfold compareStringObjectsForLexRange in Hc;
      repeat (case_bool_decide; cbn [orb] in Hc; [lia || done|]); try done.
    cbn [orb bound_bytes] in Hc. cbn [bcmp]. pose proof (compareStringObjects_lex s t Hmin Hmax) as H'.
    destruct (lexcmp s t) eqn:Est; [lia|lia|]. assert (lexcmp t s = Lt) as Ets by (by rewrite lexcmp_antisym, Est).
    destruct (lexcmp x s) eqn:Exs; [apply lexcmp_eq in Exs as ->|done|].
    + rewrite Est. by rewrite andb_false_r.
    + rewrite (lexcmp_antisym t x), (lexcmp_trans t s x); [done|done|].
      by rewrite lexcmp_antisym, Exs.
  - pose proof (compareStringObjects_lex _ _ Hb1 Hb2) as H. destruct (lexcmp (bound_bytes (l_min r)) (bound_bytes (l_max r))); try lia.
    destruct H as [H _]. apply Hsf in H. rewrite <- H. destruct (bcmp x (l_min r)), (l_minex r), (l_maxex r); done.
Qed.

Lemma lex_monotone (its : list item) r : lexrange_ok r -> one_score its -> (forall x, x ∈ its -> item_ok x) ->
  (forall a b, a ∈ its -> b ∈ its -> ilt a b -> zslLexValueGteMin b.2 r = false -> zslLexValueGteMin a.2 r = false) /\
  (forall a b, a ∈ its -> b ∈ its -> ilt a b -> zslLexValueLteMax b.2 r = true -> zslLexValueLteMax a.2 r = true).
Proof.
  intros Hr Ho Hi. split; intros a b Ha Hb Hab%(one_score_lt its); try done; [apply lexgte_up|apply lexlte_down]; try done; by apply Hi.
Qed.

Lemma isinlexrange_inv h zsl its r : zsl_inv h zsl its -> lexrange_ok r -> sentinel_free r -> one_score its ->
  exists b, zslIsInLexRange h zsl r = Some b /\
    (b = false -> List.filter (in_lexrange r) its = []) /\
    (b = true -> (forall y, last its = Some y -> zslLexValueGteMin y.2 r = true) /\ (forall y, head its = Some y -> zslLexValueLteMax y.2 r = true) /\ its <> []).
Proof.
  intros Hinv Hr Hsf Ho. pose proof Hinv as (H & L & Hok & Hh & Hs & Hi). rewrite Forall_forall in Hi. unfold zslIsInLexRange.
  destruct (_ || _) eqn:Ee.
  { exists false. split_and!; [done| |done]. intros _. apply filter_nil. intros x Hx. apply lex_empty; try done. by apply Hi. }
  clear Ee. destruct (ends h zsl H L its Hok Hh) as (Ht & Ht0 & lv & El & Hf & Hf0).
  destruct (Z.eqb_spec (tail zsl) NULL) as [E0|E0]; [apply Ht0 in E0 as ->; by exists false|].
  destruct (last its) as [y|] eqn:Ely; [|by destruct E0].
  destruct Ht as (n & En & Es & _). rewrite En, bind_Some, Es, bind_Some.
  pose proof (lex_monotone its r Hr Ho Hi) as [Hup Hdown].
  destruct (zslLexValueGteMin y.2 r) eqn:Eg; cbn [negb].
  2: { exists false. split_and!; [done| |done]. intros _.
    by apply (no_match_last h zsl its (fun x => zslLexValueGteMin x.2 r) (fun x => zslLexValueLteMax x.2 r) Hinv Hup y). }
  rewrite El, bind_Some. destruct (Z.eqb_spec (forward lv) NULL) as [E1|E1]; [by apply Hf0 in E1 as ->|].
  destruct (head its) as [z|] eqn:Ehz; [|by destruct E1].
  destruct Hf as (n' & En' & Es' & _). rewrite En', bind_Some, Es', bind_Some. destruct (zslLexValueLteMax z.2 r) eqn:Eg2; cbn [negb].
  - exists true. split_and!; [done|done|]. intros _. split_and!; [by intros ? [= <-]..|]. intros ->. done.
  - exists false. split_and!; [done| |done]. intros _.
    by apply (no_match_head h zsl its (fun x => zslLexValueGteMin x.2 r) (fun x => zslLexValueLteMax x.2 r) Hinv Hdown z).
Qed.

Lemma firstinlexrange_inv h zsl its r : zsl_inv h zsl its -> Zlen its + 2 < 2 ^ 32 -> lexrange_ok r -> sentinel_free r -> one_score its ->
  exists p, zslFirstInLexRange h zsl r = Some p /\ points h p (head (List.filter (in_lexrange r) its)).
Proof.
  intros Hinv Hsz Hr Hsf Ho. unfold zslFirstInLexRange. destruct (isinlexrange_inv h zsl its r Hinv Hr Hsf Ho) as (b & -> & Hb0 & Hb1). rewrite bind_Some.
  destruct b; cbn [negb]; [|exists NULL; by rewrite Hb0]. destruct (Hb1 eq_refl) as (Hg & _ & Hne).
  pose proof Hinv as (_ & _ & _ & _ & _ & Hi). rewrite Forall_forall in Hi. pose proof (lex_monotone its r Hr Ho Hi) as [Hup Hdown].
  destruct (first_search h zsl its (fun x => zslLexValueGteMin x.2 r) (fun x => zslLexValueLteMax x.2 r) Hinv Hsz Hup Hdown
    (fun o _ _ => match o with Some o => negb (zslLexValueGteMin o r) | None => false end)) as (x & rk & U & lv & z & -> & Elv & Hn & Hp & Ez); [done..|].
  rewrite bind_Some, Elv, bind_Some. destruct (Z.eqb_spec (forward lv) NULL); [done|].
  pose proof Hp as (n' & En & Es & _). rewrite En, bind_Some, Es, bind_Some. unfold matches in Ez. fold (in_lexrange r) in Ez. rewrite Ez.
  destruct (zslLexValueLteMax z.2 r); cbn [negb]; by eexists.
Qed.

Lemma lastinlexrange_inv h zsl its r : zsl_inv h zsl its -> Zlen its + 2 < 2 ^ 32 -> lexrange_ok r -> sentinel_free r -> one_score its ->
  exists p, zslLastInLexRange h zsl r = Some p /\ points h p (last (List.filter (in_lexrange r) its)).
Proof.
  intros Hinv Hsz Hr Hsf Ho. unfold zslLastInLexRange. destruct (isinlexrange_inv h zsl its r Hinv Hr Hsf Ho) as (b & -> & Hb0 & Hb1). rewrite bind_Some.
  destruct b; cbn [negb]; [|exists NULL; by rewrite Hb0]. destruct (Hb1 eq_refl) as (_ & Hl & Hne).
  pose proof Hinv as (_ & _ & _ & _ & _ & Hi). rewrite Forall_forall in Hi. pose proof (lex_monotone its r Hr Ho Hi) as [Hup Hdown].
  destruct (last_search h zsl its (fun x => zslLexValueGteMin x.2 r) (fun x => zslLexValueLteMax x.2 r) Hinv Hsz Hup Hdown
    (fun o _ _ => match o with Some o => zslLexValueLteMax o r | None => false end)) as (x & rk & U & z & -> & Hp & Ez); [done..|].
  rewrite bind_Some. pose proof Hp as (n' & En & Es & _). rewrite En, bind_Some, Es, bind_Some. unfold matches in Ez. fold (in_lexrange r) in Ez. rewrite Ez.
  destruct (zslLexValueGteMin z.2 r); cbn [negb]; by eexists.
Qed.
