(* ===== verification/SkiplistCmds.v ===== *)
(** Sorted sets as sequences of skip list operations: the theorems about
    [Skiplist.v], stated over the sorted list of items of [SkiplistSpec.v]. *)

From Stdlib Require Import Sorted.
From S2P Require Import Prelude Scores Skiplist SkiplistInv SkiplistSpec SkiplistRange.

(** ** Creation and release *)

(** The heap of a skip list before it is created. *)
Definition fresh_heap : zheap := ZHeap ∅ 1.

Lemma create_inv garbage garbage_ptr : exists h zsl, zslCreate garbage garbage_ptr fresh_heap = Some (h, zsl) /\ zsl_inv h zsl [].
Proof.
  exists (ZHeap {[1 := ZNode None (SpecFloat.S754_zero false) NULL (replicate 32 (Level NULL 0))]} 2), (ZSL 1 NULL 0 1).
  split; [vm_compute; reflexivity|]. exists (Elt 1 32 None (SpecFloat.S754_zero false) NULL), [].
  split_and!; [|by constructor..]. constructor; cbn [app fmap list_fmap e_ptr e_h e_obj h_brk header level_ length_ tail].
  - split; [|done]. exists (replicate 32 (Level NULL 0)). split_and!; [|done|].
    { unfold deref. cbn [e_ptr h_cells]. by rewrite lookup_singleton_eq. }
    intros i v [-> _]%lookup_replicate. by split.
  - apply NoDup_singleton.
  - constructor; [cbn; lia|constructor].
  - intros p. rewrite list_elem_of_singleton. split.
    + intros [n Hn]. cbn [h_cells] in Hn. apply lookup_singleton_Some in Hn as [<- _]. done.
    + intros ->. cbn [h_cells]. by rewrite lookup_singleton_eq.
  - done.
  - lia.
  - constructor.
  - done.
  - done.
  - done.
Qed.

Lemma free_loop_spec lvl L : forall fuel h, seg h (good lvl []) L -> NoDup (e_ptr <$> L) -> Forall (fun e => (1 <= e_h e)%nat) L ->
  (forall p, is_Some (h_cells h !! p) <-> p ∈ e_ptr <$> L) -> (length L < fuel)%nat ->
  exists h', free_loop fuel h (first_ptr L) = Some h' /\ h_cells h' = ∅.
Proof.
  induction L as [|e L IH]; intros fuel h Hseg Hnd Hpos Hdom Hf; (destruct fuel as [|fuel]; [cbn [length] in Hf; lia|]); cbn [free_loop first_ptr].
  - exists h. split; [done|]. apply map_empty. intros p. apply eq_None_not_Some. rewrite Hdom. apply not_elem_of_nil.
  - destruct Hseg as [He Hseg]. inversion_clear Hpos as [|? ? Hp Hpos']. rewrite fmap_cons in Hnd, Hdom. apply NoDup_cons in Hnd as [Hn Hnd].
    destruct (Z.eqb_spec (e_ptr e) NULL) as [E|_]; [by apply node_not_null in He|].
    destruct (node_level _ _ _ _ 0 He Hp) as (lv & -> & Hlv & _). rewrite bind_Some.
    destruct (zsl_zfree_spec _ _ _ _ He) as (h1 & -> & Hd & _ & Hdom1). rewrite bind_Some.
    assert (forward lv = first_ptr L) as ->.
    { rewrite Hlv, app_nil_r, forward_first; [done|]. intros z r ->. by inversion_clear Hpos'. }
    apply IH; [|done|done| |cbn [length] in Hf; lia].
    + apply (seg_frame h); [|done]. intros e' He'. apply Hd. intros E. apply Hn. rewrite <- E. by apply list_elem_of_fmap_2.
    + intros p. rewrite Hdom1, Hdom, elem_of_cons. split; [tauto|]. intros Hp'. split; [|tauto]. intros ->. done.
Qed.

Lemma free_inv h zsl its : zsl_inv h zsl its -> exists h', zslFree h zsl = Some h' /\ h_cells h' = ∅.
Proof.
  intros (H & L & Hok & _). destruct Hok as [Hseg Hnd Hptr Hdom (Eh & EH & EO) Hlvl Hh Elen Hback Etail].
  assert (Forall (fun e => (1 <= e_h e)%nat) (H :: L)) as Hpos by (constructor; [lia|eapply Forall_impl; [exact Hh|simpl; lia]]).
  destruct (free_loop_spec (level_ zsl) (H :: L) (S (nodes zsl)) h Hseg Hnd Hpos Hdom) as (h' & E & Eh'); [unfold nodes; cbn [length]; lia|].
  exists h'. split; [|done]. cbn [free_loop first_ptr] in E. rewrite Eh in E. unfold zslFree.
  destruct (Z.eqb_spec (header zsl) NULL) as [E0|_]; [|exact E]. destruct Hseg as [He _]. apply node_not_null in He. congruence.
Qed.

(** ** Commands *)

Inductive zcmd :=
  | ZIns (x : item) (rs : list Z)
  | ZDel (x : item)
  | ZDelScore (r : zrangespec)
  | ZDelLex (r : zlexrangespec)
  | ZDelRank (start end_ : Z).

(** The concrete step, with the members it removed from the list. *)
Definition zexec garbage garbage_ptr (h : zheap) (zsl : zskiplist) (c : zcmd) : option (zheap * zskiplist * list (option (list Z))) :=
  match c with
  | ZIns x rs => '(h, zsl, _, _) ← zslInsert garbage garbage_ptr h zsl x.1 x.2 rs; Some (h, zsl, [])
  | ZDel x => '(h, zsl, b) ← zslDelete h zsl x.1 x.2; Some (h, zsl, if (b : bool) then [Some x.2] else [])
  | ZDelScore r => zslDeleteRangeByScore h zsl r
  | ZDelLex r => zslDeleteRangeByLex h zsl r
  | ZDelRank a b => zslDeleteRangeByRank h zsl a b
  end.

Fixpoint zrun garbage garbage_ptr (h : zheap) (zsl : zskiplist) (cs : list zcmd) : option (zheap * zskiplist * list (list (option (list Z)))) :=
  match cs with
  | [] => Some (h, zsl, [])
  | c :: cs => '(h, zsl, r) ← zexec garbage garbage_ptr h zsl c; '(h, zsl, rs) ← zrun garbage garbage_ptr h zsl cs; Some (h, zsl, r :: rs)
  end.

(** The removed objects, none of them the header's. *)
Definition members (r : list (list Z)) : list (option (list Z)) := Some <$> r.

(** The specification: a sorted list of items. *)
Definition zspec (its : list item) (c : zcmd) : list item * list (list Z) :=
  match c with
  | ZIns x _ => (sins x its, [])
  | ZDel x => (List.filter (fun y => negb (same_item x y)) its, if existsb (same_item x) its then [x.2] else [])
  | ZDelScore r => (List.filter (fun y => negb (in_score_range r y)) its, (List.filter (in_score_range r) its).*2)
  | ZDelLex r => (List.filter (fun y => negb (in_lexrange r y)) its, (List.filter (in_lexrange r) its).*2)
  | ZDelRank a b =>
    (take (Z.to_nat (a - 1)) its ++ drop (Z.to_nat (b - a + 1)) (drop (Z.to_nat (a - 1)) its), (slice its (a - 1) (b - a + 1)).*2)
  end.

Fixpoint zspecs (its : list item) (cs : list zcmd) : list item * list (list (list Z)) :=
  match cs with
  | [] => (its, [])
  | c :: cs => let '(its', r) := zspec its c in let '(its'', rs) := zspecs its' cs in (its'', r :: rs)
  end.

(** What the callers guarantee. *)
Definition zcmd_ok (its : list item) (c : zcmd) : Prop :=
  match c with
  | ZIns x rs => item_ok x /\ x.2 ∉ its.*2 /\ is_Some (zslRandomLevel rs) /\ Zlen its + 2 < 2 ^ 32
  | ZDel x => item_ok x
  | ZDelScore r => range_ok r
  | ZDelLex r => lexrange_ok r /\ one_score its
  | ZDelRank a b => 1 <= a
  end.

Fixpoint zcmds_ok (its : list item) (cs : list zcmd) : Prop :=
  match cs with [] => True | c :: cs => zcmd_ok its c /\ zcmds_ok (zspec its c).1 cs end.

(** ** Refinement *)

Lemma NoDup_map_filter (q : item -> bool) its : NoDup its.*2 -> NoDup (List.filter q its).*2.
Proof.
  induction its as [|x its IH]; [done|]. rewrite fmap_cons. intros [Hx Hn]%NoDup_cons. cbn [List.filter].
  destruct (q x); [|auto]. rewrite fmap_cons. apply NoDup_cons. split; [|auto]. intros (y & E & [Hy _]%list_elem_of_In%List.filter_In)%list_elem_of_fmap.
  apply Hx. rewrite E. by apply list_elem_of_fmap_2, list_elem_of_In.
Qed.

Lemma NoDup_sins x its : NoDup its.*2 -> x.2 ∉ its.*2 -> NoDup (sins x its).*2.
Proof.
  induction its as [|y its IH]; intros Hn Hx; [cbn; apply NoDup_singleton|]. cbn [sins].
  destruct (lexcmp (ikey y) (ikey x)); [by apply NoDup_cons| |by apply NoDup_cons].
  rewrite fmap_cons in *. apply NoDup_cons in Hn as [Hy Hn]. apply not_elem_of_cons in Hx as [Hxy Hx]. apply NoDup_cons. split; [|auto].
  intros (z & E & [->|Hz]%sins_elem)%list_elem_of_fmap; [done|]. apply Hy. rewrite E. by apply list_elem_of_fmap_2.
Qed.

Lemma zspec_nodup its c : NoDup its.*2 -> zcmd_ok its c -> NoDup (zspec its c).1.*2.
Proof.
  intros Hn Hok. destruct c as [x rs|x|r|r|a b]; cbn [zspec zcmd_ok fst] in *; try by apply NoDup_map_filter.
  - destruct Hok as (_ & Hx & _). by apply NoDup_sins.
  - rewrite <- (take_drop (Z.to_nat (a - 1)) its), <- (take_drop (Z.to_nat (b - a + 1)) (drop (Z.to_nat (a - 1)) its)) in Hn.
    rewrite !fmap_app in Hn. rewrite fmap_app. apply NoDup_app in Hn as (H1 & H12 & (_ & _ & H3)%NoDup_app).
    apply NoDup_app. split_and!; [done| |done]. intros y Hy Hy'. apply (H12 y Hy). apply elem_of_app. by right.
Qed.

(** No operation but insertion makes the list longer. *)
Definition inserts (cs : list zcmd) : Z := Zlen (List.filter (fun c => match c with ZIns _ _ => true | _ => false end) cs).

Lemma zspec_length its c : Zlen (zspec its c).1 <= Zlen its + inserts [c].
Proof.
  assert (forall q, Zlen (List.filter q its) <= Zlen its) as Hf by (intros q; pose proof (List.filter_length_le q its); lia).
  destruct c as [x rs|x|r|r|a b]; unfold inserts; cbn [zspec fst List.filter length]; rewrite ?Z.add_0_r; try apply Hf.
  - induction its as [|y its IH]; cbn [sins length]; [lia|]. specialize (IH ltac:(intros q; pose proof (List.filter_length_le q its); lia)).
    destruct (lexcmp (ikey y) (ikey x)); cbn [length]; lia.
  - rewrite length_app, !length_drop, length_take. lia.
Qed.

Section Refine.
Context (garbage : zskiplistLevel) (garbage_ptr : Z).

Lemma zexec_refines h zsl its c : zsl_inv h zsl its -> NoDup its.*2 -> Zlen its + 2 < 2 ^ 32 -> zcmd_ok its c ->
  exists h' zsl', zexec garbage garbage_ptr h zsl c = Some (h', zsl', members (zspec its c).2) /\ zsl_inv h' zsl' (zspec its c).1.
Proof.
  intros Hinv Hn Hsz Hok. destruct c as [x rs|x|r|r|a b]; cbn [zexec zspec zcmd_ok fst snd] in *.
  - destruct Hok as (Hx & Hnew & [[lvl rs'] Ers] & _).
    destruct (insert_inv garbage garbage_ptr h zsl its x rs lvl rs' Hinv Hx) as (h' & zsl' & p & E & Hinv'); [|done|done|].
    { intros y Hy E. apply Hnew. assert (x.2 = y.2) as ->; [|by apply list_elem_of_fmap_2].
      unfold ikey in E. apply (f_equal (drop 3)) in E. by rewrite !drop_app_length' in E by (by rewrite length_dkey). }
    rewrite E, bind_Some. by eexists _, _.
  - destruct (del_inv h zsl its x Hinv Hok Hsz) as (h' & zsl' & E & Hinv'). rewrite E, bind_Some. eexists _, _. split; [|done]. by destruct (existsb _ _).
  - by apply delscore_inv.
  - destruct Hok. by apply dellex_inv.
  - by apply delrank_inv.
Qed.

Lemma zrun_refines cs : forall h zsl its, zsl_inv h zsl its -> NoDup its.*2 -> Zlen its + inserts cs + 2 < 2 ^ 32 -> zcmds_ok its cs ->
  exists h' zsl', zrun garbage garbage_ptr h zsl cs = Some (h', zsl', members <$> (zspecs its cs).2) /\
    zsl_inv h' zsl' (zspecs its cs).1 /\ NoDup (zspecs its cs).1.*2 /\ Zlen (zspecs its cs).1 + 2 < 2 ^ 32.
Proof.
  induction cs as [|c cs IH]; intros h zsl its Hinv Hn Hsz Hok; cbn [zrun zspecs].
  - eexists _, _. split_and!; try done. unfold inserts in Hsz. cbn in *. lia.
  - destruct Hok as [Hc Hok]. assert (inserts (c :: cs) = inserts [c] + inserts cs) as Ei
      by (unfold inserts; cbn [List.filter]; destruct c; cbn [length]; lia).
    pose proof (zspec_length its c) as Hl. destruct (zexec_refines h zsl its c Hinv Hn) as (h1 & zsl1 & -> & Hinv1); [unfold inserts in *; lia|done|].
    rewrite bind_Some. pose proof (zspec_nodup its c Hn Hc) as Hn1. destruct (zspec its c) as [its1 r]. cbn [fst snd] in *.
    destruct (IH h1 zsl1 its1 Hinv1 Hn1) as (h2 & zsl2 & -> & Hinv2 & Hn2 & Hl2); [lia|done|]. rewrite bind_Some.
    destruct (zspecs its1 cs) as [its2 rs]. by eexists _, _.
Qed.

End Refine.

(** C3. From [zslCreate] on, every sequence of insertions of new members (with
    whatever levels [random] gives), deletions and deletions by score, by member
    and by rank behaves like the same sequence on a sorted list of items: no step
    reads a dangling pointer or fails, the members removed are the list's, and the
    skip list that results is well formed for the items left, at any size the
    32-bit spans can count.  Freeing it returns every node. *)
Theorem zsl_refines_sorted_list garbage garbage_ptr cs : zcmds_ok [] cs -> inserts cs + 2 < 2 ^ 32 ->
  exists h0 zsl0 h zsl h', zslCreate garbage garbage_ptr fresh_heap = Some (h0, zsl0) /\
    zrun garbage garbage_ptr h0 zsl0 cs = Some (h, zsl, members <$> (zspecs [] cs).2) /\
    zsl_inv h zsl (zspecs [] cs).1 /\ zslFree h zsl = Some h' /\ h_cells h' = ∅.
Proof.
  intros Hok Hsz. destruct (create_inv garbage garbage_ptr) as (h0 & zsl0 & E0 & Hinv0).
  destruct (zrun_refines garbage garbage_ptr cs h0 zsl0 [] Hinv0) as (h & zsl & E & Hinv & _); [constructor|simpl; lia|done|].
  destruct (free_inv h zsl _ Hinv) as (h' & E' & He). exists h0, zsl0, h, zsl, h'. split_and!; assumption.
Qed.

Definition d1 : double := SpecFloat.S754_finite false 4503599627370496 (-52).
Definition d2 : double := SpecFloat.S754_finite false 4503599627370496 (-51).
Definition demo_cmds : list zcmd :=
  [ZIns (d2, [98]) [0; 0; 65535]; ZIns (d1, [99]) [65535]; ZIns (d1, [97]) [0; 65535]; ZDel (d2, [98]); ZDelRank 2 2].

Lemma zsl_refines_sorted_list_witness : zspecs [] demo_cmds = ([(d1, [97])], [[]; []; []; [[98]]; [[99]]]) /\
  exists h0 zsl0 h zsl h', zslCreate (Level 7 7) 7 fresh_heap = Some (h0, zsl0) /\
    zrun (Level 7 7) 7 h0 zsl0 demo_cmds = Some (h, zsl, members <$> (zspecs [] demo_cmds).2) /\
    zsl_inv h zsl (zspecs [] demo_cmds).1 /\ zslFree h zsl = Some h' /\ h_cells h' = ∅.
Proof.
  split; [vm_compute; reflexivity|]. apply zsl_refines_sorted_list; [|vm_compute; reflexivity].
  cbn [zcmds_ok zcmd_ok demo_cmds]. unfold item_ok.
  split_and!; first [exact I | (vm_compute; reflexivity) | (eexists; vm_compute; reflexivity) | (apply (bool_decide_unpack _); vm_compute; exact I)].
Defined.

(** ** Queries *)

(** The list after the first [k] of these commands. *)
Lemma built_after k its : its = (zspecs [] (take k demo_cmds)).1 -> zcmds_ok [] (take k demo_cmds) -> (k <= 4)%nat ->
  exists h zsl, zsl_inv h zsl its.
Proof.
  intros -> Hok Hk. destruct (create_inv (Level 7 7) 7) as (h0 & zsl0 & _ & Hinv0).
  destruct (zrun_refines (Level 7 7) 7 (take k demo_cmds) h0 zsl0 [] Hinv0) as (h & zsl & _ & Hinv & _).
  - constructor.
  - clear Hok. destruct k as [|[|[|[|[|k]]]]]; [vm_compute; reflexivity..|lia].
  - done.
  - by exists h, zsl.
Qed.

Ltac commands_ok := cbn [zcmds_ok zcmd_ok demo_cmds take]; unfold item_ok;
  split_and!; first [exact I | (vm_compute; reflexivity) | (eexists; vm_compute; reflexivity) | (apply (bool_decide_unpack _); vm_compute; exact I)].

Definition demo_items : list item := [(d1, [97]); (d1, [99]); (d2, [98])].

Lemma demo_built : exists h zsl, zsl_inv h zsl demo_items.
Proof. apply (built_after 3); [vm_compute; reflexivity|commands_ok|lia]. Qed.

(** Items of one score. *)
Definition lex_items : list item := [(d1, [97]); (d1, [99])].

Lemma lex_built : exists h zsl, zsl_inv h zsl lex_items.
Proof. apply (built_after 4); [vm_compute; reflexivity|commands_ok|lia]. Qed.

(** C15. Ranks and elements are inverse: the length is the number of items,
    [zslGetElementByRank] finds the node of each rank from 1 and NULL past the end,
    [zslGetRank] gives an item its position and 0 to a member that is not there. *)
Theorem zsl_rank_queries h zsl its : zsl_inv h zsl its -> NoDup its.*2 -> Zlen its + 2 < 2 ^ 32 ->
  length_ zsl = Zlen its /\
  (forall r, 1 <= r -> exists p, zslGetElementByRank h zsl r = Some p /\ points h p (its !! Z.to_nat (r - 1))) /\
  (forall k x, its !! k = Some x -> zslGetRank h zsl x.1 x.2 = Some (Z.of_nat k + 1)) /\
  (forall x, item_ok x -> x.2 ∉ its.*2 -> zslGetRank h zsl x.1 x.2 = Some 0).
Proof.
  intros Hinv Hn Hsz. pose proof Hinv as (H & L & Hok & Hh & _ & Hi). split_and!.
  - rewrite (ok_len _ _ _ _ Hok). apply Forall2_length in Hh. lia.
  - intros r Hr. by apply getbyrank_inv.
  - intros k x Hk. apply (getrank_inv h zsl its x Hinv); [|done|done|done]. rewrite Forall_forall in Hi. apply Hi. by eapply list_elem_of_lookup_2.
  - intros x Hx. by apply (getrank_inv h zsl its x Hinv Hx Hsz Hn).
Qed.

Lemma zsl_rank_queries_witness : exists h zsl, zsl_inv h zsl demo_items /\
  zslGetRank h zsl d1 [99] = Some 2 /\ zslGetRank h zsl d1 [120] = Some 0 /\ exists p, zslGetElementByRank h zsl 3 = Some p /\ points h p (Some (d2, [98])).
Proof.
  destruct demo_built as (h & zsl & Hinv). exists h, zsl.
  destruct (zsl_rank_queries h zsl demo_items Hinv) as (_ & Hr & Hk & H0).
  - apply (bool_decide_unpack _). vm_compute. exact I.
  - vm_compute. reflexivity.
  - split_and!; [exact Hinv|apply (Hk 1%nat (d1, [99])); reflexivity| |apply (Hr 3); lia].
    apply (H0 (d1, [120])); [split; vm_compute; reflexivity|]. apply (bool_decide_unpack _). vm_compute. exact I.
Defined.

(** C16. The first and last nodes in a score range are those of the first and
    last items that satisfy it, NULL when there is none; the same for a
    lexicographic range over items of one score, when its bounds are not told
    apart by the names of the sentinels alone. *)
Theorem zsl_range_queries h zsl its : zsl_inv h zsl its -> Zlen its + 2 < 2 ^ 32 ->
  (forall r, range_ok r -> exists p q, zslFirstInRange h zsl r = Some p /\ zslLastInRange h zsl r = Some q /\
    points h p (head (List.filter (in_score_range r) its)) /\ points h q (last (List.filter (in_score_range r) its))) /\
  (forall r, lexrange_ok r -> sentinel_free r -> one_score its -> exists p q, zslFirstInLexRange h zsl r = Some p /\ zslLastInLexRange h zsl r = Some q /\
    points h p (head (List.filter (in_lexrange r) its)) /\ points h q (last (List.filter (in_lexrange r) its))).
Proof.
  intros Hinv Hsz. split.
  - intros r Hr. destruct (firstinrange_inv h zsl its r) as (p & ? & ?), (lastinrange_inv h zsl its r) as (q & ? & ?); try done. by exists p, q.
  - intros r Hr Hs Ho. destruct (firstinlexrange_inv h zsl its r) as (p & ? & ?), (lastinlexrange_inv h zsl its r) as (q & ? & ?); try done. by exists p, q.
Qed.

(** The score range [d1, d2) over the first list; from "b" on over the second. *)
Lemma zsl_range_queries_witness :
  (exists h zsl, zsl_inv h zsl demo_items /\
   exists p q, zslFirstInRange h zsl (RangeSpec d1 d2 false true) = Some p /\ zslLastInRange h zsl (RangeSpec d1 d2 false true) = Some q /\
     points h p (Some (d1, [97])) /\ points h q (Some (d1, [99]))) /\
  (exists h zsl, zsl_inv h zsl lex_items /\
   exists p q, zslFirstInLexRange h zsl (LexRangeSpec (Str [98]) MaxString false false) = Some p /\
     zslLastInLexRange h zsl (LexRangeSpec (Str [98]) MaxString false false) = Some q /\
     points h p (Some (d1, [99])) /\ points h q (Some (d1, [99]))).
Proof.
  split.
  - destruct demo_built as (h & zsl & Hinv). exists h, zsl. split; [exact Hinv|].
    destruct (zsl_range_queries h zsl demo_items Hinv) as [H _]; [vm_compute; reflexivity|].
    apply (H (RangeSpec d1 d2 false true)). split; reflexivity.
  - destruct lex_built as (h & zsl & Hinv). exists h, zsl. split; [exact Hinv|].
    destruct (zsl_range_queries h zsl lex_items Hinv) as [_ H]; [vm_compute; reflexivity|].
    apply (H (LexRangeSpec (Str [98]) MaxString false false)).
    + split; [vm_compute; reflexivity|exact I].
    + intros [=].
    + intros a b Ha Hb. unfold lex_items in *. rewrite !elem_of_cons, elem_of_nil in *. naive_solver.
Defined.

(** C38. The emptiness test of lexicographic ranges compares the bytes of the
    [-] and [+] sentinels, "minstring" and "maxstring": the ranges [- (minstring]
    and [(maxstring +] are answered as empty in every sorted set, though members
    satisfy both of their tests. *)
Theorem zslIsInLexRange_sentinels : let r1 := LexRangeSpec MinString (Str (bound_bytes MinString)) false true in
  let r2 := LexRangeSpec (Str (bound_bytes MaxString)) MaxString true false in
  zslParseLexRange [45] (40 :: bound_bytes MinString) = Some r1 /\ zslParseLexRange (40 :: bound_bytes MaxString) [43] = Some r2 /\
  (forall h zsl, zslFirstInLexRange h zsl r1 = Some NULL /\ zslLastInLexRange h zsl r1 = Some NULL /\
    zslFirstInLexRange h zsl r2 = Some NULL /\ zslLastInLexRange h zsl r2 = Some NULL) /\
  in_lexrange r1 (d1, [97]) = true /\ in_lexrange r2 (d1, [122]) = true.
Proof. split_and!; try reflexivity. intros h zsl. split_and!; reflexivity. Qed.
