(* ===== verification/Ziplist.v ===== *)
(** Lists in one memory block: [ziplist.c].

    The ziplist is a [block]; pointers into it are offsets, and [p - zl] is the
    pointer itself.  [unsigned int], [size_t] and [int] computations wrap or are
    checked at their widths.  A byte string argument is a list whose length is the
    [slen] argument. *)

From S2P Require Import Prelude Endian Util.

Section Ziplist.
Context {HOST : Host}.

Definition ZIP_END : Z := 255.
Definition ZIP_BIGLEN : Z := 254.
Definition ZIP_STR_MASK : Z := 0xc0.
Definition ZIP_STR_06B : Z := 0.
Definition ZIP_STR_14B : Z := 0x40.
Definition ZIP_STR_32B : Z := 0x80.
Definition ZIP_INT_16B : Z := 0xc0.
Definition ZIP_INT_32B : Z := 0xd0.
Definition ZIP_INT_64B : Z := 0xe0.
Definition ZIP_INT_24B : Z := 0xf0.
Definition ZIP_INT_8B : Z := 0xfe.
Definition ZIP_INT_IMM_MASK : Z := 0x0f.
Definition ZIP_INT_IMM_MIN : Z := 0xf1.
Definition ZIP_INT_IMM_MAX : Z := 0xfd.
Definition INT8_MIN : Z := - 2 ^ 7.
Definition INT8_MAX : Z := 2 ^ 7 - 1.
Definition INT24_MAX : Z := 0x7fffff.
Definition INT24_MIN : Z := - INT24_MAX - 1.
Definition UINT16_MAX : Z := 2 ^ 16 - 1.
Definition UCHAR_MAX : Z := 255.
Definition ZIPLIST_HEADER_SIZE : Z := 10.
Definition ZIPLIST_END_SIZE : Z := 1.

Definition ZIP_IS_STR (enc : Z) : bool := Z.land enc ZIP_STR_MASK <? ZIP_STR_MASK.

(** ** The header

    [intrev32ifbe( *(uint32_t* )(zl+off))] and the assignment to it; the same for
    the 16 bit length. *)

Definition get32 (zl : block) (off : Z) : option Z := bs ← load zl off 4; intrev32ifbe (host_val bs).
Definition put32 (zl : block) (off v : Z) : option block := v ← intrev32ifbe (u32 v); store zl off (host_bytes 4 v).
Definition get16 (zl : block) (off : Z) : option Z := bs ← load zl off 2; intrev16ifbe (host_val bs).
Definition put16 (zl : block) (off v : Z) : option block := v ← intrev16ifbe (u16 v); store zl off (host_bytes 2 v).

Definition ZIPLIST_BYTES (zl : block) : option Z := get32 zl 0.
Definition ZIPLIST_TAIL_OFFSET (zl : block) : option Z := get32 zl 4.
Definition ZIPLIST_LENGTH (zl : block) : option Z := get16 zl 8.

(** The comparison reads the length without conversion. *)
Definition ZIPLIST_INCR_LENGTH (zl : block) (incr : Z) : option block :=
  bs ← load zl 8 2;
  if host_val bs <? UINT16_MAX then n ← intrev16ifbe (host_val bs); put16 zl 8 (n + incr) else Some zl.

(** ** Entries *)

Record zlentry := Zlentry { prevrawlensize : Z; prevrawlen : Z; lensize : Z; len : Z; headersize : Z; encoding : Z; e_p : Z }.

Definition zipIntSize (encoding : Z) : Z :=
  if encoding =? ZIP_INT_8B then 1 else if encoding =? ZIP_INT_16B then 2 else if encoding =? ZIP_INT_24B then 3 else
  if encoding =? ZIP_INT_32B then 4 else if encoding =? ZIP_INT_64B then 8 else 0.

(** What [zipEncodeLength] puts in [buf]. *)
Definition length_buf (encoding rawlen : Z) : list Z :=
  if ZIP_IS_STR encoding then
    if rawlen <=? 0x3f then [Z.lor ZIP_STR_06B rawlen]
    else if rawlen <=? 0x3fff then [Z.lor ZIP_STR_14B (Z.land (Z.shiftr rawlen 8) 0x3f); Z.land rawlen 0xff]
    else [ZIP_STR_32B; Z.land (Z.shiftr rawlen 24) 0xff; Z.land (Z.shiftr rawlen 16) 0xff; Z.land (Z.shiftr rawlen 8) 0xff; Z.land rawlen 0xff]
  else [encoding].

(** [p] is [None] for a NULL pointer: the size is computed and nothing written. *)
Definition zipEncodeLength (zl : block) (p : option Z) (encoding rawlen : Z) : option (block * Z) :=
  let buf := length_buf encoding rawlen in
  match p with
  | None => Some (zl, Zlen buf)
  | Some p => zl ← store zl p buf; Some (zl, Zlen buf)
  end.

(** The encoding, [lensize] and [len]. *)
Definition ZIP_DECODE_LENGTH (zl : block) (ptr : Z) : option (Z * Z * Z) :=
  c ← load8 zl ptr;
  let encoding := if c <? ZIP_STR_MASK then Z.land c ZIP_STR_MASK else c in
  if encoding <? ZIP_STR_MASK then
    if encoding =? ZIP_STR_06B then Some (encoding, 1, Z.land c 0x3f)
    else if encoding =? ZIP_STR_14B then
      c1 ← load8 zl (ptr + 1); Some (encoding, 2, Z.lor (Z.shiftl (Z.land c 0x3f) 8) c1)
    else if encoding =? ZIP_STR_32B then
      c1 ← load8 zl (ptr + 1); c2 ← load8 zl (ptr + 2); c3 ← load8 zl (ptr + 3); c4 ← load8 zl (ptr + 4);
      h ← i32 (Z.shiftl c1 24);
      Some (encoding, 5, Z.lor (Z.lor (Z.lor h (Z.shiftl c2 16)) (Z.shiftl c3 8)) c4)
    else None
  else Some (encoding, 1, zipIntSize encoding).

(** [memcpy(p,&v,n); memrevNifbe(p)]. *)
Definition put_le (memrevifbe : list Z -> option (list Z)) (n : nat) (zl : block) (p v : Z) : option block :=
  zl ← store zl p (host_bytes n v);
  bs ← load zl p (Z.of_nat n); bs ← memrevifbe bs; store zl p bs.

(** [memcpy(&v,p,n); memrevNifbe(&v)]: the bits of [v]. *)
Definition get_le (memrevifbe : list Z -> option (list Z)) (n : nat) (zl : block) (p : Z) : option Z :=
  bs ← load zl p (Z.of_nat n); bs ← memrevifbe bs; Some (host_val bs).

Definition zipPrevEncodeLengthForceLarge (zl : block) (p len : Z) : option block :=
  zl ← store8 zl p ZIP_BIGLEN; put_le memrev32ifbe 4 zl (p + 1) len.

Definition zipPrevEncodeLength (zl : block) (p : option Z) (len : Z) : option (block * Z) :=
  match p with
  | None => Some (zl, if len <? ZIP_BIGLEN then 1 else 4 + 1)
  | Some p =>
    if len <? ZIP_BIGLEN then zl ← store8 zl p len; Some (zl, 1) else
    zl ← store8 zl p ZIP_BIGLEN;
    zl ← put_le memrev32ifbe 4 zl (p + 1) len;
    Some (zl, 1 + 4)
  end.

Definition ZIP_DECODE_PREVLENSIZE (zl : block) (ptr : Z) : option Z :=
  c ← load8 zl ptr; Some (if c <? ZIP_BIGLEN then 1 else 5).

(** [prevlensize] and [prevlen]. *)
Definition ZIP_DECODE_PREVLEN (zl : block) (ptr : Z) : option (Z * Z) :=
  prevlensize ← ZIP_DECODE_PREVLENSIZE zl ptr;
  if prevlensize =? 1 then c ← load8 zl ptr; Some (prevlensize, c) else
  prevlen ← get_le memrev32ifbe 4 zl (ptr + 1); Some (prevlensize, prevlen).

Definition zipPrevLenByteDiff (zl : block) (p len : Z) : option Z :=
  prevlensize ← ZIP_DECODE_PREVLENSIZE zl p;
  '(_, n) ← zipPrevEncodeLength zl None len;
  Some (s32 (u32 (n - prevlensize))).

Definition zipRawEntryLength (zl : block) (p : Z) : option Z :=
  prevlensize ← ZIP_DECODE_PREVLENSIZE zl p;
  '(_, lensize, len) ← ZIP_DECODE_LENGTH zl (p + prevlensize);
  Some (u32 (prevlensize + lensize + len)).

(** The value and the encoding, or [Some None] when 0 is returned. *)
Definition zipTryEncoding (entry : list Z) : option (option (Z * Z)) :=
  let entrylen := Zlen entry in
  if (32 <=? entrylen) || (entrylen =? 0) then Some None else
  r ← string2ll entry entrylen;
  match r with
  | Some value => Some (Some (value,
      if (0 <=? value) && (value <=? 12) then ZIP_INT_IMM_MIN + value
      else if (INT8_MIN <=? value) && (value <=? INT8_MAX) then ZIP_INT_8B
      else if (INT16_MIN <=? value) && (value <=? INT16_MAX) then ZIP_INT_16B
      else if (INT24_MIN <=? value) && (value <=? INT24_MAX) then ZIP_INT_24B
      else if (INT32_MIN <=? value) && (value <=? INT32_MAX) then ZIP_INT_32B
      else ZIP_INT_64B))
  | None => Some None
  end.

(** The [value<<8] of the 24 bit case is undefined in ISO C for a negative
    [value]; it is taken as the two's complement shift compilers give. *)
Definition zipSaveInteger (zl : block) (p value encoding : Z) : option block :=
  if encoding =? ZIP_INT_8B then store8 zl p value
  else if encoding =? ZIP_INT_16B then put_le memrev16ifbe 2 zl p value
  else if encoding =? ZIP_INT_24B then
    bs ← memrev32ifbe (host_bytes 4 (Z.shiftl value 8)); store zl p (drop 1 bs)
  else if encoding =? ZIP_INT_32B then put_le memrev32ifbe 4 zl p value
  else if encoding =? ZIP_INT_64B then put_le memrev64ifbe 8 zl p value
  else if (ZIP_INT_IMM_MIN <=? encoding) && (encoding <=? ZIP_INT_IMM_MAX) then Some zl
  else None.

Definition zipLoadInteger (zl : block) (p encoding : Z) : option Z :=
  if encoding =? ZIP_INT_8B then c ← load8 zl p; Some (s8 c)
  else if encoding =? ZIP_INT_16B then v ← get_le memrev16ifbe 2 zl p; Some (s16 v)
  else if encoding =? ZIP_INT_32B then v ← get_le memrev32ifbe 4 zl p; Some (s32 v)
  else if encoding =? ZIP_INT_24B then
    bs ← load zl p 3; bs ← memrev32ifbe (0 :: bs); Some (Z.shiftr (s32 (host_val bs)) 8)
  else if encoding =? ZIP_INT_64B then v ← get_le memrev64ifbe 8 zl p; Some (s64 v)
  else if (ZIP_INT_IMM_MIN <=? encoding) && (encoding <=? ZIP_INT_IMM_MAX) then Some (Z.land encoding ZIP_INT_IMM_MASK - 1)
  else None.

Definition zipEntry (zl : block) (p : Z) : option zlentry :=
  '(prevrawlensize, prevrawlen) ← ZIP_DECODE_PREVLEN zl p;
  '(encoding, lensize, len) ← ZIP_DECODE_LENGTH zl (p + prevrawlensize);
  Some (Zlentry prevrawlensize prevrawlen lensize len (u32 (prevrawlensize + lensize)) encoding p).

(** ** Creation and size *)

Definition ziplistNew : option block :=
  let bytes := ZIPLIST_HEADER_SIZE + 1 in
  zl ← put32 (malloc bytes) 0 bytes;
  zl ← put32 zl 4 ZIPLIST_HEADER_SIZE;
  zl ← store zl 8 (host_bytes 2 0);
  store8 zl (bytes - 1) ZIP_END.

Definition ziplistResize (zl : block) (len : Z) : option block :=
  let len := u32 len in
  zl ← put32 (zrealloc zl len) 0 len;
  store8 zl (u32 (len - 1)) ZIP_END.

(** The loop of [__ziplistCascadeUpdate]. *)
Fixpoint cascade_loop (fuel : nat) (zl : block) (p curlen : Z) : option block :=
  match fuel with
  | O => None
  | S fuel =>
    c ← load8 zl p;
    if c =? ZIP_END then Some zl else
    cur ← zipEntry zl p;
    let rawlen := u32 (headersize cur + len cur) in
    '(_, rawlensize) ← zipPrevEncodeLength zl None rawlen;
    c ← load8 zl (p + rawlen);
    if c =? ZIP_END then Some zl else
    next ← zipEntry zl (p + rawlen);
    if prevrawlen next =? rawlen then Some zl else
    if prevrawlensize next <? rawlensize then
      let extra := rawlensize - prevrawlensize next in
      zl ← ziplistResize zl (curlen + extra);
      let np := p + rawlen in
      tail ← ZIPLIST_TAIL_OFFSET zl;
      zl ← (if negb (tail =? np) then put32 zl 4 (tail + extra) else Some zl);
      zl ← memmove zl (np + rawlensize) (np + prevrawlensize next) (u64 (curlen - np - prevrawlensize next - 1));
      '(zl, _) ← zipPrevEncodeLength zl (Some np) rawlen;
      cascade_loop fuel zl (p + rawlen) (u64 (curlen + extra))
    else if prevrawlensize next >? rawlensize then zipPrevEncodeLengthForceLarge zl (p + rawlen) rawlen
    else '(zl, _) ← zipPrevEncodeLength zl (Some (p + rawlen)) rawlen; Some zl
  end.

Definition __ziplistCascadeUpdate (zl : block) (p : Z) : option block :=
  curlen ← ZIPLIST_BYTES zl; cascade_loop (length zl) zl p curlen.

(** ** Deletion *)

(** [for (i = 0; p[0] != ZIP_END && i < num; i++)]: [p] and [deleted]. *)
Fixpoint skip_entries (fuel : nat) (zl : block) (p num : Z) (deleted : Z) : option (Z * Z) :=
  match fuel with
  | O => None
  | S fuel =>
    c ← load8 zl p;
    if negb (c =? ZIP_END) && (deleted <? num) then
      n ← zipRawEntryLength zl p; skip_entries fuel zl (p + n) num (deleted + 1)
    else Some (p, deleted)
  end.

(** [if (p[0] != ZIP_END)] after the entries: the list with the deleted entries
    closed up, and [nextdiff]. *)
Definition close_gap (zl : block) (first : zlentry) (p totlen : Z) : option (block * Z) :=
  c ← load8 zl p;
  if negb (c =? ZIP_END) then
    nextdiff ← zipPrevLenByteDiff zl p (prevrawlen first);
    let p := p - nextdiff in
    '(zl, _) ← zipPrevEncodeLength zl (Some p) (prevrawlen first);
    tail ← ZIPLIST_TAIL_OFFSET zl;
    zl ← put32 zl 4 (tail - totlen);
    t ← zipEntry zl p;
    c ← load8 zl (p + u32 (headersize t + len t));
    zl ← (if negb (c =? ZIP_END) then tail ← ZIPLIST_TAIL_OFFSET zl; put32 zl 4 (tail + nextdiff) else Some zl);
    bytes ← ZIPLIST_BYTES zl;
    zl ← memmove zl (e_p first) p (u64 (bytes - p - 1));
    Some (zl, nextdiff)
  else
    zl ← put32 zl 4 (e_p first - prevrawlen first); Some (zl, 0).

Definition __ziplistDelete (zl : block) (p num : Z) : option block :=
  first ← zipEntry zl p;
  '(p, deleted) ← skip_entries (length zl) zl p num 0;
  let totlen := u32 (p - e_p first) in
  if 0 <? totlen then
    '(zl, nextdiff) ← close_gap zl first p totlen;
    let offset := e_p first in
    bytes ← ZIPLIST_BYTES zl;
    zl ← ziplistResize zl (bytes - totlen + nextdiff);
    zl ← ZIPLIST_INCR_LENGTH zl (- deleted);
    if negb (nextdiff =? 0) then __ziplistCascadeUpdate zl offset else Some zl
  else Some zl.

(** ** Insertion *)

(** [prevlen] of the entry to insert. *)
Definition insert_prevlen (zl : block) (p c : Z) : option Z :=
  if negb (c =? ZIP_END) then '(_, prevlen) ← ZIP_DECODE_PREVLEN zl p; Some prevlen
  else
    ptail ← ZIPLIST_TAIL_OFFSET zl;
    t ← load8 zl ptail;
    if negb (t =? ZIP_END) then zipRawEntryLength zl ptail else Some 0.

(** Apply memory move when necessary and update the tail offset. *)
Definition open_gap (zl : block) (p curlen reqlen nextdiff : Z) : option block :=
  c ← load8 zl p;
  if negb (c =? ZIP_END) then
    zl ← memmove zl (p + reqlen) (p - nextdiff) (u64 (curlen - p - 1 + nextdiff));
    '(zl, _) ← zipPrevEncodeLength zl (Some (p + reqlen)) (u32 reqlen);
    tail ← ZIPLIST_TAIL_OFFSET zl;
    zl ← put32 zl 4 (tail + reqlen);
    t ← zipEntry zl (p + reqlen);
    c ← load8 zl (p + u64 (reqlen + headersize t + len t));
    if negb (c =? ZIP_END) then tail ← ZIPLIST_TAIL_OFFSET zl; put32 zl 4 (tail + nextdiff) else Some zl
  else put32 zl 4 p.

(** Write the entry. *)
Definition write_zlentry (zl : block) (p prevlen encoding value : Z) (s : list Z) : option block :=
  '(zl, n) ← zipPrevEncodeLength zl (Some p) prevlen;
  let p := p + n in
  '(zl, n) ← zipEncodeLength zl (Some p) encoding (Zlen s);
  let p := p + n in
  if ZIP_IS_STR encoding then store zl p s else zipSaveInteger zl p value encoding.

Definition __ziplistInsert (zl : block) (p : Z) (s : list Z) : option block :=
  let slen := Zlen s in
  curlen ← ZIPLIST_BYTES zl;
  c ← load8 zl p;
  prevlen ← insert_prevlen zl p c;
  r ← zipTryEncoding s;
  let encoding := match r with Some (_, encoding) => encoding | None => 0 end in
  let value := match r with Some (value, _) => value | None => 123456789 end in
  let reqlen := match r with Some _ => zipIntSize encoding | None => slen end in
  '(_, n) ← zipPrevEncodeLength zl None prevlen;
  let reqlen := u64 (reqlen + n) in
  '(_, n) ← zipEncodeLength zl None encoding slen;
  let reqlen := u64 (reqlen + n) in
  nextdiff ← (if negb (c =? ZIP_END) then zipPrevLenByteDiff zl p (u32 reqlen) else Some 0);
  zl ← ziplistResize zl (curlen + reqlen + nextdiff);
  zl ← open_gap zl p curlen reqlen nextdiff;
  zl ← (if negb (nextdiff =? 0) then __ziplistCascadeUpdate zl (p + reqlen) else Some zl);
  zl ← write_zlentry zl p prevlen encoding value s;
  ZIPLIST_INCR_LENGTH zl 1.

(** ** Merging

    The arguments are [None] for NULL lists; [same] tells whether both are the same
    list.  The result is [None] for NULL; otherwise the merged list and whether it
    is the reallocated [first] ([append]). *)
Definition ziplistMerge (first second : option block) (same : bool) : option (option (block * bool)) :=
  match first, second with
  | Some first, Some second =>
    if same then Some None else
    first_bytes ← ZIPLIST_BYTES first;
    first_len ← ZIPLIST_LENGTH first;
    second_bytes ← ZIPLIST_BYTES second;
    second_len ← ZIPLIST_LENGTH second;
    let append := first_len >=? second_len in
    let '(target, target_bytes, source, source_bytes) :=
      if append then (first, first_bytes, second, second_bytes) else (second, second_bytes, first, first_bytes) in
    let zlbytes := u64 (first_bytes + second_bytes - ZIPLIST_HEADER_SIZE - ZIPLIST_END_SIZE) in
    let zllength := first_len + second_len in
    let zllength := if zllength <? UINT16_MAX then zllength else UINT16_MAX in
    first_offset ← ZIPLIST_TAIL_OFFSET first;
    second_offset ← ZIPLIST_TAIL_OFFSET second;
    let target := zrealloc target zlbytes in
    target ← (if append then
        bs ← load source ZIPLIST_HEADER_SIZE (source_bytes - ZIPLIST_HEADER_SIZE);
        store target (target_bytes - ZIPLIST_END_SIZE) bs
      else
        target ← memmove target (source_bytes - ZIPLIST_END_SIZE) ZIPLIST_HEADER_SIZE (target_bytes - ZIPLIST_HEADER_SIZE);
        bs ← load source 0 (source_bytes - ZIPLIST_END_SIZE);
        store target 0 bs);
    target ← put32 target 0 zlbytes;
    target ← put16 target 8 zllength;
    target ← put32 target 4 (first_bytes - ZIPLIST_END_SIZE + (second_offset - ZIPLIST_HEADER_SIZE));
    target ← __ziplistCascadeUpdate target first_offset;
    Some (Some (target, append))
  | _, _ => Some None
  end.

(** ** The interface *)

Definition ziplistPush (zl : block) (s : list Z) (at_head : bool) : option block :=
  p ← (if at_head then Some ZIPLIST_HEADER_SIZE else bytes ← ZIPLIST_BYTES zl; Some (bytes - 1));
  __ziplistInsert zl p s.

(** [while (prevlen > 0 && index--)] *)
Fixpoint index_back (fuel : nat) (zl : block) (p prevlen index : Z) : option (Z * Z) :=
  match fuel with
  | O => None
  | S fuel =>
    if 0 <? prevlen then
      if index =? 0 then Some (p, index - 1) else
      let p := p - prevlen in
      '(_, prevlen) ← ZIP_DECODE_PREVLEN zl p; index_back fuel zl p prevlen (index - 1)
    else Some (p, index)
  end.

(** [while (p[0] != ZIP_END && index--)] *)
Fixpoint index_forward (fuel : nat) (zl : block) (p index : Z) : option (Z * Z) :=
  match fuel with
  | O => None
  | S fuel =>
    c ← load8 zl p;
    if c =? ZIP_END then Some (p, index) else
    if index =? 0 then Some (p, index - 1) else
    n ← zipRawEntryLength zl p; index_forward fuel zl (p + n) (index - 1)
  end.

Definition ziplistIndex (zl : block) (index : Z) : option (option Z) :=
  '(p, index) ← (if index <? 0 then
      index ← i32 (- index); let index := index - 1 in
      p ← ZIPLIST_TAIL_OFFSET zl;
      c ← load8 zl p;
      if negb (c =? ZIP_END) then '(_, prevlen) ← ZIP_DECODE_PREVLEN zl p; index_back (length zl) zl p prevlen index
      else Some (p, index)
    else index_forward (length zl) zl ZIPLIST_HEADER_SIZE index);
  c ← load8 zl p;
  Some (if (c =? ZIP_END) || (0 <? index) then None else Some p).

Definition ziplistNext (zl : block) (p : Z) : option (option Z) :=
  c ← load8 zl p;
  if c =? ZIP_END then Some None else
  n ← zipRawEntryLength zl p;
  c ← load8 zl (p + n);
  Some (if c =? ZIP_END then None else Some (p + n)).

Definition ziplistPrev (zl : block) (p : Z) : option (option Z) :=
  c ← load8 zl p;
  if c =? ZIP_END then
    p ← ZIPLIST_TAIL_OFFSET zl; c ← load8 zl p;
    Some (if c =? ZIP_END then None else Some p)
  else if p =? ZIPLIST_HEADER_SIZE then Some None
  else
    '(_, prevlen) ← ZIP_DECODE_PREVLEN zl p;
    if 0 <? prevlen then Some (Some (p - prevlen)) else None.

(** [*sstr] and [*slen], or [*sval]. *)
Inductive zlvalue := ZlStr (sstr slen : Z) | ZlInt (sval : Z).

Definition ziplistGet (zl : block) (p : option Z) : option (option zlvalue) :=
  match p with
  | None => Some None
  | Some p =>
    c ← load8 zl p;
    if c =? ZIP_END then Some None else
    entry ← zipEntry zl p;
    if ZIP_IS_STR (encoding entry) then Some (Some (ZlStr (p + headersize entry) (len entry)))
    else v ← zipLoadInteger zl (p + headersize entry) (encoding entry); Some (Some (ZlInt v))
  end.

Definition ziplistInsert (zl : block) (p : Z) (s : list Z) : option block := __ziplistInsert zl p s.

(** The list and [*p]. *)
Definition ziplistDelete (zl : block) (p : Z) : option (block * Z) :=
  let offset := p in zl ← __ziplistDelete zl p 1; Some (zl, offset).

Definition ziplistDeleteRange (zl : block) (index num : Z) : option block :=
  p ← ziplistIndex zl index;
  match p with None => Some zl | Some p => __ziplistDelete zl p num end.

(** [memcmp(p,s,slen) == 0] *)
Definition bytes_at (zl : block) (p : Z) (s : list Z) : option bool :=
  bs ← load zl p (Zlen s); Some (bool_decide (bs = s)).

Definition ziplistCompare (zl : block) (p : Z) (s : list Z) : option bool :=
  c ← load8 zl p;
  if c =? ZIP_END then Some false else
  entry ← zipEntry zl p;
  if ZIP_IS_STR (encoding entry) then
    if len entry =? Zlen s then bytes_at zl (p + headersize entry) s else Some false
  else
    r ← zipTryEncoding s;
    match r with
    | Some (sval, _) => zval ← zipLoadInteger zl (p + headersize entry) (encoding entry); Some (zval =? sval)
    | None => Some false
    end.

(** The loop of [ziplistFind]; [v] is [vencoding] with [vll]. *)
Fixpoint find_loop (fuel : nat) (zl : block) (p : Z) (vstr : list Z) (skip : Z) (skipcnt : Z) (v : Z * Z) : option (option Z) :=
  match fuel with
  | O => None
  | S fuel =>
    c ← load8 zl p;
    if c =? ZIP_END then Some None else
    prevlensize ← ZIP_DECODE_PREVLENSIZE zl p;
    '(encoding, lensize, len) ← ZIP_DECODE_LENGTH zl (p + prevlensize);
    let q := p + prevlensize + lensize in
    if skipcnt =? 0 then
      '(found, v) ← (if ZIP_IS_STR encoding then
          b ← (if len =? Zlen vstr then bytes_at zl q vstr else Some false); Some (b : bool, v)
        else
          '(vencoding, vll) ← (if v.1 =? 0 then
              r ← zipTryEncoding vstr;
              Some (match r with Some (vll, vencoding) => (vencoding, vll) | None => (UCHAR_MAX, v.2) end)
            else Some v);
          if vencoding =? 0 then None else
          if negb (vencoding =? UCHAR_MAX) then ll ← zipLoadInteger zl q encoding; Some (ll =? vll, (vencoding, vll))
          else Some (false, (vencoding, vll)));
      if (found : bool) then Some (Some p) else find_loop fuel zl (q + len) vstr skip (s32 skip) v
    else find_loop fuel zl (q + len) vstr skip (skipcnt - 1) v
  end.

Definition ziplistFind (zl : block) (p : Z) (vstr : list Z) (skip : Z) : option (option Z) :=
  find_loop (length zl) zl p vstr skip 0 (0, 0).

(** [while ( *p != ZIP_END)] *)
Fixpoint count_entries (fuel : nat) (zl : block) (p len : Z) : option Z :=
  match fuel with
  | O => None
  | S fuel =>
    c ← load8 zl p;
    if c =? ZIP_END then Some len else
    n ← zipRawEntryLength zl p; count_entries fuel zl (p + n) (u32 (len + 1))
  end.

(** The list, whose length field may have been repaired, and the length. *)
Definition ziplistLen (zl : block) : option (block * Z) :=
  n ← ZIPLIST_LENGTH zl;
  if n <? UINT16_MAX then Some (zl, n) else
  len ← count_entries (length zl) zl ZIPLIST_HEADER_SIZE 0;
  zl ← (if len <? UINT16_MAX then put16 zl 8 len else Some zl);
  Some (zl, len).

Definition ziplistBlobLen (zl : block) : option Z := ZIPLIST_BYTES zl.

End Ziplist.
