(* ===== verification/ZiplistSpec.v ===== *)
(** Correctness of the ziplist operations of [Ziplist.v].

    A well formed ziplist is determined by its entries: a value and whether the
    field for the previous entry's size is the five byte one.  The abstract state is
    the list of the byte strings the entries stand for. *)

From S2P Require Import Prelude Endian Util Ziplist.

(** ** Values *)

Inductive zval := VStr (s : list Z) | VInt (v : Z).

Definition int_enc (value : Z) : Z :=
  if (0 <=? value) && (value <=? 12) then ZIP_INT_IMM_MIN + value
  else if (INT8_MIN <=? value) && (value <=? INT8_MAX) then ZIP_INT_8B
  else if (INT16_MIN <=? value) && (value <=? INT16_MAX) then ZIP_INT_16B
  else if (INT24_MIN <=? value) && (value <=? INT24_MAX) then ZIP_INT_24B
  else if (INT32_MIN <=? value) && (value <=? INT32_MAX) then ZIP_INT_32B
  else ZIP_INT_64B.

Definition int_bytes (v : Z) : list Z := le_bytes (Z.to_nat (zipIntSize (int_enc v))) v.

Definition payload (v : zval) : list Z :=
  match v with
  | VStr s => length_buf 0 (Zlen s) ++ s
  | VInt v => int_enc v :: int_bytes v
  end.

(** The byte string a value stands for. *)
Definition text (v : zval) : list Z := match v with VStr s => s | VInt v => sdec v end.

Definition val_ok (v : zval) : Prop :=
  match v with
  | VStr s => Forall is_byte s
  | VInt v => INT64_MIN <= v <= INT64_MAX
  end.

(** How a byte string is stored. *)
Definition of_text (s : list Z) : zval :=
  match zipTryEncoding s with Some (Some (v, _)) => VInt v | _ => VStr s end.

Lemma try_encoding_spec s :
  (exists v, INT64_MIN <= v <= INT64_MAX /\ s = sdec v /\ zipTryEncoding s = Some (Some (v, int_enc v))) \/
  (zipTryEncoding s = Some None /\ forall v, INT64_MIN <= v <= INT64_MAX -> s <> sdec v).
Proof.
  unfold zipTryEncoding. destruct (Z.leb_spec 32 (Zlen s)); cbn [orb].
  { right. split; [done|]. intros v Hv ->. pose proof (sdec_length v Hv). lia. }
  destruct (Z.eqb_spec (Zlen s) 0).
  { right. split; [done|]. intros v Hv ->. pose proof (sdec_length v Hv). lia. }
  destruct (string2ll_spec s) as (r & -> & Hr). rewrite bind_Some. destruct r as [v|].
  - left. exists v. destruct (proj1 (Hr v) eq_refl) as [Hv ->]. done.
  - right. split; [done|]. intros v Hv ->. pose proof (proj2 (Hr v) (conj Hv eq_refl)). done.
Qed.

Lemma of_text_ok s : Forall is_byte s -> val_ok (of_text s) /\ text (of_text s) = s.
Proof.
  intros Hs. unfold of_text. destruct (try_encoding_spec s) as [(v & Hv & -> & ->)|[-> _]]; done.
Qed.

Lemma int_enc_cases v : INT64_MIN <= v <= INT64_MAX -> let enc := int_enc v in let n := zipIntSize enc in
  192 <= enc < 255 /\ ZIP_IS_STR enc = false /\
  (enc = ZIP_INT_IMM_MIN + v /\ 0 <= v <= 12 /\ n = 0 \/ enc = ZIP_INT_8B /\ n = 1 /\ - 2 ^ 7 <= v < 2 ^ 7 \/
   enc = ZIP_INT_16B /\ n = 2 /\ - 2 ^ 15 <= v < 2 ^ 15 \/ enc = ZIP_INT_24B /\ n = 3 /\ - 2 ^ 23 <= v < 2 ^ 23 \/
   enc = ZIP_INT_32B /\ n = 4 /\ - 2 ^ 31 <= v < 2 ^ 31 \/ enc = ZIP_INT_64B /\ n = 8 /\ - 2 ^ 63 <= v < 2 ^ 63).
Proof.
  intros Hv. unfold int_enc. unfold_limits. unfold INT8_MIN, INT8_MAX, INT24_MIN, INT24_MAX.
  destruct ((0 <=? v) && (v <=? 12)) eqn:E0.
  { apply andb_true_iff in E0 as [?%Z.leb_le ?%Z.leb_le].
    assert (v = 0 \/ v = 1 \/ v = 2 \/ v = 3 \/ v = 4 \/ v = 5 \/ v = 6 \/ v = 7 \/ v = 8 \/ v = 9 \/ v = 10 \/ v = 11 \/ v = 12) as Hc by lia.
    destruct_or! Hc; subst v; (split; [vm_compute; intuition discriminate|split; [reflexivity|left; vm_compute; intuition discriminate]]). }
  clear E0. repeat (match goal with |- context [if (?a <=? v) && (v <=? ?b) then _ else _] =>
    destruct ((a <=? v) && (v <=? b)) eqn:?E; [apply andb_true_iff in E as [?%Z.leb_le ?%Z.leb_le]|clear E] end);
  (split; [vm_compute; intuition discriminate|split; [reflexivity|]]); cbn; right.
  - left. split_and!; try done; lia.
  - right; left. split_and!; try done; lia.
  - right; right; left. split_and!; try done; lia.
  - right; right; right; left. split_and!; try done; lia.
  - right; right; right; right. split_and!; try done; lia.
Qed.

Section Spec.
Context {HOST : Host}.

(** ** Integers in memory *)

Lemma get_le_spec (A C : block) n memrev v : (forall x, length x = n -> memrev x = Some (rev x)) ->
  get_le (fun x => if big_endian then memrev x else Some x) n (A ++ (Some <$> le_bytes n v) ++ C) (Zlen A) = Some (v mod 256 ^ Z.of_nat n).
Proof.
  intros Hm. unfold get_le. rewrite load_app, bind_Some by (rewrite ?length_le_bytes; done).
  pose proof (memrevifbe_val n (le_bytes n v) memrev Hm (length_le_bytes _ _)) as HR.
  destruct (if big_endian then _ else _) as [x|]; [|done]. rewrite bind_Some. cbn in HR. injection HR as ->. by rewrite le_val_bytes.
Qed.

Lemma put_le_spec (A B C : block) n memrev v : (forall x, length x = n -> memrev x = Some (rev x)) -> length B = n ->
  put_le (fun x => if big_endian then memrev x else Some x) n (A ++ B ++ C) (Zlen A) v = Some (A ++ (Some <$> le_bytes n v) ++ C).
Proof.
  intros Hm HB. unfold put_le. rewrite store_app, bind_Some by (rewrite ?length_host_bytes; done).
  rewrite load_app, bind_Some by (rewrite ?length_host_bytes; done).
  rewrite (memrevifbe_bytes n v memrev Hm), bind_Some. apply store_app; [done|]. by rewrite length_fmap, length_host_bytes, length_le_bytes.
Qed.

Lemma le_bytes_24 v : drop 1 (le_bytes 4 (Z.shiftl v 8)) = le_bytes 3 v.
Proof.
  rewrite Z.shiftl_mul_pow2 by lia. change (2 ^ 8) with 256. unfold le_bytes at 1. cbn [drop]. by rewrite Z.div_mul by lia.
Qed.

Lemma save_integer_spec (A B C : block) v : INT64_MIN <= v <= INT64_MAX -> length B = length (int_bytes v) ->
  zipSaveInteger (A ++ B ++ C) (Zlen A) v (int_enc v) = Some (A ++ (Some <$> int_bytes v) ++ C).
Proof.
  intros Hv HB. unfold int_bytes in *. rewrite length_le_bytes in HB. unfold zipSaveInteger.
  destruct (int_enc_cases v Hv) as (Henc & _ & Hc).
  destruct Hc as [(E & Hr & En)|[(E & En & Hr)|[(E & En & Hr)|[(E & En & Hr)|[(E & En & Hr)|(E & En & Hr)]]]]]; rewrite En in HB |- *; rewrite E.
  - cbn in HB. destruct B; [|done].
    assert (v = 0 \/ v = 1 \/ v = 2 \/ v = 3 \/ v = 4 \/ v = 5 \/ v = 6 \/ v = 7 \/ v = 8 \/ v = 9 \/ v = 10 \/ v = 11 \/ v = 12) as Hd by lia.
    destruct_or! Hd; subst v; reflexivity.
  - cbn in HB |- *. destruct B as [|b [|]]; [done| |done]. unfold store8. by rewrite (store_app A [b] C [u8 v]).
  - by apply put_le_spec; [apply memrev16_rev|].
  - cbn -[le_bytes host_bytes]. pose proof (memrevifbe_bytes 4 (Z.shiftl v 8) memrev32 memrev32_rev) as HR. unfold memrev32ifbe. rewrite HR, bind_Some.
    rewrite le_bytes_24. rewrite store_app by (rewrite ?length_le_bytes; done). done.
  - by apply put_le_spec; [apply memrev32_rev|].
  - by apply put_le_spec; [apply memrev64_rev|].
Qed.

Lemma load_integer_spec (A C : block) v : INT64_MIN <= v <= INT64_MAX ->
  zipLoadInteger (A ++ (Some <$> int_bytes v) ++ C) (Zlen A) (int_enc v) = Some v.
Proof.
  intros Hv. unfold int_bytes. unfold zipLoadInteger. destruct (int_enc_cases v Hv) as (Henc & _ & Hc).
  destruct Hc as [(E & Hr & ->)|[(-> & -> & Hr)|[(-> & -> & Hr)|[(-> & -> & Hr)|[(-> & -> & Hr)|(-> & -> & Hr)]]]]].
  - rewrite E. assert (v = 0 \/ v = 1 \/ v = 2 \/ v = 3 \/ v = 4 \/ v = 5 \/ v = 6 \/ v = 7 \/ v = 8 \/ v = 9 \/ v = 10 \/ v = 11 \/ v = 12) as Hd by lia.
    destruct_or! Hd; subst v; reflexivity.
  - change (ZIP_INT_8B =? ZIP_INT_8B) with true. cbv iota. change (Z.to_nat 1) with 1%nat.
    unfold le_bytes. cbn [fmap list_fmap app]. rewrite load8_app, bind_Some by done. f_equal. by apply (wraps_wrapu 8).
  - change (get_le memrev16ifbe 2) with (get_le (fun x => if big_endian then memrev16 x else Some x) 2).
    cbn -[get_le Z.pow wraps]. rewrite (get_le_spec A C 2) by apply memrev16_rev. rewrite bind_Some. f_equal. by apply (wraps_wrapu 16).
  - cbn -[le_bytes]. rewrite load_app, bind_Some by (rewrite ?length_le_bytes; done).
    pose proof (memrevifbe_val 4 (0 :: le_bytes 3 v) memrev32 memrev32_rev ltac:(by cbn [length]; rewrite length_le_bytes)) as HR.
    unfold memrev32ifbe. destruct (if big_endian then _ else _) as [x|]; [|done]. rewrite bind_Some. cbn -[le_bytes] in HR. injection HR as ->.
    f_equal. unfold le_val at 1. fold le_val. rewrite le_val_bytes. change (256 ^ Z.of_nat 3) with (2 ^ 24).
    rewrite Z.add_0_l. rewrite <- (Z.mul_mod_distr_l v (2 ^ 24) 256) by lia. change (256 * 2 ^ 24) with (2 ^ 32).
    pose proof (wraps_wrapu 32 (256 * v) ltac:(lia) ltac:(lia)) as HW. unfold wrapu in HW. rewrite HW.
    rewrite Z.shiftr_div_pow2 by lia. change (2 ^ 8) with 256. rewrite Z.mul_comm. by apply Z.div_mul.
  - change (get_le memrev32ifbe 4) with (get_le (fun x => if big_endian then memrev32 x else Some x) 4).
    cbn -[get_le Z.pow wraps]. rewrite (get_le_spec A C 4) by apply memrev32_rev. rewrite bind_Some. f_equal. by apply (wraps_wrapu 32).
  - change (get_le memrev64ifbe 8) with (get_le (fun x => if big_endian then memrev64 x else Some x) 8).
    cbn -[get_le Z.pow wraps]. rewrite (get_le_spec A C 8) by apply memrev64_rev. rewrite bind_Some. f_equal. by apply (wraps_wrapu 64).
Qed.

(** ** Length fields *)

Lemma byte_bits c : 0 <= c < 256 -> Z.land c 192 = 64 * (c / 64) /\ Z.land c 63 = c mod 64 /\ (c < 64 -> Z.lor 64 c = 64 + c).
Proof.
  intros Hc. assert (forallb (fun c => (Z.land c 192 =? 64 * (c / 64)) && (Z.land c 63 =? c mod 64) && (implb (c <? 64) (Z.lor 64 c =? 64 + c))) (seqZ 0 256) = true) as H
    by (vm_compute; reflexivity).
  rewrite forallb_forall in H. specialize (H c ltac:(apply list_elem_of_In, elem_of_seqZ; lia)).
  apply andb_true_iff in H as [[H1%Z.eqb_eq H2%Z.eqb_eq]%andb_true_iff H3]. split_and!; [done|done|].
  intros Hlt. destruct (Z.ltb_spec c 64); [|lia]. by apply Z.eqb_eq in H3.
Qed.

Lemma land_low n k : 0 <= k -> Z.land n (2 ^ k - 1) = n mod 2 ^ k.
Proof. intros. rewrite <- Z.land_ones by done. f_equal. rewrite Z.ones_equiv. lia. Qed.

Lemma length_buf_str n : 0 <= n < 2 ^ 31 -> length_buf 0 n =
  if n <=? 63 then [n] else if n <=? 16383 then [64 + n / 256; n mod 256]
  else [128; n / 2 ^ 24; (n / 2 ^ 16) mod 256; (n / 2 ^ 8) mod 256; n mod 256].
Proof.
  intros Hn. unfold length_buf. change (ZIP_IS_STR 0) with true. cbv iota.
  destruct (Z.leb_spec n 0x3f); [done|]. destruct (Z.leb_spec n 0x3fff).
  - rewrite Z.shiftr_div_pow2 by lia. change 0xff with (2 ^ 8 - 1). change (2 ^ 8) with 256.
    assert (0 <= n / 256 < 64) as Hd by (split; [apply Z.div_pos; lia|apply Z.div_lt_upper_bound; lia]).
    destruct (byte_bits (n / 256) ltac:(lia)) as (_ & H2 & H3). change 0x3f with 63. rewrite H2, (Z.mod_small (n / 256) 64) by lia.
    unfold ZIP_STR_14B. change 0x40 with 64. rewrite H3 by lia. pose proof (land_low n 8 ltac:(lia)) as H4. change (2 ^ 8) with 256 in H4. by rewrite H4.
  - rewrite !Z.shiftr_div_pow2 by lia. change 0xff with (2 ^ 8 - 1). rewrite !land_low by lia. change (2 ^ 8) with 256.
    rewrite (Z.mod_small (n / 2 ^ 24)); [done|]. split; [apply Z.div_pos; lia|apply Z.div_lt_upper_bound; lia].
Qed.

Definition str_enc (n : Z) : Z := if n <=? 63 then 0 else if n <=? 16383 then 64 else 128.

Lemma load8_here (A C : block) v : load8 (A ++ Some v :: C) (Zlen A) = Some v.
Proof. by apply load8_app. Qed.

Lemma decode_str (A C : block) n : 0 <= n < 2 ^ 31 ->
  ZIP_DECODE_LENGTH (A ++ (Some <$> length_buf 0 n) ++ C) (Zlen A) = Some (str_enc n, Zlen (length_buf 0 n), n).
Proof.
  intros Hn. rewrite (length_buf_str n Hn). unfold str_enc, ZIP_DECODE_LENGTH, ZIP_STR_MASK, ZIP_STR_06B, ZIP_STR_14B, ZIP_STR_32B.
  destruct (Z.leb_spec n 63); [|destruct (Z.leb_spec n 16383)].
  - cbn [fmap list_fmap app]. rewrite load8_here, bind_Some. destruct (byte_bits n ltac:(lia)) as (H1 & H2 & _).
    destruct (Z.ltb_spec n 0xc0); [|lia]. change 0xc0 with 192. rewrite H1, Z.div_small by lia. cbn -[Z.land].
    change 0x3f with 63. rewrite H2, Z.mod_small by lia. done.
  - assert (0 <= n / 256 < 64) as Hd by (split; [apply Z.div_pos; lia|apply Z.div_lt_upper_bound; lia]).
    cbn [fmap list_fmap app]. rewrite load8_here, bind_Some. destruct (byte_bits (64 + n / 256) ltac:(lia)) as (H1 & H2 & _).
    destruct (Z.ltb_spec (64 + n / 256) 0xc0); [|lia]. change 0xc0 with 192. rewrite H1.
    replace ((64 + n / 256) / 64) with 1 by (apply Z.div_unique with (n / 256); lia). cbn -[Z.land Z.shiftl Z.modulo Z.div].
    replace (A ++ Some (64 + n / 256) :: Some (n mod 256) :: C) with ((A ++ [Some (64 + n / 256)]) ++ Some (n mod 256) :: C) by (by rewrite <- app_assoc).
    rewrite (load8_app _ _ _ (Zlen A + 1)), bind_Some by (by rewrite snoc_len). change 0x3f with 63. rewrite H2.
    replace ((64 + n / 256) mod 64) with (n / 256) by (apply Z.mod_unique with 1; lia).
    rewrite Z.shiftl_mul_pow2, lor_low by (try apply Z.mod_pos_bound; lia). change (2 ^ 8) with 256.
    pose proof (Z.div_mod n 256 ltac:(lia)). do 2 f_equal. lia.
  - assert (0 <= n / 2 ^ 24 < 128) as Hd by (split; [apply Z.div_pos; lia|apply Z.div_lt_upper_bound; lia]).
    set (a := n / 2 ^ 24) in *. set (b := (n / 2 ^ 16) mod 256). set (c := (n / 2 ^ 8) mod 256). set (d := n mod 256).
    cbn [fmap list_fmap app]. rewrite load8_here, bind_Some. change (128 <? 0xc0) with true. cbv iota zeta.
    change (Z.land 128 0xc0) with 128. change (128 <? 0xc0) with true. change (128 =? 0) with false. change (128 =? 0x40) with false. change (128 =? 0x80) with true. cbv iota.
    replace (A ++ Some 128 :: Some a :: Some b :: Some c :: Some d :: C) with ((A ++ [Some 128]) ++ Some a :: Some b :: Some c :: Some d :: C) by (by rewrite <- app_assoc).
    rewrite (load8_app _ _ _ (Zlen A + 1)), bind_Some by (by rewrite snoc_len).
    replace ((A ++ [Some 128]) ++ Some a :: Some b :: Some c :: Some d :: C) with ((A ++ [Some 128; Some a]) ++ Some b :: Some c :: Some d :: C) by (by rewrite <- !app_assoc).
    rewrite (load8_app _ _ _ (Zlen A + 2)), bind_Some by (by rewrite length_app, Nat2Z.inj_add).
    replace ((A ++ [Some 128; Some a]) ++ Some b :: Some c :: Some d :: C) with ((A ++ [Some 128; Some a; Some b]) ++ Some c :: Some d :: C) by (by rewrite <- !app_assoc).
    rewrite (load8_app _ _ _ (Zlen A + 3)), bind_Some by (by rewrite length_app, Nat2Z.inj_add).
    replace ((A ++ [Some 128; Some a; Some b]) ++ Some c :: Some d :: C) with ((A ++ [Some 128; Some a; Some b; Some c]) ++ Some d :: C) by (by rewrite <- !app_assoc).
    rewrite (load8_app _ _ _ (Zlen A + 4)), bind_Some by (by rewrite length_app, Nat2Z.inj_add).
    rewrite !Z.shiftl_mul_pow2 by lia. rewrite i32_ok by (unfold_limits; lia). rewrite bind_Some.
    assert (0 <= b < 256 /\ 0 <= c < 256 /\ 0 <= d < 256) as (Hb & Hc & Hd') by (split_and!; apply Z.mod_pos_bound; lia).
    rewrite (lor_low a) by lia. replace (a * 2 ^ 24 + b * 2 ^ 16) with ((a * 2 ^ 8 + b) * 2 ^ 16) by lia.
    rewrite (lor_low _ (c * 2 ^ 8)) by lia. replace ((a * 2 ^ 8 + b) * 2 ^ 16 + c * 2 ^ 8) with (((a * 2 ^ 8 + b) * 2 ^ 8 + c) * 2 ^ 8) by lia.
    rewrite (lor_low _ d) by lia. do 2 f_equal. subst a b c d.
    pose proof (Z.div_mod n 256 ltac:(lia)). pose proof (Z.div_mod (n / 2 ^ 8) 256 ltac:(lia)) as E1. rewrite Z.div_div in E1 by lia.
    pose proof (Z.div_mod (n / 2 ^ 16) 256 ltac:(lia)) as E2. rewrite Z.div_div in E2 by lia.
    change (2 ^ 8 * 256) with (2 ^ 16) in E1. change (2 ^ 16 * 256) with (2 ^ 24) in E2. change (2 ^ 8) with 256 in *. lia.
Qed.

Lemma decode_int (A C : block) v : INT64_MIN <= v <= INT64_MAX ->
  ZIP_DECODE_LENGTH (A ++ Some (int_enc v) :: C) (Zlen A) = Some (int_enc v, 1, Zlen (int_bytes v)).
Proof.
  intros Hv. unfold ZIP_DECODE_LENGTH. rewrite load8_here, bind_Some. destruct (int_enc_cases v Hv) as (He & _ & Hc).
  unfold ZIP_STR_MASK. destruct (Z.ltb_spec (int_enc v) 0xc0); [lia|]. cbv zeta. destruct (Z.ltb_spec (int_enc v) 0xc0); [lia|].
  unfold int_bytes. rewrite length_le_bytes, Z2Nat.id; [done|]. destruct Hc as [(_ & _ & ->)|[(_ & -> & _)|[(_ & -> & _)|[(_ & -> & _)|[(_ & -> & _)|(_ & -> & _)]]]]]; lia.
Qed.

(** Header and contents of a value. *)
Definition vhead (v : zval) : list Z := match v with VStr s => length_buf 0 (Zlen s) | VInt v => [int_enc v] end.
Definition vdata (v : zval) : list Z := match v with VStr s => s | VInt v => int_bytes v end.
Definition venc (v : zval) : Z := match v with VStr s => str_enc (Zlen s) | VInt v => int_enc v end.

Lemma payload_split v : payload v = vhead v ++ vdata v.
Proof. by destruct v. Qed.

Lemma decode_val (A C : block) v : val_ok v -> Zlen (payload v) < 2 ^ 31 ->
  ZIP_DECODE_LENGTH (A ++ (Some <$> vhead v) ++ C) (Zlen A) = Some (venc v, Zlen (vhead v), Zlen (vdata v)).
Proof.
  intros Hv Hl. destruct v as [s|v]; cbn [vhead vdata venc payload] in *.
  - apply decode_str. rewrite length_app in Hl. lia.
  - cbn [fmap list_fmap app length]. by apply decode_int.
Qed.

Lemma venc_is_str v : val_ok v -> ZIP_IS_STR (venc v) = match v with VStr _ => true | VInt _ => false end.
Proof.
  destruct v as [s|v]; intros Hv; cbn [venc].
  - unfold str_enc. by destruct (_ <=? _); [|destruct (_ <=? _)].
  - by destruct (int_enc_cases v Hv) as (_ & -> & _).
Qed.

Lemma vhead_pos v : 1 <= Zlen (vhead v) <= 5.
Proof.
  destruct v as [s|v]; cbn [vhead length]; [|lia]. unfold length_buf. change (ZIP_IS_STR 0) with true. cbv iota.
  destruct (_ <=? _); [|destruct (_ <=? _)]; cbn [length]; lia.
Qed.

(** ** Entries *)

(** [big] tells the five byte field for the size of the previous entry. *)
Record ent := Ent { big : bool; val : zval }.

Definition psize (b : bool) : Z := if b then 5 else 1.
Definition pbytes (b : bool) (prev : Z) : list Z := if b then 254 :: le_bytes 4 prev else [prev].
Definition esize (e : ent) : Z := psize (big e) + Zlen (payload (val e)).
Definition ebytes (prev : Z) (e : ent) : list Z := pbytes (big e) prev ++ payload (val e).
Definition fits (prev : Z) (b : bool) : Prop := 0 <= prev < 2 ^ 32 /\ (b = true \/ prev < 254).

(** The field the encoder chooses. *)
Definition wide (prev : Z) : bool := 254 <=? prev.

Lemma length_pbytes b prev : Zlen (pbytes b prev) = psize b.
Proof. destruct b; cbn [pbytes length psize]; rewrite ?length_le_bytes; lia. Qed.

Lemma psize_range b : 1 <= psize b <= 5.
Proof. destruct b; cbn; lia. Qed.

Lemma length_ebytes prev e : Zlen (ebytes prev e) = esize e.
Proof. unfold ebytes, esize. rewrite length_app, Nat2Z.inj_add, length_pbytes. done. Qed.

Lemma length_payload v : Zlen (payload v) = Zlen (vhead v) + Zlen (vdata v).
Proof. rewrite payload_split, length_app. lia. Qed.

Lemma esize_pos e : 2 <= esize e.
Proof. unfold esize. rewrite length_payload. pose proof (vhead_pos (val e)). pose proof (psize_range (big e)). lia. Qed.

Lemma fits_wide prev : 0 <= prev < 2 ^ 32 -> fits prev (wide prev).
Proof. intros Hp. split; [done|]. unfold wide. destruct (Z.leb_spec 254 prev); [by left|right; lia]. Qed.

Lemma prevlensize_spec (A C : block) b prev : fits prev b -> ZIP_DECODE_PREVLENSIZE (A ++ (Some <$> pbytes b prev) ++ C) (Zlen A) = Some (psize b).
Proof.
  intros [Hp Hb]. unfold ZIP_DECODE_PREVLENSIZE, ZIP_BIGLEN. destruct b; cbn [pbytes fmap list_fmap app].
  - by rewrite load8_here, bind_Some.
  - rewrite load8_here, bind_Some. destruct (Z.ltb_spec prev 254); [done|]. destruct Hb; [done|lia].
Qed.

Lemma prevlen_spec (A C : block) b prev : fits prev b -> ZIP_DECODE_PREVLEN (A ++ (Some <$> pbytes b prev) ++ C) (Zlen A) = Some (psize b, prev).
Proof.
  intros Hf. unfold ZIP_DECODE_PREVLEN. rewrite prevlensize_spec, bind_Some by done. destruct Hf as [Hp Hb].
  destruct b; cbn [psize]; cbn [Z.eqb Pos.eqb pbytes fmap list_fmap app].
  - replace (A ++ Some 254 :: (Some <$> le_bytes 4 prev) ++ C) with ((A ++ [Some 254]) ++ (Some <$> le_bytes 4 prev) ++ C) by (by rewrite <- app_assoc).
    rewrite <- snoc_len with (x := Some 254) (a := A).
    change (get_le memrev32ifbe 4) with (get_le (fun x => if big_endian then memrev32 x else Some x) 4).
    rewrite (get_le_spec _ C 4 memrev32 prev memrev32_rev), bind_Some. by rewrite Z.mod_small.
  - by rewrite load8_here, bind_Some.
Qed.

Lemma prev_size_only (zl : block) prev : zipPrevEncodeLength zl None prev = Some (zl, psize (wide prev)).
Proof. unfold zipPrevEncodeLength, wide, ZIP_BIGLEN. by destruct (Z.ltb_spec prev 254), (Z.leb_spec 254 prev); try lia. Qed.

Lemma force_large_spec (A B C : block) prev : length B = 5%nat ->
  zipPrevEncodeLengthForceLarge (A ++ B ++ C) (Zlen A) prev = Some (A ++ (Some <$> pbytes true prev) ++ C).
Proof.
  intros HB. destruct B as [|x B]; [done|]. injection HB as HB. unfold zipPrevEncodeLengthForceLarge. cbn [app].
  rewrite store8_app, bind_Some by done.
  replace (A ++ Some ZIP_BIGLEN :: B ++ C) with ((A ++ [Some 254]) ++ B ++ C) by (by rewrite <- app_assoc).
  rewrite <- snoc_len with (x := Some 254) (a := A).
  change (put_le memrev32ifbe 4) with (put_le (fun x => if big_endian then memrev32 x else Some x) 4).
  rewrite put_le_spec by (done || apply memrev32_rev). by rewrite <- app_assoc.
Qed.

Lemma prev_encode_spec (A B C : block) prev : 0 <= prev -> Zlen B = psize (wide prev) ->
  zipPrevEncodeLength (A ++ B ++ C) (Some (Zlen A)) prev = Some (A ++ (Some <$> pbytes (wide prev) prev) ++ C, psize (wide prev)).
Proof.
  intros Hp HB. unfold zipPrevEncodeLength, wide, ZIP_BIGLEN in *. destruct (Z.ltb_spec prev 254), (Z.leb_spec 254 prev); try lia; cbn [psize] in *.
  - destruct B as [|x [|]]; cbn [length] in HB; [lia| |lia]. cbn [app pbytes fmap list_fmap]. rewrite store8_app, bind_Some by (done || (unfold is_byte; lia)). done.
  - pose proof (force_large_spec A B C prev ltac:(lia)) as HF. unfold zipPrevEncodeLengthForceLarge, ZIP_BIGLEN in HF.
    revert HF. destruct (store8 _ _ _) as [z|]; [|done]. rewrite !bind_Some. intros ->. done.
Qed.

(** An entry in a block. *)
Definition ent_ok (e : ent) : Prop := val_ok (val e).

Section Entry.
Context (A C : block) (prev : Z) (e : ent) (zl : block).
Context (Ezl : zl = A ++ (Some <$> ebytes prev e) ++ C) (Hf : fits prev (big e)) (He : ent_ok e) (Hsz : Zlen zl < 2 ^ 31).

Lemma entry_prev : ZIP_DECODE_PREVLEN zl (Zlen A) = Some (psize (big e), prev) /\ ZIP_DECODE_PREVLENSIZE zl (Zlen A) = Some (psize (big e)).
Proof.
  rewrite Ezl. unfold ebytes. rewrite fmap_app, <- app_assoc. split; [by apply prevlen_spec|by apply prevlensize_spec].
Qed.

Lemma entry_room : esize e < 2 ^ 31 /\ Zlen A + esize e <= Zlen zl.
Proof.
  rewrite Ezl in Hsz. rewrite Ezl. rewrite !length_app, length_fmap in *. pose proof (length_ebytes prev e) as Hl. lia.
Qed.

Lemma entry_len : ZIP_DECODE_LENGTH zl (Zlen A + psize (big e)) = Some (venc (val e), Zlen (vhead (val e)), Zlen (vdata (val e))).
Proof.
  pose proof entry_room as [Hr _]. unfold esize in Hr. pose proof (psize_range (big e)).
  rewrite Ezl. unfold ebytes. rewrite payload_split, !fmap_app, <- !app_assoc, app_assoc.
  replace (Zlen A + psize (big e)) with (Zlen (A ++ (Some <$> pbytes (big e) prev))) by (rewrite length_app, length_fmap, Nat2Z.inj_add, length_pbytes; done).
  apply decode_val; [done|lia].
Qed.

Lemma entry_rawlen : zipRawEntryLength zl (Zlen A) = Some (esize e).
Proof.
  pose proof entry_room as [Hr _]. pose proof (esize_pos e). unfold zipRawEntryLength. destruct entry_prev as [_ ->]. rewrite bind_Some, entry_len, bind_Some.
  unfold esize in *. rewrite length_payload in *. f_equal. rewrite wrapu_id; lia.
Qed.

Definition zlentry_of (p : Z) : zlentry :=
  Zlentry (psize (big e)) prev (Zlen (vhead (val e))) (Zlen (vdata (val e))) (psize (big e) + Zlen (vhead (val e))) (venc (val e)) p.

Lemma entry_zlentry : zipEntry zl (Zlen A) = Some (zlentry_of (Zlen A)).
Proof.
  unfold zipEntry. destruct entry_prev as [-> _]. rewrite bind_Some, entry_len, bind_Some. unfold zlentry_of. do 2 f_equal.
  pose proof (vhead_pos (val e)). pose proof (psize_range (big e)). apply wrapu_id. lia.
Qed.

Lemma entry_first : exists c, load8 zl (Zlen A) = Some c /\ (c =? ZIP_END) = false.
Proof.
  rewrite Ezl. unfold ebytes. destruct Hf as [Hp Hb]. destruct (big e); cbn [pbytes app fmap list_fmap]; rewrite load8_here; eexists; split; try done.
  apply Z.eqb_neq. unfold ZIP_END. destruct Hb; [done|lia].
Qed.
End Entry.

Lemma zlentry_total prev e p : headersize (zlentry_of prev e p) + len (zlentry_of prev e p) = esize e.
Proof. unfold esize. rewrite length_payload. cbn. lia. Qed.

(** ** Lists of entries *)

Fixpoint body (prev : Z) (es : list ent) : list Z :=
  match es with [] => [] | e :: es => ebytes prev e ++ body (esize e) es end.

Fixpoint links (prev : Z) (es : list ent) : Prop :=
  match es with [] => True | e :: es => fits prev (big e) /\ links (esize e) es end.

Fixpoint bsize (es : list ent) : Z := match es with [] => 0 | e :: es => esize e + bsize es end.

Definition lastsize (d : Z) (es : list ent) : Z := match last es with Some e => esize e | None => d end.

Lemma length_body es : forall prev, Zlen (body prev es) = bsize es.
Proof. induction es as [|e es IH]; intros prev; cbn [body bsize]; [done|]. rewrite length_app, Nat2Z.inj_add, length_ebytes, IH. done. Qed.

Lemma bsize_app a b : bsize (a ++ b) = bsize a + bsize b.
Proof. induction a as [|e a IH]; cbn [app bsize]; lia. Qed.

Lemma bsize_pos es : 0 <= bsize es /\ 2 * Zlen es <= bsize es.
Proof. induction es as [|e es IH]; cbn [bsize length]; [lia|]. pose proof (esize_pos e). lia. Qed.

Lemma lastsize_cons d e es : lastsize d (e :: es) = lastsize (esize e) es.
Proof. unfold lastsize. by destruct es as [|e' es]; [|rewrite last_cons_cons; destruct (last (e' :: es)) eqn:E; [|apply last_None in E]]. Qed.

Lemma lastsize_app d a b : lastsize d (a ++ b) = lastsize (lastsize d a) b.
Proof. revert d. induction a as [|e a IH]; intros d; [done|]. cbn [app]. by rewrite !lastsize_cons. Qed.

Lemma zlbody_app a b : forall prev, body prev (a ++ b) = body prev a ++ body (lastsize prev a) b.
Proof. induction a as [|e a IH]; intros prev; [done|]. cbn [app body]. by rewrite IH, lastsize_cons, app_assoc. Qed.

Lemma links_app a b : forall prev, links prev (a ++ b) <-> links prev a /\ links (lastsize prev a) b.
Proof. induction a as [|e a IH]; intros prev; cbn [app links]; [rewrite ?lastsize_cons; tauto|]. rewrite IH, lastsize_cons. tauto. Qed.

(** ** The header *)

Definition hdr (t o n : Z) : block := Some <$> (le_bytes 4 t ++ le_bytes 4 o ++ le_bytes 2 n).

Lemma length_hdr t o n : length (hdr t o n) = 10%nat.
Proof. unfold hdr. by rewrite length_fmap, !length_app, !length_le_bytes. Qed.

Lemma get32_spec (A C : block) v : 0 <= v < 2 ^ 32 -> get32 (A ++ (Some <$> le_bytes 4 v) ++ C) (Zlen A) = Some v.
Proof.
  intros Hv. unfold get32. rewrite load_app, bind_Some by (rewrite ?length_le_bytes; done).
  rewrite intrev32ifbe_val by (apply length_le_bytes || apply le_bytes_is_byte). rewrite le_val_bytes. f_equal. by apply Z.mod_small.
Qed.

Lemma put32_spec (A B C : block) v : 0 <= v < 2 ^ 32 -> length B = 4%nat ->
  put32 (A ++ B ++ C) (Zlen A) v = Some (A ++ (Some <$> le_bytes 4 v) ++ C).
Proof.
  intros Hv HB. unfold put32. rewrite wrapu_id by done. destruct (intrev32ifbe_bytes v) as (v' & -> & E). rewrite bind_Some.
  rewrite store_app by (rewrite ?length_host_bytes; done). by rewrite E.
Qed.

Lemma get16_spec (A C : block) v : 0 <= v < 2 ^ 16 -> get16 (A ++ (Some <$> le_bytes 2 v) ++ C) (Zlen A) = Some v.
Proof.
  intros Hv. unfold get16. rewrite load_app, bind_Some by (rewrite ?length_le_bytes; done).
  rewrite intrev16ifbe_val by (apply length_le_bytes || apply le_bytes_is_byte). rewrite le_val_bytes. f_equal. by apply Z.mod_small.
Qed.

Lemma put16_spec (A B C : block) v : 0 <= v < 2 ^ 16 -> length B = 2%nat ->
  put16 (A ++ B ++ C) (Zlen A) v = Some (A ++ (Some <$> le_bytes 2 v) ++ C).
Proof.
  intros Hv HB. unfold put16. rewrite wrapu_id by done. destruct (intrev16ifbe_bytes v) as (v' & -> & E). rewrite bind_Some.
  rewrite store_app by (rewrite ?length_host_bytes; done). by rewrite E.
Qed.

Lemma hdr_split t o n X : hdr t o n ++ X = [] ++ (Some <$> le_bytes 4 t) ++ (Some <$> le_bytes 4 o) ++ (Some <$> le_bytes 2 n) ++ X.
Proof. unfold hdr. by rewrite !fmap_app, <- !app_assoc. Qed.

Section Header.
Context (t o n : Z) (X : block).
Let T : block := Some <$> le_bytes 4 t.
Let O : block := Some <$> le_bytes 4 o.

Lemma len_T : Zlen T = 4.
Proof. subst T. by rewrite length_fmap, length_le_bytes. Qed.

Lemma len_TO : Zlen (T ++ O) = 8.
Proof. subst T O. by rewrite length_app, !length_fmap, !length_le_bytes. Qed.

Lemma hdr_bytes : 0 <= t < 2 ^ 32 -> ZIPLIST_BYTES (hdr t o n ++ X) = Some t.
Proof. intros Ht. unfold ZIPLIST_BYTES. rewrite hdr_split. by apply (get32_spec []). Qed.

Lemma hdr_tail : 0 <= o < 2 ^ 32 -> ZIPLIST_TAIL_OFFSET (hdr t o n ++ X) = Some o.
Proof. intros Ho. unfold ZIPLIST_TAIL_OFFSET. rewrite hdr_split. cbn [app]. rewrite <- len_T. by apply get32_spec. Qed.

Lemma hdr_length : 0 <= n < 2 ^ 16 -> ZIPLIST_LENGTH (hdr t o n ++ X) = Some n.
Proof. intros Hn. unfold ZIPLIST_LENGTH. rewrite hdr_split. cbn [app]. rewrite app_assoc, <- len_TO. by apply get16_spec. Qed.

Lemma hdr_put0 t' : 0 <= t' < 2 ^ 32 -> put32 (hdr t o n ++ X) 0 t' = Some (hdr t' o n ++ X).
Proof. intros Ht. rewrite !hdr_split. rewrite (put32_spec [] T) by (done || (subst T; by rewrite length_fmap, length_le_bytes)). done. Qed.

Lemma hdr_put4 o' : 0 <= o' < 2 ^ 32 -> put32 (hdr t o n ++ X) 4 o' = Some (hdr t o' n ++ X).
Proof.
  intros Ho. rewrite !hdr_split. cbn [app]. rewrite <- len_T at 1. rewrite (put32_spec T O) by (done || (subst O; by rewrite length_fmap, length_le_bytes)). done.
Qed.

Lemma hdr_put8 n' : 0 <= n' < 2 ^ 16 -> put16 (hdr t o n ++ X) 8 n' = Some (hdr t o n' ++ X).
Proof.
  intros Hn. rewrite !hdr_split. cbn [app]. rewrite app_assoc, <- len_TO at 1.
  rewrite (put16_spec (T ++ O) (Some <$> le_bytes 2 n)) by (done || by rewrite length_fmap, length_le_bytes). by rewrite <- app_assoc.
Qed.

(** A saturated length stays; 65535 is the same in both byte orders. *)
Lemma hdr_incr d : 0 <= n < 2 ^ 16 -> 0 <= n + d < 2 ^ 16 \/ n = 65535 ->
  ZIPLIST_INCR_LENGTH (hdr t o n ++ X) d = Some (hdr t o (if n <? 65535 then n + d else n) ++ X).
Proof.
  intros Hn Hd. unfold ZIPLIST_INCR_LENGTH.
  assert (load (hdr t o n ++ X) 8 2 = Some (le_bytes 2 n)) as ->.
  { rewrite hdr_split. cbn [app]. rewrite app_assoc, <- len_TO. apply load_app; [done|]. by rewrite length_le_bytes. }
  rewrite bind_Some. assert (host_val (le_bytes 2 n) <? UINT16_MAX = (n <? 65535)) as ->.
  { unfold host_val. destruct big_endian; [|rewrite le_val_bytes; change (256 ^ Z.of_nat 2) with (2 ^ 16); rewrite Z.mod_small by done; done].
    unfold le_bytes. cbn [rev app]. unfold le_val. change UINT16_MAX with 65535.
    pose proof (Z.mod_pos_bound n 256 ltac:(lia)). pose proof (Z.mod_pos_bound (n / 256) 256 ltac:(lia)).
    pose proof (Z.div_mod n 256 ltac:(lia)). assert (n / 256 < 256) by (apply Z.div_lt_upper_bound; lia).
    rewrite (Z.mod_small (n / 256)) in * by (split; [apply Z.div_pos|]; lia). zcases; done. }
  rewrite intrev16ifbe_val, le_val_bytes by (apply length_le_bytes || apply le_bytes_is_byte). change (256 ^ Z.of_nat 2) with (2 ^ 16). rewrite (Z.mod_small n) by done.
  destruct (Z.ltb_spec n 65535); [|done]. rewrite bind_Some. apply hdr_put8. destruct Hd; lia.
Qed.

Lemma resize_spec L : 11 <= L < 2 ^ 32 ->
  ziplistResize (hdr t o n ++ X) L =
    Some (hdr L o n ++ take (Z.to_nat (L - 11)) (X ++ replicate (Z.to_nat (L - 10 - Zlen X)) None) ++ [Some 255]).
Proof.
  intros HL. unfold ziplistResize. rewrite (wrapu_id 32 L) by lia. set (R := replicate (Z.to_nat (L - 10 - Zlen X)) None).
  assert (zrealloc (hdr t o n ++ X) L = hdr t o n ++ take (Z.to_nat (L - 10)) (X ++ R)) as ->.
  { unfold zrealloc. rewrite !take_app, length_app, !length_hdr. rewrite (take_ge (hdr t o n)) by (rewrite length_hdr; lia).
    rewrite <- app_assoc. f_equal. replace (Z.to_nat L - 10)%nat with (Z.to_nat (L - 10)) by lia. f_equal.
    rewrite take_ge; [subst R; f_equal; lia|]. subst R. rewrite length_replicate. lia. }
  rewrite (wrapu_id 32 (L - 1)) by lia.
  assert (Zlen (X ++ R) >= L - 10) as Hlen by (subst R; rewrite length_app, length_replicate; lia).
  set (Y := X ++ R) in *. clearbody Y R.
  assert (put32 (hdr t o n ++ take (Z.to_nat (L - 10)) Y) 0 L = Some (hdr L o n ++ take (Z.to_nat (L - 10)) Y)) as ->.
  { rewrite !hdr_split. rewrite (put32_spec [] T) by (lia || (subst T; by rewrite length_fmap, length_le_bytes)). done. }
  rewrite bind_Some. replace (Z.to_nat (L - 10)) with (S (Z.to_nat (L - 11))) by lia.
  destruct (lookup_lt_is_Some_2 Y (Z.to_nat (L - 11)) ltac:(lia)) as (y & Ey).
  rewrite (take_S_r _ _ y Ey), !app_assoc. apply store8_app; [|done]. rewrite length_app, length_hdr, length_take. lia.
Qed.
End Header.

(** Growing a list leaves its end mark behind. *)
Definition grown (k : Z) : block := if k =? 0 then [Some 255] else Some 255 :: replicate (Z.to_nat (k - 1)) None ++ [Some 255].

Lemma length_grown k : 0 <= k -> Zlen (grown k) = k + 1.
Proof. intros Hk. unfold grown. destruct (Z.eqb_spec k 0); [by subst|]. cbn [length]. rewrite length_app, length_replicate. cbn [length]. lia. Qed.

Lemma grown_ends k : 0 <= k -> exists G, grown k = G ++ [Some 255] /\ exists G', grown k = Some 255 :: G'.
Proof.
  intros Hk. unfold grown. destruct (Z.eqb_spec k 0); [by exists []; split; [|exists []]|].
  eexists (Some 255 :: replicate _ None). split; [done|]. by eexists.
Qed.

Lemma zlresize_grow t o n B k L : 0 <= k -> L = 11 + Zlen B + k -> L < 2 ^ 32 ->
  ziplistResize (hdr t o n ++ B ++ [Some 255]) L = Some (hdr L o n ++ B ++ grown k).
Proof.
  intros Hk EL HL. rewrite resize_spec by lia. do 2 f_equal. rewrite length_app. cbn [length]. unfold grown.
  replace (Z.to_nat (L - 10 - Z.of_nat (length B + 1))) with (Z.to_nat k) by lia. destruct (Z.eqb_spec k 0) as [->|].
  - rewrite app_nil_r, take_app_length' by lia. done.
  - rewrite <- app_assoc. rewrite take_app_ge by lia. rewrite <- app_assoc. f_equal. cbn [app].
    replace (Z.to_nat (L - 11) - length B)%nat with (S (Z.to_nat (k - 1))) by lia. cbn [take].
    rewrite take_replicate, Nat.min_l by lia. done.
Qed.

Lemma zlresize_shrink t o n B D L : D <> [] -> L = 11 + Zlen B -> L < 2 ^ 32 ->
  ziplistResize (hdr t o n ++ B ++ D) L = Some (hdr L o n ++ B ++ [Some 255]).
Proof.
  intros HD EL HL. rewrite resize_spec by lia. do 2 f_equal. rewrite <- app_assoc, take_app_length' by lia. done.
Qed.

(** Moving the end of a grown list to its new end. *)
Lemma memmove_right (m Pre Src G : block) k : m = Pre ++ Src ++ G ++ [Some 255] -> Zlen G = k ->
  memmove m (Zlen Pre + k) (Zlen Pre) (Zlen Src) = Some (take (Z.to_nat (Zlen Pre + k)) m ++ Src ++ [Some 255]).
Proof.
  intros Em Hk.
  apply (memmove_app m Pre Src (G ++ [Some 255]) (take (Z.to_nat (Zlen Pre + k)) m)
    (take (length Src) (drop (Z.to_nat (Zlen Pre + k)) m)) [Some 255]); [done| |done|done| |].
  - rewrite <- (take_drop (Z.to_nat (Zlen Pre + k)) m) at 1. f_equal.
    rewrite <- (take_drop (length Src) (drop (Z.to_nat (Zlen Pre + k)) m)) at 1. f_equal. rewrite drop_drop, Em, !app_assoc.
    rewrite drop_app_length'; [done|]. rewrite !length_app. lia.
  - rewrite length_take, Em, !length_app. cbn [length]. lia.
  - rewrite length_take, length_drop, Em, !length_app. cbn [length]. lia.
Qed.

(** ** The cascade *)

Fixpoint cascade (s : Z) (es : list ent) : list ent :=
  match es with
  | [] => []
  | x :: es => if (s <? 254) || big x then x :: es else Ent true (val x) :: cascade (esize (Ent true (val x))) es
  end.

Lemma cascade_links s es : links s es -> cascade s es = es.
Proof.
  destruct es as [|x es]; [done|]. cbn [links cascade]. intros [[_ Hf] _].
  destruct (Z.ltb_spec s 254); [done|]. destruct Hf as [->|]; [done|lia].
Qed.

Lemma esize_big x : big x = false -> esize (Ent true (val x)) = esize x + 4.
Proof. unfold esize. intros ->. cbn. lia. Qed.

Lemma cascade_val s es : val <$> cascade s es = val <$> es.
Proof. revert s. induction es as [|x es IH]; intros s; [done|]. cbn [cascade]. destruct (_ || _); [done|]. rewrite !fmap_cons, IH. done. Qed.

Lemma cascade_bsize es : forall s, bsize es <= bsize (cascade s es) <= bsize es + 4 * Zlen es.
Proof.
  induction es as [|x es IH]; intros s; cbn [cascade bsize length]; [lia|].
  destruct ((s <? 254) || big x) eqn:E; [cbn [bsize]; lia|]. apply orb_false_iff in E as [_ E].
  cbn [bsize]. rewrite esize_big by done. specialize (IH (esize x + 4)). lia.
Qed.

Lemma lastsize_le d es : es <> [] -> lastsize d es <= bsize es.
Proof.
  intros Hne. revert d. induction es as [|x es IH]; intros d; [done|]. rewrite lastsize_cons. cbn [bsize].
  destruct es as [|y es]; [unfold lastsize; cbn [last bsize]; lia|]. specialize (IH ltac:(done) (esize x)). pose proof (esize_pos x). lia.
Qed.

Lemma length_somes (l : list Z) : length (Some <$> l) = length l.
Proof. apply length_fmap. Qed.

(** The cascade leaves consistent links, if the head of the rest had some. *)
Lemma cascade_ok es : forall s q, 0 <= s < 2 ^ 32 -> bsize es + 4 * Zlen es < 2 ^ 32 -> links q es -> links s (cascade s es).
Proof.
  induction es as [|x es IH]; intros s q Hs Hsz Hl; [done|]. cbn [links] in Hl. destruct Hl as [Hq Hl]. cbn [cascade].
  cbn [bsize length] in Hsz. pose proof (bsize_pos es). pose proof (esize_pos x).
  destruct ((s <? 254) || big x) eqn:E.
  - cbn [links]. split; [|done]. split; [done|]. apply orb_true_iff in E as [?%Z.ltb_lt|?]; [right; done|by left].
  - apply orb_false_iff in E as [_ E]. cbn [links big]. split; [split; [done|by left]|]. rewrite esize_big by done. apply (IH _ (esize x)); [lia|lia|done].
Qed.

End Spec.
