(* ===== verification/ZiplistOps.v ===== *)
(** The updating operations of [Ziplist.v]: the cascade of size fields, insertion,
    deletion and merging, on well formed lists of entries. *)

From S2P Require Import Prelude Endian Util Ziplist ZiplistSpec.

Section Ops.
Context {HOST : Host}.

(** A list whose first cells after the header are [A]. *)
Definition layout (t o n : Z) (A : block) (bs : list Z) : block := hdr t o n ++ A ++ (Some <$> bs) ++ [Some 255].

Lemma length_layout t o n A bs : Zlen (layout t o n A bs) = 11 + Zlen A + Zlen bs.
Proof. unfold layout. rewrite !length_app, length_hdr, length_somes. cbn [length]. lia. Qed.

Lemma length_hdr_app t o n (A : block) : Zlen (hdr t o n ++ A) = 10 + Zlen A.
Proof. rewrite length_app, length_hdr. lia. Qed.

Lemma load8_end t o n A bs : load8 (layout t o n A bs) (10 + Zlen A + Zlen bs) = Some 255.
Proof. unfold layout. rewrite !app_assoc. apply load8_app. rewrite !length_app, length_hdr, length_somes. lia. Qed.

Lemma layout_bytes t o n A bs : 0 <= t < 2 ^ 32 -> ZIPLIST_BYTES (layout t o n A bs) = Some t.
Proof. apply hdr_bytes. Qed.

Lemma layout_tail t o n A bs : 0 <= o < 2 ^ 32 -> ZIPLIST_TAIL_OFFSET (layout t o n A bs) = Some o.
Proof. apply hdr_tail. Qed.

Lemma layout_put_tail t o o' n A bs : 0 <= o' < 2 ^ 32 -> put32 (layout t o n A bs) 4 o' = Some (layout t o' n A bs).
Proof. apply hdr_put4. Qed.

(** The entry behind the first [A] cells. *)
Lemma layout_entry t o n A prev e bs :
  layout t o n A (ebytes prev e ++ bs) = (hdr t o n ++ A) ++ (Some <$> ebytes prev e) ++ (Some <$> bs) ++ [Some 255].
Proof. unfold layout. rewrite fmap_app, <- !app_assoc. done. Qed.

Lemma layout_shift t o n A bs bs' : layout t o n A (bs ++ bs') = layout t o n (A ++ (Some <$> bs)) bs'.
Proof. unfold layout. rewrite fmap_app, <- !app_assoc. done. Qed.

Section At.
Context (t o n : Z) (A : block) (prev : Z) (e : ent) (bs : list Z).
Context (Hf : fits prev (big e)) (He : ent_ok e) (Hsz : 11 + Zlen A + esize e + Zlen bs < 2 ^ 31).
Let zl := layout t o n A (ebytes prev e ++ bs).
Let p := 10 + Zlen A.

Lemma at_size : Zlen zl < 2 ^ 31.
Proof. unfold zl. rewrite length_layout, length_app, Nat2Z.inj_add, length_ebytes. lia. Qed.

Lemma at_split : zl = (hdr t o n ++ A) ++ (Some <$> ebytes prev e) ++ (Some <$> bs) ++ [Some 255].
Proof. apply layout_entry. Qed.

Lemma at_zlentry : zipEntry zl p = Some (zlentry_of prev e p).
Proof. unfold p. rewrite <- (length_hdr_app t o n). eapply entry_zlentry; [apply at_split|done|done|apply at_size]. Qed.

Lemma at_rawlen : zipRawEntryLength zl p = Some (esize e).
Proof. unfold p. rewrite <- (length_hdr_app t o n). eapply entry_rawlen; [apply at_split|done|done|apply at_size]. Qed.

Lemma at_prev : ZIP_DECODE_PREVLEN zl p = Some (psize (big e), prev) /\ ZIP_DECODE_PREVLENSIZE zl p = Some (psize (big e)).
Proof. unfold p. rewrite <- (length_hdr_app t o n). eapply entry_prev; [apply at_split|done]. Qed.

Lemma at_len : ZIP_DECODE_LENGTH zl (p + psize (big e)) = Some (venc (val e), Zlen (vhead (val e)), Zlen (vdata (val e))).
Proof. unfold p. rewrite <- (length_hdr_app t o n). eapply entry_len; [apply at_split|done|apply at_size]. Qed.

Lemma at_first : exists c, load8 zl p = Some c /\ (c =? ZIP_END) = false.
Proof. unfold p. rewrite <- (length_hdr_app t o n). eapply entry_first; [apply at_split|done]. Qed.
End At.

(** The same behind one more entry. *)
Lemma layout_next t o n A prev e bs : layout t o n A (ebytes prev e ++ bs) = layout t o n (A ++ (Some <$> ebytes prev e)) bs.
Proof. apply layout_shift. Qed.

Lemma length_next (A : block) prev e : Zlen (A ++ (Some <$> ebytes prev e)) = Zlen A + esize e.
Proof. rewrite length_app, length_somes, Nat2Z.inj_add, length_ebytes. done. Qed.

Lemma u32_esize e : esize e < 2 ^ 31 -> u32 (esize e) = esize e.
Proof. intros. pose proof (esize_pos e). apply wrapu_id. lia. Qed.

(** Writing the size field of an entry in place. *)
Lemma layout_field t o n A b prev bs : layout t o n A (pbytes b prev ++ bs) = (hdr t o n ++ A) ++ (Some <$> pbytes b prev) ++ (Some <$> bs) ++ [Some 255].
Proof. unfold layout. rewrite fmap_app, <- !app_assoc. done. Qed.

Lemma layout_set_prev t o n A b prev s bs : 0 <= s -> b = wide s ->
  zipPrevEncodeLength (layout t o n A (pbytes b prev ++ bs)) (Some (10 + Zlen A)) s = Some (layout t o n A (pbytes b s ++ bs), psize b).
Proof.
  intros Hs ->. rewrite !layout_field, <- (length_hdr_app t o n). apply prev_encode_spec; [done|]. by rewrite length_somes, length_pbytes.
Qed.

Lemma layout_set_large t o n A prev s bs :
  zipPrevEncodeLengthForceLarge (layout t o n A (pbytes true prev ++ bs)) (10 + Zlen A) s = Some (layout t o n A (pbytes true s ++ bs)).
Proof. rewrite !layout_field, <- (length_hdr_app t o n). apply force_large_spec. by rewrite length_somes. Qed.

(** Room for a wider field, made by one iteration of the cascade. *)
Lemma layout_widen t o n A prev s bs (zl1 := hdr (t + 4) o n ++ A ++ (Some <$> pbytes false prev ++ bs) ++ grown 4) o' : 254 <= s < 2 ^ 32 -> 0 <= o' < 2 ^ 32 ->
  t = 12 + Zlen A + Zlen bs -> t < 2 ^ 31 ->
  (zl ← put32 zl1 4 o';
   zl ← memmove zl (10 + Zlen A + 5) (10 + Zlen A + 1) (u64 (t - (10 + Zlen A) - 1 - 1));
   '(zl, _) ← zipPrevEncodeLength zl (Some (10 + Zlen A)) s; Some zl) = Some (layout (t + 4) o' n A (pbytes true s ++ bs)).
Proof.
  intros Hs Ho Ht Hsz. subst zl1. rewrite hdr_put4, bind_Some by done.
  set (m := hdr (t + 4) o' n ++ A ++ (Some <$> pbytes false prev ++ bs) ++ grown 4).
  destruct (grown_ends 4 ltac:(lia)) as (G & EG & _). pose proof (length_grown 4 ltac:(lia)) as HG. rewrite EG, snoc_len in HG.
  assert (m = (hdr (t + 4) o' n ++ A ++ [Some prev]) ++ (Some <$> bs) ++ G ++ [Some 255]) as Em.
  { subst m. rewrite EG. cbn [pbytes app]. rewrite fmap_cons, <- !app_assoc. done. }
  pose proof (memmove_right m _ _ _ 4 Em ltac:(lia)) as Hm.
  replace (Zlen (hdr (t + 4) o' n ++ A ++ [Some prev])) with (10 + Zlen A + 1) in Hm by (rewrite !length_app, length_hdr; cbn [length]; lia).
  rewrite length_somes in Hm. replace (10 + Zlen A + 1 + 4) with (10 + Zlen A + 5) in Hm by lia.
  rewrite (wrapu_id 64) by lia. replace (t - (10 + Zlen A) - 1 - 1) with (Zlen bs) by lia. rewrite Hm, bind_Some.
  assert (exists V, length V = 5%nat /\ take (Z.to_nat (10 + Zlen A + 5)) m = (hdr (t + 4) o' n ++ A) ++ V) as (V & HV & ->).
  { assert (exists R, m = (hdr (t + 4) o' n ++ A) ++ R /\ 5 <= Zlen R) as (R & ER & HR).
    { exists ([Some prev] ++ (Some <$> bs) ++ G ++ [Some 255]). split; [rewrite Em, <- !app_assoc; done|]. rewrite !length_app. cbn [length]. lia. }
    exists (take 5 R). split; [rewrite length_take; lia|]. rewrite ER, take_app_ge by (rewrite length_app, length_hdr; lia). do 2 f_equal.
    rewrite length_app, length_hdr. lia. }
  rewrite <- app_assoc, <- (length_hdr_app (t + 4) o' n), prev_encode_spec, bind_Some; [|lia|rewrite HV; unfold wide; destruct (Z.leb_spec 254 s); [done|lia]].
  assert (wide s = true) as -> by (unfold wide; destruct (Z.leb_spec 254 s); [done|lia]). by rewrite layout_field.
Qed.

Lemma wide_spec s : wide s = true <-> 254 <= s.
Proof. unfold wide. destruct (Z.leb_spec 254 s); split; done || lia. Qed.

(** Total size and tail offset of the list that has [es] behind the entry [e]. *)
Definition tot (A : block) (e : ent) (es : list ent) : Z := 11 + Zlen A + esize e + bsize es.
Definition toff (A : block) (e : ent) (es : list ent) : Z := 10 + Zlen A + esize e + bsize es - lastsize (esize e) es.

Lemma tot_next A p0 e x es : tot (A ++ (Some <$> ebytes p0 e)) x es = tot A e (x :: es).
Proof. unfold tot. rewrite length_next. cbn [bsize]. lia. Qed.

Lemma toff_next A p0 e x es : toff (A ++ (Some <$> ebytes p0 e)) x es = toff A e (x :: es).
Proof. unfold toff. rewrite length_next, lastsize_cons. cbn [bsize]. lia. Qed.

Lemma lastsize_pos d es : 0 <= d -> 0 <= lastsize d es.
Proof. intros Hd. unfold lastsize. destruct (last es) as [e|]; [pose proof (esize_pos e); lia|done]. Qed.

Lemma toff_range A e es : 0 <= toff A e es <= tot A e es.
Proof.
  unfold toff, tot. pose proof (bsize_pos es) as [Hb _]. pose proof (esize_pos e). pose proof (lastsize_pos (esize e) es ltac:(lia)).
  destruct es as [|x es]; [unfold lastsize in *; cbn [last bsize] in *; lia|]. pose proof (lastsize_le (esize e) (x :: es) ltac:(done)). lia.
Qed.

(** One entry behind the first. *)
Lemma cascade_step fuel A p0 e q x es n : fits p0 (big e) -> ent_ok e -> fits q (big x) -> ent_ok x ->
  tot A e (x :: es) + 4 < 2 ^ 31 ->
  let A' := A ++ (Some <$> ebytes p0 e) in let s := esize e in
  cascade_loop (S fuel) (layout (tot A e (x :: es)) (toff A e (x :: es)) n A (ebytes p0 e ++ body q (x :: es))) (10 + Zlen A) (tot A e (x :: es)) =
    if (q =? s) || (s <? 254) || big x then Some (layout (tot A e (x :: es)) (toff A e (x :: es)) n A (ebytes p0 e ++ ebytes s x ++ body (esize x) es))
    else let x' := Ent true (val x) in
      cascade_loop fuel (layout (tot A' x' es) (toff A' x' es) n A' (ebytes s x' ++ body (esize x) es)) (10 + Zlen A') (tot A' x' es).
Proof.
  intros Hfe Hoe Hfx Hox Hsz A' s. pose proof (bsize_pos es) as [Hb _]. pose proof (esize_pos e) as He. pose proof (esize_pos x) as Hx.
  assert (tot A e (x :: es) = 11 + Zlen A + esize e + esize x + bsize es) as Etot by (unfold tot; cbn [bsize]; lia).
  set (T := tot A e (x :: es)) in *. set (o := toff A e (x :: es)) in *. cbn [cascade_loop body].
  assert (11 + Zlen A + esize e + Zlen (ebytes q x ++ body (esize x) es) < 2 ^ 31) as Hs1.
  { rewrite length_app, Nat2Z.inj_add, length_ebytes, length_body. lia. }
  destruct (at_first T o n A p0 e (ebytes q x ++ body (esize x) es) Hfe) as (c & -> & Ec). rewrite bind_Some, Ec.
  rewrite (at_zlentry T o n A p0 e _ Hfe Hoe Hs1), bind_Some. rewrite zlentry_total, u32_esize, prev_size_only, bind_Some by lia.
  rewrite layout_next. fold A'. assert (Zlen A' = Zlen A + esize e) as EA' by apply length_next.
  replace (10 + Zlen A + esize e) with (10 + Zlen A') by lia.
  assert (11 + Zlen A' + esize x + Zlen (body (esize x) es) < 2 ^ 31) as Hs2 by (rewrite length_body; lia).
  destruct (at_first T o n A' q x (body (esize x) es) Hfx) as (c' & -> & Ec'). rewrite bind_Some, Ec'.
  rewrite (at_zlentry T o n A' q x _ Hfx Hox Hs2), bind_Some. cbn [prevrawlen prevrawlensize zlentry_of]. fold s.
  destruct (Z.eqb_spec q s) as [->|Hqs]; cbn [orb].
  { rewrite (layout_next T o n A p0 e). fold A'. done. }
  destruct (Z.ltb_spec (psize (big x)) (psize (wide s))) as [Hw|Hw].
  - assert (big x = false /\ wide s = true) as [Ebx Ews] by (destruct (big x), (wide s); cbn in Hw; done || lia).
    rewrite Ebx, Ews in *. apply wide_spec in Ews. destruct (Z.ltb_spec s 254); [lia|]. cbn [orb psize]. change (5 - 1) with 4.
    unfold ebytes at 1. rewrite Ebx. unfold layout at 1. rewrite (app_assoc A'), <- app_assoc. rewrite <- (app_assoc (pbytes false q)).
    assert (T = 12 + Zlen A' + Zlen (payload (val x) ++ body (esize x) es)) as ET.
    { rewrite length_app, Nat2Z.inj_add, length_body. unfold esize in Etot at 2. rewrite Ebx in Etot. cbn [psize] in Etot. lia. }
    rewrite (app_assoc A'), (zlresize_grow _ _ _ _ 4 (T + 4)), bind_Some; [|lia| |lia].
    2: { rewrite length_app, length_somes, length_app. cbn [pbytes length]. rewrite !Nat2Z.inj_add. cbn. lia. }
    pose proof (toff_range A e (x :: es)) as Ho. fold T o in Ho. rewrite hdr_tail, bind_Some by lia.
    assert (esize (Ent true (val x)) = esize x + 4) as Ex' by (by apply esize_big).
    assert (tot A' (Ent true (val x)) es = T + 4) as -> by (unfold tot; lia).
    assert ((if negb (o =? 10 + Zlen A') then put32 (hdr (T + 4) o n ++ (A' ++ (Some <$> pbytes false q ++ payload (val x) ++ body (esize x) es)) ++ grown 4) 4 (o + 4)
      else Some (hdr (T + 4) o n ++ (A' ++ (Some <$> pbytes false q ++ payload (val x) ++ body (esize x) es)) ++ grown 4)) =
      put32 (hdr (T + 4) o n ++ (A' ++ (Some <$> pbytes false q ++ payload (val x) ++ body (esize x) es)) ++ grown 4) 4 (toff A' (Ent true (val x)) es)) as ->.
    { assert (o = toff A' x es) as Eo by (subst o; symmetry; apply toff_next). unfold toff in Eo |- *. rewrite Ex'.
      destruct es as [|y es].
      - unfold lastsize in *. cbn [last bsize] in *. destruct (Z.eqb_spec o (10 + Zlen A')); [|lia]. cbn [negb].
        rewrite hdr_put4 by lia. repeat f_equal. lia.
      - pose proof (lastsize_le (esize x) (y :: es) ltac:(done)) as Hle.
        assert (lastsize (esize x + 4) (y :: es) = lastsize (esize x) (y :: es)) as -> by (unfold lastsize; destruct (last (y :: es)) eqn:El; [done|by apply last_None in El]).
        destruct (Z.eqb_spec o (10 + Zlen A')); [lia|]. cbn [negb]. f_equal. lia. }
    pose proof (layout_widen T o n A' q s (payload (val x) ++ body (esize x) es) (toff A' (Ent true (val x)) es)) as HW. cbv zeta in HW.
    pose proof (toff_range A' (Ent true (val x)) es) as Ho'. assert (tot A' (Ent true (val x)) es = T + 4) as ET' by (unfold tot; lia).
    specialize (HW ltac:(lia) ltac:(lia) ET ltac:(lia)).
    rewrite <- (app_assoc A'). destruct (put32 _ _ _) as [z1|]; [|done]. rewrite bind_Some in HW |- *.
    destruct (memmove _ _ _ _) as [z2|]; [|done]. rewrite bind_Some in HW |- *.
    destruct (zipPrevEncodeLength z2 _ _) as [[z3 ?]|]; [|done]. rewrite bind_Some in HW |- *. injection HW as ->.
    rewrite (wrapu_id 64) by lia. unfold ebytes at 1. cbn [big val]. rewrite <- app_assoc. done.
  - rewrite Z.gtb_ltb. destruct (Z.ltb_spec (psize (wide s)) (psize (big x))) as [Hw'|Hw'].
    + assert (big x = true) as Ebx by (destruct (big x), (wide s); cbn in *; done || lia).
      unfold ebytes at 1. rewrite Ebx, orb_true_r, <- app_assoc.
      rewrite layout_set_large. rewrite (layout_next T o n A p0 e). fold A'. unfold ebytes. rewrite Ebx, <- app_assoc. done.
    + assert (big x = wide s) as Ebw by (destruct (big x), (wide s); cbn in *; done || lia).
      unfold ebytes at 1. rewrite <- app_assoc, layout_set_prev, bind_Some by (done || lia).
      assert ((s <? 254) || big x = true) as ->.
      { rewrite Ebw. unfold wide. destruct (Z.ltb_spec s 254), (Z.leb_spec 254 s); done || lia. }
      rewrite (layout_next T o n A p0 e). fold A'. unfold ebytes. rewrite <- app_assoc. done.
Qed.

Lemma cascade_loop_spec es : forall fuel A p0 e q n (es' := cascade (esize e) es), fits p0 (big e) -> ent_ok e -> links q es -> Forall ent_ok es ->
  (length es < fuel)%nat -> tot A e es + 4 * Zlen es < 2 ^ 31 ->
  cascade_loop fuel (layout (tot A e es) (toff A e es) n A (ebytes p0 e ++ body q es)) (10 + Zlen A) (tot A e es) =
    Some (layout (tot A e es') (toff A e es') n A (ebytes p0 e ++ body (esize e) es')).
Proof.
  induction es as [|x es IH]; intros fuel A p0 e q n es' Hfe Hoe Hl Hok Hfu Hsz; (destruct fuel as [|fuel]; [cbn [length] in Hfu; lia|]).
  - subst es'. cbn [cascade body] in *. rewrite !app_nil_r. cbn [cascade_loop]. unfold tot in Hsz. cbn [bsize length] in Hsz.
    pose proof (esize_pos e). assert (11 + Zlen A + esize e + Zlen ([] : list Z) < 2 ^ 31) as Hs1 by (cbn [length]; lia).
    pose proof (at_first (tot A e []) (toff A e []) n A p0 e [] Hfe) as (c & Hc & Ec). rewrite app_nil_r in Hc. rewrite Hc, bind_Some, Ec.
    pose proof (at_zlentry (tot A e []) (toff A e []) n A p0 e [] Hfe Hoe Hs1) as Hz. rewrite app_nil_r in Hz. rewrite Hz, bind_Some.
    rewrite zlentry_total, u32_esize, prev_size_only, bind_Some by lia. rewrite <- (length_ebytes p0 e), load8_end, bind_Some. done.
  - inversion_clear Hok as [|? ? Hox Hok']. cbn [links] in Hl. destruct Hl as [Hfx Hl]. cbn [length] in Hfu, Hsz.
    rewrite cascade_step by (done || lia). subst es'. cbn [cascade].
    destruct (Z.eqb_spec q (esize e)) as [->|_]; cbn [orb].
    { assert ((esize e <? 254) || big x = true) as ->; [|done]. destruct Hfx as [_ [->|Hlt]]; [apply orb_true_r|]. destruct (Z.ltb_spec (esize e) 254); [done|lia]. }
    destruct ((esize e <? 254) || big x) eqn:Ex; [done|]. apply orb_false_iff in Ex as [Ex Ebx]. apply Z.ltb_ge in Ex.
    assert (0 <= esize e < 2 ^ 32) as Her. { unfold tot in Hsz. cbn [bsize] in Hsz. pose proof (bsize_pos es). pose proof (esize_pos x). lia. }
    rewrite (IH fuel _ (esize e) (Ent true (val x)) (esize x) n); [|split; [done|by left]|done|done|done|lia|].
    + rewrite tot_next, toff_next. by rewrite (layout_next _ _ n A p0 e).
    + rewrite tot_next. unfold tot in Hsz |- *. cbn [bsize] in Hsz |- *. rewrite esize_big by done. lia.
Qed.

Lemma cascade_update_spec es A p0 e q n (es' := cascade (esize e) es) : fits p0 (big e) -> ent_ok e -> links q es -> Forall ent_ok es ->
  tot A e es + 4 * Zlen es < 2 ^ 31 ->
  __ziplistCascadeUpdate (layout (tot A e es) (toff A e es) n A (ebytes p0 e ++ body q es)) (10 + Zlen A) =
    Some (layout (tot A e es') (toff A e es') n A (ebytes p0 e ++ body (esize e) es')).
Proof.
  intros Hfe Hoe Hl Hok Hsz. unfold __ziplistCascadeUpdate. pose proof (bsize_pos es) as [Hb1 Hb2]. pose proof (esize_pos e).
  assert (0 <= tot A e es < 2 ^ 32) by (unfold tot in *; lia).
  rewrite layout_bytes, bind_Some by done. apply cascade_loop_spec; try done.
  pose proof (length_layout (tot A e es) (toff A e es) n A (ebytes p0 e ++ body q es)) as HL.
  rewrite length_app, Nat2Z.inj_add, length_ebytes, length_body in HL. lia.
Qed.

(** ** Insertion *)

(** The entry behind a changed position gets the size [s] of its new predecessor. *)
Definition relink (s : Z) (es : list ent) : list ent :=
  match es with [] => [] | x :: es => let x' := Ent (wide s) (val x) in x' :: cascade (esize x') es end.

Lemma relink_val s es : val <$> relink s es = val <$> es.
Proof. destruct es as [|x es]; [done|]. cbn [relink]. by rewrite !fmap_cons, cascade_val. Qed.

Definition new_ent (prev : Z) (s : list Z) : ent := Ent (wide prev) (of_text s).

(** The encoding chosen for a string, in the parts the code keeps it in. *)
Lemma insert_encoding s : exists r, zipTryEncoding s = Some r /\
  let encoding := match r with Some (_, encoding) => encoding | None => 0 end in
  let value := match r with Some (value, _) => value | None => 123456789 end in
  match r with Some _ => zipIntSize encoding | None => Zlen s end = Zlen (vdata (of_text s)) /\
  length_buf encoding (Zlen s) = vhead (of_text s) /\
  forall A B C, length B = length (vdata (of_text s)) ->
    (if ZIP_IS_STR encoding then store (A ++ B ++ C) (Zlen A) s else zipSaveInteger (A ++ B ++ C) (Zlen A) value encoding) =
    Some (A ++ (Some <$> vdata (of_text s)) ++ C).
Proof.
  unfold of_text. destruct (try_encoding_spec s) as [(v & Hv & -> & ->)|[-> _]]; (eexists; split; [done|]); cbv zeta.
  - destruct (int_enc_cases v Hv) as (He & Hs & Hc). cbn [vdata vhead]. unfold length_buf. rewrite Hs. split_and!.
    + unfold int_bytes. rewrite length_le_bytes, Z2Nat.id; [done|].
      destruct Hc as [(_ & _ & ->)|[(_ & -> & _)|[(_ & -> & _)|[(_ & -> & _)|[(_ & -> & _)|(_ & -> & _)]]]]]; lia.
    + done.
    + intros A B C HB. by apply save_integer_spec.
  - cbn [vdata vhead]. split_and!; [done|done|]. intros A B C HB. change (ZIP_IS_STR 0) with true. cbv iota. by apply store_app.
Qed.

Lemma write_zlentry_spec (Pre J Post : block) prev s r : 0 <= prev -> Zlen J = esize (new_ent prev s) -> zipTryEncoding s = Some r ->
  write_zlentry (Pre ++ J ++ Post) (Zlen Pre) prev (match r with Some (_, encoding) => encoding | None => 0 end)
    (match r with Some (value, _) => value | None => 123456789 end) s = Some (Pre ++ (Some <$> ebytes prev (new_ent prev s)) ++ Post).
Proof.
  intros Hp HJ Er. destruct (insert_encoding s) as (r' & Er' & Hd & Hb & Hw). rewrite Er in Er'. injection Er' as <-. cbv zeta in *.
  unfold write_zlentry. unfold esize, new_ent in HJ. cbn [big val] in HJ. rewrite length_payload in HJ.
  pose proof (psize_range (wide prev)). pose proof (vhead_pos (of_text s)).
  destruct (block_split J (psize (wide prev)) ltac:(lia)) as (J1 & J' & -> & HJ1). rewrite length_app in HJ.
  destruct (block_split J' (Zlen (vhead (of_text s))) ltac:(lia)) as (J2 & J3 & -> & HJ2). rewrite length_app in HJ.
  rewrite <- !app_assoc. rewrite prev_encode_spec, bind_Some by done. unfold zipEncodeLength. rewrite Hb.
  replace (Zlen Pre + psize (wide prev)) with (Zlen (Pre ++ (Some <$> pbytes (wide prev) prev))) by (rewrite length_app, length_somes, Nat2Z.inj_add, length_pbytes; done).
  rewrite (app_assoc Pre), store_app by (done || lia). rewrite !bind_Some.
  rewrite <- length_somes, <- Nat2Z.inj_add, <- length_app, app_assoc, Hw by lia.
  unfold ebytes, new_ent. cbn [big val]. rewrite payload_split, !fmap_app, <- !app_assoc. done.
Qed.

(** Whether the entry behind [e] is the end mark. *)
Lemma next_byte t o n A p0 e q es : links q es -> exists c, load8 (layout t o n A (ebytes p0 e ++ body q es)) (10 + Zlen A + esize e) = Some c /\
  (c =? ZIP_END) = match es with [] => true | _ => false end.
Proof.
  rewrite layout_next, <- Z.add_assoc, <- (length_next A p0 e). destruct es as [|x es]; cbn [links body].
  - intros _. exists 255. split; [|done]. pose proof (load8_end t o n (A ++ (Some <$> ebytes p0 e)) []) as H. by rewrite Z.add_0_r in H.
  - intros [Hf _]. by apply at_first.
Qed.

(** The last cells of a prefix. *)
Lemma block_split_r (b : block) n : 0 <= n <= Zlen b -> exists x y, b = x ++ y /\ Zlen y = n.
Proof.
  intros Hn. destruct (block_split b (Zlen b - n) ltac:(lia)) as (x & y & E & Hx). exists x, y. split; [done|]. rewrite E, length_app in Hx. lia.
Qed.

Lemma take_prefix (a r : block) n : 0 <= n <= Zlen r -> exists j, take (Z.to_nat (Zlen a + n)) (a ++ r) = a ++ j /\ Zlen j = n.
Proof.
  intros Hn. exists (take (Z.to_nat n) r). rewrite take_app_ge by lia. split; [do 2 f_equal; lia|]. rewrite length_take. lia.
Qed.

Lemma lastsize_nonempty d d' es : es <> [] -> lastsize d es = lastsize d' es.
Proof. intros Hne. unfold lastsize. destruct (last es) eqn:E; [done|]. by apply last_None in E. Qed.

Lemma esize_change x b : esize (Ent b (val x)) = esize x + psize b - psize (big x).
Proof. unfold esize. cbn [big val]. lia. Qed.

(** The two updates of the tail offset, when the field of the entry behind the
    change takes [nd] more bytes and the entry is moved by [d]. *)
Lemma tail_update t A x b es n bs s d o (x' := Ent b (val x)) (nd := psize b - psize (big x)) : o = toff A x es ->
  0 <= o + d < 2 ^ 31 -> links (esize x) es -> bs = ebytes s x' ++ body (esize x) es -> forall J Q, Zlen J = Zlen A + d -> 0 <= toff J x' es < 2 ^ 31 ->
  (c ← load8 (layout t (o + d) n Q bs) (10 + Zlen Q + esize x');
   if negb (c =? ZIP_END) then tail ← ZIPLIST_TAIL_OFFSET (layout t (o + d) n Q bs); put32 (layout t (o + d) n Q bs) 4 (tail + nd)
   else Some (layout t (o + d) n Q bs)) = Some (layout t (toff J x' es) n Q bs).
Proof.
  intros -> Ho Hl -> J Q HJ HT. destruct (next_byte t (toff A x es + d) n Q s x' (esize x) es Hl) as (c & -> & Ec). rewrite bind_Some, Ec.
  unfold x' in HT |- *. unfold toff in *. rewrite esize_change in HT |- *. fold nd. destruct es as [|y es]; cbn [negb].
  - unfold lastsize in *. cbn [last bsize] in *. do 2 f_equal. lia.
  - rewrite layout_tail, bind_Some by lia. rewrite (lastsize_nonempty (esize x + psize b - psize (big x)) (esize x)) in HT |- * by done.
    rewrite layout_put_tail by lia. do 2 f_equal. lia.
Qed.

(** The contents behind the change, moved to make room for the new entry. *)
Lemma open_gap_move A L o n q s x P k (pay := Some <$> payload (val x) ++ P) (nd := psize (wide s) - psize (big x)) :
  2 <= s -> k = s + nd -> 0 <= k -> 12 + Zlen A + Zlen pay < 2 ^ 32 ->
  exists J V, Zlen J = s /\ Zlen V = psize (wide s) /\
    memmove (hdr L o n ++ A ++ (Some <$> ebytes q x ++ P) ++ grown k) (10 + Zlen A + s) (10 + Zlen A - nd) (psize (big x) + Zlen pay + nd) =
      Some (hdr L o n ++ (A ++ J) ++ V ++ pay ++ [Some 255]).
Proof.
  intros Hs Ek Hk Hsz. pose proof (psize_range (wide s)). pose proof (psize_range (big x)).
  set (pb := Some <$> pbytes (big x) q). assert (Zlen pb = psize (big x)) as Hpb by (subst pb; by rewrite length_somes, length_pbytes).
  destruct (block_split_r (hdr L o n ++ A ++ pb) (psize (wide s))) as (W & V & EW & HV).
  { rewrite !length_app, length_hdr. subst nd. lia. }
  destruct (grown_ends k Hk) as (G & EG & _). pose proof (length_grown k Hk) as HG. rewrite EG, snoc_len in HG.
  set (m := hdr L o n ++ A ++ (Some <$> ebytes q x ++ P) ++ grown k).
  assert (m = hdr L o n ++ A ++ pb ++ pay ++ G ++ [Some 255]) as Em by (subst m pb pay; unfold ebytes; rewrite EG, !fmap_app, <- !app_assoc; done).
  assert (m = W ++ (V ++ pay) ++ G ++ [Some 255]) as Em'.
  { rewrite Em, <- !app_assoc, (app_assoc W), <- EW, <- !app_assoc. done. }
  assert (Zlen W = 10 + Zlen A - nd) as HW.
  { pose proof (f_equal length EW) as El. rewrite !length_app, length_hdr in El. subst nd. lia. }
  pose proof (memmove_right m W (V ++ pay) G k Em' ltac:(lia)) as Hm. rewrite HW in Hm.
  replace (10 + Zlen A - nd + k) with (Zlen (hdr L o n ++ A) + s) in Hm by (rewrite length_app, length_hdr; lia).
  rewrite app_assoc in Em.
  destruct (take_prefix (hdr L o n ++ A) (pb ++ pay ++ G ++ [Some 255]) s) as (J & EJ & HJ).
  { rewrite !length_app. cbn [length]. subst nd. lia. }
  rewrite <- Em in EJ. rewrite EJ in Hm. exists J, V. split_and!; [done|done|].
  replace (10 + Zlen A + s) with (Zlen (hdr L o n ++ A) + s) by (rewrite length_app, length_hdr; lia).
  replace (psize (big x) + Zlen pay + nd) with (Zlen (V ++ pay)) by (rewrite length_app; subst nd; lia).
  rewrite Hm. by rewrite <- !app_assoc.
Qed.

Lemma open_gap_spec A n q s x es k (x' := Ent (wide s) (val x)) (nd := psize (wide s) - psize (big x)) : fits q (big x) -> ent_ok x -> links (esize x) es ->
  2 <= s -> k = s + nd -> 0 <= k -> tot A x es + s + 4 < 2 ^ 31 ->
  exists J, Zlen J = s /\
    open_gap (hdr (tot A x es + k) (toff A x es) n ++ A ++ (Some <$> ebytes q x ++ body (esize x) es) ++ grown k) (10 + Zlen A) (tot A x es) s nd =
      Some (layout (tot (A ++ J) x' es) (toff (A ++ J) x' es) n (A ++ J) (ebytes s x' ++ body (esize x) es)).
Proof.
  intros Hfx Hox Hl Hs Ek Hk Hsz. pose proof (bsize_pos es) as [Hb _]. pose proof (esize_pos x). pose proof (psize_range (wide s)). pose proof (psize_range (big x)).
  unfold open_gap.
  destruct (entry_first (hdr (tot A x es + k) (toff A x es) n ++ A) ((Some <$> body (esize x) es) ++ grown k) q x
    (hdr (tot A x es + k) (toff A x es) n ++ A ++ (Some <$> ebytes q x ++ body (esize x) es) ++ grown k)) as (c & Hc & Ec).
  { by rewrite fmap_app, <- !app_assoc. }
  { done. }
  rewrite length_hdr_app in Hc. rewrite Hc, bind_Some, Ec. cbn [negb].
  assert (Zlen (Some <$> payload (val x) ++ body (esize x) es) = esize x - psize (big x) + bsize es) as Hpay.
  { rewrite length_somes, length_app, Nat2Z.inj_add, length_body. unfold esize. lia. }
  destruct (open_gap_move A (tot A x es + k) (toff A x es) n q s x (body (esize x) es) k Hs Ek Hk) as (J & V & HJ & HV & Hm).
  { rewrite Hpay. unfold tot in Hsz. lia. }
  fold nd in Hm. rewrite Hpay in Hm. rewrite (wrapu_id 64) by (unfold tot in *; subst nd; lia).
  replace (tot A x es - (10 + Zlen A) - 1 + nd) with (psize (big x) + (esize x - psize (big x) + bsize es) + nd) by (unfold tot; lia).
  rewrite Hm, bind_Some. rewrite (wrapu_id 32 s) by (unfold tot in *; lia).
  assert (Zlen (A ++ J) = Zlen A + s) as HAJ by (rewrite length_app; lia).
  replace (10 + Zlen A + s) with (Zlen (hdr (tot A x es + k) (toff A x es) n ++ A ++ J)) by (rewrite length_hdr_app; lia).
  rewrite (app_assoc (hdr _ _ _) (A ++ J)), prev_encode_spec, bind_Some by (done || lia).
  assert (esize x' = esize x + nd) as Ex' by (subst x' nd; rewrite esize_change; lia).
  pose proof (toff_range (A ++ J) x' es) as HT'. assert (tot (A ++ J) x' es = tot A x es + k) as ET by (unfold tot; lia). rewrite ET in *.
  pose proof (toff_range A x es) as HT. pose proof (psize_range (wide s)). pose proof (psize_range (big x)).
  set (bs := ebytes s x' ++ body (esize x) es).
  assert (forall o', (hdr (tot A x es + k) o' n ++ A ++ J) ++ (Some <$> pbytes (wide s) s) ++ (Some <$> payload (val x) ++ body (esize x) es) ++ [Some 255] =
    layout (tot A x es + k) o' n (A ++ J) bs) as Elay.
  { intros o'. unfold layout, bs, ebytes, x'. cbn [big val]. rewrite !fmap_app, <- !app_assoc. done. }
  rewrite Elay. rewrite layout_tail, bind_Some by lia. rewrite layout_put_tail, bind_Some by lia.
  rewrite length_hdr_app. assert (11 + Zlen (A ++ J) + esize x' + Zlen (body (esize x) es) < 2 ^ 31) as Hs2 by (rewrite length_body; unfold tot in *; subst nd; lia).
  assert (fits s (big x')) as Hfs by (apply fits_wide; unfold tot in *; lia).
  unfold bs at 1. rewrite (at_zlentry _ _ n (A ++ J) s x' (body (esize x) es) Hfs Hox Hs2), bind_Some.
  rewrite <- (Z.add_assoc s), zlentry_total, (wrapu_id 64) by (unfold tot in *; subst nd; lia).
  replace (10 + Zlen A + (s + esize x')) with (10 + Zlen (A ++ J) + esize x') by lia.
  exists J. split; [done|]. fold bs. rewrite ET.
  apply (tail_update (tot A x es + k) A x (wide s) es n bs s s); [done|lia|done|done|lia|fold x'; lia].
Qed.

Lemma prev_diff_spec t o n A prev e bs s : fits prev (big e) -> zipPrevLenByteDiff (layout t o n A (ebytes prev e ++ bs)) (10 + Zlen A) s = Some (psize (wide s) - psize (big e)).
Proof.
  intros Hf. unfold zipPrevLenByteDiff. destruct (at_prev t o n A prev e bs Hf) as [_ ->]. rewrite bind_Some, prev_size_only, bind_Some. f_equal.
  apply s32_u32_small. destruct (wide s), (big e); cbn; lia.
Qed.

(** The size the new entry will take. *)
Lemma reqlen_spec prev s r : zipTryEncoding s = Some r -> esize (new_ent prev s) < 2 ^ 31 -> let encoding := match r with Some (_, encoding) => encoding | None => 0 end in
  u64 (u64 (match r with Some _ => zipIntSize encoding | None => Zlen s end + psize (wide prev)) + Zlen (length_buf encoding (Zlen s))) = esize (new_ent prev s).
Proof.
  intros Er Hsz. destruct (insert_encoding s) as (r' & Er' & Hd & Hb & _). rewrite Er in Er'. injection Er' as <-. cbv zeta in *. rewrite Hd, Hb.
  unfold esize, new_ent in *. cbn [big val] in *. rewrite length_payload in *. pose proof (psize_range (wide prev)). pose proof (vhead_pos (of_text s)).
  rewrite (wrapu_id 64 (_ + psize _)) by lia. rewrite wrapu_id; lia.
Qed.

Definition incr_len (n d : Z) : Z := if n <? 65535 then n + d else n.

(** An insertion before the entry [x], up to the reallocation. *)
Lemma insert_start A prev n s r x es (z := new_ent prev s) (nd := psize (wide (esize z)) - psize (big x))
    (zl := layout (tot A x es) (toff A x es) n A (ebytes prev x ++ body (esize x) es)) :
  fits prev (big x) -> zipTryEncoding s = Some r -> tot A x es + esize z < 2 ^ 31 ->
  __ziplistInsert zl (10 + Zlen A) s =
    (zl ← ziplistResize zl (tot A x es + esize z + nd);
     zl ← open_gap zl (10 + Zlen A) (tot A x es) (esize z) nd;
     zl ← (if negb (nd =? 0) then __ziplistCascadeUpdate zl (10 + Zlen A + esize z) else Some zl);
     zl ← write_zlentry zl (10 + Zlen A) prev (match r with Some (_, encoding) => encoding | None => 0 end)
       (match r with Some (value, _) => value | None => 123456789 end) s;
     ZIPLIST_INCR_LENGTH zl 1).
Proof.
  intros Hfx Er Hsz. pose proof (bsize_pos es) as [Hb _]. pose proof (esize_pos x). pose proof (esize_pos z).
  subst zl. unfold __ziplistInsert. rewrite layout_bytes, bind_Some by (unfold tot in *; lia).
  destruct (at_first (tot A x es) (toff A x es) n A prev x (body (esize x) es) Hfx) as (c & -> & Ec). rewrite bind_Some, Ec. cbn [negb].
  unfold insert_prevlen. rewrite Ec. cbn [negb]. destruct (at_prev (tot A x es) (toff A x es) n A prev x (body (esize x) es) Hfx) as [-> _]. rewrite !bind_Some.
  rewrite Er, bind_Some, prev_size_only, bind_Some. unfold zipEncodeLength. rewrite bind_Some.
  rewrite (reqlen_spec prev s r Er) by (fold z; unfold tot in *; lia). fold z. rewrite (wrapu_id 32 (esize z)) by (unfold tot in *; lia).
  rewrite prev_diff_spec, bind_Some by done. done.
Qed.

(** An insertion before the entry [x]. *)
Lemma insert_before A prev n q s x es (z := new_ent prev s) (es' := relink (esize z) (x :: es)) : fits prev (big x) -> q = prev -> ent_ok x -> links (esize x) es -> Forall ent_ok es ->
  big x = false \/ 4 <= esize z -> 0 <= n < 2 ^ 16 -> tot A x es + esize z + 4 + 4 * Zlen es < 2 ^ 31 ->
  __ziplistInsert (layout (tot A x es) (toff A x es) n A (ebytes q x ++ body (esize x) es)) (10 + Zlen A) s =
    Some (layout (tot A z es') (toff A z es') (incr_len n 1) A (ebytes prev z ++ body (esize z) es')).
Proof.
  intros Hfx -> Hox Hl Hok Hh Hn Hsz. pose proof (bsize_pos es) as [Hb _]. pose proof (esize_pos x). pose proof (esize_pos z) as Hz.
  pose proof (psize_range (big x)). pose proof (psize_range (wide (esize z))).
  assert (Zlen (body (esize x) es) = bsize es) as Hbl by apply length_body.
  destruct (insert_encoding s) as (r & Er & _). rewrite (insert_start A prev n s r x es Hfx Er) by (fold z; unfold tot in *; lia).
  fold z. set (nd := psize (wide (esize z)) - psize (big x)) in *.
  assert (0 <= esize z + nd) as Hk.
  { subst nd. destruct Hh as [->|]; [cbn; lia|]. destruct (big x), (wide (esize z)); cbn; lia. }
  assert (ziplistResize (layout (tot A x es) (toff A x es) n A (ebytes prev x ++ body (esize x) es)) (tot A x es + esize z + nd) =
    Some (hdr (tot A x es + (esize z + nd)) (toff A x es) n ++ A ++ (Some <$> ebytes prev x ++ body (esize x) es) ++ grown (esize z + nd))) as ->.
  { unfold layout. rewrite app_assoc, <- app_assoc, (app_assoc A). rewrite (zlresize_grow _ _ _ _ (esize z + nd)).
    - rewrite <- (app_assoc A). do 3 f_equal. lia.
    - done.
    - rewrite length_app, length_somes, length_app, !Nat2Z.inj_add, length_ebytes, Hbl. unfold tot. lia.
    - subst nd. unfold tot in *. lia. }
  rewrite bind_Some. destruct (open_gap_spec A n prev (esize z) x es (esize z + nd) Hfx Hox Hl ltac:(lia) eq_refl Hk ltac:(unfold tot in *; lia)) as (J & HJ & Hog).
  fold nd in Hog. rewrite Hog, bind_Some. clear Hog. set (x' := Ent (wide (esize z)) (val x)).
  assert (esize x' = esize x + nd) as Ex' by (subst x' nd; rewrite esize_change; lia).
  assert (Zlen (A ++ J) = Zlen A + esize z) as HAJ by (rewrite length_app; lia).
  set (es2 := cascade (esize x') es).
  assert ((if negb (nd =? 0) then __ziplistCascadeUpdate (layout (tot (A ++ J) x' es) (toff (A ++ J) x' es) n (A ++ J) (ebytes (esize z) x' ++ body (esize x) es)) (10 + Zlen A + esize z)
    else Some (layout (tot (A ++ J) x' es) (toff (A ++ J) x' es) n (A ++ J) (ebytes (esize z) x' ++ body (esize x) es))) =
    Some (layout (tot (A ++ J) x' es2) (toff (A ++ J) x' es2) n (A ++ J) (ebytes (esize z) x' ++ body (esize x') es2))) as ->.
  { destruct (Z.eqb_spec nd 0) as [E|E]; cbn [negb].
    - subst es2. assert (esize x' = esize x) as -> by lia. by rewrite cascade_links.
    - replace (10 + Zlen A + esize z) with (10 + Zlen (A ++ J)) by lia. apply cascade_update_spec; try done.
      + apply fits_wide. unfold tot in *; lia.
      + unfold tot in *. subst nd. lia. }
  rewrite bind_Some. set (rest := ebytes (esize z) x' ++ body (esize x') es2).
  assert (forall t o n', layout t o n' (A ++ J) rest = (hdr t o n' ++ A) ++ J ++ (Some <$> rest) ++ [Some 255]) as Elay by (intros; unfold layout; rewrite <- !app_assoc; done).
  rewrite Elay, <- (length_hdr_app (tot (A ++ J) x' es2) (toff (A ++ J) x' es2) n), (write_zlentry_spec _ _ _ _ _ r); [|destruct Hfx; lia|done|done]. fold z. rewrite bind_Some.
  rewrite <- app_assoc, hdr_incr by lia. f_equal.
  unfold layout. rewrite fmap_app, <- !app_assoc. f_equal.
  f_equal; [unfold tot, es'; cbn [relink bsize]; fold x' es2; lia|unfold toff, es'; cbn [relink bsize]; rewrite !lastsize_cons; fold x' es2; lia].
Qed.

(** An insertion at the end. *)
Lemma insert_at_end A o prev n s (z := new_ent prev s) : 0 <= prev -> insert_prevlen (layout (11 + Zlen A) o n A []) (10 + Zlen A) 255 = Some prev ->
  0 <= n < 2 ^ 16 -> 11 + Zlen A + esize z < 2 ^ 31 ->
  __ziplistInsert (layout (11 + Zlen A) o n A []) (10 + Zlen A) s = Some (layout (tot A z []) (toff A z []) (incr_len n 1) A (ebytes prev z)).
Proof.
  intros Hp Hprev Hn Hsz. pose proof (esize_pos z) as Hz. unfold __ziplistInsert. rewrite layout_bytes, bind_Some by lia.
  pose proof (load8_end (11 + Zlen A) o n A []) as Hend. rewrite Z.add_0_r in Hend. rewrite Hend, bind_Some, Hprev, bind_Some.
  destruct (insert_encoding s) as (r & Er & _). rewrite Er, bind_Some, prev_size_only, bind_Some. unfold zipEncodeLength. rewrite bind_Some.
  rewrite (reqlen_spec prev s r Er) by (fold z; lia). fold z. change (255 =? ZIP_END) with true. cbn [negb]. rewrite bind_Some, Z.add_0_r.
  unfold layout. cbn [fmap list_fmap app]. rewrite (zlresize_grow _ _ _ A (esize z)) by lia. rewrite bind_Some.
  destruct (grown_ends (esize z) ltac:(lia)) as (G & EG & G' & EG'). pose proof (length_grown (esize z) ltac:(lia)) as HG. rewrite EG, snoc_len in HG.
  set (L := 11 + Zlen A + esize z).
  assert (open_gap (hdr L o n ++ A ++ grown (esize z)) (10 + Zlen A) (11 + Zlen A) (esize z) 0 = Some (hdr L (10 + Zlen A) n ++ A ++ grown (esize z))) as ->.
  { unfold open_gap. rewrite EG', (app_assoc (hdr L o n)), <- (length_hdr_app L o n A), load8_here, bind_Some. change (255 =? ZIP_END) with true. cbn [negb].
    rewrite <- app_assoc, length_hdr_app. apply hdr_put4. lia. }
  rewrite bind_Some. change (0 =? 0) with true. cbn [negb]. rewrite bind_Some. rewrite EG, (app_assoc (hdr L _ n)).
  pose proof (write_zlentry_spec (hdr L (10 + Zlen A) n ++ A) G [Some 255] prev s r Hp ltac:(fold z; lia) Er) as HW.
  rewrite length_hdr_app in HW. rewrite HW, bind_Some, <- app_assoc, hdr_incr by lia. fold z.
  unfold layout. do 2 f_equal. f_equal; unfold tot, toff, lastsize; cbn [bsize last]; rewrite ?length_hdr_app; lia.
Qed.

(** ** Well formed lists *)

Definition head_small (es : list ent) : Prop := match es with e :: _ => big e = false | [] => True end.

Definition zlist (n : Z) (es : list ent) : block := layout (11 + bsize es) (10 + bsize es - lastsize 0 es) n [] (body 0 es).

Definition len_ok (n : Z) (es : list ent) : Prop := n = Zlen es /\ n < 65535 \/ n = 65535.

Record rep (zl : block) (es : list ent) : Prop := {
  rep_bytes : exists n, zl = zlist n es /\ len_ok n es;
  rep_links : links 0 es;
  rep_ok : Forall ent_ok es;
  rep_head : head_small es
}.

Definition prefix (a : list ent) : block := Some <$> body 0 a.

Lemma length_prefix a : Zlen (prefix a) = bsize a.
Proof. unfold prefix. by rewrite length_somes, length_body. Qed.

(** A list seen from one of its positions. *)
Lemma zlist_at n a x es : zlist n (a ++ x :: es) =
  layout (tot (prefix a) x es) (toff (prefix a) x es) n (prefix a) (ebytes (lastsize 0 a) x ++ body (esize x) es).
Proof.
  unfold zlist. rewrite zlbody_app, layout_shift. unfold tot, toff. rewrite length_prefix, bsize_app, lastsize_app, lastsize_cons. cbn [bsize app].
  f_equal; lia.
Qed.

Lemma zlist_end n es : zlist n es = layout (11 + Zlen (prefix es)) (10 + bsize es - lastsize 0 es) n (prefix es) [].
Proof. unfold zlist. rewrite <- (app_nil_r (body 0 es)), layout_shift, length_prefix. done. Qed.

Lemma links_lt es : forall prev, 0 <= prev -> 0 <= lastsize prev es /\ lastsize prev es <= Z.max prev (bsize es).
Proof.
  intros prev Hp. split; [by apply lastsize_pos|]. destruct es as [|x es]; [unfold lastsize; cbn; lia|]. pose proof (lastsize_le prev (x :: es) ltac:(done)). lia.
Qed.

Lemma fits_next e es s : links s (e :: es) -> fits s (big e).
Proof. by intros [? _]. Qed.

Lemma prevlen_end n es : links 0 es -> Forall ent_ok es -> 11 + bsize es < 2 ^ 31 ->
  insert_prevlen (zlist n es) (10 + Zlen (prefix es)) 255 = Some (lastsize 0 es).
Proof.
  intros Hl Hok Hsz. unfold insert_prevlen. change (255 =? ZIP_END) with true. cbn [negb]. destruct es as [|e es _] using rev_ind.
  - unfold zlist. rewrite layout_tail, bind_Some by (cbn; lia). cbn [bsize lastsize last].
    pose proof (load8_end 11 10 n [] []) as H. change (10 + Zlen [] + Zlen []) with 10 in H. change (10 + 0 - 0) with 10. change (11 + 0) with 11. cbn [body]. by rewrite H.
  - apply links_app in Hl as [Hl1 Hl2]. apply Forall_app in Hok as [_ Hok]. inversion_clear Hok as [|? ? He _]. apply fits_next in Hl2.
    rewrite zlist_at, lastsize_app. change (lastsize (lastsize 0 es) [e]) with (esize e). rewrite bsize_app in Hsz. cbn [bsize] in Hsz. pose proof (bsize_pos es). pose proof (esize_pos e).
    assert (toff (prefix es) e [] = 10 + Zlen (prefix es)) as Eo by (unfold toff, lastsize; cbn [bsize last]; lia).
    rewrite layout_tail, bind_Some by (rewrite Eo, length_prefix; lia). rewrite Eo.
    destruct (at_first (tot (prefix es) e []) (10 + Zlen (prefix es)) n (prefix es) (lastsize 0 es) e (body (esize e) []) Hl2) as (c & -> & Ec).
    rewrite bind_Some, Ec. cbn [negb]. apply at_rawlen; [done|done|]. rewrite length_prefix. cbn [body length]. lia.
Qed.


Lemma cascade_forall s es : Forall ent_ok es -> Forall ent_ok (cascade s es).
Proof.
  revert s. induction es as [|x es IH]; intros s Hok; cbn [cascade]; [done|]. destruct (_ || _); [done|].
  inversion_clear Hok. constructor; [done|]. by apply IH.
Qed.

Lemma relink_forall s es : Forall ent_ok es -> Forall ent_ok (relink s es).
Proof. destruct es as [|x es]; [done|]. intros Hok. inversion_clear Hok. constructor; [done|]. by apply cascade_forall. Qed.

Lemma relink_links s q es : 0 <= s < 2 ^ 32 -> bsize es + 4 * Zlen es < 2 ^ 32 -> links q es -> links s (relink s es).
Proof.
  destruct es as [|x es]; [done|]. cbn [bsize length]. intros Hs Hsz [_ Hl]. cbn [relink links]. pose proof (bsize_pos es). pose proof (esize_pos x).
  split; [by apply fits_wide|]. apply (cascade_ok _ _ (esize x)); [|lia|done].
  rewrite esize_change. pose proof (psize_range (wide s)). pose proof (psize_range (big x)). pose proof (esize_pos (Ent (wide s) (val x))) as Hp. rewrite esize_change in Hp. lia.
Qed.

Lemma length_relink s es : length (relink s es) = length es.
Proof. rewrite <- (length_fmap val), relink_val, length_fmap. done. Qed.

Lemma len_ok_range n es : len_ok n es -> 0 <= n < 2 ^ 16.
Proof. intros [[-> ?]| ->]; lia. Qed.

Lemma len_ok_incr n (es es' : list ent) : Zlen es' = Zlen es + 1 -> len_ok n es -> len_ok (incr_len n 1) es'.
Proof. intros E [[-> H]| ->]; unfold incr_len, len_ok; [destruct (Z.ltb_spec (Zlen es) 65535); lia|right; done]. Qed.

Lemma zlist_new n a z es : zlist n (a ++ z :: es) = layout (tot (prefix a) z es) (toff (prefix a) z es) n (prefix a) (ebytes (lastsize 0 a) z ++ body (esize z) es).
Proof. apply zlist_at. Qed.

(** Inserting a string at a position: at either end, or a value that takes at
    least four bytes with its header. *)
Lemma insert_spec zl a b s (z := new_ent (lastsize 0 a) s) (es' := a ++ z :: relink (esize z) b) : rep zl (a ++ b) ->
  Forall is_byte s -> (a = [] \/ b = [] \/ 4 <= esize z) -> 11 + bsize (a ++ b) + esize z + 4 * Zlen (a ++ b) + 4 < 2 ^ 31 ->
  exists zl', __ziplistInsert zl (10 + bsize a) s = Some zl' /\ rep zl' es'.
Proof.
  intros [(n & -> & Hn) Hl Hok Hh] Hs Hz Hsz. rewrite bsize_app, length_app in Hsz. pose proof (bsize_pos a) as [Ha _]. pose proof (bsize_pos b) as [Hb _].
  apply links_app in Hl as [Hl1 Hl2]. apply Forall_app in Hok as [Hok1 Hok2]. pose proof (esize_pos z).
  destruct (links_lt a 0 ltac:(lia)) as [Hp1 Hp2]. pose proof (len_ok_range _ _ Hn) as Hnr.
  exists (zlist (incr_len n 1) es'). split.
  - rewrite <- length_prefix. destruct b as [|x b].
    + rewrite app_nil_r in *. rewrite zlist_end. rewrite insert_at_end with (prev := lastsize 0 a); try done.
      * subst es'. cbn [relink]. rewrite zlist_new. cbn [body]. by rewrite app_nil_r.
      * rewrite <- zlist_end. apply prevlen_end; [done|done|lia].
      * fold z. rewrite length_prefix. lia.
    + inversion_clear Hok2 as [|? ? Hx Hok']. destruct Hl2 as [Hf Hl2]. rewrite zlist_at. rewrite (insert_before _ (lastsize 0 a)); try done.
      * subst es'. rewrite zlist_new. done.
      * destruct Hz as [->|[|]]; [by left|done|by right].
      * fold z. unfold tot. rewrite length_prefix. cbn [bsize length] in Hsz. lia.
  - constructor.
    + eexists. split; [done|]. apply (len_ok_incr n (a ++ b)); [|done]. subst es'. rewrite !length_app. cbn [length]. rewrite length_relink. lia.
    + subst es'. apply links_app. split; [done|]. cbn [links]. split; [apply fits_wide; lia|]. eapply relink_links; [lia|lia|done].
    + subst es'. apply Forall_app. split; [done|]. constructor; [by apply of_text_ok|by apply relink_forall].
    + subst es'. destruct a; [done|]. exact Hh.
Qed.

(** ** Deletion *)

Lemma skip_spec t o n num d b : forall fuel A q del, links q (d ++ b) -> Forall ent_ok (d ++ b) -> 11 + Zlen A + bsize (d ++ b) < 2 ^ 31 ->
  (length d < fuel)%nat -> del + Zlen d <= num -> b = [] \/ del + Zlen d = num ->
  skip_entries fuel (layout t o n A (body q (d ++ b))) (10 + Zlen A) num del = Some (10 + Zlen A + bsize d, del + Zlen d).
Proof.
  induction d as [|e d IH]; intros fuel A q del Hl Hok Hsz Hf Hnum Hb; (destruct fuel as [|fuel]; [cbn [length] in Hf; lia|]); cbn [skip_entries app].
  - cbn [bsize length]. rewrite !Z.add_0_r. destruct b as [|x b]; cbn [body].
    + pose proof (load8_end t o n A []) as H. rewrite Z.add_0_r in H. by rewrite H.
    + destruct Hl as [Hf' _]. destruct (at_first t o n A q x (body (esize x) b) Hf') as (c & -> & Ec). rewrite bind_Some, Ec.
      cbn [negb andb]. cbn [length] in Hb. destruct (Z.ltb_spec del num); [|done]. destruct Hb; [done|lia].
  - cbn [app links] in Hl. destruct Hl as [Hfe Hl]. inversion_clear Hok as [|? ? He Hok']. cbn [app bsize] in Hsz. cbn [body length] in *.
    destruct (at_first t o n A q e (body (esize e) (d ++ b)) Hfe) as (c & -> & Ec). rewrite bind_Some, Ec.
    destruct (Z.ltb_spec del num); [|lia]. cbn [negb andb]. rewrite at_rawlen, bind_Some by (done || (rewrite length_body; lia)).
    rewrite layout_next. replace (10 + Zlen A + esize e) with (10 + Zlen (A ++ (Some <$> ebytes q e))) by (rewrite length_next; lia).
    rewrite IH; [|done|done|rewrite length_next; lia|lia|lia|destruct Hb; [by left|right; lia]].
    rewrite length_next. cbn [bsize]. do 2 f_equal; lia.
Qed.

(** The entries [d] are closed up and the field of the entry [x] behind them set. *)
Lemma close_gap_spec A n prev f d x es (D := Some <$> body prev (f :: d)) (A' := A ++ D) (q := lastsize prev (f :: d)) first
    (x' := Ent (wide prev) (val x)) (nd := psize (wide prev) - psize (big x)) :
  links prev (f :: d ++ x :: es) -> ent_ok x -> prevrawlen first = prev -> e_p first = 10 + Zlen A -> tot A' x es < 2 ^ 31 ->
  exists R, R <> [] /\
    close_gap (layout (tot A' x es) (toff A' x es) n A' (ebytes q x ++ body (esize x) es)) first (10 + Zlen A') (bsize (f :: d)) =
      Some (hdr (tot A' x es) (toff A x' es) n ++ (A ++ (Some <$> ebytes prev x' ++ body (esize x) es)) ++ R, nd).
Proof.
  intros Hl Hox Ep Ee Hsz. rewrite app_comm_cons in Hl. apply links_app in Hl as [Hl1 [Hfx Hl2]]. fold q in Hfx. destruct Hl1 as [Hff _].
  pose proof (bsize_pos es) as [Hb _]. pose proof (esize_pos x). pose proof (psize_range (big x)). pose proof (psize_range (wide prev)).
  assert (Zlen D = bsize (f :: d)) as HD by (subst D; by rewrite length_somes, length_body).
  assert (psize (wide prev) < Zlen D + psize (big x)) as Hroom.
  { rewrite HD. cbn [bsize]. pose proof (bsize_pos d). pose proof (esize_pos f) as Hf2. unfold esize in Hf2 |- *. pose proof (vhead_pos (val f)).
    rewrite length_payload in *. destruct (wide prev) eqn:Ew; [|cbn; lia]. apply wide_spec in Ew. destruct Hff as [_ [->|]]; [cbn; lia|lia]. }
  assert (Zlen A' = Zlen A + bsize (f :: d)) as HA' by (subst A'; rewrite length_app; lia).
  unfold close_gap. rewrite Ep, Ee. set (T := tot A' x es) in *. set (o := toff A' x es).
  destruct (at_first T o n A' q x (body (esize x) es) Hfx) as (c & -> & Ec). rewrite bind_Some, Ec. cbn [negb].
  rewrite prev_diff_spec, bind_Some by done. fold nd.
  set (P := payload (val x) ++ body (esize x) es). assert (Zlen P = esize x - psize (big x) + bsize es) as HP.
  { subst P. rewrite length_app, Nat2Z.inj_add, length_body. unfold esize. lia. }
  destruct (block_split_r (D ++ (Some <$> pbytes (big x) q)) (psize (wide prev))) as (W & V & EW & HV).
  { rewrite length_app, length_somes, Nat2Z.inj_add, length_pbytes. lia. }
  assert (Zlen W = Zlen D - nd) as HW.
  { pose proof (f_equal length EW) as El. rewrite !length_app, length_somes in El. pose proof (length_pbytes (big x) q). subst nd. lia. }
  assert (layout T o n A' (ebytes q x ++ body (esize x) es) = (hdr T o n ++ A ++ W) ++ V ++ (Some <$> P) ++ [Some 255]) as ->.
  { unfold layout, ebytes, A', P. rewrite !fmap_app, <- !app_assoc. do 2 f_equal. rewrite (app_assoc D), EW, <- !app_assoc. done. }
  replace (10 + Zlen A' - nd) with (Zlen (hdr T o n ++ A ++ W)) by (rewrite length_hdr_app, length_app; lia).
  rewrite prev_encode_spec, bind_Some by (done || (destruct Hff; lia)). set (bs := ebytes prev x' ++ body (esize x) es).
  assert (forall o', (hdr T o' n ++ A ++ W) ++ (Some <$> pbytes (wide prev) prev) ++ (Some <$> P) ++ [Some 255] = layout T o' n (A ++ W) bs) as Elay.
  { intros o'. unfold layout, bs, ebytes, x', P. cbn [big val]. rewrite !fmap_app, <- !app_assoc. done. }
  rewrite Elay, length_hdr_app. clear Elay.
  assert (esize x' = esize x + nd) as Ex' by (subst x' nd; rewrite esize_change; lia).
  pose proof (toff_range A' x es) as Ho. fold o in Ho. fold T in Ho. pose proof (toff_range A x' es) as Ho'.
  assert (o - bsize (f :: d) >= 0) as Hod. { subst o. unfold toff in *. destruct es as [|y es]; [unfold lastsize in *; cbn [last bsize] in *; lia|].
    pose proof (lastsize_le (esize x) (y :: es) ltac:(done)). lia. }
  assert (tot A x' es < 2 ^ 31) as HtA by (unfold T, tot in *; subst nd; lia).
  rewrite layout_tail, bind_Some by lia. rewrite layout_put_tail, bind_Some by (pose proof (bsize_pos (f :: d)); lia).
  assert (Zlen (A ++ W) = Zlen A + Zlen D - nd) as HAW by (rewrite length_app; lia).
  assert (11 + Zlen (A ++ W) + esize x' + Zlen (body (esize x) es) < 2 ^ 31) as Hs2 by (rewrite length_body; unfold T, tot in *; lia).
  assert (fits prev (big x')) as Hfs by (apply fits_wide; destruct Hff; lia).
  unfold bs at 1. rewrite (at_zlentry _ _ n (A ++ W) prev x' (body (esize x) es) Hfs Hox Hs2), bind_Some. fold bs.
  rewrite zlentry_total, u32_esize by (unfold T, tot in *; lia).
  pose proof (tail_update T A' x (wide prev) es n bs prev (- bsize (f :: d)) o eq_refl ltac:(pose proof (bsize_pos (f :: d)); lia) Hl2 eq_refl A (A ++ W) ltac:(lia) ltac:(fold x'; lia)) as HT.
  fold nd x' in HT. rewrite Z.add_opp_r in HT. revert HT. destruct (load8 _ _) as [c'|]; [|done]. rewrite !bind_Some. intros ->. rewrite bind_Some.
  rewrite layout_bytes, bind_Some by (unfold T, tot in *; lia).
  assert (Zlen bs = psize (wide prev) + Zlen P) as Hbs.
  { subst bs. rewrite length_app, Nat2Z.inj_add, length_ebytes, length_body. subst nd. lia. }
  destruct (block_split (W ++ (Some <$> bs)) (Zlen bs)) as (X & Y & EX & HX).
  { rewrite length_app, length_somes. lia. }
  assert (layout T (toff A x' es) n (A ++ W) bs = (hdr T (toff A x' es) n ++ A) ++ X ++ Y ++ [Some 255]) as EL2.
  { unfold layout. rewrite <- !app_assoc. do 2 f_equal. rewrite (app_assoc W), EX, <- app_assoc. done. }
  rewrite (memmove_app _ (hdr T (toff A x' es) n ++ A ++ W) (Some <$> bs) [Some 255] (hdr T (toff A x' es) n ++ A) X (Y ++ [Some 255])); cycle 1.
  - unfold layout. by rewrite <- !app_assoc.
  - exact EL2.
  - rewrite length_hdr_app. lia.
  - rewrite length_somes, (wrapu_id 64) by (unfold T, tot in *; lia). unfold T, tot. lia.
  - rewrite length_hdr_app. lia.
  - rewrite (wrapu_id 64) by (unfold T, tot in *; lia). unfold T, tot. lia.
  - rewrite bind_Some. exists (Y ++ [Some 255]). split; [by destruct Y|]. by rewrite <- !app_assoc.
Qed.

Lemma zlist_mid n a x es : zlist n (a ++ x :: es) = layout (tot (prefix a) x es) (toff (prefix a) x es) n (prefix a) (body (lastsize 0 a) (x :: es)).
Proof. apply zlist_at. Qed.

Lemma prefix_app a b : prefix (a ++ b) = prefix a ++ (Some <$> body (lastsize 0 a) b).
Proof. unfold prefix. by rewrite zlbody_app, fmap_app. Qed.

Lemma delete_to_end n a f d num : links 0 (a ++ f :: d) -> Forall ent_ok (a ++ f :: d) -> 11 + bsize (a ++ f :: d) < 2 ^ 31 -> Zlen (f :: d) <= num ->
  0 <= n < 2 ^ 16 -> (Zlen (f :: d) <= n \/ n = 65535) ->
  __ziplistDelete (zlist n (a ++ f :: d)) (10 + bsize a) num = Some (zlist (incr_len n (- Zlen (f :: d))) a).
Proof.
  intros Hl Hok Hsz Hnum Hn Hd. rewrite bsize_app in Hsz. cbn [bsize] in Hsz. pose proof (bsize_pos a) as [Ha _]. pose proof (bsize_pos d) as [Hbd Hbd'].
  apply links_app in Hl as [Hl1 Hl2]. apply Forall_app in Hok as [Hok1 Hok2]. pose proof Hok2 as Hok2'. inversion_clear Hok2' as [|? ? Hof _].
  pose proof (links_lt a 0 ltac:(lia)) as [Hp1 Hp2]. rewrite zlist_mid, <- length_prefix. set (A := prefix a). set (prev := lastsize 0 a) in *.
  assert (Zlen A = bsize a) as HA by apply length_prefix. pose proof (esize_pos f). pose proof (fits_next _ _ _ Hl2) as Hff.
  assert (11 + Zlen A + esize f + Zlen (body (esize f) d) < 2 ^ 31) as Hs1 by (rewrite length_body; lia).
  unfold __ziplistDelete. cbn [body]. rewrite (at_zlentry _ _ n A prev f _ Hff Hof Hs1), bind_Some.
  pose proof (skip_spec (tot A f d) (toff A f d) n num (f :: d) [] (length (layout (tot A f d) (toff A f d) n A (ebytes prev f ++ body (esize f) d))) A prev 0) as Hsk.
  rewrite app_nil_r in Hsk. cbn [body] in Hsk. rewrite Hsk; [|done|done|cbn [bsize]; lia| |lia|by left]; clear Hsk.
  2: { pose proof (length_layout (tot A f d) (toff A f d) n A (ebytes prev f ++ body (esize f) d)) as HL.
    rewrite length_app, Nat2Z.inj_add, length_ebytes, length_body in HL. cbn [length]. lia. }
  rewrite bind_Some. cbn [e_p zlentry_of]. replace (10 + Zlen A + bsize (f :: d) - (10 + Zlen A)) with (bsize (f :: d)) by lia.
  cbn [bsize]. rewrite wrapu_id by lia. destruct (Z.ltb_spec 0 (esize f + bsize d)); [|lia].
  unfold close_gap. pose proof (load8_end (tot A f d) (toff A f d) n A (ebytes prev f ++ body (esize f) d)) as Hend.
  rewrite length_app, Nat2Z.inj_add, length_ebytes, length_body in Hend. rewrite Hend, bind_Some. change (255 =? ZIP_END) with true. cbn [negb].
  cbn [e_p prevrawlen zlentry_of]. rewrite layout_put_tail, !bind_Some by lia. rewrite layout_bytes, bind_Some by (unfold tot; lia).
  unfold layout. rewrite (zlresize_shrink _ _ _ A); [|by destruct (Some <$> _)|unfold tot; lia|unfold tot; lia]. rewrite bind_Some.
  rewrite hdr_incr by (cbn [length] in *; lia). change (0 =? 0) with true. cbn [negb]. rewrite bind_Some, zlist_end. unfold layout. fold A. cbn [fmap list_fmap app].
  unfold incr_len. rewrite Z.add_0_l. fold prev. assert (tot A f d - (esize f + bsize d) + 0 = 11 + Zlen A) as -> by (unfold tot; lia).
  rewrite HA. done.
Qed.

Lemma delete_inside n a f d x b num (es' := a ++ relink (lastsize 0 a) (x :: b)) : links 0 (a ++ (f :: d) ++ x :: b) -> Forall ent_ok (a ++ (f :: d) ++ x :: b) ->
  11 + bsize (a ++ (f :: d) ++ x :: b) + 4 * Zlen (a ++ (f :: d) ++ x :: b) < 2 ^ 31 -> Zlen (f :: d) = num ->
  0 <= n < 2 ^ 16 -> (Zlen (f :: d) <= n \/ n = 65535) ->
  __ziplistDelete (zlist n (a ++ (f :: d) ++ x :: b)) (10 + bsize a) num = Some (zlist (incr_len n (- Zlen (f :: d))) es').
Proof.
  intros Hl Hok Hsz Hnum Hn Hd. rewrite !bsize_app, !length_app in Hsz. cbn [bsize length] in Hsz. pose proof (bsize_pos a) as [Ha _].
  pose proof (bsize_pos d) as [Hbd Hbd']. pose proof (bsize_pos b) as [Hbb _]. pose proof (esize_pos f). pose proof (esize_pos x).
  apply links_app in Hl as [Hl1 Hl2]. apply Forall_app in Hok as [Hok1 Hok2]. pose proof Hok2 as Hok2'. apply Forall_app in Hok2' as [Hokd Hokb].
  inversion_clear Hokd as [|? ? Hof _]. inversion_clear Hokb as [|? ? Hox Hokb'].
  pose proof (links_lt a 0 ltac:(lia)) as [Hp1 Hp2]. set (A := prefix a). set (prev := lastsize 0 a) in *.
  assert (Zlen A = bsize a) as HA by apply length_prefix. pose proof (fits_next _ _ _ Hl2) as Hff.
  pose proof (zlist_mid n a f (d ++ x :: b)) as E1. fold A prev in E1.
  pose proof (zlist_at n (a ++ f :: d) x b) as E2. rewrite <- app_assoc in E2. rewrite prefix_app in E2. fold A prev in E2. rewrite lastsize_app in E2. fold prev in E2.
  change ((f :: d) ++ x :: b) with (f :: d ++ x :: b) in *. unfold __ziplistDelete. rewrite <- HA.
  assert (11 + Zlen A + esize f + Zlen (body (esize f) (d ++ x :: b)) < 2 ^ 31) as Hs1 by (rewrite length_body, bsize_app; cbn [bsize]; lia).
  rewrite E1 at 1. cbn [body]. rewrite (at_zlentry _ _ n A prev f _ Hff Hof Hs1), bind_Some.
  set (zl := zlist n (a ++ f :: d ++ x :: b)) in *.
  assert (skip_entries (length zl) zl (10 + Zlen A) num 0 = Some (10 + Zlen A + bsize (f :: d), Zlen (f :: d))) as ->.
  { rewrite E1 at 2. apply (skip_spec _ _ n num (f :: d) (x :: b)); [done|done|rewrite bsize_app; cbn [bsize]; lia| |lia|right; lia].
    rewrite E1. pose proof (length_layout (tot A f (d ++ x :: b)) (toff A f (d ++ x :: b)) n A (body prev (f :: d ++ x :: b))) as HL.
    rewrite length_body in HL. cbn [bsize] in HL. rewrite bsize_app in HL. cbn [bsize length] in *. lia. }
  rewrite bind_Some. cbn [e_p zlentry_of]. replace (10 + Zlen A + bsize (f :: d) - (10 + Zlen A)) with (bsize (f :: d)) by lia.
  cbn [bsize]. rewrite wrapu_id by lia. destruct (Z.ltb_spec 0 (esize f + bsize d)); [|lia]. rewrite E2. clear E1 E2 zl.
  destruct (close_gap_spec A n prev f d x b (zlentry_of prev f (10 + Zlen A)) Hl2 Hox eq_refl eq_refl) as (R & HR & Hcg).
  { unfold tot. rewrite length_app, length_somes, Nat2Z.inj_add, length_body. cbn [bsize]. lia. }
  set (A' := A ++ (Some <$> body prev (f :: d))) in *. set (x' := Ent (wide prev) (val x)) in *. set (nd := psize (wide prev) - psize (big x)) in *.
  assert (Zlen A' = Zlen A + (esize f + bsize d)) as HA' by (subst A'; rewrite length_app, length_somes, Nat2Z.inj_add, length_body; done).
  assert (-4 <= nd <= 4) as Hnd by (subst nd; destruct (wide prev), (big x); cbn; lia).
  assert (esize x' = esize x + nd) as Ex' by (subst x' nd; rewrite esize_change; lia).
  cbn [bsize] in Hcg. replace (10 + Zlen A + (esize f + bsize d)) with (10 + Zlen A') by lia. rewrite Hcg, bind_Some. clear Hcg.
  rewrite hdr_bytes, bind_Some by (unfold tot; lia). pose proof (esize_pos x') as Hx'.
  replace (tot A' x b - (esize f + bsize d) + nd) with (tot A x' b) by (unfold tot; lia).
  rewrite (zlresize_shrink _ _ _ _ R (tot A x' b)); [|done| |unfold tot; lia].
  2: { rewrite length_app, length_somes, length_app, !Nat2Z.inj_add, length_ebytes, length_body. unfold tot. lia. }
  rewrite bind_Some, hdr_incr, bind_Some by (cbn [length] in *; lia). rewrite <- (app_assoc A).
  change (if n <? 65535 then n + - Zlen (f :: d) else n) with (incr_len n (- Zlen (f :: d))). set (n' := incr_len n _).
  change (hdr (tot A x' b) (toff A x' b) n' ++ A ++ (Some <$> ebytes prev x' ++ body (esize x) b) ++ [Some 255])
    with (layout (tot A x' b) (toff A x' b) n' A (ebytes prev x' ++ body (esize x) b)).
  assert ((if negb (nd =? 0) then __ziplistCascadeUpdate (layout (tot A x' b) (toff A x' b) n' A (ebytes prev x' ++ body (esize x) b)) (10 + Zlen A)
    else Some (layout (tot A x' b) (toff A x' b) n' A (ebytes prev x' ++ body (esize x) b))) =
    Some (layout (tot A x' (cascade (esize x') b)) (toff A x' (cascade (esize x') b)) n' A (ebytes prev x' ++ body (esize x') (cascade (esize x') b)))) as ->.
  { rewrite app_comm_cons in Hl2. apply links_app in Hl2 as [_ [_ Hlb]]. destruct (Z.eqb_spec nd 0) as [E|E]; cbn [negb].
    - assert (esize x' = esize x) as -> by lia. by rewrite cascade_links.
    - apply cascade_update_spec; try done; [apply fits_wide; lia|unfold tot; lia]. }
  subst es'. cbn [relink]. fold x'. rewrite zlist_at. fold A prev. done.
Qed.

(** Deleting up to [num] entries from a position. *)
Lemma delete_spec zl a d b num : rep zl (a ++ d ++ b) -> d <> [] -> Zlen d <= num -> b = [] \/ Zlen d = num ->
  11 + bsize (a ++ d ++ b) + 4 * Zlen (a ++ d ++ b) < 2 ^ 31 ->
  exists zl', __ziplistDelete zl (10 + bsize a) num = Some zl' /\ rep zl' (a ++ relink (lastsize 0 a) b).
Proof.
  intros [(n & -> & Hn) Hl Hok Hh] Hd Hnum Hb Hsz. pose proof (len_ok_range _ _ Hn) as Hnr. destruct d as [|f d]; [done|].
  assert (Zlen (f :: d) <= n \/ n = 65535) as Hdn. { destruct Hn as [[-> _]|]; [left|by right]. rewrite !length_app. lia. }
  exists (zlist (incr_len n (- Zlen (f :: d))) (a ++ relink (lastsize 0 a) b)). split.
  - destruct b as [|x b].
    + rewrite !app_nil_r in *. apply delete_to_end; try done. lia.
    + destruct Hb as [|Hb]; [done|]. by apply delete_inside.
  - pose proof (bsize_pos a). pose proof (links_lt a 0 ltac:(lia)) as [Hp1 Hp2]. rewrite !bsize_app, !length_app in Hsz.
    pose proof (bsize_pos b). pose proof (bsize_pos (f :: d)). constructor.
    + eexists. split; [done|]. rewrite <- app_comm_cons in *. unfold len_ok, incr_len in *. rewrite length_app, length_relink.
      rewrite !length_app in Hn. cbn [length] in *. rewrite !length_app in *. destruct (Z.ltb_spec n 65535); [|right; lia]. left. lia.
    + apply links_app in Hl as [Hl1 [_ Hl2]%links_app]. apply links_app. split; [done|]. eapply relink_links; [lia|lia|done].
    + apply Forall_app in Hok as [Hok1 [_ Hok2]%Forall_app]. apply Forall_app. split; [done|by apply relink_forall].
    + destruct a; [|exact Hh]. destruct b; done.
Qed.

(** ** Merging *)

Lemma zlist_bytes n es : 11 + bsize es < 2 ^ 31 -> ZIPLIST_BYTES (zlist n es) = Some (11 + bsize es).
Proof. intros. pose proof (bsize_pos es). apply layout_bytes. lia. Qed.

Lemma tail_range es : 10 <= 10 + bsize es - lastsize 0 es.
Proof. destruct es as [|x es]; [unfold lastsize; cbn; lia|]. pose proof (lastsize_le 0 (x :: es) ltac:(done)). lia. Qed.

Lemma zlist_tail n es : 11 + bsize es < 2 ^ 31 -> ZIPLIST_TAIL_OFFSET (zlist n es) = Some (10 + bsize es - lastsize 0 es).
Proof. intros. pose proof (bsize_pos es). pose proof (tail_range es). pose proof (lastsize_pos 0 es ltac:(lia)). apply layout_tail. lia. Qed.

Lemma zlist_length n es : 0 <= n < 2 ^ 16 -> ZIPLIST_LENGTH (zlist n es) = Some n.
Proof. intros. by apply hdr_length. Qed.

Lemma length_zlist n es : Zlen (zlist n es) = 11 + bsize es.
Proof. unfold zlist. rewrite length_layout, length_body. cbn [length]. lia. Qed.

Lemma zlist_load_entries n es : load (zlist n es) 10 (11 + bsize es - 10) = Some (body 0 es ++ [255]).
Proof.
  unfold zlist, layout. cbn [app].
  replace (hdr (11 + bsize es) (10 + bsize es - lastsize 0 es) n ++ (Some <$> body 0 es) ++ [Some 255])
    with (hdr (11 + bsize es) (10 + bsize es - lastsize 0 es) n ++ (Some <$> body 0 es ++ [255]) ++ []) by (by rewrite app_nil_r, fmap_app).
  apply load_app; [by rewrite length_hdr|]. rewrite length_app, Nat2Z.inj_add, length_body. cbn [length]. lia.
Qed.

Definition hbytes (t o n : Z) : list Z := le_bytes 4 t ++ le_bytes 4 o ++ le_bytes 2 n.

Lemma zlist_load_front n es : load (zlist n es) 0 (11 + bsize es - 1) = Some (hbytes (11 + bsize es) (10 + bsize es - lastsize 0 es) n ++ body 0 es).
Proof.
  unfold zlist, layout. cbn [app]. change (hdr (11 + bsize es) (10 + bsize es - lastsize 0 es) n) with (Some <$> hbytes (11 + bsize es) (10 + bsize es - lastsize 0 es) n).
  rewrite app_assoc, <- fmap_app. apply (load_app []); [done|]. unfold hbytes. rewrite !length_app, !length_le_bytes. pose proof (length_body es 0). lia.
Qed.

(** The entries of the second list copied behind those of the first. *)
Definition joined (t o n : Z) (es1 es2 : list ent) : block := layout t o n [] (body 0 es1 ++ body 0 es2).

Lemma merge_append n1 n2 es1 es2 : 22 + bsize es1 + bsize es2 < 2 ^ 31 ->
  (bs ← load (zlist n2 es2) 10 (11 + bsize es2 - 10); store (zrealloc (zlist n1 es1) (11 + bsize es1 + bsize es2)) (11 + bsize es1 - 1) bs) =
    Some (joined (11 + bsize es1) (10 + bsize es1 - lastsize 0 es1) n1 es1 es2).
Proof.
  intros Hsz. pose proof (bsize_pos es1) as [H1 _]. pose proof (bsize_pos es2) as [H2 _]. rewrite zlist_load_entries, bind_Some. unfold zlist.
  rewrite zrealloc_grow by (rewrite length_layout, length_body; cbn [length]; lia). unfold joined, layout. cbn [app]. rewrite length_app, length_hdr, <- !app_assoc.
  replace (hdr (11 + bsize es1) (10 + bsize es1 - lastsize 0 es1) n1 ++ (Some <$> body 0 es1) ++ [Some 255] ++ replicate _ None)
    with ((hdr (11 + bsize es1) (10 + bsize es1 - lastsize 0 es1) n1 ++ (Some <$> body 0 es1)) ++
      (Some 255 :: replicate (Z.to_nat (11 + bsize es1 + bsize es2 - Z.of_nat (10 + length ((Some <$> body 0 es1) ++ [Some 255])))) None) ++ [])
    by (by rewrite app_nil_r, <- app_assoc).
  rewrite store_app.
  - by rewrite app_nil_r, !fmap_app, <- !app_assoc.
  - rewrite length_app, length_hdr, length_somes. pose proof (length_body es1 0). lia.
  - cbn [length]. rewrite length_replicate, !length_app, length_somes. cbn [length]. pose proof (length_body es1 0). pose proof (length_body es2 0). lia.
Qed.

Lemma merge_prepend n1 n2 es1 es2 : 22 + bsize es1 + bsize es2 < 2 ^ 31 ->
  (target ← memmove (zrealloc (zlist n2 es2) (11 + bsize es1 + bsize es2)) (11 + bsize es1 - 1) 10 (11 + bsize es2 - 10);
   bs ← load (zlist n1 es1) 0 (11 + bsize es1 - 1); store target 0 bs) =
    Some (joined (11 + bsize es1) (10 + bsize es1 - lastsize 0 es1) n1 es1 es2).
Proof.
  intros Hsz. pose proof (bsize_pos es1) as [H1 _]. pose proof (bsize_pos es2) as [H2 _]. pose proof (length_body es1 0) as Hb1. pose proof (length_body es2 0) as Hb2.
  rewrite zrealloc_grow by (rewrite length_zlist; lia). rewrite length_zlist.
  change (zlist n2 es2) with (hdr (11 + bsize es2) (10 + bsize es2 - lastsize 0 es2) n2 ++ (Some <$> body 0 es2) ++ [Some 255]).
  set (h2 := hdr (11 + bsize es2) (10 + bsize es2 - lastsize 0 es2) n2). set (R := replicate (Z.to_nat (11 + bsize es1 + bsize es2 - (11 + bsize es2))) None).
  assert (Zlen R = bsize es1) as HR by (subst R; rewrite length_replicate; lia).
  assert (length h2 = 10%nat) as Hh2 by apply length_hdr.
  set (m := (h2 ++ (Some <$> body 0 es2) ++ [Some 255]) ++ R).
  assert (m = h2 ++ ((Some <$> body 0 es2) ++ [Some 255]) ++ R) as Em by (subst m; by rewrite <- !app_assoc).
  assert (Zlen m = 11 + bsize es1 + bsize es2) as Hm by (rewrite Em, !length_app, length_somes; cbn [length]; lia).
  destruct (block_split m (10 + bsize es1) ltac:(lia)) as (X & Y & EX & HX).
  rewrite (memmove_app m h2 ((Some <$> body 0 es2) ++ [Some 255]) R X Y []); [|done|by rewrite app_nil_r|by rewrite Hh2| | |].
  2: { rewrite length_app, length_somes. cbn [length]. lia. }
  2: { lia. }
  2: { rewrite EX, length_app in Hm. lia. }
  rewrite bind_Some, zlist_load_front, bind_Some, app_nil_r, <- (app_nil_l (X ++ _)).
  rewrite store_app; [|done|unfold hbytes; rewrite !length_app, !length_le_bytes; lia]. unfold joined, layout, hdr, hbytes. cbn [app]. by rewrite !fmap_app, <- !app_assoc.
Qed.

Definition merged_len (n1 n2 : Z) : Z := if n1 + n2 <? UINT16_MAX then n1 + n2 else UINT16_MAX.

(** The header of the joined list, before the cascade. *)
Lemma merge_header n1 n2 es1 es2 : 0 <= n1 < 2 ^ 16 -> 0 <= n2 < 2 ^ 16 -> 22 + bsize es1 + bsize es2 < 2 ^ 31 ->
  ziplistMerge (Some (zlist n1 es1)) (Some (zlist n2 es2)) false =
    (target ← __ziplistCascadeUpdate (joined (11 + bsize es1 + bsize es2) (10 + bsize es1 + bsize es2 - lastsize 0 es2) (merged_len n1 n2) es1 es2)
      (10 + bsize es1 - lastsize 0 es1); Some (Some (target, n1 >=? n2))).
Proof.
  intros Hn1 Hn2 Hsz. pose proof (bsize_pos es1) as [H1 _]. pose proof (bsize_pos es2) as [H2 _]. unfold ziplistMerge.
  rewrite !zlist_bytes, !zlist_length, !zlist_tail by lia. rewrite !bind_Some. unfold ZIPLIST_HEADER_SIZE, ZIPLIST_END_SIZE.
  replace (u64 (11 + bsize es1 + (11 + bsize es2) - 10 - 1)) with (11 + bsize es1 + bsize es2) by (rewrite wrapu_id; lia).
  assert (0 <= merged_len n1 n2 < 2 ^ 16) as Hml by (unfold merged_len, UINT16_MAX; destruct (Z.ltb_spec (n1 + n2) (2 ^ 16 - 1)); lia).
  pose proof (tail_range es2). pose proof (lastsize_pos 0 es2 ltac:(lia)).
  assert (forall t o n, (target ← put32 (joined t o n es1 es2) 0 (11 + bsize es1 + bsize es2); target ← put16 target 8 (if n1 + n2 <? UINT16_MAX then n1 + n2 else UINT16_MAX);
    target ← put32 target 4 (11 + bsize es1 - 1 + (10 + bsize es2 - lastsize 0 es2 - 10)); target ← __ziplistCascadeUpdate target (10 + bsize es1 - lastsize 0 es1);
    Some (Some (target, n1 >=? n2))) = (target ← __ziplistCascadeUpdate (joined (11 + bsize es1 + bsize es2) (10 + bsize es1 + bsize es2 - lastsize 0 es2) (merged_len n1 n2) es1 es2)
      (10 + bsize es1 - lastsize 0 es1); Some (Some (target, n1 >=? n2)))) as Hput.
  { intros t o n. unfold joined, layout. cbn [app]. rewrite hdr_put0, bind_Some by lia. fold (merged_len n1 n2). rewrite hdr_put8, bind_Some by done.
    rewrite hdr_put4, bind_Some by lia. do 4 f_equal. lia. }
  destruct (n1 >=? n2); cbv iota beta.
  - rewrite merge_append, bind_Some by done. apply Hput.
  - rewrite merge_prepend, bind_Some by done. apply Hput.
Qed.

(** Merging a list with a non-empty one. *)
Lemma merge_spec zl1 zl2 es1 es2 : rep zl1 es1 -> rep zl2 es2 -> es2 <> [] -> 22 + bsize es1 + bsize es2 + 4 * Zlen es2 < 2 ^ 31 ->
  exists zl', (exists app, ziplistMerge (Some zl1) (Some zl2) false = Some (Some (zl', app))) /\
    rep zl' (es1 ++ match last es1 with Some y => cascade (esize y) es2 | None => es2 end).
Proof.
  intros [(n1 & -> & Hn1) Hl1 Hok1 Hh1] [(n2 & -> & Hn2) Hl2 Hok2 Hh2] Hne Hsz.
  pose proof (bsize_pos es1) as [H1 _]. pose proof (bsize_pos es2) as [H2 _]. pose proof (len_ok_range _ _ Hn1) as Hr1. pose proof (len_ok_range _ _ Hn2) as Hr2.
  rewrite merge_header by (done || lia).
  assert (forall es', length es' = (length es1 + length es2)%nat -> len_ok (merged_len n1 n2) es') as Hlen.
  { intros es' El. unfold len_ok, merged_len in *. unfold UINT16_MAX. destruct (Z.ltb_spec (n1 + n2) (2 ^ 16 - 1)); lia. }
  destruct es1 as [|y es1 _] using rev_ind.
  - destruct es2 as [|x es2]; [done|]. destruct Hl2 as [Hfx Hl2]. inversion_clear Hok2 as [|? ? Hox Hok2'].
    pose proof (cascade_update_spec es2 [] 0 x (esize x) (merged_len n1 n2) Hfx Hox Hl2 Hok2') as Hc. cbn [length bsize] in *.
    unfold tot, toff in Hc. cbn [length] in Hc. rewrite !(cascade_links _ _ Hl2) in Hc. specialize (Hc ltac:(lia)).
    unfold joined. cbn [body bsize app last lastsize]. rewrite lastsize_cons.
    replace (11 + 0 + (esize x + bsize es2)) with (11 + Z.of_nat 0 + esize x + bsize es2) by lia.
    replace (10 + 0 + (esize x + bsize es2) - lastsize (esize x) es2) with (10 + Z.of_nat 0 + esize x + bsize es2 - lastsize (esize x) es2) by lia.
    change (10 + 0 - 0) with (10 + Z.of_nat 0). rewrite Hc, bind_Some. eexists. split; [by eexists|]. constructor.
    + exists (merged_len n1 n2). split; [|by apply Hlen]. unfold zlist. cbn [body bsize]. rewrite lastsize_cons. f_equal; lia.
    + done.
    + by constructor.
    + done.
  - rewrite last_snoc. apply links_app in Hl1 as [Hl1 [Hfy _]]. apply Forall_app in Hok1 as [Hok1 Hoky]. inversion_clear Hoky as [|? ? Hy _].
    rewrite bsize_app in Hsz |- *. cbn [bsize] in Hsz |- *. rewrite lastsize_app. change (lastsize (lastsize 0 es1) [y]) with (esize y).
    pose proof (esize_pos y). pose proof (bsize_pos es1).
    pose proof (cascade_update_spec es2 (prefix es1) (lastsize 0 es1) y 0 (merged_len n1 n2) Hfy Hy Hl2 Hok2) as Hc.
    rewrite <- !zlist_at in Hc. unfold tot, toff in Hc. rewrite length_prefix in Hc. specialize (Hc ltac:(lia)).
    rewrite (lastsize_nonempty (esize y) 0) in Hc by done.
    assert (forall t o n, joined t o n (es1 ++ [y]) es2 = layout t o n (prefix es1) (ebytes (lastsize 0 es1) y ++ body 0 es2)) as ->.
    { intros. unfold joined. rewrite zlbody_app, <- app_assoc, layout_shift. cbn [body app]. by rewrite app_nil_r. }
    replace (11 + (bsize es1 + (esize y + 0)) + bsize es2) with (11 + bsize es1 + esize y + bsize es2) by lia.
    replace (10 + (bsize es1 + (esize y + 0)) + bsize es2 - lastsize 0 es2) with (10 + bsize es1 + esize y + bsize es2 - lastsize 0 es2) by lia.
    replace (10 + (bsize es1 + (esize y + 0)) - esize y) with (10 + bsize es1) by lia. rewrite Hc, bind_Some.
    eexists. split; [by eexists|]. rewrite <- app_assoc. constructor.
    + exists (merged_len n1 n2). split; [done|]. apply Hlen. rewrite !length_app. cbn [length app]. rewrite <- (length_fmap val (cascade _ _)), cascade_val, length_fmap. lia.
    + apply links_app. split; [done|]. cbn [links app]. split; [done|]. apply (cascade_ok _ _ 0); [lia|lia|done].
    + apply Forall_app. split; [done|]. constructor; [done|by apply cascade_forall].
    + destruct es1; [|exact Hh1]. exact Hh1.
Qed.

End Ops.
