(* ===== verification/ZiplistCmds.v ===== *)
(** Queries of ziplists, and the theorems about [Ziplist.v]: scripts of operations
    refine lists of byte strings. *)

From S2P Require Import Prelude Endian Util Ziplist ZiplistSpec ZiplistOps.

Section Queries.
Context {HOST : Host}.

(** ** Positions *)

Lemma forward_spec t o n es : forall fuel A q k, links q es -> Forall ent_ok es -> 11 + Zlen A + bsize es < 2 ^ 31 -> (length es < fuel)%nat -> 0 <= k ->
  index_forward fuel (layout t o n A (body q es)) (10 + Zlen A) k =
    Some (10 + Zlen A + bsize (take (Z.to_nat k) es), if k <? Zlen es then -1 else k - Zlen es).
Proof.
  induction es as [|e es IH]; intros fuel A q k Hl Hok Hsz Hf Hk; (destruct fuel as [|fuel]; [cbn [length] in Hf; lia|]); cbn [index_forward body].
  - pose proof (load8_end t o n A []) as H. rewrite Z.add_0_r in H. rewrite H, bind_Some. change (255 =? ZIP_END) with true. cbv iota.
    rewrite take_nil. cbn [bsize length]. destruct (Z.ltb_spec k (Z.of_nat 0)); [lia|]. do 2 f_equal; lia.
  - destruct Hl as [Hfe Hl]. inversion_clear Hok as [|? ? He Hok']. cbn [bsize length] in *.
    destruct (at_first t o n A q e (body (esize e) es) Hfe) as (c & -> & Ec). rewrite bind_Some, Ec.
    destruct (Z.eqb_spec k 0) as [->|Hk0].
    { change (Z.to_nat 0) with 0%nat. cbn [take bsize]. destruct (Z.ltb_spec 0 (Z.of_nat (S (length es)))); [|lia]. do 2 f_equal; lia. }
    rewrite at_rawlen, bind_Some by (done || (rewrite length_body; lia)). rewrite layout_next.
    replace (10 + Zlen A + esize e) with (10 + Zlen (A ++ (Some <$> ebytes q e))) by (rewrite length_next; lia).
    rewrite IH; [|done|done|rewrite length_next; lia|lia|lia]. rewrite length_next. replace (Z.to_nat k) with (S (Z.to_nat (k - 1))) by lia.
    cbn [take bsize]. destruct (Z.ltb_spec (k - 1) (Zlen es)), (Z.ltb_spec k (Z.of_nat (S (length es)))); try lia; do 2 f_equal; lia.
Qed.

Lemma back_spec n a : forall fuel rest k, links 0 (a ++ rest) -> Forall ent_ok (a ++ rest) -> 11 + bsize (a ++ rest) < 2 ^ 31 -> (length a < fuel)%nat -> 0 <= k ->
  index_back fuel (zlist n (a ++ rest)) (10 + bsize a) (lastsize 0 a) k =
    Some (10 + bsize (take (length a - Z.to_nat k) a), if k <? Zlen a then -1 else k - Zlen a).
Proof.
  induction a as [|y a IH] using rev_ind; intros fuel rest k Hl Hok Hsz Hf Hk; (destruct fuel as [|fuel]; [rewrite ?length_app in Hf; cbn [length] in Hf; lia|]); cbn [index_back].
  - change (lastsize 0 []) with 0. change (0 <? 0) with false. cbv iota. rewrite take_nil. cbn [bsize length]. destruct (Z.ltb_spec k (Z.of_nat 0)); [lia|]. do 2 f_equal; lia.
  - rewrite length_app in *. cbn [length] in *. rewrite lastsize_app. change (lastsize (lastsize 0 a) [y]) with (esize y). pose proof (esize_pos y).
    destruct (Z.ltb_spec 0 (esize y)); [|lia]. destruct (Z.eqb_spec k 0) as [->|Hk0].
    { change (Z.to_nat 0) with 0%nat. rewrite Nat.sub_0_r, take_ge by (rewrite length_app; cbn [length]; lia).
      destruct (Z.ltb_spec 0 (Z.of_nat (length a + 1))); [|lia]. do 2 f_equal; lia. }
    rewrite <- app_assoc in *. cbn [app] in *. rewrite bsize_app. cbn [bsize]. replace (10 + (bsize a + (esize y + 0)) - esize y) with (10 + bsize a) by lia.
    pose proof Hl as Hl'. apply links_app in Hl' as [_ [Hfy _]].
    assert (ZIP_DECODE_PREVLEN (zlist n (a ++ y :: rest)) (10 + bsize a) = Some (psize (big y), lastsize 0 a)) as ->.
    { rewrite zlist_at, <- length_prefix. by apply at_prev. }
    rewrite bind_Some, IH by (done || lia). rewrite take_app. replace (length a - Z.to_nat (k - 1))%nat with (length a + 1 - Z.to_nat k)%nat by lia.
    replace (length a + 1 - Z.to_nat k - length a)%nat with 0%nat by lia. cbn [take]. rewrite app_nil_r.
    destruct (Z.ltb_spec (k - 1) (Zlen a)), (Z.ltb_spec k (Z.of_nat (length a + 1))); try lia; do 2 f_equal; lia.
Qed.

(** The index an [int] designates. *)
Definition resolve {A} (l : list A) (i : Z) : option nat :=
  let k := if i <? 0 then Zlen l + i else i in if (0 <=? k) && (k <? Zlen l) then Some (Z.to_nat k) else None.

Lemma byte_after n a b : links 0 (a ++ b) -> exists c, load8 (zlist n (a ++ b)) (10 + bsize a) = Some c /\ (c =? ZIP_END) = match b with [] => true | _ => false end.
Proof.
  intros Hl. apply links_app in Hl as [_ Hl]. rewrite <- length_prefix. destruct b as [|e r].
  - rewrite app_nil_r, zlist_end. exists 255. split; [|done].
    pose proof (load8_end (11 + Zlen (prefix a)) (10 + bsize a - lastsize 0 a) n (prefix a) []) as H. by rewrite Z.add_0_r in H.
  - destruct Hl as [Hf _]. rewrite zlist_at. by apply at_first.
Qed.

Lemma byte_at n es k : links 0 es -> (k <= length es)%nat -> exists c, load8 (zlist n es) (10 + bsize (take k es)) = Some c /\ (c =? ZIP_END) = bool_decide (k = length es).
Proof.
  intros Hl Hk. pose proof (byte_after n (take k es) (drop k es)) as Hb. rewrite take_drop in Hb. destruct (Hb Hl) as (c & Ec & Hc). exists c. split; [done|].
  rewrite Hc. pose proof (length_drop es k) as El. destruct (drop k es); cbn [length] in El; [rewrite bool_decide_eq_true_2|rewrite bool_decide_eq_false_2]; done || lia.
Qed.

Lemma length_entries n es : (length es < length (zlist n es))%nat.
Proof. pose proof (length_zlist n es). pose proof (bsize_pos es). lia. Qed.

Lemma index_spec n es i : links 0 es -> Forall ent_ok es -> 11 + bsize es < 2 ^ 31 -> INT32_MIN < i <= INT32_MAX ->
  ziplistIndex (zlist n es) i = Some ((fun k => 10 + bsize (take k es)) <$> resolve es i).
Proof.
  intros Hl Hok Hsz Hi. unfold ziplistIndex, resolve. pose proof (length_entries n es) as Hfu. destruct (Z.ltb_spec i 0) as [Hneg|Hpos].
  - rewrite i32_ok, bind_Some by (unfold_limits; lia). rewrite zlist_tail, bind_Some by done. destruct es as [|e a _] using rev_ind.
    + change (10 + bsize [] - lastsize 0 []) with (10 + bsize (take 0 ([] : list ent))).
      destruct (byte_at n [] 0 Hl ltac:(done)) as (c & Ec & Hc). rewrite Ec, bind_Some, Hc. rewrite bool_decide_eq_true_2 by done. cbn [negb]. rewrite bind_Some, Ec, bind_Some, Hc.
      rewrite bool_decide_eq_true_2 by done. cbn [orb length]. destruct (Z.leb_spec 0 (Z.of_nat 0 + i)); [lia|]. done.
    + assert (10 + bsize (a ++ [e]) - lastsize 0 (a ++ [e]) = 10 + bsize (take (length a) (a ++ [e]))) as ->.
      { rewrite take_app_length, lastsize_app, bsize_app. change (lastsize (lastsize 0 a) [e]) with (esize e). cbn [bsize]. lia. }
      destruct (byte_at n (a ++ [e]) (length a) Hl ltac:(rewrite length_app; lia)) as (c & Ec & Hc). rewrite length_app in *. cbn [length] in *.
      rewrite Ec, bind_Some, Hc, bool_decide_eq_false_2 by lia. cbn [negb]. rewrite take_app_length.
      pose proof Hl as Hl'. apply links_app in Hl' as [_ [Hfe _]].
      assert (ZIP_DECODE_PREVLEN (zlist n (a ++ [e])) (10 + bsize a) = Some (psize (big e), lastsize 0 a)) as ->.
      { rewrite zlist_at, <- length_prefix. by apply at_prev. }
      rewrite !bind_Some, back_spec, bind_Some by (done || lia). set (k := (length a - Z.to_nat (- i - 1))%nat).
      assert (take k a = take k (a ++ [e])) as -> by (rewrite take_app_le; [done|lia]).
      destruct (byte_at n (a ++ [e]) k Hl ltac:(rewrite length_app; lia)) as (c' & -> & Hc'). rewrite bind_Some, Hc', bool_decide_eq_false_2 by (rewrite length_app; cbn [length]; lia). cbn [orb].
      destruct (Z.ltb_spec (- i - 1) (Zlen a)), (Z.leb_spec 0 (Z.of_nat (length a + 1) + i)); try lia; cbn [andb].
      * destruct (Z.ltb_spec (Z.of_nat (length a + 1) + i) (Z.of_nat (length a + 1))); [|lia]. cbn [fmap option_fmap option_map Z.ltb Z.compare].
        assert (Z.to_nat (Z.of_nat (length a + 1) + i) = k) as -> by lia. done.
      * destruct (Z.ltb_spec (Z.of_nat (length a + 1) + i) (Z.of_nat (length a + 1))); [|lia]. destruct (Z.ltb_spec 0 (- i - 1 - Zlen a)); [lia|]. cbn [fmap option_fmap option_map].
        assert (Z.to_nat (Z.of_nat (length a + 1) + i) = k) as -> by lia. done.
      * destruct (Z.ltb_spec 0 (- i - 1 - Zlen a)); [done|lia].
  - pose proof (forward_spec (11 + bsize es) (10 + bsize es - lastsize 0 es) n es (length (zlist n es)) [] 0 i Hl Hok ltac:(cbn [length]; lia) Hfu Hpos) as HF.
    change (layout (11 + bsize es) (10 + bsize es - lastsize 0 es) n [] (body 0 es)) with (zlist n es) in HF. change (10 + Zlen []) with 10 in HF. unfold ZIPLIST_HEADER_SIZE. rewrite HF, bind_Some.
    destruct (Z.leb_spec 0 i); [|lia]. cbn [andb]. destruct (Z.ltb_spec i (Zlen es)) as [Hlt|Hge].
    + destruct (byte_at n es (Z.to_nat i) Hl ltac:(lia)) as (c & -> & Hc). rewrite bind_Some, Hc, bool_decide_eq_false_2 by lia. done.
    + rewrite take_ge by lia. pose proof (byte_at n es (length es) Hl ltac:(lia)) as (c & Ec & Hc). rewrite take_ge in Ec by lia.
      rewrite Ec, bind_Some, Hc, bool_decide_eq_true_2 by done. done.
Qed.

(** ** Values *)

(** The value found at [p] stands for the byte string [s]. *)
Definition reads (zl : block) (p : Z) (s : list Z) : Prop := exists g, ziplistGet zl (Some p) = Some (Some g) /\
  match g with ZlStr sstr slen => load zl sstr slen = Some s | ZlInt v => sdec v = s /\ INT64_MIN <= v <= INT64_MAX end.

Lemma sdec_inj v w : INT64_MIN <= v <= INT64_MAX -> INT64_MIN <= w <= INT64_MAX -> sdec v = sdec w -> v = w.
Proof.
  intros Hv Hw E. destruct (string2ll_spec (sdec v)) as (r & _ & Hr).
  pose proof (proj2 (Hr v) (conj Hv eq_refl)) as R1. pose proof (proj2 (Hr w) (conj Hw E)) as R2. congruence.
Qed.

Section Value.
Context (t o n : Z) (A : block) (q : Z) (e : ent) (bs : list Z).
Context (Hf : fits q (big e)) (He : ent_ok e) (Hsz : 11 + Zlen A + esize e + Zlen bs < 2 ^ 31).
Let zl := layout t o n A (ebytes q e ++ bs).

(** The contents of the entry behind its header. *)
Lemma value_split : exists H C, zl = H ++ (Some <$> vdata (val e)) ++ C /\ Zlen H = 10 + Zlen A + (psize (big e) + Zlen (vhead (val e))).
Proof.
  exists ((hdr t o n ++ A) ++ (Some <$> pbytes (big e) q) ++ (Some <$> vhead (val e))), ((Some <$> bs) ++ [Some 255]). split.
  - unfold zl, layout, ebytes. rewrite payload_split, !fmap_app, <- !app_assoc. done.
  - rewrite !length_app, !length_somes, length_hdr. pose proof (length_pbytes (big e) q). lia.
Qed.

Lemma value_int v : val e = VInt v -> zipLoadInteger zl (10 + Zlen A + (psize (big e) + Zlen (vhead (val e)))) (venc (val e)) = Some v.
Proof.
  intros E. destruct value_split as (H & C & Ezl & HH). rewrite Ezl, <- HH. unfold ent_ok in He. rewrite E in He |- *. cbn [venc vdata]. by apply load_integer_spec.
Qed.

Lemma value_str s : val e = VStr s -> load zl (10 + Zlen A + (psize (big e) + Zlen (vhead (val e)))) (Zlen s) = Some s.
Proof. intros E. destruct value_split as (H & C & Ezl & HH). rewrite Ezl, <- HH, E. cbn [vdata]. by apply load_app. Qed.

Lemma zlget_spec : reads zl (10 + Zlen A) (text (val e)).
Proof.
  unfold reads, ziplistGet. destruct (at_first t o n A q e bs Hf) as (c & Ec & Hc). fold zl in Ec. rewrite Ec, bind_Some, Hc.
  pose proof (at_zlentry t o n A q e bs Hf He Hsz) as Hz. fold zl in Hz. rewrite Hz, bind_Some. cbn [encoding headersize len zlentry_of].
  rewrite (venc_is_str _ He). destruct (val e) as [s|v] eqn:Ev; rewrite <- Ev.
  - eexists. split; [done|]. cbn beta iota. rewrite Ev at 2 3. cbn [vdata text]. by apply value_str.
  - rewrite (value_int v Ev), bind_Some. eexists. split; [done|]. rewrite Ev. split; [done|]. unfold ent_ok in He. by rewrite Ev in He.
Qed.

Lemma bytes_at_spec s s' : val e = VStr s -> Zlen s' = Zlen s ->
  bytes_at zl (10 + Zlen A + (psize (big e) + Zlen (vhead (val e)))) s' = Some (bool_decide (s = s')).
Proof. intros E El. unfold bytes_at. rewrite El, (value_str s E). done. Qed.

Lemma str_compare s s' : val e = VStr s ->
  (if Zlen (vdata (val e)) =? Zlen s' then bytes_at zl (10 + Zlen A + (psize (big e) + Zlen (vhead (val e)))) s' else Some false) = Some (bool_decide (s = s')).
Proof.
  intros E. rewrite E at 1. cbn [vdata]. destruct (Z.eqb_spec (Zlen s) (Zlen s')) as [El|El]; [by apply bytes_at_spec|].
  rewrite bool_decide_eq_false_2; [done|congruence].
Qed.

Lemma compare_spec s : ziplistCompare zl (10 + Zlen A) s = Some (bool_decide (text (val e) = s)).
Proof.
  unfold ziplistCompare. destruct (at_first t o n A q e bs Hf) as (c & Ec & Hc). fold zl in Ec. rewrite Ec, bind_Some, Hc.
  pose proof (at_zlentry t o n A q e bs Hf He Hsz) as Hz. fold zl in Hz. rewrite Hz, bind_Some. cbn [encoding headersize len zlentry_of].
  rewrite (venc_is_str _ He). destruct (val e) as [s'|v] eqn:Ev; rewrite <- Ev.
  - rewrite (str_compare s' s Ev). by rewrite Ev.
  - assert (text (val e) = sdec v) as -> by (by rewrite Ev).
    assert (INT64_MIN <= v <= INT64_MAX) as Hi by (pose proof He as He'; unfold ent_ok in He'; by rewrite Ev in He'). destruct (try_encoding_spec s) as [(sv & Hv & -> & ->)|[-> Hn]].
    + rewrite bind_Some, (value_int v Ev), bind_Some. f_equal. destruct (Z.eqb_spec v sv) as [->|Hne]; [by rewrite bool_decide_eq_true_2|].
      rewrite bool_decide_eq_false_2; [done|]. intros E. by apply Hne, sdec_inj.
    + rewrite bind_Some, bool_decide_eq_false_2; [done|]. intros E. by apply (Hn v Hi).
Qed.
End Value.

(** ** Length *)

Lemma count_spec t o n es : forall fuel A q k, links q es -> Forall ent_ok es -> 11 + Zlen A + bsize es < 2 ^ 31 -> (length es < fuel)%nat -> 0 <= k -> k + Zlen es < 2 ^ 32 ->
  count_entries fuel (layout t o n A (body q es)) (10 + Zlen A) k = Some (k + Zlen es).
Proof.
  induction es as [|e es IH]; intros fuel A q k Hl Hok Hsz Hf Hk Hb; (destruct fuel as [|fuel]; [cbn [length] in Hf; lia|]); cbn [count_entries body].
  - pose proof (load8_end t o n A []) as H. rewrite Z.add_0_r in H. rewrite H, bind_Some. change (255 =? ZIP_END) with true. cbv iota. f_equal. cbn [length]. lia.
  - destruct Hl as [Hfe Hl]. inversion_clear Hok as [|? ? He Hok']. cbn [bsize length] in *.
    destruct (at_first t o n A q e (body (esize e) es) Hfe) as (c & -> & Ec). rewrite bind_Some, Ec.
    rewrite at_rawlen, bind_Some by (done || (rewrite length_body; lia)). rewrite layout_next.
    replace (10 + Zlen A + esize e) with (10 + Zlen (A ++ (Some <$> ebytes q e))) by (rewrite length_next; lia).
    rewrite (wrapu_id 32) by lia. rewrite IH; [|done|done|rewrite length_next; lia|lia|lia|lia]. f_equal. lia.
Qed.

Lemma len_spec zl es : rep zl es -> 11 + bsize es < 2 ^ 31 -> exists zl', ziplistLen zl = Some (zl', Zlen es) /\ rep zl' es.
Proof.
  intros [(n & -> & Hn) Hl Hok Hh] Hsz. pose proof (len_ok_range _ _ Hn) as Hr. unfold ziplistLen. rewrite zlist_length, bind_Some by done. pose proof (bsize_pos es).
  unfold UINT16_MAX. destruct (Z.ltb_spec n (2 ^ 16 - 1)).
  - exists (zlist n es). split; [destruct Hn as [[-> _]| ->]; [done|lia]|]. constructor; try done. by exists n.
  - pose proof (count_spec (11 + bsize es) (10 + bsize es - lastsize 0 es) n es (length (zlist n es)) [] 0 0 Hl Hok ltac:(cbn [length]; lia) (length_entries n es) ltac:(lia) ltac:(lia)) as HC.
    change (layout (11 + bsize es) (10 + bsize es - lastsize 0 es) n [] (body 0 es)) with (zlist n es) in HC. change (10 + Zlen []) with ZIPLIST_HEADER_SIZE in HC.
    rewrite HC, bind_Some, Z.add_0_l. destruct (Z.ltb_spec (Zlen es) (2 ^ 16 - 1)).
    + unfold zlist, layout. rewrite hdr_put8, bind_Some by lia. eexists. split; [done|]. constructor; try done. exists (Zlen es). split; [done|]. left. lia.
    + rewrite bind_Some. eexists. split; [done|]. constructor; try done. by exists n.
Qed.

(** ** Search *)

Fixpoint find_text (s : list Z) (skip cnt : Z) (ts : list (list Z)) : option nat :=
  match ts with
  | [] => None
  | t :: ts =>
    if cnt =? 0 then if bool_decide (t = s) then Some 0%nat else S <$> find_text s skip skip ts
    else S <$> find_text s skip (cnt - 1) ts
  end.

(** What [vencoding] and [vll] cache about the searched string. *)
Definition cache_ok (s : list Z) (v : Z * Z) : Prop :=
  v.1 = 0 \/ v.1 = 255 /\ (forall x, INT64_MIN <= x <= INT64_MAX -> s <> sdec x) \/
  0 < v.1 < 255 /\ s = sdec v.2 /\ INT64_MIN <= v.2 <= INT64_MAX.

Lemma cache_fill s v : cache_ok s v -> exists v',
  (if v.1 =? 0 then r ← zipTryEncoding s; Some (match r with Some (vll, vencoding) => (vencoding, vll) | None => (UCHAR_MAX, v.2) end) else Some v) = Some v' /\
  cache_ok s v' /\ v'.1 <> 0.
Proof.
  intros [E|[[E Hn]|(E & Hs & Hr)]].
  - rewrite E. cbn [Z.eqb]. destruct (try_encoding_spec s) as [(x & Hx & -> & ->)|[-> Hn]]; rewrite bind_Some; eexists; (split; [done|]).
    + destruct (int_enc_cases x Hx) as (He & _). split; [|cbn; lia]. right; right. cbn. split_and!; try done; lia.
    + split; [|done]. right; left. done.
  - exists v. destruct (Z.eqb_spec v.1 0); [lia|]. split_and!; [done| |done]. right; left. done.
  - exists v. destruct (Z.eqb_spec v.1 0); [lia|]. split_and!; [done| |done]. right; right. done.
Qed.

Lemma find_loop_spec t o n s skip es : forall fuel A q cnt v, links q es -> Forall ent_ok es -> 11 + Zlen A + bsize es < 2 ^ 31 -> (length es < fuel)%nat ->
  0 <= skip < 2 ^ 31 -> 0 <= cnt -> cache_ok s v ->
  find_loop fuel (layout t o n A (body q es)) (10 + Zlen A) s skip cnt v =
    Some ((fun k => 10 + Zlen A + bsize (take k es)) <$> find_text s skip cnt ((fun e => text (val e)) <$> es)).
Proof.
  induction es as [|e es IH]; intros fuel A q cnt v Hl Hok Hsz Hf Hskip Hcnt Hv; (destruct fuel as [|fuel]; [cbn [length] in Hf; lia|]); cbn [find_loop body].
  - pose proof (load8_end t o n A []) as H. rewrite Z.add_0_r in H. rewrite H, bind_Some. done.
  - destruct Hl as [Hfe Hl]. inversion_clear Hok as [|? ? He Hok']. cbn [bsize length] in *.
    assert (11 + Zlen A + esize e + Zlen (body (esize e) es) < 2 ^ 31) as Hs1 by (rewrite length_body; lia).
    destruct (at_first t o n A q e (body (esize e) es) Hfe) as (c & -> & Ec). rewrite bind_Some, Ec.
    destruct (at_prev t o n A q e (body (esize e) es) Hfe) as [_ ->]. rewrite bind_Some, (at_len t o n A q e _ He Hs1), bind_Some.
    assert (10 + Zlen A + psize (big e) + Zlen (vhead (val e)) + Zlen (vdata (val e)) = 10 + Zlen (A ++ (Some <$> ebytes q e))) as Enext.
    { rewrite length_next. unfold esize. rewrite length_payload. lia. }
    assert (forall cnt' v', 0 <= cnt' -> cache_ok s v' ->
      find_loop fuel (layout t o n A (ebytes q e ++ body (esize e) es)) (10 + Zlen A + psize (big e) + Zlen (vhead (val e)) + Zlen (vdata (val e))) s skip cnt' v' =
      Some ((fun k => 10 + Zlen A + bsize (take k (e :: es))) <$> (S <$> find_text s skip cnt' ((fun e => text (val e)) <$> es)))) as Hrec.
    { intros cnt' v' Hc' Hv'. rewrite Enext, layout_next, IH; try done; [|rewrite length_next; lia|lia]. rewrite length_next.
      destruct (find_text _ _ _ _); [|done]. cbn [fmap option_fmap option_map take bsize]. do 2 f_equal. lia. }
    rewrite fmap_cons. cbn [find_text]. destruct (Z.eqb_spec cnt 0) as [->|Hc0].
    + rewrite <- (Z.add_assoc (10 + Zlen A)).
      assert (exists v', cache_ok s v' /\ (if ZIP_IS_STR (venc (val e)) then
          b ← (if Zlen (vdata (val e)) =? Zlen s then bytes_at (layout t o n A (ebytes q e ++ body (esize e) es)) (10 + Zlen A + (psize (big e) + Zlen (vhead (val e)))) s else Some false); Some (b, v)
        else
          '(vencoding, vll) ← (if v.1 =? 0 then
              r ← zipTryEncoding s;
              Some (match r with Some (vll, vencoding) => (vencoding, vll) | None => (UCHAR_MAX, v.2) end)
            else Some v);
          if vencoding =? 0 then None else
          if negb (vencoding =? UCHAR_MAX) then ll ← zipLoadInteger (layout t o n A (ebytes q e ++ body (esize e) es)) (10 + Zlen A + (psize (big e) + Zlen (vhead (val e)))) (venc (val e)); Some (ll =? vll, (vencoding, vll))
          else Some (false, (vencoding, vll))) = Some (bool_decide (text (val e) = s), v')) as (v' & Hv' & ->).
      { rewrite (venc_is_str _ He). destruct (val e) as [s'|x] eqn:Ev; rewrite <- Ev.
        - exists v. split; [done|]. rewrite (str_compare t o n A q e (body (esize e) es) s' s Ev), bind_Some. by rewrite Ev.
        - destruct (cache_fill s v Hv) as ([enc ll] & -> & Hv' & Hne). exists (enc, ll). split; [done|]. rewrite bind_Some. cbn [fst] in Hne. destruct (Z.eqb_spec enc 0); [done|].
          assert (INT64_MIN <= x <= INT64_MAX) as Hx by (pose proof He as He'; unfold ent_ok in He'; by rewrite Ev in He').
          assert (text (val e) = sdec x) as -> by (by rewrite Ev). unfold UCHAR_MAX. destruct Hv' as [|[[E Hn]|(E & Hs & Hr)]]; cbn [fst snd] in *; [done| |].
          + rewrite E. cbn [Z.eqb Pos.eqb negb]. rewrite bool_decide_eq_false_2; [done|]. intros E'. by apply (Hn x Hx).
          + destruct (Z.eqb_spec enc 255); [lia|]. cbn [negb]. rewrite (value_int t o n A q e _ He x Ev), bind_Some. do 2 f_equal. subst s.
            destruct (Z.eqb_spec x ll) as [->|Hne']; [by rewrite bool_decide_eq_true_2|]. rewrite bool_decide_eq_false_2; [done|]. intros E'. by apply Hne', sdec_inj. }
      rewrite bind_Some. destruct (bool_decide (text (val e) = s)).
      * cbn [fmap option_fmap option_map take bsize]. do 2 f_equal. lia.
      * rewrite (wraps_id 32) by lia. rewrite (Z.add_assoc (10 + Zlen A)). by apply Hrec; [lia|].
    + by apply Hrec; [lia|].
Qed.

Lemma zlfind_spec n es s skip : links 0 es -> Forall ent_ok es -> 11 + bsize es < 2 ^ 31 -> 0 <= skip < 2 ^ 31 ->
  ziplistFind (zlist n es) ZIPLIST_HEADER_SIZE s skip = Some ((fun k => 10 + bsize (take k es)) <$> find_text s skip 0 ((fun e => text (val e)) <$> es)).
Proof.
  intros Hl Hok Hsz Hskip. unfold ziplistFind.
  apply (find_loop_spec _ _ n s skip es (length (zlist n es)) [] 0 0 (0, 0)); first [done | by left | apply length_entries | lia].
Qed.

(** ** Neighbours *)

Lemma here_ok a e b : links 0 (a ++ e :: b) -> Forall ent_ok (a ++ e :: b) -> 11 + bsize (a ++ e :: b) < 2 ^ 31 ->
  fits (lastsize 0 a) (big e) /\ ent_ok e /\ 11 + Zlen (prefix a) + esize e + Zlen (body (esize e) b) < 2 ^ 31.
Proof.
  intros Hl Hok Hsz. apply links_app in Hl as [_ [Hf _]]. apply Forall_app in Hok as [_ Ho]. inversion_clear Ho as [|? ? He _]. split_and!; [done|done|].
  rewrite bsize_app in Hsz. cbn [bsize] in Hsz. rewrite length_prefix, length_body. lia.
Qed.

Lemma take_here (a : list ent) e b : take (length a) (a ++ e :: b) = a /\ take (S (length a)) (a ++ e :: b) = a ++ [e].
Proof.
  split; [apply take_app_length|]. replace (a ++ e :: b) with ((a ++ [e]) ++ b) by (by rewrite <- app_assoc). apply take_app_length'. rewrite length_app. cbn. lia.
Qed.

Lemma length_small es : 11 + bsize es < 2 ^ 31 -> Zlen es < 2 ^ 30.
Proof. intros Hsz. pose proof (bsize_pos es). lia. Qed.

Lemma zlnext_spec n a e b (es := a ++ e :: b) : links 0 (a ++ e :: b) -> Forall ent_ok (a ++ e :: b) -> 11 + bsize (a ++ e :: b) < 2 ^ 31 ->
  ziplistNext (zlist n es) (10 + bsize a) = ziplistIndex (zlist n es) (Zlen a + 1).
Proof.
  intros Hl Hok Hsz. destruct (here_ok a e b Hl Hok Hsz) as (Hf & He & Hs). pose proof (length_small es Hsz) as Hle. rewrite index_spec by (done || (unfold es in Hle; rewrite length_app in Hle; unfold_limits; lia)). unfold ziplistNext.
  destruct (byte_after n a (e :: b) Hl) as (c & Ec & Hc). fold es in Ec. rewrite Ec, bind_Some, Hc.
  assert (zipRawEntryLength (zlist n es) (10 + bsize a) = Some (esize e)) as ->.
  { unfold es. rewrite zlist_at, <- length_prefix. by apply at_rawlen. }
  rewrite bind_Some. pose proof (byte_after n (a ++ [e]) b) as Hb. rewrite <- app_assoc, bsize_app in Hb. cbn [app bsize] in Hb. destruct (Hb Hl) as (c' & Ec' & Hc'). fold es in Ec'.
  replace (10 + (bsize a + (esize e + 0))) with (10 + bsize a + esize e) in Ec' by lia. rewrite Ec', bind_Some, Hc'. unfold resolve.
  destruct (Z.ltb_spec (Zlen a + 1) 0); [lia|]. destruct (Z.leb_spec 0 (Zlen a + 1)); [|lia]. cbn [andb].
  assert (Zlen es = Zlen a + 1 + Zlen b) as El by (unfold es; rewrite length_app; cbn [length]; lia). destruct b as [|y b'].
  - destruct (Z.ltb_spec (Zlen a + 1) (Zlen es)); [cbn [length] in El; lia|done].
  - destruct (Z.ltb_spec (Zlen a + 1) (Zlen es)); [|cbn [length] in El; lia]. cbn [fmap option_fmap option_map].
    replace (Z.to_nat (Zlen a + 1)) with (S (length a)) by lia. destruct (take_here a e (y :: b')) as [_ Ht]; fold es in Ht; rewrite Ht. rewrite bsize_app. cbn [bsize]. do 2 f_equal. lia.
Qed.

Lemma prev_spec n a e b (es := a ++ e :: b) : links 0 (a ++ e :: b) -> Forall ent_ok (a ++ e :: b) -> 11 + bsize (a ++ e :: b) < 2 ^ 31 ->
  ziplistPrev (zlist n es) (10 + bsize a) = if decide (a = []) then Some None else ziplistIndex (zlist n es) (Zlen a - 1).
Proof.
  intros Hl Hok Hsz. destruct (here_ok a e b Hl Hok Hsz) as (Hf & He & Hs). pose proof (length_small es Hsz) as Hle. unfold ziplistPrev.
  destruct (byte_after n a (e :: b) Hl) as (c & Ec & Hc). fold es in Ec. rewrite Ec, bind_Some, Hc. unfold ZIPLIST_HEADER_SIZE. pose proof (bsize_pos a) as [Hb Hb'].
  destruct (decide (a = [])) as [Ea|Ea]; [rewrite Ea; done|]. assert (length a <> 0%nat) as Hla by (by destruct a).
  destruct (Z.eqb_spec (10 + bsize a) 10); [lia|].
  assert (ZIP_DECODE_PREVLEN (zlist n es) (10 + bsize a) = Some (psize (big e), lastsize 0 a)) as ->.
  { unfold es. rewrite zlist_at, <- length_prefix. by apply at_prev. }
  rewrite bind_Some. rewrite index_spec by (done || (unfold es in Hle; rewrite length_app in Hle; unfold_limits; lia)). unfold resolve.
  destruct (Z.ltb_spec (Zlen a - 1) 0); [lia|]. destruct (Z.leb_spec 0 (Zlen a - 1)); [|lia]. cbn [andb].
  destruct (Z.ltb_spec (Zlen a - 1) (Zlen es)) as [_|Hbad]; [|unfold es in Hbad; rewrite length_app in Hbad; cbn [length] in Hbad; lia].
  assert (exists a' y, a = a' ++ [y]) as (a' & y & Eay) by (destruct a as [|y a' _] using rev_ind; [done|by eexists _, _]).
  assert (lastsize 0 a = esize y) as -> by (rewrite Eay, lastsize_app; done). pose proof (esize_pos y). destruct (Z.ltb_spec 0 (esize y)); [|lia].
  cbn [fmap option_fmap option_map]. assert (take (Z.to_nat (Zlen a - 1)) es = a') as ->.
  { unfold es. rewrite Eay, <- app_assoc. apply take_app_length'. rewrite length_app. cbn [length]. lia. }
  rewrite Eay, bsize_app. cbn [bsize]. do 2 f_equal. lia.
Qed.
Lemma prev_end_spec n es : links 0 es -> Forall ent_ok es -> 11 + bsize es < 2 ^ 31 -> ziplistPrev (zlist n es) (10 + bsize es) = ziplistIndex (zlist n es) (-1).
Proof.
  intros Hl Hok Hsz. rewrite index_spec by (done || (unfold_limits; lia)). unfold ziplistPrev. pose proof (byte_after n es []) as Hb. rewrite app_nil_r in Hb.
  destruct (Hb Hl) as (c & Ec & Hc). rewrite Ec, bind_Some, Hc, zlist_tail, bind_Some by done. unfold resolve. change (-1 <? 0) with true. cbv iota.
  destruct es as [|e a _] using rev_ind.
  - destruct (byte_after n [] [] Hl) as (c' & Ec' & Hc'). cbn [app] in Ec'. change (10 + bsize [] - lastsize 0 []) with (10 + bsize []). by rewrite Ec', bind_Some, Hc'.
  - destruct (byte_after n a [e] Hl) as (c' & Ec' & Hc'). rewrite lastsize_app, bsize_app in *. change (lastsize (lastsize 0 a) [e]) with (esize e). cbn [bsize] in *.
    replace (10 + (bsize a + (esize e + 0)) - esize e) with (10 + bsize a) by lia. rewrite Ec', bind_Some, Hc', length_app. cbn [length].
    destruct (Z.leb_spec 0 (Z.of_nat (length a + 1) + -1)); [|lia]. destruct (Z.ltb_spec (Z.of_nat (length a + 1) + -1) (Z.of_nat (length a + 1))); [|lia]. cbn [andb fmap option_fmap option_map].
    replace (Z.to_nat (Z.of_nat (length a + 1) + -1)) with (length a) by lia. by rewrite take_app_length.
Qed.

(** ** Lists of byte strings *)

Definition texts (es : list ent) : list (list Z) := (fun e => text (val e)) <$> es.

(** [zl] is a well formed ziplist that holds the byte strings [ts]. *)
Definition represents (zl : block) (ts : list (list Z)) : Prop := exists es, rep zl es /\ texts es = ts.

(** A bound on the bytes of a list, whatever the size fields became. *)
Fixpoint cost (ts : list (list Z)) : Z := match ts with [] => 0 | t :: ts => Zlen t + 18 + cost ts end.

Lemma esize_le e : ent_ok e -> esize e <= Zlen (text (val e)) + 14.
Proof.
  intros He. unfold esize, ent_ok in *. pose proof (psize_range (big e)). rewrite length_payload. pose proof (vhead_pos (val e)). destruct (val e) as [s|v]; cbn [vdata vhead text] in *; [lia|].
  cbn [length]. pose proof (sdec_length v He). destruct (int_enc_cases v He) as (_ & _ & Hc). unfold int_bytes. rewrite length_le_bytes.
  destruct Hc as [(_ & _ & ->)|[(_ & -> & _)|[(_ & -> & _)|[(_ & -> & _)|[(_ & -> & _)|(_ & -> & _)]]]]]; lia.
Qed.

Lemma cost_app a b : cost (a ++ b) = cost a + cost b.
Proof. induction a as [|t a IH]; cbn [app cost]; lia. Qed.

Lemma cost_pos ts : 0 <= cost ts.
Proof. induction ts as [|t ts IH]; cbn [cost]; lia. Qed.

Lemma bsize_cost es : Forall ent_ok es -> bsize es + 4 * Zlen es <= cost (texts es).
Proof.
  induction es as [|e es IH]; intros Hok; [done|]. inversion_clear Hok as [|? ? He Hok']. specialize (IH Hok'). pose proof (esize_le e He).
  unfold texts in *. rewrite fmap_cons. cbn [bsize length cost]. lia.
Qed.

Lemma texts_app a b : texts (a ++ b) = texts a ++ texts b.
Proof. apply fmap_app. Qed.

Lemma length_texts es : length (texts es) = length es.
Proof. apply length_fmap. Qed.

Lemma texts_val a b : val <$> a = val <$> b -> texts a = texts b.
Proof.
  intros E. unfold texts. assert (forall l : list ent, (fun e => text (val e)) <$> l = text <$> (val <$> l)) as H by (intros; by rewrite <- list_fmap_compose). by rewrite !H, E.
Qed.

Lemma texts_split es k : texts (take k es) = take k (texts es) /\ texts (drop k es) = drop k (texts es).
Proof. unfold texts. by rewrite fmap_take, fmap_drop. Qed.

Lemma resolve_texts es i : resolve (texts es) i = resolve es i.
Proof. unfold resolve. by rewrite length_texts. Qed.

(** *** Queries *)

Definition entry_answers (zl : block) (ts : list (list Z)) (k : nat) (p : Z) : Prop :=
  exists t, ts !! k = Some t /\ reads zl p t /\ (forall s, ziplistCompare zl p s = Some (bool_decide (t = s))) /\
    ziplistNext zl p = ziplistIndex zl (Z.of_nat k + 1) /\
    ziplistPrev zl p = if decide (k = 0%nat) then Some None else ziplistIndex zl (Z.of_nat k - 1).

Record answers (zl : block) (ts : list (list Z)) : Prop := {
  ans_blob : ziplistBlobLen zl = Some (Zlen zl);
  ans_len : exists zl', ziplistLen zl = Some (zl', Zlen ts) /\ represents zl' ts;
  ans_index : forall i, INT32_MIN < i <= INT32_MAX ->
    match resolve ts i with
    | None => ziplistIndex zl i = Some None
    | Some k => exists p, ziplistIndex zl i = Some (Some p) /\ entry_answers zl ts k p
    end;
  ans_last : ziplistPrev zl (Zlen zl - 1) = ziplistIndex zl (-1);
  ans_find : forall s skip, 0 <= skip < 2 ^ 31 -> ziplistFind zl ZIPLIST_HEADER_SIZE s skip =
    match find_text s skip 0 ts with None => Some None | Some k => ziplistIndex zl (Z.of_nat k) end
}.

Lemma resolve_lt {A} (l : list A) i k : resolve l i = Some k -> (k < length l)%nat.
Proof.
  unfold resolve. set (j := if i <? 0 then Zlen l + i else i). destruct (Z.leb_spec 0 j), (Z.ltb_spec j (Zlen l)); cbn [andb]; intros E; simplify_eq. lia.
Qed.

Lemma resolve_nat {A} (l : list A) k : (k < length l)%nat -> resolve l (Z.of_nat k) = Some k.
Proof.
  intros Hk. unfold resolve. destruct (Z.ltb_spec (Z.of_nat k) 0); [lia|]. destruct (Z.leb_spec 0 (Z.of_nat k)); [|lia]. destruct (Z.ltb_spec (Z.of_nat k) (Zlen l)); [|lia].
  cbn [andb]. by rewrite Nat2Z.id.
Qed.

Lemma find_text_lt s skip ts : forall cnt k, find_text s skip cnt ts = Some k -> (k < length ts)%nat.
Proof.
  induction ts as [|t ts IH]; intros cnt k; cbn [find_text length]; [done|].
  destruct (cnt =? 0); [case_bool_decide; [intros [= <-]; lia|]|]; intros E; apply fmap_Some in E as (k' & E & ->); apply IH in E; lia.
Qed.

Lemma represents_answers zl ts : represents zl ts -> 32 + cost ts < 2 ^ 31 -> answers zl ts.
Proof.
  intros (es & Hrep & <-) Hsz. pose proof Hrep as [(n & -> & Hn) Hl Hok Hh]. pose proof (bsize_cost es Hok) as Hb. pose proof (bsize_pos es) as [Hb0 Hb1].
  assert (11 + bsize es < 2 ^ 31) as Hs by lia. constructor.
  - unfold ziplistBlobLen. rewrite zlist_bytes by done. by rewrite length_zlist.
  - destruct (len_spec _ _ Hrep Hs) as (zl' & E & Hr'). exists zl'. rewrite length_texts. split; [done|]. by exists es.
  - intros i Hi. rewrite resolve_texts, index_spec by done. destruct (resolve es i) as [k|] eqn:Ek; [|done]. cbn [fmap option_fmap option_map].
    eexists. split; [done|]. apply resolve_lt in Ek. destruct (lookup_lt_is_Some_2 es k Ek) as (e & Ee). pose proof (take_drop_middle es k e Ee) as Es.
    assert (length (take k es) = k) as Elt by (rewrite length_take; lia). set (a := take k es) in *. set (b := drop (S k) es) in *. clearbody a b. rewrite <- Es in *. clear Es.
    destruct (here_ok a e b Hl Hok Hs) as (Hf & He & Hs'). exists (text (val e)). rewrite <- Elt. split_and!.
    + unfold texts. rewrite list_lookup_fmap, lookup_app_r, Nat.sub_diag by lia. done.
    + rewrite zlist_at, <- length_prefix. by apply zlget_spec.
    + intros s. rewrite zlist_at, <- length_prefix. by apply compare_spec.
    + by apply zlnext_spec.
    + rewrite prev_spec by done. destruct (decide (a = [])) as [Ha|Ha], (decide (length a = 0%nat)) as [Ha'|Ha']; try done; [by rewrite Ha in Ha'|by destruct a].
  - rewrite length_zlist. replace (11 + bsize es - 1) with (10 + bsize es) by lia. by apply prev_end_spec.
  - intros s skip Hskip. rewrite zlfind_spec by done. fold (texts es). destruct (find_text s skip 0 (texts es)) as [k|] eqn:Ek; [|done].
    apply find_text_lt in Ek. rewrite length_texts in Ek. rewrite index_spec by (done || (unfold_limits; lia)). by rewrite resolve_nat.
Qed.

End Queries.

(** ** Scripts *)

Inductive zlcmd :=
  | LPush (s : list Z) (at_head : bool)
  | LInsert (i : Z) (s : list Z)
  | LDel (i num : Z).

(** Values that take less than three bytes: the empty string, one byte, or an
    integer of one byte. *)
Definition tiny (s : list Z) : bool := Zlen (payload (of_text s)) <? 3.

Section Scripts.
Context {HOST : Host}.

Definition lexec (zl : block) (c : zlcmd) : option block :=
  match c with
  | LPush s at_head => ziplistPush zl s at_head
  | LInsert i s => p ← ziplistIndex zl i; match p with Some p => ziplistInsert zl p s | None => Some zl end
  | LDel i num => ziplistDeleteRange zl i num
  end.

Fixpoint lrun (zl : block) (cs : list zlcmd) : option block :=
  match cs with [] => Some zl | c :: cs => zl ← lexec zl c; lrun zl cs end.

(** The specification, on lists of byte strings. *)
Definition lspec (ts : list (list Z)) (c : zlcmd) : list (list Z) :=
  match c with
  | LPush s true => s :: ts
  | LPush s false => ts ++ [s]
  | LInsert i s => match resolve ts i with Some k => take k ts ++ s :: drop k ts | None => ts end
  | LDel i num => match resolve ts i with Some k => take k ts ++ drop (k + Z.to_nat num) ts | None => ts end
  end.

(** What is asked of a command: room below 2^31 bytes, and no tiny value inserted
    inside the list. *)
Definition lcmd_ok (ts : list (list Z)) (c : zlcmd) : Prop :=
  match c with
  | LPush s _ => Forall is_byte s /\ 32 + cost (lspec ts c) < 2 ^ 31
  | LInsert i s => Forall is_byte s /\ 32 + cost (lspec ts c) < 2 ^ 31 /\ INT32_MIN < i <= INT32_MAX /\ (tiny s = false \/ resolve ts i = Some 0%nat)
  | LDel i num => INT32_MIN < i <= INT32_MAX /\ 0 <= num < 2 ^ 32
  end.

Fixpoint lcmds_ok (ts : list (list Z)) (cs : list zlcmd) : Prop :=
  match cs with [] => True | c :: cs => lcmd_ok ts c /\ lcmds_ok (lspec ts c) cs end.

Lemma new_ok : exists zl, ziplistNew = Some zl /\ represents zl [].
Proof.
  exists (zlist 0 []). split; [destruct HOST; reflexivity|]. exists []. split; [|done]. constructor; try done. exists 0. split; [done|]. left. done.
Qed.

Lemma new_text prev s : Forall is_byte s -> text (val (new_ent prev s)) = s /\ ent_ok (new_ent prev s).
Proof. intros Hs. destruct (of_text_ok s Hs) as [H1 H2]. done. Qed.

Lemma represents_insert zl a b s : rep zl (a ++ b) -> Forall is_byte s -> (a = [] \/ b = [] \/ tiny s = false) ->
  32 + cost (texts a ++ s :: texts b) < 2 ^ 31 ->
  exists zl', __ziplistInsert zl (10 + bsize a) s = Some zl' /\ represents zl' (texts a ++ s :: texts b).
Proof.
  intros Hrep Hs Hp Hsz. pose proof (rep_ok _ _ Hrep) as Hok. pose proof (bsize_cost _ Hok) as Hb. rewrite texts_app, cost_app in Hb. rewrite cost_app in Hsz. cbn [cost] in Hsz.
  destruct (new_text (lastsize 0 a) s Hs) as [Ht Ho]. pose proof (esize_le _ Ho) as Hle. rewrite Ht in Hle.
  destruct (insert_spec zl a b s Hrep Hs) as (zl' & E & Hrep').
  - destruct Hp as [|[|Htiny]]; [by left|by right; left|right; right]. unfold tiny in Htiny. apply Z.ltb_ge in Htiny. unfold esize, new_ent. cbn [big val].
    pose proof (psize_range (wide (lastsize 0 a))). lia.
  - lia.
  - exists zl'. split; [done|]. eexists. split; [exact Hrep'|]. rewrite texts_app. f_equal. unfold texts at 1. rewrite fmap_cons. f_equal; [done|].
    apply texts_val, relink_val.
Qed.

Lemma delete_none n a b : links 0 (a ++ b) -> Forall ent_ok (a ++ b) -> 11 + bsize (a ++ b) < 2 ^ 31 -> b <> [] -> __ziplistDelete (zlist n (a ++ b)) (10 + bsize a) 0 = Some (zlist n (a ++ b)).
Proof.
  intros Hl Hok Hsz Hb. destruct b as [|e b]; [done|]. destruct (here_ok a e b Hl Hok Hsz) as (Hf & He & Hs). unfold __ziplistDelete.
  pose proof (at_zlentry (tot (prefix a) e b) (toff (prefix a) e b) n (prefix a) (lastsize 0 a) e (body (esize e) b) Hf He Hs) as Hz. rewrite <- zlist_at, length_prefix in Hz.
  rewrite Hz, bind_Some. pose proof (length_entries n (a ++ e :: b)) as Hle. destruct (length (zlist n (a ++ e :: b))) as [|fuel]; [lia|]. cbn [skip_entries].
  destruct (byte_after n a (e :: b) Hl) as (c & Ec & Hc). rewrite Ec, bind_Some, Hc. change (0 <? 0) with false. cbn [negb andb]. rewrite bind_Some. cbn [e_p zlentry_of].
  rewrite Z.sub_diag. done.
Qed.

Lemma represents_delete zl a b num : rep zl (a ++ b) -> b <> [] -> 0 <= num -> 32 + cost (texts a ++ texts b) < 2 ^ 31 ->
  exists zl', __ziplistDelete zl (10 + bsize a) num = Some zl' /\ represents zl' (texts a ++ drop (Z.to_nat num) (texts b)).
Proof.
  intros Hrep Hb Hnum Hsz. pose proof (rep_ok _ _ Hrep) as Hok. pose proof (bsize_cost _ Hok) as Hbc. rewrite texts_app in Hbc.
  destruct (decide (num = 0)) as [->|Hn0].
  { pose proof Hrep as [(n & -> & Hn) Hl _ Hh]. rewrite delete_none by (done || lia). eexists. split; [done|]. exists (a ++ b). split; [done|]. by rewrite texts_app. }
  pose proof (take_drop (Z.to_nat num) b) as Eb. set (d := take (Z.to_nat num) b) in *. set (r := drop (Z.to_nat num) b) in *.
  assert (length d = Nat.min (Z.to_nat num) (length b)) as Hd by apply length_take. assert (length b <> 0%nat) as Hlb by (by destruct b).
  destruct (delete_spec zl a d r num) as (zl' & E & Hrep').
  - by rewrite Eb.
  - intros ->. cbn [length] in Hd. lia.
  - lia.
  - destruct (decide (Z.to_nat num < length b)%nat); [right; lia|left]. apply drop_ge. lia.
  - rewrite Eb. lia.
  - exists zl'. split; [done|]. eexists. split; [exact Hrep'|]. rewrite texts_app. f_equal. rewrite (texts_val _ _ (relink_val _ _)). by apply texts_split.
Qed.

Lemma cost_delete (a b : list (list Z)) k : cost (a ++ drop k b) <= cost (a ++ b).
Proof. rewrite !cost_app. rewrite <- (take_drop k b) at 2. rewrite cost_app. pose proof (cost_pos (take k b)). lia. Qed.

Lemma lexec_refines zl ts c : represents zl ts -> 32 + cost ts < 2 ^ 31 -> lcmd_ok ts c ->
  exists zl', lexec zl c = Some zl' /\ represents zl' (lspec ts c) /\ 32 + cost (lspec ts c) < 2 ^ 31.
Proof.
  intros (es & Hrep & <-) Hsz Hc. pose proof Hrep as [(n & -> & Hn) Hl Hok Hh]. pose proof (bsize_cost es Hok) as Hb. pose proof (bsize_pos es) as [Hb0 _].
  destruct c as [s [|]|i s|i num]; cbn [lexec lspec lcmd_ok] in *.
  - destruct Hc as [Hs Hr]. destruct (represents_insert (zlist n es) [] es s Hrep Hs (or_introl eq_refl) Hr) as (zl' & E & Hr'). exists zl'. split_and!; [|done|done].
    unfold ziplistPush. rewrite bind_Some. exact E.
  - destruct Hc as [Hs Hr]. assert (rep (zlist n es) (es ++ [])) as Hrep' by (by rewrite app_nil_r). destruct (represents_insert (zlist n es) es [] s Hrep' Hs (or_intror (or_introl eq_refl)) Hr) as (zl' & E & Hr').
    exists zl'. split_and!; [|done|done]. unfold ziplistPush. rewrite zlist_bytes, !bind_Some by lia. replace (11 + bsize es - 1) with (10 + bsize es) by lia. exact E.
  - destruct Hc as (Hs & Hr & Hi & Ht). rewrite index_spec, bind_Some by (done || lia). rewrite resolve_texts in *.
    destruct (resolve es i) as [k|] eqn:Ek; [|exists (zlist n es); split_and!; [done|by exists es|done]]. cbn [fmap option_fmap option_map].
    destruct (texts_split es k) as [E1 E2]. rewrite <- E1, <- E2 in *. assert (rep (zlist n es) (take k es ++ drop k es)) as Hrep' by (by rewrite take_drop).
    destruct (represents_insert (zlist n es) (take k es) (drop k es) s Hrep' Hs) as (zl' & E & Hr'); [|done|by exists zl'].
    destruct Ht as [Ht|[= ->]]; [by right; right|by left].
  - destruct Hc as [Hi Hnum]. unfold ziplistDeleteRange. rewrite index_spec, bind_Some by (done || lia). rewrite resolve_texts.
    destruct (resolve es i) as [k|] eqn:Ek; [|exists (zlist n es); split_and!; [done|by exists es|done]]. cbn [fmap option_fmap option_map].
    pose proof (resolve_lt _ _ _ Ek) as Hk. destruct (texts_split es k) as [E1 E2]. rewrite <- drop_drop, <- E1, <- E2 in *.
    assert (texts (take k es) ++ texts (drop k es) = texts es) as Et by (by rewrite <- texts_app, take_drop).
    assert (rep (zlist n es) (take k es ++ drop k es)) as Hrep' by (by rewrite take_drop).
    destruct (represents_delete (zlist n es) (take k es) (drop k es) num Hrep') as (zl' & E & Hr'); [|lia|by rewrite Et|].
    + intros E. apply (f_equal length) in E. rewrite length_drop in E. cbn [length] in E. lia.
    + exists zl'. split_and!; [done|done|]. pose proof (cost_delete (texts (take k es)) (texts (drop k es)) (Z.to_nat num)) as Hcd. rewrite Et in Hcd. lia.
Qed.

Lemma lrun_refines cs : forall zl ts, represents zl ts -> 32 + cost ts < 2 ^ 31 -> lcmds_ok ts cs ->
  exists zl', lrun zl cs = Some zl' /\ represents zl' (fold_left lspec cs ts) /\ 32 + cost (fold_left lspec cs ts) < 2 ^ 31.
Proof.
  induction cs as [|c cs IH]; intros zl ts Hr Hsz Hok; cbn [lrun fold_left]; [by exists zl|]. destruct Hok as [Hc Hok].
  destruct (lexec_refines zl ts c Hr Hsz Hc) as (zl' & -> & Hr' & Hsz'). rewrite bind_Some. by apply IH.
Qed.

End Scripts.

(** C4. From [ziplistNew] on, every script of pushes at both ends, insertions
    before an index and deletions of ranges of entries is memory safe on hosts of
    either byte order and leaves a well formed list of the byte strings a plain
    list would hold, integers being kept in their compact encodings; the length,
    the entry at every index from either end, its neighbours, comparisons and
    searches are those of the plain list.  Values that take less than three bytes
    are inserted at the ends only. *)
Theorem ziplist_refines_list (HOST : Host) cs : lcmds_ok [] cs ->
  exists zl0 zl, ziplistNew = Some zl0 /\ lrun zl0 cs = Some zl /\ represents zl (fold_left lspec cs []) /\ answers zl (fold_left lspec cs []).
Proof.
  intros Hok. destruct new_ok as (zl0 & E0 & Hr0). destruct (lrun_refines cs zl0 [] Hr0 ltac:(done) Hok) as (zl & E & Hr & Hsz).
  exists zl0, zl. split_and!; [done|done|done|]. by apply represents_answers.
Qed.

Definition demo_script : list zlcmd :=
  [LPush (replicate 300 97) false; LPush (replicate 250 98) false; LPush [99; 99; 99] false; LPush [49; 50; 51; 52] true; LInsert 1 [45; 57; 57; 57]; LDel 2 1].

Lemma ziplist_refines_list_witness : fold_left lspec demo_script [] = [[49; 50; 51; 52]; [45; 57; 57; 57]; replicate 250 98; [99; 99; 99]] /\
  exists zl0 zl, @ziplistNew true = Some zl0 /\ @lrun true zl0 demo_script = Some zl /\ @represents zl (fold_left lspec demo_script []) /\ @answers true zl (fold_left lspec demo_script []).
Proof.
  split; [vm_compute; reflexivity|]. apply (ziplist_refines_list true). cbn [lcmds_ok lcmd_ok demo_script].
  split_and!; first [exact I | (vm_compute; reflexivity) | (left; vm_compute; reflexivity) | (apply (bool_decide_unpack _); vm_compute; exact I)].
Defined.

Lemma represents_merge (HOST : Host) zl1 zl2 ts1 ts2 : represents zl1 ts1 -> represents zl2 ts2 -> ts2 <> [] -> 64 + cost ts1 + cost ts2 < 2 ^ 31 ->
  exists zl append, ziplistMerge (Some zl1) (Some zl2) false = Some (Some (zl, append)) /\ represents zl (ts1 ++ ts2).
Proof.
  intros (es1 & Hr1 & <-) (es2 & Hr2 & <-) Hne Hsz. pose proof (bsize_cost _ (rep_ok _ _ Hr1)) as Hb1. pose proof (bsize_cost _ (rep_ok _ _ Hr2)) as Hb2.
  destruct (merge_spec zl1 zl2 es1 es2 Hr1 Hr2) as (zl & (append & E) & Hr).
  - intros ->. done.
  - lia.
  - exists zl, append. split; [done|]. eexists. split; [exact Hr|]. rewrite texts_app. f_equal. destruct (last es1); [|done]. apply texts_val, cascade_val.
Qed.

(** C17. Merging a ziplist with a non-empty one, whichever of the two is
    reallocated, gives a well formed list of the entries of the first followed by
    those of the second. *)
Theorem ziplistMerge_concat (HOST : Host) zl1 zl2 ts1 ts2 : represents zl1 ts1 -> represents zl2 ts2 -> ts2 <> [] -> 64 + cost ts1 + cost ts2 < 2 ^ 31 ->
  exists zl append, ziplistMerge (Some zl1) (Some zl2) false = Some (Some (zl, append)) /\ represents zl (ts1 ++ ts2) /\ answers zl (ts1 ++ ts2).
Proof.
  intros H1 H2 Hne Hsz. destruct (represents_merge HOST zl1 zl2 ts1 ts2 H1 H2 Hne Hsz) as (zl & append & E & Hr). exists zl, append. split_and!; [done|done|].
  apply represents_answers; [done|]. rewrite cost_app. pose proof (cost_pos ts1). lia.
Qed.

Lemma ziplistMerge_concat_witness : exists zl1 zl2 zl append, represents zl1 [replicate 300 97] /\ represents zl2 [[49]; [99]] /\
  @ziplistMerge false (Some zl1) (Some zl2) false = Some (Some (zl, append)) /\ represents zl [replicate 300 97; [49]; [99]] /\ @answers false zl [replicate 300 97; [49]; [99]].
Proof.
  destruct (@new_ok false) as (zl0 & _ & H0).
  destruct (@lrun_refines false [LPush (replicate 300 97) true] zl0 [] H0) as (zl1 & _ & H1 & _).
  { vm_compute. reflexivity. }
  { cbn [lcmds_ok lcmd_ok]. split_and!; first [exact I | (vm_compute; reflexivity) | (apply (bool_decide_unpack _); vm_compute; exact I)]. }
  destruct (@lrun_refines false [LPush [49] true; LPush [99] false] zl0 [] H0) as (zl2 & _ & H2 & _).
  { vm_compute. reflexivity. }
  { cbn [lcmds_ok lcmd_ok]. split_and!; first [exact I | (vm_compute; reflexivity) | (apply (bool_decide_unpack _); vm_compute; exact I)]. }
  destruct (ziplistMerge_concat false zl1 zl2 [replicate 300 97] [[49]; [99]] H1 H2) as (zl & append & H3).
  - discriminate.
  - vm_compute. reflexivity.
  - exists zl1, zl2, zl, append. split; [exact H1|]. split; [exact H2|]. exact H3.
Defined.

(** ** Where the two operations go wrong *)

Lemma esize_two z : esize z = 2 -> psize (wide (esize z)) = 1.
Proof. intros ->. reflexivity. Qed.

(** A shrinking reallocation of a list, seen from an entry with a five byte field. *)
Lemma resize_shrinks HOST t o n A prev x bs L : big x = true -> 12 + Zlen A <= L -> L <= 11 + Zlen A + esize x + Zlen bs ->
  L < 2 ^ 32 -> exists zl, @ziplistResize HOST (layout t o n A (ebytes prev x ++ bs)) L = Some zl /\ Zlen zl = L /\
    load8 zl (10 + Zlen A) = Some 254.
Proof.
  intros Hb H1 H2 H3. unfold layout. rewrite resize_spec by lia. eexists. split; [done|].
  set (X := A ++ (Some <$> ebytes prev x ++ bs) ++ [Some 255]).
  assert (Zlen X = 1 + Zlen A + esize x + Zlen bs) as HX.
  { subst X. rewrite !length_app, length_somes, length_app. pose proof (length_ebytes prev x). cbn [length]. lia. }
  split.
  - rewrite !length_app, length_hdr, length_take, length_app. cbn [length]. lia.
  - assert (exists R, X = A ++ Some 254 :: R) as (R & ER).
    { subst X. unfold ebytes. rewrite Hb. cbn [pbytes app]. rewrite fmap_cons. by eexists. }
    rewrite ER, <- app_assoc, take_app_ge by lia.
    replace (Z.to_nat (L - 11) - length A)%nat with (S (Z.to_nat (L - 12 - Zlen A))) by lia. cbn [take app].
    rewrite <- app_assoc, app_assoc. cbn [app]. apply load8_app. rewrite length_hdr_app. lia.
Qed.

(** Inserting a two byte entry in front of an entry that keeps a five byte
    field: the list shrinks by two, the bytes to move still end where the old
    end mark was. *)
Lemma insert_past_end HOST zl a x b s (z := new_ent (lastsize 0 a) s) (p := 10 + bsize a) :
  rep zl (a ++ x :: b) -> big x = true -> esize z = 2 -> 13 + bsize (a ++ x :: b) < 2 ^ 31 ->
  exists zl', @ziplistResize HOST zl (Zlen zl - 2) = Some zl' /\ Zlen zl' = Zlen zl - 2 /\
    memmove zl' (p + 2) (p + 4) (Zlen zl - 1 - (p + 4)) = None /\
    @ziplistInsert HOST zl p s = None.
Proof.
  intros [(n & -> & Hn) Hl Hok Hh] Hbig Hz Hsz. apply links_app in Hl as [_ [Hf Hl]]. fold (lastsize 0 a) in Hf.
  rewrite bsize_app in Hsz. cbn [bsize] in Hsz. pose proof (bsize_pos a) as [Ha _]. pose proof (bsize_pos b) as [Hb _].
  pose proof (esize_pos x). pose proof (length_zlist n (a ++ x :: b)) as HL. rewrite bsize_app in HL. cbn [bsize] in HL.
  assert (6 <= esize x) as Hx6.
  { unfold esize. rewrite Hbig, length_payload. pose proof (vhead_pos (val x)). cbn [psize]. lia. }
  assert (Zlen (prefix a) = bsize a) as Hpa by apply length_prefix.
  assert (p = 10 + Zlen (prefix a)) as Ep by (subst p; lia). rewrite HL. rewrite zlist_at.
  set (T := tot (prefix a) x b). assert (T = 11 + bsize a + esize x + bsize b) as ET by (subst T; unfold tot; lia).
  destruct (resize_shrinks HOST T (toff (prefix a) x b) n (prefix a) (lastsize 0 a) x (body (esize x) b) (T - 2) Hbig)
    as (zl' & Er & Hlen & H8); [lia|rewrite length_body; lia|lia|].
  assert (memmove zl' (p + 2) (p + 4) (T - 1 - (p + 4)) = None) as Hmv.
  { unfold memmove, in_block, blen. destruct (Z.leb_spec (p + 4 + (T - 1 - (p + 4))) (Zlen zl')); [lia|].
    by rewrite andb_false_r. }
  exists zl'. replace (11 + (bsize a + (esize x + bsize b))) with T by lia. split_and!; [done|done|done|].
  destruct (insert_encoding s) as (r & Ert & _). unfold ziplistInsert. rewrite Ep.
  rewrite (insert_start (prefix a) (lastsize 0 a) n s r x b Hf Ert) by (fold z; fold T; lia).
  fold z T. rewrite (esize_two z Hz), Hz, Hbig. cbn [psize]. replace (T + 2 + (1 - 5)) with (T - 2) by lia.
  rewrite Er, bind_Some. unfold open_gap. rewrite H8, bind_Some. change (negb (254 =? ZIP_END)) with true. cbv iota.
  rewrite <- Ep. replace (p - (1 - 5)) with (p + 4) by lia. rewrite (wrapu_id 64) by lia.
  replace (T - p - 1 + (1 - 5)) with (T - 1 - (p + 4)) by lia. by rewrite Hmv.
Qed.

(** A list whose tail offset points at the end mark. *)
Lemma tail_at_end HOST n es (zl := layout (11 + bsize es) (10 + bsize es) n [] (body 0 es)) :
  links 0 es -> Forall ent_ok es -> 11 + bsize es < 2 ^ 31 ->
  ZIPLIST_TAIL_OFFSET zl = Some (10 + bsize es) /\ load8 zl (10 + bsize es) = Some ZIP_END /\
  (forall i, INT32_MIN < i < 0 -> @ziplistIndex HOST zl i = Some None) /\
  (forall k, (k < length es)%nat -> @ziplistIndex HOST zl (Z.of_nat k) = Some (Some (10 + bsize (take k es)))).
Proof.
  intros Hl Hok Hsz. pose proof (bsize_pos es) as [Hb Hb2].
  assert (ZIPLIST_TAIL_OFFSET zl = Some (10 + bsize es)) as Ht by (apply layout_tail; lia).
  assert (load8 zl (10 + bsize es) = Some ZIP_END) as He.
  { pose proof (load8_end (11 + bsize es) (10 + bsize es) n [] (body 0 es)) as H. rewrite length_body in H.
    cbn [length] in H. by replace (10 + Z.of_nat 0 + bsize es) with (10 + bsize es) in H by lia. }
  split_and!; [done|done| |].
  - intros i Hi. unfold ziplistIndex. destruct (Z.ltb_spec i 0); [|lia]. rewrite i32_ok, bind_Some by (unfold_limits; lia).
    rewrite Ht, bind_Some, He, bind_Some. change (negb (ZIP_END =? ZIP_END)) with false. cbv iota. by rewrite bind_Some, He, bind_Some.
  - intros k Hk. unfold ziplistIndex. destruct (Z.ltb_spec (Z.of_nat k) 0); [lia|].
    pose proof (length_layout (11 + bsize es) (10 + bsize es) n [] (body 0 es)) as HL. fold zl in HL. rewrite length_body in HL.
    pose proof (forward_spec (11 + bsize es) (10 + bsize es) n es (length zl) [] 0 (Z.of_nat k) Hl Hok ltac:(cbn [length]; lia)
      ltac:(cbn [length] in HL; lia) ltac:(lia)) as HF.
    fold zl in HF. change (10 + Zlen []) with ZIPLIST_HEADER_SIZE in HF. rewrite HF, bind_Some, Nat2Z.id.
    destruct (Z.ltb_spec (Z.of_nat k) (Zlen es)); [|lia].
    assert (exists c, load8 zl (10 + bsize (take k es)) = Some c /\ (c =? ZIP_END) = false) as (c & Hc & Ec).
    { destruct (lookup_lt_is_Some_2 es k Hk) as (x & Hx). pose proof (take_drop_middle es k x Hx) as Ees.
      rewrite <- Ees in Hl. apply links_app in Hl as [_ [Hf _]]. subst zl. rewrite <- (length_prefix (take k es)).
      assert (body 0 es = body 0 (take k es) ++ ebytes (lastsize 0 (take k es)) x ++ body (esize x) (drop (S k) es)) as ->.
      { rewrite <- Ees at 1. by rewrite zlbody_app. }
      rewrite layout_shift. exact (at_first _ _ _ (prefix (take k es)) _ x _ Hf). }
    change ZIPLIST_HEADER_SIZE with 10. by rewrite Hc, bind_Some, Ec.
Qed.

(** Merging with an empty second list. *)
Lemma merge_empty HOST zl1 zl2 es : rep zl1 es -> rep zl2 [] -> es <> [] -> 22 + bsize es < 2 ^ 31 ->
  exists n (append : bool), @ziplistMerge HOST (Some zl1) (Some zl2) false =
    Some (Some (layout (11 + bsize es) (10 + bsize es) n [] (body 0 es), append)).
Proof.
  intros [(n1 & -> & Hn1) Hl Hok Hh] [(n2 & -> & Hn2) _ _ _] Hne Hsz.
  pose proof (len_ok_range _ _ Hn1). pose proof (len_ok_range _ _ Hn2).
  rewrite merge_header by (cbn [bsize]; done || lia). exists (merged_len n1 n2), (n1 >=? n2).
  destruct es as [|y es _] using rev_ind; [done|].
  apply links_app in Hl as [_ [Hf _]]. apply Forall_app in Hok as [_ Hok]. inversion_clear Hok as [|? ? Hy _].
  pose proof (bsize_pos es) as [H1 _]. pose proof (esize_pos y). rewrite bsize_app in *. cbn [bsize] in *.
  set (o := 10 + (bsize es + (esize y + 0))). set (T := 11 + (bsize es + (esize y + 0))).
  assert (forall k L, layout L o k [] (body 0 (es ++ [y])) = layout L o k (prefix es) (ebytes (lastsize 0 es) y)) as Elay.
  { intros k L. rewrite zlbody_app, layout_shift. cbn [body app]. by rewrite app_nil_r. }
  unfold joined. cbn [body]. rewrite app_nil_r. change (lastsize 0 []) with 0. rewrite lastsize_app.
  change (lastsize (lastsize 0 es) [y]) with (esize y).
  replace (o + 0 - 0) with o by lia. replace (T + 0) with T by lia.
  replace (o - esize y) with (10 + Zlen (prefix es)) by (subst o; rewrite length_prefix; lia). rewrite Elay.
  set (n := merged_len n1 n2). set (zl := layout T o n (prefix es) (ebytes (lastsize 0 es) y)).
  assert (11 + Zlen (prefix es) + esize y + Zlen ([] : list Z) < 2 ^ 31) as Hs1 by (rewrite length_prefix; cbn [length]; lia).
  pose proof (at_first T o n (prefix es) (lastsize 0 es) y [] Hf) as (c & Hc & Ec).
  pose proof (at_zlentry T o n (prefix es) (lastsize 0 es) y [] Hf Hy Hs1) as Hz.
  pose proof (load8_end T o n (prefix es) (ebytes (lastsize 0 es) y)) as He.
  rewrite app_nil_r in Hc, Hz. fold zl in Hc, Hz, He. rewrite length_ebytes in He.
  unfold __ziplistCascadeUpdate. assert (ZIPLIST_BYTES zl = Some T) as -> by (apply layout_bytes; lia). rewrite bind_Some.
  assert (length zl = S (pred (length zl))) as -> by (pose proof (length_layout T o n (prefix es) (ebytes (lastsize 0 es) y)) as HL; fold zl in HL; lia).
  cbn [cascade_loop]. rewrite Hc, bind_Some, Ec, Hz, bind_Some, zlentry_total, u32_esize, prev_size_only, bind_Some by lia.
  by rewrite He, !bind_Some.
Qed.

(** C39. Two inputs the theorems above exclude, in general.  (1) In front of an
    entry [x] that keeps a five byte size field behind a small predecessor,
    inserting a value whose entry takes two bytes shrinks the list by two bytes
    before the bytes behind [p] are moved: the source range of that [memmove]
    ends one byte behind the reallocated block, so the insertion reads outside
    it.  (2) Merging a non-empty list with an empty second one succeeds, but
    leaves the tail offset at the end mark: every entry is still found from the
    head, none from the tail, whichever negative index is asked for. *)
Theorem ziplist_corner_failures (HOST : Host) :
  (forall zl a x b s, rep zl (a ++ x :: b) -> big x = true -> esize (new_ent (lastsize 0 a) s) = 2 ->
     13 + bsize (a ++ x :: b) < 2 ^ 31 ->
     let p := 10 + bsize a in
     exists zl', ziplistResize zl (Zlen zl - 2) = Some zl' /\ Zlen zl' = Zlen zl - 2 /\
       Zlen zl' < (p + 4) + (Zlen zl - 1 - (p + 4)) /\
       memmove zl' (p + 2) (p + 4) (Zlen zl - 1 - (p + 4)) = None /\
       ziplistInsert zl p s = None) /\
  (forall zl1 zl2 es, rep zl1 es -> rep zl2 [] -> es <> [] -> 22 + bsize es < 2 ^ 31 ->
     exists zl append, ziplistMerge (Some zl1) (Some zl2) false = Some (Some (zl, append)) /\
       ZIPLIST_TAIL_OFFSET zl = Some (10 + bsize es) /\ load8 zl (10 + bsize es) = Some ZIP_END /\
       (forall i, INT32_MIN < i < 0 -> ziplistIndex zl i = Some None) /\
       (forall k, (k < length es)%nat -> ziplistIndex zl (Z.of_nat k) = Some (Some (10 + bsize (take k es))))).
Proof.
  split.
  - intros zl a x b s Hr Hb Hz Hsz p. destruct (insert_past_end HOST zl a x b s Hr Hb Hz Hsz) as (zl' & E1 & E2 & E3 & E4).
    exists zl'. fold p in E3, E4. split_and!; [done|done|lia|done|done].
  - intros zl1 zl2 es H1 H2 Hne Hsz. destruct (merge_empty HOST zl1 zl2 es H1 H2 Hne Hsz) as (n & append & E).
    eexists _, append. split; [exact E|]. apply tail_at_end; [apply H1|apply H1|lia].
Qed.

(** A list with such an entry, as three insertions and a deletion leave it, and
    the merge of a one element list with an empty one. *)
Definition wide_list : block := zlist 2 [Ent false (VStr (replicate 250 98)); Ent true (VStr [99; 99; 99])].

Example wide_list_reached : forall HOST : Host,
  (zl0 ← ziplistNew; lrun zl0 [LPush (replicate 300 97) false; LPush (replicate 250 98) false; LPush [99; 99; 99] false; LDel 0 1]) = Some wide_list.
Proof. intros []; vm_compute; reflexivity. Qed.

(** A three byte entry there costs the last byte of the list instead: the entry
    "ccc" is read back as "cc\xff". *)
Example wide_list_three : forall HOST : Host,
  (zl ← ziplistInsert wide_list 263 [49; 51]; p ← ziplistIndex zl (-1); g ← ziplistGet zl p; bs ← load zl 268 3; Some (g, bs)) =
  Some (Some (ZlStr 268 3), [99; 99; 255]).
Proof. intros []; vm_compute; reflexivity. Qed.

Lemma ziplist_corner_failures_witness : @ziplistInsert false wide_list 263 [49] = None /\
  exists zl append, @ziplistMerge true (Some (zlist 1 [Ent false (VStr [97])])) (Some (zlist 0 [])) false = Some (Some (zl, append)) /\
    @ziplistIndex true zl (-1) = Some None /\ @ziplistIndex true zl 0 = Some (Some 10).
Proof.
  split.
  - destruct (proj1 (ziplist_corner_failures false) wide_list [Ent false (VStr (replicate 250 98))] (Ent true (VStr [99; 99; 99])) [] [49])
      as (zl' & _ & _ & _ & _ & E).
    + constructor.
      * exists 2. split; [reflexivity|]. left. split; [reflexivity|lia].
      * vm_compute. intuition congruence.
      * repeat constructor; apply (bool_decide_unpack _); vm_compute; exact I.
      * reflexivity.
    + reflexivity.
    + vm_compute. reflexivity.
    + vm_compute. reflexivity.
    + exact E.
  - destruct (proj2 (ziplist_corner_failures true) (zlist 1 [Ent false (VStr [97])]) (zlist 0 []) [Ent false (VStr [97])])
      as (zl & append & E & _ & _ & Hb & Hf).
    + constructor.
      * exists 1. split; [reflexivity|]. left. split; [reflexivity|lia].
      * vm_compute. intuition congruence.
      * repeat constructor; apply (bool_decide_unpack _); vm_compute; exact I.
      * reflexivity.
    + constructor.
      * exists 0. split; [reflexivity|]. left. split; [reflexivity|lia].
      * exact I.
      * constructor.
      * exact I.
    + discriminate.
    + vm_compute. reflexivity.
    + exists zl, append. split; [exact E|]. split; [apply Hb; vm_compute; intuition congruence|exact (Hf 0%nat (le_n 1))].
Defined.
