(* ===== verification/Request.v ===== *)
(** The request parser of [networking.c].

    A client's unread input is an [sds] query buffer.  [readQueryFromClient]
    appends what [read] returns and [processInputBuffer] then extracts requests,
    inline ([processInlineBuffer]) or in the multi bulk format
    ([processMultibulkBuffer], which keeps its progress in the client between
    calls), and executes each complete one.

    The model has one client; of the others it keeps the flags
    [clientsArePaused] updates.  The arguments of a request are their byte
    strings; the array that holds them is represented by its capacity, so that
    a write past its end is [None].  The errors sent to the client are an
    inductive type.  Logging, and the command interpreter itself
    ([processCommand], an argument), are outside the model. *)

From S2P Require Import Prelude Sds SdsText Util.

(** ** Constants of [server.h] *)

Definition PROTO_IOBUF_LEN : Z := 1024 * 16.
Definition PROTO_INLINE_MAX_SIZE : Z := 1024 * 64.
Definition PROTO_MBULK_BIG_ARG : Z := 1024 * 32.
Definition PROTO_REQ_INLINE : Z := 1.
Definition PROTO_REQ_MULTIBULK : Z := 2.
Definition CLIENT_SLAVE : Z := Z.shiftl 1 0.
Definition CLIENT_MASTER : Z := Z.shiftl 1 1.
Definition CLIENT_MULTI : Z := Z.shiftl 1 3.
Definition CLIENT_BLOCKED : Z := Z.shiftl 1 4.
Definition CLIENT_CLOSE_AFTER_REPLY : Z := Z.shiftl 1 6.
Definition CLIENT_UNBLOCKED : Z := Z.shiftl 1 7.
Definition CLIENT_ASKING : Z := Z.shiftl 1 9.
Definition CLIENT_REPLY_SKIP_NEXT : Z := Z.shiftl 1 23.
Definition CLIENT_REPLY_SKIP : Z := Z.shiftl 1 24.

(** ** State *)

Inductive protocol_error :=
  | too_big_inline_request | unbalanced_quotes | too_big_mbulk_count | invalid_multibulk_length
  | too_big_bulk_count | expected_dollar (got : Z) | invalid_bulk_length.

(** [c_cmd] tells whether [c->cmd] is the ASKING command. *)
Record client := Client {
  c_querybuf : sds; c_querybuf_peak : Z;
  c_argv : list (list Z); c_argv_size : Z; c_cmd : bool;
  c_reqtype : Z; c_multibulklen : Z; c_bulklen : Z;
  c_reply : list protocol_error; c_flags : Z;
  c_lastinteraction : Z; c_reploff : Z; c_repl_ack_time : Z }.

Definition c_argc (c : client) : Z := Zlen (c_argv c).

Definition set_querybuf (c : client) (q : sds) : client :=
  Client q (c_querybuf_peak c) (c_argv c) (c_argv_size c) (c_cmd c) (c_reqtype c) (c_multibulklen c) (c_bulklen c)
    (c_reply c) (c_flags c) (c_lastinteraction c) (c_reploff c) (c_repl_ack_time c).
Definition set_argv (c : client) (argv : list (list Z)) (size : Z) (cmd : bool) : client :=
  Client (c_querybuf c) (c_querybuf_peak c) argv size cmd (c_reqtype c) (c_multibulklen c) (c_bulklen c)
    (c_reply c) (c_flags c) (c_lastinteraction c) (c_reploff c) (c_repl_ack_time c).
Definition set_request (c : client) (reqtype multibulklen bulklen : Z) : client :=
  Client (c_querybuf c) (c_querybuf_peak c) (c_argv c) (c_argv_size c) (c_cmd c) reqtype multibulklen bulklen
    (c_reply c) (c_flags c) (c_lastinteraction c) (c_reploff c) (c_repl_ack_time c).
Definition set_flags (c : client) (flags : Z) : client :=
  Client (c_querybuf c) (c_querybuf_peak c) (c_argv c) (c_argv_size c) (c_cmd c) (c_reqtype c) (c_multibulklen c) (c_bulklen c)
    (c_reply c) flags (c_lastinteraction c) (c_reploff c) (c_repl_ack_time c).
Definition set_ack_time (c : client) (t : Z) : client :=
  Client (c_querybuf c) (c_querybuf_peak c) (c_argv c) (c_argv_size c) (c_cmd c) (c_reqtype c) (c_multibulklen c) (c_bulklen c)
    (c_reply c) (c_flags c) (c_lastinteraction c) (c_reploff c) t.
Definition addReplyError (c : client) (e : protocol_error) : client :=
  Client (c_querybuf c) (c_querybuf_peak c) (c_argv c) (c_argv_size c) (c_cmd c) (c_reqtype c) (c_multibulklen c) (c_bulklen c)
    (c_reply c ++ [e]) (c_flags c) (c_lastinteraction c) (c_reploff c) (c_repl_ack_time c).
Definition set_interaction (c : client) (peak t off : Z) : client :=
  Client (c_querybuf c) peak (c_argv c) (c_argv_size c) (c_cmd c) (c_reqtype c) (c_multibulklen c) (c_bulklen c)
    (c_reply c) (c_flags c) t off (c_repl_ack_time c).

(** [flags & bit] as a condition. *)
Definition has (flags bit : Z) : bool := negb (Z.land flags bit =? 0).

(** The part of [struct redisServer] the parser uses.  [current_client] is
    whether it points to the client (it is reset when the client is freed
    during a command); [others] are the flags of the other clients and
    [unblocked_clients] the length of that list. *)
Record server (A : Type) := Server {
  current_client : bool; clients_paused : bool; clients_pause_end_time : Z; mstime : Z; unixtime : Z;
  client_max_querybuf_len : Z; stat_net_input_bytes : Z;
  others : list Z; unblocked_clients : Z; app : A }.
Arguments Server {A}.
Arguments current_client {A}.
Arguments clients_paused {A}.
Arguments clients_pause_end_time {A}.
Arguments mstime {A}.
Arguments unixtime {A}.
Arguments client_max_querybuf_len {A}.
Arguments stat_net_input_bytes {A}.
Arguments others {A}.
Arguments unblocked_clients {A}.
Arguments app {A}.

Definition set_current {A} (s : server A) (b : bool) : server A :=
  Server b (clients_paused s) (clients_pause_end_time s) (mstime s) (unixtime s) (client_max_querybuf_len s)
    (stat_net_input_bytes s) (others s) (unblocked_clients s) (app s).
Definition set_app {A} (s : server A) (a : A) : server A :=
  Server (current_client s) (clients_paused s) (clients_pause_end_time s) (mstime s) (unixtime s)
    (client_max_querybuf_len s) (stat_net_input_bytes s) (others s) (unblocked_clients s) a.
Definition add_input_bytes {A} (s : server A) (n : Z) : server A :=
  Server (current_client s) (clients_paused s) (clients_pause_end_time s) (mstime s) (unixtime s)
    (client_max_querybuf_len s) (stat_net_input_bytes s + n) (others s) (unblocked_clients s) (app s).

(** The fields of a new client, at time [t]. *)
Definition createClient (t : Z) : option client :=
  q ← sdsempty; Some (Client q 0 [] 0 false 0 0 (-1) [] 0 t 0 0).

(** ** Helpers *)

(** [strchr(p, ch)] on a buffer: where [ch] is, or [None] at a zero byte. *)
Fixpoint strchr (fuel : nat) (b : block) (p ch : Z) : option (option Z) :=
  match fuel with
  | O => None
  | S fuel => x ← load8 b p; if x =? ch then Some (Some p) else if x =? 0 then Some None else strchr fuel b (p + 1) ch
  end.

Definition querybuf_chr (c : client) (p ch : Z) : option (option Z) :=
  strchr (S (Z.to_nat (sdslen (c_querybuf c) - p))) (s_buf (c_querybuf c)) p ch.

Definition trim_querybuf (c : client) (pos : Z) : option client :=
  q ← sdsrange (c_querybuf c) pos (-1); Some (set_querybuf c q).

Definition setProtocolError (c : client) (pos : Z) : option client :=
  trim_querybuf (set_flags c (Z.lor (c_flags c) CLIENT_CLOSE_AFTER_REPLY)) pos.

Definition freeClientArgv (c : client) : client := set_argv c [] (c_argv_size c) false.

Definition resetClient (c : client) : client :=
  let prevcmd := c_cmd c in
  let c := freeClientArgv c in
  let c := set_request c 0 0 (-1) in
  let flags := c_flags c in
  let flags := if negb (has flags CLIENT_MULTI) && negb prevcmd then Z.land flags (Z.lnot CLIENT_ASKING) else flags in
  let flags := Z.land flags (Z.lnot CLIENT_REPLY_SKIP) in
  let flags := if has flags CLIENT_REPLY_SKIP_NEXT
    then Z.land (Z.lor flags CLIENT_REPLY_SKIP) (Z.lnot CLIENT_REPLY_SKIP_NEXT) else flags in
  set_flags c flags.

(** [c->argv[c->argc++] = arg], in an array of [c_argv_size] slots. *)
Definition push_arg (c : client) (arg : list Z) : option client :=
  if c_argc c <? c_argv_size c then Some (set_argv c (c_argv c ++ [arg]) (c_argv_size c) (c_cmd c)) else None.

(** ** Inline requests *)

(** [for (c->argc = 0, j = 0; j < argc; j++)]: empty arguments are dropped. *)
Fixpoint inline_args (c : client) (argv : list (list Z)) : option client :=
  match argv with
  | [] => Some c
  | a :: argv => c ← (if Zlen a =? 0 then Some c else push_arg c a); inline_args c argv
  end.

(** The result is the client and whether [C_OK] is returned. *)
Definition processInlineBuffer {A} (c : client) (s : server A) : option (client * bool) :=
  newline ← querybuf_chr c 0 10;
  match newline with
  | None =>
    if sdslen (c_querybuf c) >? PROTO_INLINE_MAX_SIZE then
      c ← setProtocolError (addReplyError c too_big_inline_request) 0; Some (c, false)
    else Some (c, false)
  | Some newline =>
    prev ← (if negb (newline =? 0) then load8 (s_buf (c_querybuf c)) (newline - 1) else Some 0);
    let newline := if negb (newline =? 0) && (prev =? 13) then newline - 1 else newline in
    let querylen := newline in
    bytes ← load (s_buf (c_querybuf c)) 0 querylen;
    argv ← sdssplitargs bytes;
    match argv with
    | None => c ← setProtocolError (addReplyError c unbalanced_quotes) 0; Some (c, false)
    | Some argv =>
      let c := if (querylen =? 0) && has (c_flags c) CLIENT_SLAVE then set_ack_time c (unixtime s) else c in
      c ← trim_querybuf c (querylen + 2);
      let size := if negb (Zlen argv =? 0) then Zlen argv else c_argv_size c in
      c ← inline_args (set_argv c [] size (c_cmd c)) argv;
      Some (c, true)
    end
  end.

(** ** Multi bulk requests *)

(** How a part of [processMultibulkBuffer] goes on: to the next statement
    with the new [pos], to the [break] out of the loop, or to a [return]. *)
Inductive outcome := Next (c : client) (pos : Z) | Break (c : client) (pos : Z) | Return (c : client) (ok : bool).

(** [if (c->multibulklen == 0) { ... }] *)
Definition read_multibulklen (c : client) : option outcome :=
  if negb (c_argc c =? 0) then None else
  newline ← querybuf_chr c 0 13;
  match newline with
  | None =>
    if sdslen (c_querybuf c) >? PROTO_INLINE_MAX_SIZE then
      c ← setProtocolError (addReplyError c too_big_mbulk_count) 0; Some (Return c false)
    else Some (Return c false)
  | Some newline =>
    if newline >? s32 (sdslen (c_querybuf c)) - 2 then Some (Return c false) else
    c0 ← load8 (s_buf (c_querybuf c)) 0;
    if negb (c0 =? 42) then None else
    num ← load (s_buf (c_querybuf c)) 1 (newline - 1);
    ll ← string2ll num (newline - 1);
    match ll with
    | None => c ← setProtocolError (addReplyError c invalid_multibulk_length) 0; Some (Return c false)
    | Some ll =>
      if ll >? 1024 * 1024 then c ← setProtocolError (addReplyError c invalid_multibulk_length) 0; Some (Return c false)
      else
      let pos := s32 (newline + 2) in
      if ll <=? 0 then c ← trim_querybuf c pos; Some (Return c true) else
      let c := set_request c (c_reqtype c) ll (c_bulklen c) in
      Some (Next (set_argv c (c_argv c) ll (c_cmd c)) pos)
    end
  end.

(** [if (c->bulklen == -1) { ... }] *)
Definition read_bulklen (c : client) (pos : Z) : option outcome :=
  newline ← querybuf_chr c pos 13;
  match newline with
  | None =>
    if sdslen (c_querybuf c) >? PROTO_INLINE_MAX_SIZE then
      c ← setProtocolError (addReplyError c too_big_bulk_count) 0; Some (Return c false)
    else Some (Break c pos)
  | Some newline =>
    if newline >? s32 (sdslen (c_querybuf c)) - 2 then Some (Break c pos) else
    c0 ← load8 (s_buf (c_querybuf c)) pos;
    if negb (c0 =? 36) then c ← setProtocolError (addReplyError c (expected_dollar c0)) pos; Some (Return c false) else
    num ← load (s_buf (c_querybuf c)) (pos + 1) (newline - (pos + 1));
    ll ← string2ll num (newline - (pos + 1));
    match ll with
    | None => c ← setProtocolError (addReplyError c invalid_bulk_length) pos; Some (Return c false)
    | Some ll =>
      if (ll <? 0) || (ll >? 512 * 1024 * 1024) then
        c ← setProtocolError (addReplyError c invalid_bulk_length) pos; Some (Return c false)
      else
      let pos := s32 (pos + (newline - pos + 2)) in
      r ← (if ll >=? PROTO_MBULK_BIG_ARG then
             c ← trim_querybuf c pos;
             let qblen := sdslen (c_querybuf c) in
             if qblen <? u64 ll + 2 then
               q ← sdsMakeRoomFor (c_querybuf c) (ll + 2 - qblen); Some (set_querybuf c q, 0)
             else Some (c, 0)
           else Some (c, pos));
      let '(c, pos) := r in
      Some (Next (set_request c (c_reqtype c) (c_multibulklen c) ll) pos)
    end
  end.

(** The rest of the loop body: one argument. *)
Definition read_bulk (c : client) (pos : Z) : option outcome :=
  if u64 (sdslen (c_querybuf c) - pos) <? u32 (c_bulklen c + 2) then Some (Break c pos) else
  r ← (if (pos =? 0) && (c_bulklen c >=? PROTO_MBULK_BIG_ARG) && (s32 (sdslen (c_querybuf c)) =? c_bulklen c + 2) then
         q ← sdsIncrLen (c_querybuf c) (-2);
         arg ← load (s_buf q) 0 (sdslen q);
         c ← push_arg c arg;
         q ← sdsnewlen None (c_bulklen c + 2);
         q ← sdsclear q;
         Some (set_querybuf c q, 0)
       else
         arg ← load (s_buf (c_querybuf c)) pos (c_bulklen c);
         c ← push_arg c arg;
         Some (c, s32 (pos + (c_bulklen c + 2))));
  let '(c, pos) := r in
  Some (Next (set_request c (c_reqtype c) (c_multibulklen c - 1) (-1)) pos).

(** [while(c->multibulklen)] *)
Fixpoint multibulk_loop (fuel : nat) (c : client) (pos : Z) : option outcome :=
  match fuel with
  | O => None
  | S fuel =>
    if c_multibulklen c =? 0 then Some (Break c pos) else
    r ← (if c_bulklen c =? -1 then read_bulklen c pos else Some (Next c pos));
    match r with
    | Next c pos =>
      r ← read_bulk c pos;
      match r with
      | Next c pos => multibulk_loop fuel c pos
      | r => Some r
      end
    | r => Some r
    end
  end.

Definition processMultibulkBuffer (c : client) : option (client * bool) :=
  r ← (if c_multibulklen c =? 0 then read_multibulklen c else Some (Next c 0));
  match r with
  | Return c ok => Some (c, ok)
  | Break c pos | Next c pos =>
    if negb (c_multibulklen c >? 0) then None else
    r ← multibulk_loop (S (Z.to_nat (sdslen (c_querybuf c)))) c pos;
    match r with
    | Return c ok => Some (c, ok)
    | Break c pos | Next c pos =>
      c ← (if negb (pos =? 0) then trim_querybuf c pos else Some c);
      Some (c, c_multibulklen c =? 0)
    end
  end.

(** ** Reading and dispatching *)

(** The client and the others are taken out of a pause that has expired. *)
Definition unpause (flags : Z) : Z :=
  if has flags (Z.lor CLIENT_SLAVE CLIENT_BLOCKED) then flags else Z.lor flags CLIENT_UNBLOCKED.

Definition clientsArePaused {A} (c : client) (s : server A) : client * server A * bool :=
  if clients_paused s && (clients_pause_end_time s <? mstime s) then
    let all := c_flags c :: others s in
    let queued := filter (fun f => has f (Z.lor CLIENT_SLAVE CLIENT_BLOCKED) = false) all in
    (set_flags c (unpause (c_flags c)),
     Server (current_client s) false (clients_pause_end_time s) (mstime s) (unixtime s) (client_max_querybuf_len s)
       (stat_net_input_bytes s) (unpause <$> others s) (unblocked_clients s + Zlen queued) (app s), false)
  else (c, s, clients_paused s).

Inductive read_result := ReadError | ReadAgain | ReadBytes (bs : list Z).

Section Dispatch.
Context {A : Type} (processCommand : client -> server A -> option (client * server A * bool)).

(** [while(sdslen(c->querybuf))]; the client is [None] when a command freed
    it.  The real [processCommand] returns [C_ERR] when it frees the client, so
    that [resetClient] is not called on it; an interpreter that returned [C_OK]
    then would make the C code use freed memory, which is not represented. *)
Fixpoint input_loop (fuel : nat) (c : client) (s : server A) : option (option client * server A) :=
  match fuel with
  | O => None
  | S fuel =>
    if sdslen (c_querybuf c) =? 0 then Some (Some c, s) else
    let '(c, s, paused) := if has (c_flags c) CLIENT_SLAVE then (c, s, false) else clientsArePaused c s in
    if paused : bool then Some (Some c, s) else
    if has (c_flags c) CLIENT_BLOCKED then Some (Some c, s) else
    if has (c_flags c) CLIENT_CLOSE_AFTER_REPLY then Some (Some c, s) else
    c ← (if c_reqtype c =? 0 then
           x ← load8 (s_buf (c_querybuf c)) 0;
           Some (set_request c (if x =? 42 then PROTO_REQ_MULTIBULK else PROTO_REQ_INLINE) (c_multibulklen c) (c_bulklen c))
         else Some c);
    r ← (if c_reqtype c =? PROTO_REQ_INLINE then processInlineBuffer c s
         else if c_reqtype c =? PROTO_REQ_MULTIBULK then processMultibulkBuffer c
         else None);
    let '(c, ok) := r in
    if negb ok then Some (Some c, s) else
    if c_argc c =? 0 then input_loop fuel (resetClient c) s else
    r ← processCommand c s;
    let '(c, s, ok) := r in
    let c := if ok : bool then resetClient c else c in
    if negb (current_client s) then Some (None, s) else input_loop fuel c s
  end.

Definition processInputBuffer (c : client) (s : server A) : option (option client * server A) :=
  let s := set_current s true in
  r ← input_loop (S (S (Z.to_nat (sdslen (c_querybuf c))))) c s;
  let '(c, s) := r in Some (c, set_current s false).

(** [int readlen] *)
Definition readlen (c : client) : Z :=
  if (c_reqtype c =? PROTO_REQ_MULTIBULK) && negb (c_multibulklen c =? 0) && negb (c_bulklen c =? -1)
     && (c_bulklen c >=? PROTO_MBULK_BIG_ARG) then
    let remaining := s32 (u64 (u32 (c_bulklen c + 2) - sdslen (c_querybuf c))) in
    if remaining <? PROTO_IOBUF_LEN then remaining else PROTO_IOBUF_LEN
  else PROTO_IOBUF_LEN.

(** [read n] is what [read(2)] does when asked for [n] bytes; the client is
    [None] when it is freed. *)
Definition readQueryFromClient (read : Z -> read_result) (c : client) (s : server A)
    : option (option client * server A) :=
  let readlen := readlen c in
  let qblen := sdslen (c_querybuf c) in
  let c := if c_querybuf_peak c <? qblen then set_interaction c qblen (c_lastinteraction c) (c_reploff c) else c in
  q ← sdsMakeRoomFor (c_querybuf c) (u64 readlen);
  let c := set_querybuf c q in
  match read (u64 readlen) with
  | ReadAgain => Some (Some c, s)
  | ReadError | ReadBytes [] => Some (None, s)
  | ReadBytes bs =>
    let nread := Zlen bs in
    b ← memcpy (s_buf q) qblen (Some <$> bs) 0 nread;
    q ← sdsIncrLen (set_buf q b) (s32 nread);
    let c := set_querybuf c q in
    let c := set_interaction c (c_querybuf_peak c) (unixtime s)
      (if has (c_flags c) CLIENT_MASTER then c_reploff c + nread else c_reploff c) in
    let s := add_input_bytes s nread in
    if sdslen (c_querybuf c) >? client_max_querybuf_len s then Some (None, s) else
    processInputBuffer c s
  end.

End Dispatch.
