(* ===== verification/RequestSpec.v ===== *)
(** The parser of [Request.v] in terms of the contents of the query buffer.

    [sds_ok] relates the buffer to its bytes; the lemmas below say what each
    part of [processMultibulkBuffer] and [processInlineBuffer] does on them, on
    every branch. *)

From S2P Require Import Prelude Sds SdsText Util Request.

(** ** Buffers *)

Lemma load_content q l off n : sds_ok q l -> 0 <= off -> 0 <= n -> off + n <= Zlen l ->
  load (s_buf q) off n = Some (slice l off n).
Proof.
  intros [_ _ _ _ (rest & -> & _)] Ho Hn Hl. destruct (slice_split l off n Ho Hn Hl) as (a & m & r & -> & Ha & Hm & ->).
  rewrite !fmap_app, <- !app_assoc. apply load_app; by rewrite ?length_fmap.
Qed.

Lemma load8_content q l i : sds_ok q l -> 0 <= i <= Zlen l -> load8 (s_buf q) i = at_ l i.
Proof.
  intros [_ _ _ _ (rest & -> & _)] Hi. unfold at_.
  assert (exists a x r, l ++ [0] = a ++ x :: r /\ i = Zlen a) as (a & x & r & E & ->).
  { destruct (lookup_lt_is_Some_2 (l ++ [0]) (Z.to_nat i)) as [x Hx]; [rewrite length_app; simpl; lia|].
    exists (take (Z.to_nat i) (l ++ [0])), x, (drop (S (Z.to_nat i)) (l ++ [0])).
    rewrite take_drop_middle by done. split; [done|]. rewrite length_take, length_app. simpl. lia. }
  replace ((Some <$> l) ++ Some 0 :: rest) with ((Some <$> (l ++ [0])) ++ rest) by (by rewrite fmap_app, <- app_assoc).
  rewrite E, rd_app by done. rewrite fmap_app, <- app_assoc. cbn [fmap list_fmap app].
  apply load8_app. by rewrite length_fmap.
Qed.

(** [at_] at the start of a suffix. *)
Lemma at_drop l i : 0 <= i <= Zlen l -> at_ l i = Some (default 0 (head (drop (Z.to_nat i) l))).
Proof.
  intros Hi. unfold at_. rewrite <- (Z2Nat.id i) at 1 by lia. rewrite rd_lookup.
  destruct (decide (Z.to_nat i < length l)%nat) as [H|H].
  - rewrite lookup_app_l by done. destruct (lookup_lt_is_Some_2 l _ H) as [x Hx]. rewrite Hx.
    by rewrite (drop_S l x _ Hx).
  - rewrite drop_ge by lia. replace (Z.to_nat i) with (length l) by lia. rewrite lookup_app_r, Nat.sub_diag by lia. done.
Qed.

Lemma drop_content q l pos : sds_ok q l -> Zlen l < 2 ^ 31 -> 0 <= pos < 2 ^ 31 ->
  exists q', sdsrange q pos (-1) = Some q' /\ sds_ok q' (drop (Z.to_nat pos) l).
Proof.
  intros Hok Hl Hp. destruct (sdsrange_spec q l pos (-1) Hok Hl) as (q' & E & Hok'); [unfold_limits; lia..|].
  exists q'. split; [done|]. revert Hok'. unfold range_spec. destruct (Z.ltb_spec pos 0); [lia|].
  change (-1 <? 0) with true. cbv iota. unfold slice. rewrite take_ge; [done|]. rewrite length_drop. lia.
Qed.

(** The query buffer [sdsnewlen(NULL, n)] is all zeros. *)
Lemma sdsnewlen_null n : 0 <= n < 2 ^ 62 -> exists q, sdsnewlen None n = Some q /\ sds_ok q (replicate (Z.to_nat n) 0).
Proof.
  intros Hn. unfold sdsnewlen.
  set (ty := if bool_decide (sdsReqType n = SDS_TYPE_5) && (n =? 0) then SDS_TYPE_8 else sdsReqType n).
  assert (n < 2 ^ type_bits ty) as Hfit.
  { subst ty. destruct (_ && _) eqn:E; [apply andb_true_iff in E as [_ E%Z.eqb_eq]; rewrite E; simpl; lia|].
    apply reqtype_fits. lia. }
  clearbody ty. pose proof (hdr_range ty). rewrite room_id, to_field_id by lia. unfold memset.
  pose proof (store_app [] (malloc (n + 1)) [] (replicate (Z.to_nat (n + 1)) 0) 0 eq_refl) as E.
  rewrite length_malloc, length_replicate in E. specialize (E eq_refl). rewrite !app_nil_r, !app_nil_l in E.
  unfold blen. rewrite length_malloc. replace (Z.of_nat (Z.to_nat (n + 1))) with (n + 1) by lia.
  change (u8 0) with 0. rewrite E. cbn [mbind option_bind].
  replace (Z.to_nat (n + 1)) with (Z.to_nat n + 1)%nat by lia. rewrite replicate_add, fmap_app.
  cbn [replicate fmap list_fmap]. rewrite store8_app by (rewrite ?length_fmap, ?length_replicate; (done || lia)).
  cbn [mbind option_bind]. eexists. split; [done|]. unfold set_buf. cbn [s_hlen s_type s_halloc].
  match goal with |- sds_ok ?q _ => assert (sdsalloc q = n) as Ea by (unfold sdsalloc; by destruct ty) end.
  split; rewrite ?Ea, ?length_replicate; cbn [s_hlen s_type s_buf]; try done; try lia.
  - apply Forall_replicate. done.
  - exists []. split; [done|simpl; lia].
Qed.

(** [strchr] on the contents: the distance to [ch], if no zero byte comes
    first. *)
Fixpoint find_chr (ch : Z) (l : list Z) : option nat :=
  match l with
  | [] => None
  | x :: l => if x =? ch then Some 0%nat else if x =? 0 then None else S <$> find_chr ch l
  end.

Lemma strchr_content q l ch : sds_ok q l -> ch <> 0 -> forall fuel p, 0 <= p <= Zlen l -> (Z.to_nat (Zlen l - p) < fuel)%nat ->
  strchr fuel (s_buf q) p ch = Some ((fun k => p + Z.of_nat k) <$> find_chr ch (drop (Z.to_nat p) l)).
Proof.
  intros Hok Hch. induction fuel as [|fuel IH]; intros p Hp Hf; [lia|]. cbn [strchr].
  rewrite (load8_content q l p Hok Hp), at_drop by done. cbn [mbind option_bind].
  destruct (drop (Z.to_nat p) l) as [|x r] eqn:E; cbn [head default find_chr].
  { destruct (Z.eqb_spec 0 ch); [lia|]. done. }
  assert (p < Zlen l) by (pose proof (length_drop l (Z.to_nat p)); rewrite E in *; simpl in *; lia).
  cbn [default id from_option]. destruct (Z.eqb_spec x ch); [cbn; rewrite Z.add_0_r; done|]. destruct (Z.eqb_spec x 0); [done|].
  rewrite IH by lia. replace (Z.to_nat (p + 1)) with (Z.to_nat p + 1)%nat by lia. rewrite <- drop_drop, E.
  change (drop 1 (x :: r)) with (drop 0 r). rewrite drop_0.
  destruct (find_chr ch r) as [k|]; cbn; [|done]. do 2 f_equal. lia.
Qed.

Lemma querybuf_chr_content c l p ch : sds_ok (c_querybuf c) l -> ch <> 0 -> 0 <= p <= Zlen l ->
  querybuf_chr c p ch = Some ((fun k => p + Z.of_nat k) <$> find_chr ch (drop (Z.to_nat p) l)).
Proof. intros Hok Hch Hp. unfold querybuf_chr, sdslen. rewrite (ok_len _ _ Hok). apply strchr_content; (done || lia). Qed.

Lemma find_chr_Some ch l k : find_chr ch l = Some k -> (k < length l)%nat.
Proof.
  revert k. induction l as [|x l IH]; intros k; cbn [find_chr length]; [done|].
  destruct (x =? ch); [injection 1 as <-; lia|]. destruct (x =? 0); [done|].
  destruct (find_chr ch l); [|done]. injection 1 as <-. specialize (IH _ eq_refl). lia.
Qed.

(** A line without zero bytes and without [ch] before its [ch]. *)
Lemma find_chr_app ch a r : ch ∉ a -> 0 ∉ a -> find_chr ch (a ++ ch :: r) = Some (length a).
Proof.
  induction a as [|x a IH]; intros H1 H2; simpl; [by rewrite Z.eqb_refl|].
  apply not_elem_of_cons in H1 as [? ?], H2 as [? ?].
  destruct (Z.eqb_spec x ch); [done|]. destruct (Z.eqb_spec x 0); [done|]. by rewrite IH.
Qed.

Lemma find_chr_none ch a : ch ∉ a -> find_chr ch a = None.
Proof.
  induction a as [|x a IH]; intros H1; cbn [find_chr]; [done|]. apply not_elem_of_cons in H1 as [? ?].
  destruct (Z.eqb_spec x ch); [done|]. destruct (x =? 0); [done|]. by rewrite IH.
Qed.

(** ** Trimming and errors *)

Lemma trim_content c l pos : sds_ok (c_querybuf c) l -> Zlen l < 2 ^ 31 -> 0 <= pos < 2 ^ 31 ->
  exists q, trim_querybuf c pos = Some (set_querybuf c q) /\ sds_ok q (drop (Z.to_nat pos) l).
Proof.
  intros Hok Hl Hp. unfold trim_querybuf. destruct (drop_content _ l pos Hok Hl Hp) as (q & -> & Hq).
  by exists q.
Qed.

(** The client after a protocol error: it is to be closed, and its buffer
    starts at the request that failed. *)
Definition rejected (c : client) (l : list Z) (e : protocol_error) (pos : Z) (c' : client) : Prop :=
  exists q, c' = set_querybuf (set_flags (addReplyError c e) (Z.lor (c_flags c) CLIENT_CLOSE_AFTER_REPLY)) q /\
    sds_ok q (drop (Z.to_nat pos) l).

Lemma setProtocolError_content c l e pos : sds_ok (c_querybuf c) l -> Zlen l < 2 ^ 31 -> 0 <= pos < 2 ^ 31 ->
  exists c', setProtocolError (addReplyError c e) pos = Some c' /\ rejected c l e pos c'.
Proof.
  intros Hok Hl Hp. unfold setProtocolError.
  destruct (trim_content (set_flags (addReplyError c e) (Z.lor (c_flags (addReplyError c e)) CLIENT_CLOSE_AFTER_REPLY)) l pos)
    as (q & -> & Hq); [done..|]. eexists. split; [done|]. by exists q.
Qed.

Definition failed (c : client) (l : list Z) (e : protocol_error) (pos : Z) (r : outcome) : Prop :=
  exists c', r = Return c' false /\ rejected c l e pos c'.

(** The outcome of an error branch, from [rejected]. *)
Ltac rejecting Hr := eexists; split; [done|]; eexists; split; [done|exact Hr].

(** The number a length line holds. *)
Definition number (s : list Z) : option Z := default None (string2ll s (Zlen s)).

Lemma string2ll_number s n : n = Zlen s -> string2ll s n = Some (number s).
Proof. intros ->. unfold number. destruct (string2ll_spec s) as (r & -> & _). done. Qed.

Lemma number_sdec v : INT64_MIN <= v <= INT64_MAX -> number (sdec v) = Some v.
Proof.
  intros Hv. unfold number. destruct (string2ll_spec (sdec v)) as (r & -> & H). by apply H.
Qed.

(** ** Length lines *)

Lemma set_querybuf_id c : set_querybuf c (c_querybuf c) = c.
Proof. by destruct c. Qed.

Lemma find_chr_0 ch x r : find_chr ch (x :: r) = Some 0%nat -> x = ch.
Proof.
  cbn [find_chr]. destruct (Z.eqb_spec x ch); [done|]. destruct (x =? 0); [done|]. by destruct (find_chr ch r).
Qed.

(** The line at [pos] up to a mark found at distance [k], without its first
    byte, as a number. *)
Lemma length_line q l pos k ch : sds_ok q l -> 0 <= pos <= Zlen l -> find_chr ch (drop (Z.to_nat pos) l) = Some k ->
  default 0 (head (drop (Z.to_nat pos) l)) <> ch ->
  let num := take (k - 1) (drop 1 (drop (Z.to_nat pos) l)) in
  load (s_buf q) (pos + 1) (pos + Z.of_nat k - (pos + 1)) = Some num /\
  string2ll num (pos + Z.of_nat k - (pos + 1)) = Some (number num).
Proof.
  intros Hok Hp Hk Hne num. pose proof (find_chr_Some _ _ _ Hk) as Hlt. rewrite length_drop in Hlt.
  assert (k <> 0%nat) as H0.
  { intros ->. destruct (drop (Z.to_nat pos) l) as [|x r]; [done|]. apply find_chr_0 in Hk. done. }
  split.
  - rewrite (load_content q l) by (done || lia). subst num. unfold slice. rewrite drop_drop. repeat f_equal; lia.
  - apply string2ll_number. subst num. rewrite length_take, !length_drop. lia.
Qed.

Definition at_pos (q : sds) (l : list Z) (pos : Z) (d : list Z) : Prop :=
  sds_ok q l /\ Zlen l < 2 ^ 31 /\ 0 <= pos <= Zlen l /\ drop (Z.to_nat pos) l = d.

Lemma at_pos_0 q l : sds_ok q l -> Zlen l < 2 ^ 31 -> at_pos q l 0 l.
Proof. intros. split_and!; (done || lia). Qed.

(** [if (pos) sdsrange(c->querybuf,pos,-1)] *)
Lemma trim_at_pos c l pos d : at_pos (c_querybuf c) l pos d ->
  exists q, (if negb (pos =? 0) then trim_querybuf c pos else Some c) = Some (set_querybuf c q) /\ sds_ok q d.
Proof.
  intros (Hok & Hl & Hp & <-). destruct (Z.eqb_spec pos 0) as [->|]; cbn [negb].
  - exists (c_querybuf c). rewrite set_querybuf_id. by rewrite drop_0.
  - destruct (trim_content c l pos Hok Hl ltac:(lia)) as (q & -> & Hq). by exists q.
Qed.

(** A buffer has one contents. *)
Lemma sds_ok_inj q l1 l2 : sds_ok q l1 -> sds_ok q l2 -> l1 = l2.
Proof.
  intros [L1 _ _ _ (r1 & B1 & _)] [L2 _ _ _ (r2 & B2 & _)]. rewrite B1 in B2.
  apply app_inj_1 in B2 as [B2 _]; [by apply (inj (fmap Some)) in B2|rewrite !length_fmap; lia].
Qed.

Lemma read_bulklen_content c l pos d : at_pos (c_querybuf c) l pos d ->
  exists r, read_bulklen c pos = Some r /\
  match find_chr 13 d with
  | None => if Zlen l >? PROTO_INLINE_MAX_SIZE then failed c l too_big_bulk_count 0 r else r = Break c pos
  | Some k =>
    if Z.of_nat k >? Zlen d - 2 then r = Break c pos else
    if negb (default 0 (head d) =? 36) then failed c l (expected_dollar (default 0 (head d))) pos r else
    match number (take (k - 1) (drop 1 d)) with
    | None => failed c l invalid_bulk_length pos r
    | Some ll =>
      if (ll <? 0) || (ll >? 512 * 1024 * 1024) then failed c l invalid_bulk_length pos r else
      exists q l' pos', r = Next (set_request (set_querybuf c q) (c_reqtype c) (c_multibulklen c) ll) pos' /\
        at_pos q l' pos' (drop (k + 2) d) /\ Zlen l' <= Zlen l /\ (PROTO_MBULK_BIG_ARG <= ll -> pos' = 0)
    end
  end.
Proof.
  intros (Hok & Hl & Hp & <-). unfold read_bulklen. rewrite (querybuf_chr_content c l) by (done || lia).
  unfold sdslen. rewrite (ok_len _ _ Hok). cbn [mbind option_bind].
  pose proof (fun e => setProtocolError_content c l e pos Hok Hl ltac:(lia)) as Hfail.
  destruct (find_chr 13 (drop (Z.to_nat pos) l)) as [k|] eqn:Hk; cbn [fmap option_fmap option_map].
  2: { destruct (Zlen l >? PROTO_INLINE_MAX_SIZE); [|by eexists].
       destruct (setProtocolError_content c l too_big_bulk_count 0 Hok Hl ltac:(lia)) as (c' & -> & Hr). rejecting Hr. }
  rewrite (wraps_id 32) by lia. rewrite length_drop.
  assert ((pos + Z.of_nat k >? Zlen l - 2) = (Z.of_nat k >? Z.of_nat (length l - Z.to_nat pos) - 2)) as <-
    by (rewrite !Z.gtb_ltb; zcases).
  destruct (Z.gtb_spec (pos + Z.of_nat k) (Zlen l - 2)) as [|Hle]; [by eexists|].
  rewrite (load8_content _ l) by (done || lia). rewrite at_drop by lia. cbn [mbind option_bind].
  set (x := default 0 (head (drop (Z.to_nat pos) l))) in *. destruct (Z.eqb_spec x 36) as [Hx|Hx]; cbn [negb].
  2: { destruct (Hfail (expected_dollar x)) as (c' & -> & Hr). rejecting Hr. }
  destruct (length_line (c_querybuf c) l pos k 13) as [-> E]; [done..|fold x; lia|]. cbn [mbind option_bind].
  rewrite E. cbn [mbind option_bind].
  destruct (number _) as [ll|]; [|destruct (Hfail invalid_bulk_length) as (c' & -> & Hr); rejecting Hr].
  destruct (_ || _) eqn:Hll; [destruct (Hfail invalid_bulk_length) as (c' & -> & Hr); rejecting Hr|].
  apply orb_false_iff in Hll as [Hl0%Z.ltb_ge Hl1]. rewrite Z.gtb_ltb in Hl1. apply Z.ltb_ge in Hl1.
  rewrite (wraps_id 32) by lia. rewrite drop_drop.
  replace (pos + (pos + Z.of_nat k - pos + 2)) with (pos + Z.of_nat k + 2) by lia.
  replace (Z.to_nat pos + (k + 2))%nat with (Z.to_nat (pos + Z.of_nat k + 2)) by lia.
  set (pos' := pos + Z.of_nat k + 2). rewrite Z.geb_leb. destruct (Z.leb_spec PROTO_MBULK_BIG_ARG ll) as [Hb|Hb].
  2: { eexists. split; [done|]. exists (c_querybuf c), l, pos'. rewrite set_querybuf_id.
       split; [done|]. split; [|split; lia]. split_and!; done || lia. }
  destruct (trim_content c l pos' Hok Hl ltac:(lia)) as (q & -> & Hq). cbn [mbind option_bind c_querybuf set_querybuf].
  unfold sdslen. rewrite (ok_len _ _ Hq), (wrapu_id 64) by lia. pose proof (length_drop l (Z.to_nat pos')) as HL.
  assert (forall q', sds_ok q' (drop (Z.to_nat pos') l) -> at_pos q' (drop (Z.to_nat pos') l) 0 (drop (Z.to_nat pos') l) /\
    Zlen (drop (Z.to_nat pos') l) <= Zlen l /\ (PROTO_MBULK_BIG_ARG <= ll -> 0 = 0)) as Hdone
    by (intros q' Hq'; split_and!; try (done || lia); apply at_pos_0; (done || lia)).
  destruct (Z.ltb_spec (Zlen (drop (Z.to_nat pos') l)) (ll + 2)).
  - destruct (sdsMakeRoomFor_spec q _ (ll + 2 - Zlen (drop (Z.to_nat pos') l)) Hq) as (q' & -> & Hq' & _); [lia..|].
    cbn [mbind option_bind]. eexists. split; [done|]. exists q', (drop (Z.to_nat pos') l), 0. split; [done|auto].
  - cbn [mbind option_bind]. eexists. split; [done|]. exists q, (drop (Z.to_nat pos') l), 0. split; [done|auto].
Qed.

Lemma read_multibulklen_content c l : sds_ok (c_querybuf c) l -> Zlen l < 2 ^ 31 -> c_argv c = [] -> head l = Some 42 ->
  exists r, read_multibulklen c = Some r /\
  match find_chr 13 l with
  | None => if Zlen l >? PROTO_INLINE_MAX_SIZE then failed c l too_big_mbulk_count 0 r else r = Return c false
  | Some k =>
    if Z.of_nat k >? Zlen l - 2 then r = Return c false else
    match number (take (k - 1) (drop 1 l)) with
    | None => failed c l invalid_multibulk_length 0 r
    | Some ll =>
      if ll >? 1024 * 1024 then failed c l invalid_multibulk_length 0 r
      else if ll <=? 0 then exists q, r = Return (set_querybuf c q) true /\ sds_ok q (drop (k + 2) l)
      else r = Next (set_argv (set_request c (c_reqtype c) ll (c_bulklen c)) [] ll (c_cmd c)) (Z.of_nat (k + 2))
    end
  end.
Proof.
  intros Hok Hl Hargv Hhd. unfold read_multibulklen, c_argc. rewrite Hargv. cbn [length negb Z.of_nat Z.eqb].
  rewrite (querybuf_chr_content c l) by (done || lia). change (drop (Z.to_nat 0) l) with (drop 0 l). rewrite drop_0.
  unfold sdslen. rewrite (ok_len _ _ Hok). cbn [mbind option_bind].
  pose proof (fun e => setProtocolError_content c l e 0 Hok Hl ltac:(lia)) as Hfail.
  destruct (find_chr 13 l) as [k|] eqn:Hk; cbn [fmap option_fmap option_map].
  2: { destruct (Zlen l >? PROTO_INLINE_MAX_SIZE); [|by eexists].
       destruct (Hfail too_big_mbulk_count) as (c' & -> & Hr). rejecting Hr. }
  rewrite (wraps_id 32), Z.add_0_l by lia. destruct (Z.gtb_spec (Z.of_nat k) (Zlen l - 2)) as [|Hle]; [by eexists|].
  rewrite (load8_content _ l) by (done || lia). rewrite at_drop by lia. change (drop (Z.to_nat 0) l) with (drop 0 l).
  rewrite drop_0, Hhd. cbn [mbind option_bind default from_option id]. change (negb (42 =? 42)) with false. cbv iota.
  destruct (length_line (c_querybuf c) l 0 k 13) as [E1 E2]; [done|lia|by rewrite drop_0|by rewrite drop_0, Hhd|].
  rewrite !Z.add_0_l in E1, E2. rewrite drop_0 in E1, E2. rewrite E1. cbn [mbind option_bind]. rewrite E2. cbn [mbind option_bind].
  destruct (number _) as [ll|]; [|destruct (Hfail invalid_multibulk_length) as (c' & -> & Hr); rejecting Hr].
  destruct (ll >? 1024 * 1024); [destruct (Hfail invalid_multibulk_length) as (c' & -> & Hr); rejecting Hr|].
  rewrite (wraps_id 32) by lia. destruct (ll <=? 0).
  - destruct (trim_content c l (Z.of_nat k + 2) Hok Hl ltac:(lia)) as (q & -> & Hq). cbn [mbind option_bind].
    eexists. split; [done|]. exists q. split; [done|]. by replace (k + 2)%nat with (Z.to_nat (Z.of_nat k + 2)) by lia.
  - eexists. split; [done|]. cbn [c_argv c_cmd set_request]. rewrite Hargv. f_equal. lia.
Qed.

(** ** Arguments *)

Lemma read_bulk_content c l pos d : at_pos (c_querybuf c) l pos d -> 0 <= c_bulklen c <= 512 * 1024 * 1024 ->
  c_argc c < c_argv_size c ->
  exists r, read_bulk c pos = Some r /\
  if Zlen d <? c_bulklen c + 2 then r = Break c pos else
  exists q l' pos', r = Next (set_request (set_argv (set_querybuf c q) (c_argv c ++ [take (Z.to_nat (c_bulklen c)) d])
      (c_argv_size c) (c_cmd c)) (c_reqtype c) (c_multibulklen c - 1) (-1)) pos' /\
    at_pos q l' pos' (drop (Z.to_nat (c_bulklen c + 2)) d) /\ Zlen l' <= Zlen l /\
    (pos = 0 -> PROTO_MBULK_BIG_ARG <= c_bulklen c -> Zlen l = c_bulklen c + 2 -> l' = []).
Proof.
  intros (Hok & Hl & Hp & <-) Hb Hargs. unfold read_bulk, sdslen. rewrite (ok_len _ _ Hok), length_drop.
  rewrite (wrapu_id 64), (wrapu_id 32), (wraps_id 32) by lia.
  replace (Z.of_nat (length l - Z.to_nat pos)) with (Zlen l - pos) by lia.
  destruct (Z.ltb_spec (Zlen l - pos) (c_bulklen c + 2)) as [|Hge]; [by eexists|].
  assert (forall arg, push_arg c arg = Some (set_argv c (c_argv c ++ [arg]) (c_argv_size c) (c_cmd c))) as Hpush
    by (intros arg; unfold push_arg; by rewrite (proj2 (Z.ltb_lt _ _) Hargs)).
  destruct (_ && _) eqn:Hfast.
  - apply andb_true_iff in Hfast as [[H0%Z.eqb_eq Hbig]%andb_true_iff Hlen%Z.eqb_eq]. subst pos.
    destruct (sdsIncrLen_shrink _ l 2 Hok ltac:(lia)) as (q & E & Hq).
    change (- (2)) with (-2) in E. rewrite E. cbn [mbind option_bind].
    unfold sdslen. rewrite (ok_len _ _ Hq), (load_content _ _ 0 _ Hq) by lia. cbn [mbind option_bind].
    rewrite Hpush. cbn [mbind option_bind]. cbn [c_bulklen set_argv].
    destruct (sdsnewlen_null (c_bulklen c + 2) ltac:(lia)) as (q1 & -> & Hq1). cbn [mbind option_bind].
    destruct (sdsclear_spec _ _ Hq1) as (q2 & -> & Hq2). cbn [mbind option_bind].
    eexists. split; [done|]. exists q2, [], 0. change (Z.to_nat 0) with 0%nat. rewrite drop_0.
    split; [|split; [|split; [simpl; lia|done]]].
    + unfold slice. rewrite drop_0, take_ge by lia. replace (Zlen l - 2) with (c_bulklen c) by lia. done.
    + rewrite drop_ge by lia. apply at_pos_0; (done || simpl; lia).
  - rewrite (load_content _ l) by (done || lia). cbn [mbind option_bind]. rewrite Hpush. cbn [mbind option_bind].
    cbn [c_bulklen set_argv]. rewrite (wraps_id 32) by lia. eexists. split; [done|].
    exists (c_querybuf c), l, (pos + (c_bulklen c + 2)). rewrite set_querybuf_id. split; [done|].
    split; [|split; [lia|]].
    + split_and!; try (done || lia). rewrite drop_drop. f_equal. lia.
    + intros -> Hb1 Hl1. exfalso. apply Bool.not_true_iff_false in Hfast. apply Hfast. rewrite Z.geb_leb.
      apply andb_true_iff. split; [apply andb_true_iff; split; [done|by apply Z.leb_le]|by apply Z.eqb_eq].
Qed.

(** ** Inline requests *)

(** The length of the first line, whose newline is at [k], without its end
    mark. *)
Definition line_length (l : list Z) (k : nat) : nat :=
  match k with
  | O => O
  | S k' => if bool_decide (l !! k' = Some 13) then k' else k
  end.

Definition arguments (line : list Z) : option (list (list Z)) := default None (sdssplitargs line).

Lemma inline_args_spec argv : forall c, (argv <> [] -> c_argc c + Zlen argv <= c_argv_size c) ->
  inline_args c argv = Some (set_argv c (c_argv c ++ filter (fun a => a <> []) argv) (c_argv_size c) (c_cmd c)).
Proof.
  induction argv as [|a argv IH]; intros c Hc; cbn [inline_args].
  { cbn. rewrite app_nil_r. by destruct c. }
  specialize (Hc ltac:(done)). cbn [length] in Hc. destruct a as [|x a].
  - change (Zlen (@nil Z) =? 0) with true. cbv iota. rewrite bind_Some, IH by lia. rewrite filter_cons_False by auto. done.
  - rewrite filter_cons_True by done. unfold push_arg. destruct (Z.eqb_spec (Zlen (x :: a)) 0); [simpl in *; lia|].
    destruct (Z.ltb_spec (c_argc c) (c_argv_size c)); [|lia]. cbn [mbind option_bind]. rewrite IH.
    + cbn. by rewrite <- app_assoc.
    + intros _. unfold c_argc in *. cbn [c_argv c_argv_size set_argv]. rewrite length_app. cbn [length]. lia.
Qed.

Lemma processInlineBuffer_content {A} c (s : server A) l : sds_ok (c_querybuf c) l -> Zlen l < 2 ^ 31 - 2 ->
  exists c' ok, processInlineBuffer c s = Some (c', ok) /\
  match find_chr 10 l with
  | None => ok = false /\ if Zlen l >? PROTO_INLINE_MAX_SIZE then rejected c l too_big_inline_request 0 c' else c' = c
  | Some k =>
    match arguments (take (line_length l k) l) with
    | None => ok = false /\ rejected c l unbalanced_quotes 0 c'
    | Some args => ok = true /\ exists q t size,
        c' = set_argv (set_querybuf (set_ack_time c t) q) (filter (fun a => a <> []) args) size (c_cmd c) /\
        sds_ok q (drop (line_length l k + 2) l)
    end
  end.
Proof.
  intros Hok Hl. unfold processInlineBuffer. rewrite (querybuf_chr_content c l) by (done || lia).
  change (drop (Z.to_nat 0) l) with (drop 0 l). rewrite drop_0. cbn [mbind option_bind].
  unfold sdslen. rewrite (ok_len _ _ Hok).
  pose proof (fun e => setProtocolError_content c l e 0 Hok ltac:(lia) ltac:(lia)) as Hfail.
  destruct (find_chr 10 l) as [k|] eqn:Hk; cbn [fmap option_fmap option_map].
  2: { destruct (_ >? _); [|by eexists _, _]. destruct (Hfail too_big_inline_request) as (c' & -> & Hr). by eexists _, _. }
  apply find_chr_Some in Hk. rewrite Z.add_0_l.
  assert (exists prev, (if negb (Z.of_nat k =? 0) then load8 (s_buf (c_querybuf c)) (Z.of_nat k - 1) else Some 0) = Some prev /\
    (if negb (Z.of_nat k =? 0) && (prev =? 13) then Z.of_nat k - 1 else Z.of_nat k) = Z.of_nat (line_length l k)) as (prev & -> & E).
  { destruct k as [|k]; [by exists 0|]. destruct (Z.eqb_spec (Z.of_nat (S k)) 0); [lia|]. cbn [negb andb line_length].
    rewrite (load8_content _ l) by (done || lia). unfold at_. replace (Z.of_nat (S k) - 1) with (Z.of_nat k) by lia.
    rewrite rd_lookup, lookup_app_l by lia. destruct (lookup_lt_is_Some_2 l k ltac:(lia)) as [x ->]. exists x. split; [done|].
    destruct (Z.eqb_spec x 13), (bool_decide_reflect (Some x = Some 13)); (congruence || done). }
  cbn [mbind option_bind]. rewrite E. set (n := line_length l k).
  assert (n <= k)%nat as Hn by (subst n; unfold line_length; destruct k; [done|case_bool_decide; lia]).
  rewrite (load_content _ l) by (done || lia). cbn [mbind option_bind]. unfold slice. change (Z.to_nat 0) with 0%nat.
  rewrite drop_0, Nat2Z.id. unfold arguments. destruct (sdssplitargs_total (take n l)) as (r & ->). cbn [mbind option_bind default from_option id].
  destruct r as [argv|].
  2: { destruct (Hfail unbalanced_quotes) as (c' & -> & Hr). by eexists _, _. }
  assert (exists t, (if (Z.of_nat n =? 0) && has (c_flags c) CLIENT_SLAVE then set_ack_time c (unixtime s) else c) = set_ack_time c t)
    as (t & ->).
  { destruct ((Z.of_nat n =? 0) && has (c_flags c) CLIENT_SLAVE); [exists (unixtime s); reflexivity|].
    exists (c_repl_ack_time c). by destruct c. }
  destruct (trim_content (set_ack_time c t) l (Z.of_nat n + 2) Hok ltac:(lia) ltac:(lia)) as (q & -> & Hq).
  cbn [mbind option_bind]. set (size := if negb _ then _ else _). rewrite inline_args_spec.
  - cbn [mbind option_bind]. eexists _, _. split; [done|]. split; [done|]. exists q, t, size. split; [done|].
    by replace (n + 2)%nat with (Z.to_nat (Z.of_nat n + 2)) by lia.
  - intros Hne. unfold c_argc. cbn [c_argv c_argv_size set_argv length]. subst size.
    destruct (Z.eqb_spec (Zlen argv) 0); cbn [negb]; [|lia]. destruct argv; [done|]. simpl in *. lia.
Qed.

(** ** Reading *)

(** Bytes written behind the contents, within the allocation. *)
Lemma append_content q l bs : sds_ok q l -> bs <> [] -> Forall is_byte bs -> Zlen bs < 2 ^ 31 -> Zlen l + Zlen bs <= sdsalloc q ->
  exists b q', memcpy (s_buf q) (Zlen l) (Some <$> bs) 0 (Zlen bs) = Some b /\
    sdsIncrLen (set_buf q b) (s32 (Zlen bs)) = Some q' /\ sds_ok q' (l ++ bs).
Proof.
  intros Hok Hne Hbs Hlt Hroom. pose proof Hok as [Hl Ha H63 Hb (rest & Hbuf & Hr)].
  assert (0 < Zlen bs) as Hpos by (destruct bs; simpl; [done|lia]). rewrite (wraps_id 32) by lia.
  assert (s_type q <> SDS_TYPE_5) as Hty by (intros E; unfold sdsalloc in *; rewrite E in *; lia).
  assert (s_halloc q = sdsalloc q) as Hal by (unfold sdsalloc; by destruct (s_type q)).
  set (old := take (length bs) (Some 0 :: rest)). set (x := drop (length bs) (Some 0 :: rest)).
  assert (exists y rest', x = y :: rest' /\ sdsalloc q - Zlen l - Zlen bs <= Zlen rest') as (y & rest' & Ex & Hrest').
  { subst x. pose proof (length_drop (Some 0 :: rest) (length bs)) as E. cbn [length] in E.
    destruct (drop _ _) as [|y rest']; cbn [length] in E; [lia|]. exists y, rest'. split; [done|lia]. }
  exists ((Some <$> l) ++ (Some <$> bs) ++ y :: rest').
  assert (length old = length bs) as Hold by (subst old; rewrite length_take; cbn [length]; lia).
  assert (memcpy (s_buf q) (Zlen l) (Some <$> bs) 0 (Zlen bs) = Some ((Some <$> l) ++ (Some <$> bs) ++ y :: rest')) as ->.
  { rewrite Hbuf, <- (take_drop (length bs) (Some 0 :: rest)). fold old x. rewrite Ex.
    apply (memcpy_app (Some <$> l) old (y :: rest') _ [] (Some <$> bs) []); rewrite ?length_fmap, ?app_nil_r; (done || lia). }
  unfold sdsIncrLen. cbn [s_type s_hlen s_halloc set_buf]. rewrite Hal, Hl.
  assert ((match s_type q with
    | SDS_TYPE_5 => ((Zlen bs >? 0) && (Zlen l + Zlen bs <? 32)) || ((Zlen bs <? 0) && (Zlen l >=? - Zlen bs))
    | _ => ((Zlen bs >=? 0) && (sdsalloc q - Zlen l >=? Zlen bs)) || ((Zlen bs <? 0) && (Zlen l >=? - Zlen bs))
    end) = true) as ->.
  { assert ((Zlen bs >=? 0) = true) as -> by (rewrite Z.geb_leb; apply Z.leb_le; lia).
    assert ((sdsalloc q - Zlen l >=? Zlen bs) = true) as -> by (rewrite Z.geb_leb; apply Z.leb_le; lia).
    by destruct (s_type q). }
  cbn [negb]. cbn [sdssetlen s_buf s_hlen s_type set_buf]. rewrite to_field_id by lia.
  rewrite app_assoc, store8_app by (rewrite ?length_app, ?length_fmap; (done || lia)). cbn [mbind option_bind].
  eexists. split; [done|]. split; [done|].
  match goal with |- sds_ok ?q' _ => assert (sdsalloc q' = sdsalloc q) as Ea by (unfold sdsalloc; cbn; rewrite ?Hal; by destruct (s_type q)) end.
  split; rewrite ?Ea; cbn [set_buf s_hlen s_type s_buf]; rewrite ?length_app; try (done || lia).
  - unfold sdssetlen. cbn [s_hlen s_type set_buf]. rewrite to_field_id by lia. lia.
  - cbn [sdssetlen s_type set_buf]. lia.
  - apply Forall_app. done.
  - exists rest'. rewrite fmap_app. split; [done|lia].
Qed.

(** ** Flags *)

Lemma has_bit f n : 0 <= n -> has f (Z.shiftl 1 n) = Z.testbit f n.
Proof.
  intros Hn. unfold has. rewrite Z.shiftl_1_l. destruct (Z.eqb_spec (Z.land f (2 ^ n)) 0) as [E|E]; cbn [negb].
  - symmetry. pose proof (f_equal (fun x => Z.testbit x n) E) as Et. cbn beta in Et.
    by rewrite Z.land_spec, Z.pow2_bits_true, andb_true_r, Z.bits_0 in Et by lia.
  - destruct (Z.testbit f n) eqn:Et; [done|]. exfalso. apply E. apply Z.bits_inj'. intros i Hi.
    rewrite Z.land_spec, Z.bits_0. destruct (decide (i = n)) as [->|]; [by rewrite Et|].
    by rewrite Z.pow2_bits_false, andb_false_r by lia.
Qed.

(** The flags [resetClient] and [unpause] leave alone. *)
Lemma resetClient_flag c n : 0 <= n -> n <> 9 -> n <> 23 -> n <> 24 ->
  Z.testbit (c_flags (resetClient c)) n = Z.testbit (c_flags c) n.
Proof.
  intros Hn H9 H23 H24. unfold resetClient. cbn [c_flags set_flags].
  assert (forall k, 0 <= k -> n <> k -> Z.testbit (Z.shiftl 1 k) n = false) as Hbit
    by (intros k Hk Hnk; rewrite Z.shiftl_1_l, Z.pow2_bits_false; (done || lia)).
  assert (forall f g, Z.testbit g n = false -> Z.testbit (Z.land f (Z.lnot g)) n = Z.testbit f n) as Hclr
    by (intros f g E; by rewrite Z.land_spec, Z.lnot_spec, E, andb_true_r by lia).
  assert (forall f g, Z.testbit g n = false -> Z.testbit (Z.lor f g) n = Z.testbit f n) as Hset
    by (intros f g E; by rewrite Z.lor_spec, E, orb_false_r).
  repeat match goal with |- context [if ?b then _ else _] => destruct b end;
    rewrite ?Hclr, ?Hset by (apply Hbit; lia); rewrite ?Hclr by (apply Hbit; lia); done.
Qed.

Lemma unpause_flag f n : 0 <= n -> n <> 7 -> Z.testbit (unpause f) n = Z.testbit f n.
Proof.
  intros Hn H7. unfold unpause. destruct (has _ _); [done|]. unfold CLIENT_UNBLOCKED.
  by rewrite Z.lor_spec, Z.shiftl_1_l, Z.pow2_bits_false, orb_false_r by lia.
Qed.
