(* ===== verification/RequestSafe.v ===== *)
(** The request parser on arbitrary input.

    Whatever bytes arrive, in whatever portions, and whatever the commands and
    the rest of the server do between them, [readQueryFromClient] and
    [processInputBuffer] return: no access leaves the query buffer or the
    argument array, no assertion fails and no loop is endless.  The invariant is
    [parser_inv]; [command_law] is what is required of [processCommand]. *)

From S2P Require Import Prelude Sds SdsText Util Request RequestSpec.

(** ** The invariant *)

Definition closing (c : client) : bool := has (c_flags c) CLIENT_CLOSE_AFTER_REPLY.

(** The state between two iterations of [while(c->multibulklen)]. *)
Record loop_inv (c : client) : Prop := {
  li_type : c_reqtype c = PROTO_REQ_MULTIBULK;
  li_count : 0 <= c_multibulklen c <= 1024 * 1024;
  li_args : c_argc c + c_multibulklen c <= c_argv_size c;
  li_bulk : c_bulklen c = -1 \/ 0 <= c_bulklen c <= 512 * 1024 * 1024 /\ 0 < c_multibulklen c }.

(** The state between two calls, with the contents of the query buffer. *)
Record parser_inv (c : client) (l : list Z) : Prop := {
  pi_buf : sds_ok (c_querybuf c) l;
  pi_type : 0 <= c_reqtype c <= 2;
  pi_count : 0 <= c_multibulklen c;
  pi_progress : 0 < c_multibulklen c -> loop_inv c;
  pi_bulk : c_multibulklen c = 0 -> c_bulklen c = -1;
  pi_big : PROTO_MBULK_BIG_ARG <= c_bulklen c -> Zlen l <= c_bulklen c + 2;
  pi_idle : closing c = false -> c_multibulklen c = 0 ->
    c_argv c = [] /\ (c_reqtype c = PROTO_REQ_MULTIBULK -> head l = Some 42) }.

Lemma idle_inv c l : sds_ok (c_querybuf c) l -> 0 <= c_reqtype c <= 2 -> c_multibulklen c = 0 -> c_bulklen c = -1 ->
  (closing c = false -> c_argv c = [] /\ (c_reqtype c = PROTO_REQ_MULTIBULK -> head l = Some 42)) ->
  parser_inv c l.
Proof. intros Hok Ht Hm Hb Hi. split; rewrite ?Hm, ?Hb; unfold PROTO_MBULK_BIG_ARG; auto; (done || intros; lia). Qed.

Lemma busy_inv c l : sds_ok (c_querybuf c) l -> loop_inv c -> 0 < c_multibulklen c ->
  (c_bulklen c = -1 \/ Zlen l < c_bulklen c + 2) -> parser_inv c l.
Proof.
  intros Hok Hinv Hm Hb. pose proof Hinv as [HA _ _ _]. split; unfold PROTO_MBULK_BIG_ARG; auto; (done || (rewrite ?HA; unfold PROTO_REQ_MULTIBULK; intros; lia)).
Qed.

Lemma rejected_closing c l e pos c' : rejected c l e pos c' -> closing c' = true.
Proof.
  intros (q & -> & _). unfold closing. cbn [c_flags set_querybuf set_flags]. unfold CLIENT_CLOSE_AFTER_REPLY.
  rewrite has_bit by lia. rewrite Z.lor_spec. change (Z.testbit (Z.shiftl 1 6) 6) with true. apply orb_true_r.
Qed.

(** ** The loop of [processMultibulkBuffer] *)

Definition loop_result (c : client) (l d : list Z) (r : outcome) : Prop :=
  match r with
  | Next _ _ => False
  | Break c' pos' => exists l' d', at_pos (c_querybuf c') l' pos' d' /\ Zlen l' <= Zlen l /\ loop_inv c' /\
      c_flags c' = c_flags c /\ (c_bulklen c' = -1 \/ Zlen d' < c_bulklen c' + 2) /\ Zlen d' <= Zlen d /\
      (c_multibulklen c' = 0 -> 0 < c_multibulklen c -> Zlen d' < Zlen d)
  | Return c' ok => ok = false /\ exists l', sds_ok (c_querybuf c') l' /\ Zlen l' <= Zlen l /\ loop_inv c' /\
      0 < c_multibulklen c' /\ c_bulklen c' = -1 /\ closing c' = true
  end.

Lemma loop_result_rejected c l d e pos c' : loop_inv c -> 0 < c_multibulklen c -> c_bulklen c = -1 ->
  rejected c l e pos c' -> loop_result c l d (Return c' false).
Proof.
  intros [H1 H2 H3 H4] Hm Hb Hr. pose proof (rejected_closing _ _ _ _ _ Hr) as Hcl. destruct Hr as (q & -> & Hq).
  split; [done|]. exists (drop (Z.to_nat pos) l). split; [done|]. split; [rewrite length_drop; lia|].
  split; [|split; [done|split; [done|exact Hcl]]]. by split.
Qed.

(** The part of the body before the argument, in the terms of the loop. *)
Lemma read_bulklen_safe c l pos d : at_pos (c_querybuf c) l pos d -> loop_inv c -> 0 < c_multibulklen c -> c_bulklen c = -1 ->
  exists r, read_bulklen c pos = Some r /\
  match r with
  | Next c' pos' => exists l' d', at_pos (c_querybuf c') l' pos' d' /\ Zlen l' <= Zlen l /\ loop_inv c' /\
      c_flags c' = c_flags c /\ Zlen d' < Zlen d /\ 0 <= c_bulklen c' /\ 0 < c_multibulklen c'
  | r => loop_result c l d r
  end.
Proof.
  intros Hat Hinv Hm Hb. destruct (read_bulklen_content c l pos d Hat) as (r & -> & H). exists r. split; [done|].
  assert (loop_result c l d (Break c pos)) as Hbr by (exists l, d; split_and!; (done || lia || by left)).
  pose proof (fun e p c' => loop_result_rejected c l d e p c' Hinv Hm Hb) as Hf.
  destruct (find_chr 13 d) as [k|] eqn:Hk.
  2: { destruct (_ >? _) in H; [destruct H as (c' & -> & Hr); by eapply Hf|by subst r]. }
  destruct (_ >? _) eqn:Ek in H; [by subst r|].
  destruct (negb _) in H; [destruct H as (c' & -> & Hr); by eapply Hf|].
  destruct (number _) as [ll|]; [|destruct H as (c' & -> & Hr); by eapply Hf].
  destruct (_ || _) eqn:Hll in H; [destruct H as (c' & -> & Hr); by eapply Hf|].
  destruct H as (q & l' & pos' & -> & Hat' & Hlen & _). exists l', (drop (k + 2) d).
  destruct Hinv as [H1 H2 H3 H4]. apply orb_false_iff in Hll as [Hl0%Z.ltb_ge Hl1]. rewrite Z.gtb_ltb in Hl1.
  apply Z.ltb_ge in Hl1. rewrite Z.gtb_ltb in Ek. apply Z.ltb_ge in Ek. apply find_chr_Some in Hk.
  split; [done|]. split; [done|]. rewrite length_drop. split; [|cbn; split_and!; (done || lia)].
  split; cbn; try done. right. lia.
Qed.

Lemma loop_result_trans c c1 l l1 d d1 r : loop_result c1 l1 d1 r -> Zlen l1 <= Zlen l -> Zlen d1 < Zlen d ->
  c_flags c1 = c_flags c -> loop_result c l d r.
Proof.
  destruct r as [?? | c' pos' | c' ok]; cbn; [done| |].
  - intros (l' & d' & Hat & Hl & Hi & Hf & Hb & Hd & Hm) Hll Hdd E. exists l', d'. rewrite <- E. split_and!; (done || lia).
  - intros (-> & l' & Hok & Hl & Hrest) Hll _ _. split; [done|]. exists l'. split; [done|]. split; [lia|done].
Qed.

Lemma multibulk_loop_safe fuel : forall c l pos d, at_pos (c_querybuf c) l pos d -> loop_inv c -> Zlen d < Z.of_nat fuel ->
  exists r, multibulk_loop fuel c pos = Some r /\ loop_result c l d r.
Proof.
  induction fuel as [|fuel IH]; intros c l pos d Hat Hinv Hf; [lia|]. cbn [multibulk_loop].
  destruct (Z.eqb_spec (c_multibulklen c) 0) as [E|E].
  { eexists. split; [done|]. exists l, d. split_and!; try (done || lia). left. destruct (li_bulk c Hinv); lia. }
  assert (exists r, (if c_bulklen c =? -1 then read_bulklen c pos else Some (Next c pos)) = Some r /\
    match r with
    | Next c' pos' => exists l' d', at_pos (c_querybuf c') l' pos' d' /\ Zlen l' <= Zlen l /\ loop_inv c' /\
        c_flags c' = c_flags c /\ Zlen d' <= Zlen d /\ 0 <= c_bulklen c' /\ 0 < c_multibulklen c'
    | r => loop_result c l d r
    end) as (r & -> & Hr).
  { pose proof (li_count c Hinv). destruct (Z.eqb_spec (c_bulklen c) (-1)) as [Hb|Hb].
    - destruct (read_bulklen_safe c l pos d Hat Hinv ltac:(lia) Hb) as (r & -> & Hr). exists r. split; [done|].
      destruct r; [|done..]. destruct Hr as (l' & d' & Hr). exists l', d'. naive_solver lia.
    - eexists. split; [done|]. exists l, d. destruct (li_bulk c Hinv) as [|[? ?]]; [done|]. split_and!; (done || lia). }
  cbn [mbind option_bind]. destruct r as [c1 pos1|c1 pos1|c1 ok]; [|by eexists..].
  destruct Hr as (l1 & d1 & Hat1 & Hl1 & Hinv1 & Hf1 & Hd1 & Hb1 & Hm1). pose proof Hinv1 as [HA HB HC HD].
  destruct (read_bulk_content c1 l1 pos1 d1 Hat1 ltac:(lia) ltac:(lia)) as (r & -> & Hr). cbn [mbind option_bind].
  destruct (Z.ltb_spec (Zlen d1) (c_bulklen c1 + 2)) as [Hlt|Hge].
  { subst r. eexists. split; [done|]. exists l1, d1. split_and!; try (done || lia). }
  destruct Hr as (q & l2 & pos2 & -> & Hat2 & Hl2 & _). set (c2 := set_request _ _ _ _).
  assert (Zlen (drop (Z.to_nat (c_bulklen c1 + 2)) d1) < Zlen d) as Hd2 by (rewrite length_drop; lia).
  destruct (IH c2 l2 pos2 _ Hat2) as (r & -> & Hr); [|lia|].
  - split; cbn; try done; [lia|..|by left]. unfold c_argc in *. cbn. rewrite length_app. cbn [length]. lia.
  - exists r. split; [done|]. eapply loop_result_trans; [exact Hr|lia|lia|done].
Qed.

(** What a request function leaves: on success a complete request and a
    shorter buffer, otherwise the invariant. *)
Definition request_result (c : client) (l : list Z) (c' : client) (ok : bool) : Prop :=
  exists l', Zlen l' <= Zlen l /\
    if ok then sds_ok (c_querybuf c') l' /\ Zlen l' < Zlen l /\ c_flags c' = c_flags c /\ c_reqtype c' = c_reqtype c /\
      c_multibulklen c' = 0 /\ c_bulklen c' = -1
    else parser_inv c' l'.

(** The first part of [processMultibulkBuffer]: the number of arguments. *)
Lemma multibulk_start_safe c l : parser_inv c l -> c_reqtype c = PROTO_REQ_MULTIBULK -> closing c = false ->
  l <> [] -> Zlen l < 2 ^ 31 - 2 ->
  exists r, (if c_multibulklen c =? 0 then read_multibulklen c else Some (Next c 0)) = Some r /\
    match r with
    | Next c' pos => exists d, at_pos (c_querybuf c') l pos d /\ loop_inv c' /\ 0 < c_multibulklen c' /\
        c_flags c' = c_flags c /\ c_querybuf c' = c_querybuf c
    | Return c' ok => request_result c l c' ok
    | Break _ _ => False
    end.
Proof.
  intros Hinv Ht Hcl Hne Hl. pose proof Hinv as [Hok _ Hc0 Hprog Hbulk Hbig Hidle].
  destruct (Z.eqb_spec (c_multibulklen c) 0) as [E|E].
  2: { eexists. split; [done|]. exists l. split; [by apply at_pos_0; [|lia]|]. split; [by apply Hprog; lia|]. split; [lia|done]. }
  destruct (Hidle Hcl E) as [Hargv Hstar]. specialize (Hstar Ht). specialize (Hbulk E).
  destruct (read_multibulklen_content c l Hok ltac:(lia) Hargv Hstar) as (r & -> & H). exists r. split; [done|].
  assert (request_result c l c false) as Hsame by (exists l; done).
  assert (forall e c', rejected c l e 0 c' -> request_result c l c' false) as Hrej.
  { intros e c' Hr. pose proof (rejected_closing _ _ _ _ _ Hr) as Hcl'. destruct Hr as (q & -> & Hq).
    change (Z.to_nat 0) with 0%nat in Hq. rewrite drop_0 in Hq. exists l. split; [done|].
    apply idle_inv; (done || (cbn; by rewrite Ht)). }
  destruct (find_chr 13 l) as [k|] eqn:Hk.
  2: { destruct (_ >? _) in H; [destruct H as (c' & -> & Hr'); by eapply Hrej|by subst r]. }
  destruct (_ >? _) eqn:Ek in H; [by subst r|]. rewrite Z.gtb_ltb in Ek. apply Z.ltb_ge in Ek.
  destruct (number _) as [ll|]; [|destruct H as (c' & -> & Hr'); by eapply Hrej].
  destruct (ll >? _) eqn:El in H; [destruct H as (c' & -> & Hr'); by eapply Hrej|]. rewrite Z.gtb_ltb in El. apply Z.ltb_ge in El.
  destruct (Z.leb_spec ll 0).
  - destruct H as (q & -> & Hq). exists (drop (k + 2) l). rewrite length_drop. split; [lia|]. cbn. split_and!; (done || lia).
  - subst r. exists (drop (k + 2) l). split; [split_and!; (done || lia || by rewrite Nat2Z.id)|].
    split; [|cbn; split_and!; (done || lia)]. split; cbn; (done || lia || by left).
Qed.

Lemma processMultibulkBuffer_safe c l : parser_inv c l -> c_reqtype c = PROTO_REQ_MULTIBULK -> closing c = false ->
  l <> [] -> Zlen l < 2 ^ 31 - 2 ->
  exists c' ok, processMultibulkBuffer c = Some (c', ok) /\ request_result c l c' ok.
Proof.
  intros Hinv Ht Hcl Hne Hl. pose proof (pi_buf _ _ Hinv) as Hok. unfold processMultibulkBuffer.
  destruct (multibulk_start_safe c l Hinv Ht Hcl Hne Hl) as (r & -> & Hr).
  cbn [mbind option_bind]. destruct r as [c1 pos1|?|c1 ok]; [|done|by eexists _, _].
  destruct Hr as (d & Hat & Hinv1 & Hm1 & Hf1 & Hq1). rewrite Z.gtb_ltb. destruct (Z.ltb_spec 0 (c_multibulklen c1)); [|lia].
  cbn [negb]. unfold sdslen. rewrite Hq1, (ok_len _ _ Hok).
  assert (Zlen d <= Zlen l) as Hdl by (destruct Hat as (_ & _ & _ & <-); rewrite length_drop; lia).
  destruct (multibulk_loop_safe (S (Z.to_nat (Zlen l))) c1 l pos1 d Hat Hinv1 ltac:(lia)) as (r & -> & Hr).
  cbn [mbind option_bind]. destruct r as [?|c2 pos2|c2 ok]; [done| |].
  - destruct Hr as (l2 & d2 & Hat2 & Hl2 & Hinv2 & Hf2 & Hb2 & Hd2 & Hm2).
    destruct (trim_at_pos c2 l2 pos2 d2 Hat2) as (q & -> & Hq).
    cbn [mbind option_bind]. eexists _, _. split; [done|]. exists d2. split; [lia|]. cbn.
    pose proof Hinv2 as [HA HB HC HD]. destruct (Z.eqb_spec (c_multibulklen c2) 0) as [E0|E0].
    + split_and!; (done || lia || congruence).
    + by apply busy_inv; [| |cbn; lia|].
  - destruct Hr as (-> & l2 & Hok2 & Hl2 & Hinv2 & Hm2 & Hb2 & Hc2). eexists _, _. split; [done|]. exists l2. split; [lia|].
    apply busy_inv; auto.
Qed.

Lemma processInlineBuffer_safe {A} c (s : server A) l : parser_inv c l -> c_reqtype c = PROTO_REQ_INLINE ->
  closing c = false -> l <> [] -> Zlen l < 2 ^ 31 - 2 ->
  exists c' ok, processInlineBuffer c s = Some (c', ok) /\ request_result c l c' ok.
Proof.
  intros Hinv Ht Hcl Hne Hl. pose proof Hinv as [Hok _ Hc0 Hprog Hbulk _ _].
  assert (c_multibulklen c = 0) as Hm.
  { destruct (decide (0 < c_multibulklen c)) as [H|]; [|lia]. destruct (Hprog H) as [E _ _ _]. by rewrite Ht in E. }
  specialize (Hbulk Hm). destruct (processInlineBuffer_content c s l Hok Hl) as (c' & ok & -> & H). exists c', ok. split; [done|].
  assert (forall e, rejected c l e 0 c' -> request_result c l c' false) as Hrej.
  { intros e Hr. pose proof (rejected_closing _ _ _ _ _ Hr) as Hcl'. destruct Hr as (q & -> & Hq).
    change (Z.to_nat 0) with 0%nat in Hq. rewrite drop_0 in Hq. exists l. split; [done|].
    apply idle_inv; try done; [cbn; rewrite Ht; unfold PROTO_REQ_INLINE; lia|by rewrite Hcl']. }
  destruct (find_chr 10 l) as [k|] eqn:Hk.
  2: { destruct H as [-> H]. destruct (_ >? _) in H; [by eapply Hrej|]. subst c'. by exists l. }
  destruct (arguments _) as [args|]; [|destruct H as [-> H]; by eapply Hrej].
  destruct H as (-> & q & t & size & -> & Hq). exists (drop (line_length l k + 2) l). rewrite length_drop.
  split; [lia|]. cbn. split_and!; (done || lia || (destruct l; [done|cbn [length]; lia])).
Qed.

(** ** Dispatching *)

(** What the parser needs of the command interpreter: it returns, does not
    touch the query buffer and the progress of the parser, and when it does not
    return [C_OK] the client is to be closed or gone. *)
Class CommandLaw {A} (processCommand : client -> server A -> option (client * server A * bool)) : Prop :=
  command_law : forall c s, exists c' s' ok, processCommand c s = Some (c', s', ok) /\
    c_querybuf c' = c_querybuf c /\ c_reqtype c' = c_reqtype c /\ c_multibulklen c' = c_multibulklen c /\
    c_bulklen c' = c_bulklen c /\ (ok = true \/ closing c' = true \/ current_client s' = false) /\
    client_max_querybuf_len s' = client_max_querybuf_len s.

Lemma closing_bit c : closing c = Z.testbit (c_flags c) 6.
Proof. apply has_bit. lia. Qed.

Lemma resetClient_inv c l : sds_ok (c_querybuf c) l -> parser_inv (resetClient c) l.
Proof. intros Hok. apply idle_inv; done. Qed.

(** Only [c_flags] is set, and the client is not taken off the closing ones. *)
Lemma set_flags_inv c l f : parser_inv c l -> (closing c = true -> closing (set_flags c f) = true) ->
  parser_inv (set_flags c f) l.
Proof.
  intros [H1 H2 H3 H4 H5 H6 H7] Hc. split; try done.
  - intros Hm. by destruct (H4 Hm).
  - intros Hx. apply H7. destruct (closing c) eqn:E; [|done]. by rewrite Hc in Hx.
Qed.

Lemma clientsArePaused_inv {A} c (s : server A) l : parser_inv c l ->
  exists c' s' p, clientsArePaused c s = (c', s', p) /\ parser_inv c' l /\ c_querybuf c' = c_querybuf c /\
    client_max_querybuf_len s' = client_max_querybuf_len s.
Proof.
  intros Hinv. unfold clientsArePaused. destruct (_ && _); [|by eexists _, _, _]. eexists _, _, _. split; [done|].
  split; [|done]. apply set_flags_inv; [done|]. rewrite !closing_bit. cbn [c_flags set_flags]. by rewrite unpause_flag by lia.
Qed.

Section Safe.
Context {A : Type} (processCommand : client -> server A -> option (client * server A * bool)) `{!CommandLaw processCommand}.

Definition kept (l : list Z) (s : server A) (oc : option client) (s' : server A) : Prop :=
  client_max_querybuf_len s' = client_max_querybuf_len s /\
  (forall c', oc = Some c' -> exists l', parser_inv c' l' /\ Zlen l' <= Zlen l).

(** Choosing the request type keeps the invariant. *)
Lemma reqtype_inv c l : parser_inv c l -> l <> [] ->
  exists c', (if c_reqtype c =? 0 then
      x ← load8 (s_buf (c_querybuf c)) 0;
      Some (set_request c (if x =? 42 then PROTO_REQ_MULTIBULK else PROTO_REQ_INLINE) (c_multibulklen c) (c_bulklen c))
    else Some c) = Some c' /\ parser_inv c' l /\ c_flags c' = c_flags c /\
    (c_reqtype c' = PROTO_REQ_INLINE \/ c_reqtype c' = PROTO_REQ_MULTIBULK).
Proof.
  intros Hinv Hne. pose proof Hinv as [Hok Ht H3 H4 H5 H6 H7]. destruct (Z.eqb_spec (c_reqtype c) 0) as [E|E].
  2: { exists c. split_and!; try done. unfold PROTO_REQ_INLINE, PROTO_REQ_MULTIBULK. lia. }
  rewrite (load8_content _ l), at_drop by (done || lia). change (drop (Z.to_nat 0) l) with (drop 0 l). rewrite drop_0.
  destruct l as [|x l]; [done|]. cbn [head default from_option id mbind option_bind]. eexists. split; [done|].
  assert (c_multibulklen c = 0) as Hm.
  { destruct (decide (0 < c_multibulklen c)) as [H|]; [|lia]. destruct (H4 H) as [E' _ _ _]. by rewrite E in E'. }
  split; [|split; [done|cbn; destruct (x =? 42); auto]].
  apply idle_inv; cbn; auto; [by destruct (x =? 42)|]. intros Hc. split; [by apply H7|].
  destruct (Z.eqb_spec x 42); [by subst|done].
Qed.

Lemma input_loop_safe fuel : forall c s l, parser_inv c l -> Zlen l < 2 ^ 31 - 2 -> Zlen l < Z.of_nat fuel ->
  exists oc s', input_loop processCommand fuel c s = Some (oc, s') /\ kept l s oc s'.
Proof.
  induction fuel as [|fuel IH]; intros c s l Hinv Hl Hf; [lia|]. cbn [input_loop].
  assert (forall c' s', parser_inv c' l -> client_max_querybuf_len s' = client_max_querybuf_len s -> kept l s (Some c') s') as Hstop
    by (intros c' s' Hi E; split; [done|]; intros ? [= <-]; by exists l).
  unfold sdslen. rewrite (ok_len _ _ (pi_buf _ _ Hinv)).
  destruct (Z.eqb_spec (Zlen l) 0) as [E|E]; [by eexists _, _; split; [|apply Hstop]|].
  assert (l <> []) as Hne by (by intros ->).
  assert (exists c1 s1 p, (if has (c_flags c) CLIENT_SLAVE then (c, s, false) else clientsArePaused c s) = (c1, s1, p) /\
    parser_inv c1 l /\ client_max_querybuf_len s1 = client_max_querybuf_len s) as (c1 & s1 & p & -> & Hinv1 & Hs1).
  { destruct (has _ _); [by eexists _, _, _|]. destruct (clientsArePaused_inv c s l Hinv) as (c1 & s1 & p & -> & ? & _ & ?).
    by eexists _, _, _. }
  destruct p; [by eexists _, _; split; [|apply Hstop]|].
  destruct (has (c_flags c1) CLIENT_BLOCKED); [by eexists _, _; split; [|apply Hstop]|].
  destruct (has (c_flags c1) CLIENT_CLOSE_AFTER_REPLY) eqn:Hcl; [by eexists _, _; split; [|apply Hstop]|].
  destruct (reqtype_inv c1 l Hinv1 Hne) as (c2 & -> & Hinv2 & Hf2 & Ht2). cbn [mbind option_bind].
  assert (closing c2 = false) as Hcl2 by (unfold closing; by rewrite Hf2).
  assert (exists c3 ok, (if c_reqtype c2 =? PROTO_REQ_INLINE then processInlineBuffer c2 s1
    else if c_reqtype c2 =? PROTO_REQ_MULTIBULK then processMultibulkBuffer c2 else None) = Some (c3, ok) /\
    request_result c2 l c3 ok) as (c3 & ok & -> & Hres).
  { destruct Ht2 as [Ht|Ht]; rewrite Ht.
    - by apply processInlineBuffer_safe.
    - by apply processMultibulkBuffer_safe. }
  cbn [mbind option_bind]. destruct Hres as (l3 & Hl3 & H3). destruct ok; cbn [negb].
  2: { eexists _, _. split; [done|]. split; [done|]. intros ? [= <-]. by exists l3. }
  destruct H3 as (Hok3 & Hlt & Hf3 & Ht3 & Hm3 & Hb3).
  assert (forall c' s', parser_inv c' l3 -> client_max_querybuf_len s' = client_max_querybuf_len s ->
    exists oc s'', input_loop processCommand fuel c' s' = Some (oc, s'') /\ kept l s oc s'') as Hgo.
  { intros c' s' Hi Es. destruct (IH c' s' l3 Hi ltac:(lia) ltac:(lia)) as (oc & s'' & -> & Hk1 & Hk2). eexists _, _. split; [done|].
    split; [congruence|]. intros c'' Hc''. destruct (Hk2 c'' Hc'') as (l'' & ? & ?). exists l''. split; [done|lia]. }
  destruct (c_argc c3 =? 0); [apply Hgo; [by apply resetClient_inv|done]|].
  destruct (command_law c3 s1) as (c4 & s4 & ok & -> & Hq4 & Ht4 & Hm4 & Hb4 & Hcls & Hs4). cbn [mbind option_bind].
  destruct (current_client s4); cbn [negb]; [|eexists _, _; split; [done|]; split; [congruence|done]].
  apply Hgo; [|congruence]. destruct ok; [apply resetClient_inv; by rewrite Hq4|].
  apply idle_inv; rewrite ?Hq4, ?Ht4, ?Hm4, ?Hb4; try done; [rewrite Ht3; by destruct Ht2 as [-> | ->]|].
  destruct Hcls as [|[Hcls|]]; [done| |done]. by rewrite Hcls.
Qed.

(** ** Reading *)

Lemma readlen_range c l : parser_inv c l -> 0 <= readlen c <= PROTO_IOBUF_LEN /\
  (PROTO_MBULK_BIG_ARG <= c_bulklen c -> Zlen l + readlen c <= c_bulklen c + 2) /\
  (c_bulklen c < PROTO_MBULK_BIG_ARG \/ Zlen l < c_bulklen c + 2 -> 1 <= readlen c).
Proof.
  intros [Hok Ht H3 H4 H5 H6 H7]. unfold readlen, sdslen. rewrite (ok_len _ _ Hok), Z.geb_leb.
  destruct (Z.leb_spec PROTO_MBULK_BIG_ARG (c_bulklen c)) as [Hb|Hb].
  2: { rewrite andb_false_r. unfold PROTO_IOBUF_LEN. lia. }
  assert (0 < c_multibulklen c) as Hm.
  { destruct (decide (0 < c_multibulklen c)) as [|Hx]; [done|]. rewrite H5 in Hb by lia. unfold PROTO_MBULK_BIG_ARG in Hb. lia. }
  destruct (H4 Hm) as [-> _ _ [Hx|[Hx _]]]; [rewrite Hx in Hb; unfold PROTO_MBULK_BIG_ARG in Hb; lia|].
  rewrite Z.eqb_refl. destruct (Z.eqb_spec (c_multibulklen c) 0); [lia|]. destruct (Z.eqb_spec (c_bulklen c) (-1)); [lia|].
  specialize (H6 Hb). cbn [andb negb]. rewrite (wrapu_id 32), (wrapu_id 64), (wraps_id 32) by lia.
  unfold PROTO_IOBUF_LEN. destruct (Z.ltb_spec (c_bulklen c + 2 - Zlen l) (1024 * 16)); lia.
Qed.

(** [read(2)] stores at most as many bytes as it is asked for. *)
Definition read_law (read : Z -> read_result) : Prop :=
  forall n bs, 0 <= n -> read n = ReadBytes bs -> Zlen bs <= n /\ Forall is_byte bs.

(** What [readQueryFromClient] does with the data [read] returned. *)
Lemma readQueryFromClient_bytes (read : Z -> read_result) c (s : server A) l bs : parser_inv c l -> Zlen l <= 2 ^ 30 ->
  read (readlen c) = ReadBytes bs -> bs <> [] -> Zlen bs <= readlen c -> Forall is_byte bs ->
  exists c1, parser_inv c1 (l ++ bs) /\
    c1 = set_interaction (set_querybuf c (c_querybuf c1)) (c_querybuf_peak c1) (unixtime s) (c_reploff c1) /\
    readQueryFromClient processCommand read c s =
      let s := add_input_bytes s (Zlen bs) in
      if Zlen (l ++ bs) >? client_max_querybuf_len s then Some (None, s) else processInputBuffer processCommand c1 s.
Proof.
  intros Hinv Hl Hread Hne Hlen Hbs. destruct (readlen_range c l Hinv) as (Hr & Hbig & _). pose proof Hinv as [Hok Ht H3 H4 H5 H6 H7].
  unfold readQueryFromClient. unfold PROTO_IOBUF_LEN in Hr.
  assert (u64 (readlen c) = readlen c) as Eu by (apply (wrapu_id 64); lia). rewrite Eu.
  set (c0 := if c_querybuf_peak c <? sdslen (c_querybuf c) then _ else c).
  assert (exists k, c0 = set_interaction c k (c_lastinteraction c) (c_reploff c)) as (k & ->).
  { subst c0. destruct (_ <? _); [by eexists|]. exists (c_querybuf_peak c). by destruct c. }
  cbn [c_querybuf set_interaction]. unfold sdslen. rewrite (ok_len _ _ Hok).
  destruct (sdsMakeRoomFor_spec _ l (readlen c) Hok) as (q & -> & Hq & Hroom); [lia..|]. cbn [mbind option_bind]. rewrite Hread.
  destruct bs as [|b bs]; [done|]. set (ds := b :: bs) in *.
  destruct (append_content q l ds Hq ltac:(done) Hbs ltac:(lia) ltac:(lia)) as (m & q' & -> & E & Hq').
  cbn [mbind option_bind]. rewrite E. cbn [mbind option_bind c_flags c_querybuf set_querybuf set_interaction].
  set (c1 := set_interaction _ _ _ _). exists c1. split; [|split; [done|by rewrite (ok_len _ _ Hq')]].
  split; try done; cbn.
  - intros Hm. by destruct (H4 Hm).
  - intros Hb. specialize (Hbig Hb). rewrite length_app. lia.
  - intros Hc Hm. destruct (H7 Hc Hm) as [Ha Hs]. split; [done|]. intros Hmb. specialize (Hs Hmb). by destruct l.
Qed.

Lemma readQueryFromClient_safe read c (s : server A) l : parser_inv c l -> Zlen l <= 2 ^ 30 -> read_law read ->
  client_max_querybuf_len s <= 2 ^ 30 ->
  exists oc s', readQueryFromClient processCommand read c s = Some (oc, s') /\
    client_max_querybuf_len s' = client_max_querybuf_len s /\
    (forall c', oc = Some c' -> exists l', parser_inv c' l' /\ Zlen l' <= 2 ^ 30).
Proof.
  intros Hinv Hl Hread Hmax. destruct (readlen_range c l Hinv) as [Hr _]. unfold PROTO_IOBUF_LEN in Hr.
  destruct (read (readlen c)) as [| |bs] eqn:E; [| |destruct (decide (bs = [])) as [->|Hne]].
  4: { destruct (Hread _ _ (proj1 Hr) E) as [Hlen Hbs].
    destruct (readQueryFromClient_bytes read c s l bs Hinv Hl E Hne Hlen Hbs) as (c1 & Hinv1 & _ & ->).
    cbn [client_max_querybuf_len add_input_bytes]. rewrite Z.gtb_ltb. destruct (Z.ltb_spec (client_max_querybuf_len s) (Zlen (l ++ bs))).
    { eexists _, _. split; [done|]. by split. }
    unfold processInputBuffer, sdslen. rewrite (ok_len _ _ (pi_buf _ _ Hinv1)).
    destruct (input_loop_safe (S (S (Z.to_nat (Zlen (l ++ bs))))) c1 (set_current (add_input_bytes s (Zlen bs)) true) (l ++ bs) Hinv1)
      as (oc & s' & -> & Hk1 & Hk2); [lia..|].
    cbn [mbind option_bind]. eexists _, _. split; [done|]. split; [done|]. intros c' Hc'.
    destruct (Hk2 c' Hc') as (l' & ? & ?). exists l'. split; [done|lia]. }
  all: unfold readQueryFromClient; rewrite (wrapu_id 64) by lia; rewrite E.
  all: set (c0 := if c_querybuf_peak c <? sdslen (c_querybuf c) then _ else c).
  all: assert (parser_inv c0 l) as Hinv0 by (subst c0; destruct (_ <? _); [|done]; destruct Hinv as [H1 H2 H3 H4 H5 H6 H7];
    split; try done; cbn; intros Hm; by destruct (H4 Hm)).
  all: pose proof (pi_buf _ _ Hinv0) as Hok0.
  all: destruct (sdsMakeRoomFor_spec _ l (readlen c) Hok0) as (q & -> & Hq & _); [lia..|]; cbn [mbind option_bind].
  all: eexists _, _; (split; [done|]); (split; [done|]); intros c' [= <-].
  exists l. split; [|done]. destruct Hinv0 as [H1 H2 H3 H4 H5 H6 H7]. split; try done. cbn. intros Hm. by destruct (H4 Hm).
Qed.

(** ** Histories of a connection *)

(** The socket is readable; the client is resumed after a pause or a blocking
    command; the rest of the server changes its own state and the client's
    flags. *)
Inductive event := Readable (read : Z -> read_result) | Resume | Outside (f : Z -> Z) (g : server A -> server A).

Definition event_law (e : event) : Prop :=
  match e with
  | Readable read => read_law read
  | Resume => True
  | Outside f g => (forall x, has x CLIENT_CLOSE_AFTER_REPLY = true -> has (f x) CLIENT_CLOSE_AFTER_REPLY = true) /\
      (forall s, client_max_querybuf_len (g s) = client_max_querybuf_len s)
  end.

Definition run_event (c : client) (s : server A) (e : event) : option (option client * server A) :=
  match e with
  | Readable read => readQueryFromClient processCommand read c s
  | Resume => processInputBuffer processCommand c s
  | Outside f g => Some (Some (set_flags c (f (c_flags c))), g s)
  end.

Fixpoint run_events (c : client) (s : server A) (es : list event) : option (option client * server A) :=
  match es with
  | [] => Some (Some c, s)
  | e :: es =>
    r ← run_event c s e;
    match r with (Some c, s) => run_events c s es | (None, s) => Some (None, s) end
  end.

Lemma run_event_safe c s l e : parser_inv c l -> Zlen l <= 2 ^ 30 -> event_law e -> client_max_querybuf_len s <= 2 ^ 30 ->
  exists oc s', run_event c s e = Some (oc, s') /\ client_max_querybuf_len s' = client_max_querybuf_len s /\
    (forall c', oc = Some c' -> exists l', parser_inv c' l' /\ Zlen l' <= 2 ^ 30).
Proof.
  intros Hinv Hl He Hmax. destruct e as [read| |f g]; cbn [run_event].
  - by eapply readQueryFromClient_safe.
  - unfold processInputBuffer, sdslen. rewrite (ok_len _ _ (pi_buf _ _ Hinv)).
    destruct (input_loop_safe (S (S (Z.to_nat (Zlen l)))) c (set_current s true) l Hinv) as (oc & s' & -> & Hk1 & Hk2); [lia..|].
    cbn [mbind option_bind]. eexists _, _. split; [done|]. split; [done|]. intros c' Hc'.
    destruct (Hk2 c' Hc') as (l' & ? & ?). exists l'. split; [done|lia].
  - eexists _, _. split; [done|]. destruct He as [Hf Hg]. split; [apply Hg|]. intros ? [= <-]. exists l. split; [|done].
    apply set_flags_inv; [done|]. apply Hf.
Qed.

Lemma run_events_safe es : forall c s l, parser_inv c l -> Zlen l <= 2 ^ 30 -> Forall event_law es ->
  client_max_querybuf_len s <= 2 ^ 30 ->
  exists oc s', run_events c s es = Some (oc, s') /\ (forall c', oc = Some c' -> exists l', parser_inv c' l' /\ Zlen l' <= 2 ^ 30).
Proof.
  induction es as [|e es IH]; intros c s l Hinv Hl Hes Hmax; cbn [run_events].
  { eexists _, _. split; [done|]. intros ? [= <-]. by exists l. }
  inversion_clear Hes as [|? ? He Hes'].
  destruct (run_event_safe c s l e Hinv Hl He Hmax) as (oc & s' & -> & Hmax' & Hc'). cbn [mbind option_bind].
  destruct oc as [c'|]; [|by eexists _, _]. destruct (Hc' c' eq_refl) as (l' & Hinv' & Hl').
  apply (IH c' s' l'); try done. lia.
Qed.

End Safe.

Arguments Readable {A}.
Arguments Resume {A}.
Arguments Outside {A}.
