(* ===== verification/RequestStream.v ===== *)
(** The request parser on well-formed streams.

    A stream of requests in the protocol is cut into portions by the network,
    and [readQueryFromClient] itself limits what it asks for.  The lemmas below
    follow the parser through a stream: however it is cut, each request is
    executed once, in order, as soon as its last byte is read. *)

From S2P Require Import Prelude Sds SdsText Util Request RequestSpec RequestSafe.

(** ** The protocol *)

Definition crlf : list Z := [13; 10].

Definition bulk (a : list Z) : list Z := 36 :: sdec (Zlen a) ++ crlf ++ a ++ crlf.

Definition bulks (args : list (list Z)) : list Z := concat (bulk <$> args).

Inductive request := Multi (args : list (list Z)) | Inline (line : list Z).

Definition encode (r : request) : list Z :=
  match r with
  | Multi args => 42 :: sdec (Zlen args) ++ crlf ++ bulks args
  | Inline line => line ++ crlf
  end.

Definition encodes (rs : list request) : list Z := concat (encode <$> rs).

Definition arg_ok (a : list Z) : Prop := Forall is_byte a /\ Zlen a <= 512 * 1024 * 1024.

(** An inline line has no newline or zero byte, balanced quotes, and fits the
    limit with one more portion behind it. *)
Definition request_ok (r : request) : Prop :=
  match r with
  | Multi args => Forall arg_ok args /\ Zlen args <= 1024 * 1024
  | Inline line => Forall is_byte line /\ 0 ∉ line /\ 10 ∉ line /\ head line <> Some 42 /\ arguments line <> None /\
      Zlen line + 2 <= PROTO_INLINE_MAX_SIZE - PROTO_IOBUF_LEN
  end.

Definition command (r : request) : list (list Z) :=
  match r with
  | Multi args => args
  | Inline line => filter (fun a => a <> []) (default [] (arguments line))
  end.

(** Empty requests are not executed. *)
Definition commands (rs : list request) : list (list (list Z)) := filter (fun c => c <> []) (command <$> rs).

Lemma commands_cons r rs : commands (r :: rs) = (if decide (command r = []) then [] else [command r]) ++ commands rs.
Proof. unfold commands. change (command <$> r :: rs) with (command r :: (command <$> rs)). rewrite filter_cons. by destruct (decide (command r = [])), (decide (command r <> [])). Qed.

Definition kind (r : request) : Z := match r with Multi _ => PROTO_REQ_MULTIBULK | Inline _ => PROTO_REQ_INLINE end.

(** ** Length lines *)

Lemma sdec_digits n : 0 <= n -> Forall is_digit (sdec n).
Proof.
  intros Hn. unfold sdec. destruct (Z.ltb_spec n 0); [lia|]. destruct (udec_canonical n Hn) as [[Hd _] _]. exact Hd.
Qed.

Lemma sdec_length20 n : 0 <= n < 2 ^ 64 -> 1 <= Zlen (sdec n) <= 20.
Proof. intros Hn. unfold sdec. destruct (Z.ltb_spec n 0); [lia|]. by apply udec_length_bound. Qed.

Lemma sdec_plain x n ch : 0 <= n -> ch <> x -> ~ is_digit ch -> ch ∉ x :: sdec n.
Proof.
  intros Hn Hx Hch. rewrite elem_of_cons. intros [E|E]; [done|]. apply Hch.
  by apply (proj1 (Forall_forall _ _) (sdec_digits n Hn)).
Qed.

(** Two ways to split a stream. *)
Lemma split_stream (d fut a tail : list Z) : d ++ fut = a ++ tail ->
  (exists d', d = a ++ d' /\ tail = d' ++ fut) \/ (exists r, a = d ++ r /\ r <> [] /\ fut = r ++ tail).
Proof.
  intros E. destruct (app_eq_inv _ _ _ _ E) as [(k & E1 & E2)|(k & E1 & E2)]; [left; by exists k|].
  destruct k as [|x k]; [left; exists []|right; by exists (x :: k)].
  rewrite app_nil_r in *. simpl in E2. by subst.
Qed.

(** A length line either is complete, and is found, or is not, and no end of
    line is. *)
Lemma length_line_split x n d fut tail : x = 36 \/ x = 42 -> 0 <= n -> d ++ fut = x :: sdec n ++ crlf ++ tail ->
  (exists d', d = x :: sdec n ++ crlf ++ d' /\ d' ++ fut = tail /\ find_chr 13 d = Some (S (length (sdec n)))) \/
  (Zlen d < Zlen (sdec n) + 3 /\ (exists r, x :: sdec n ++ crlf = d ++ r /\ fut = r ++ tail) /\
   match find_chr 13 d with None => True | Some k => (Z.of_nat k >? Zlen d - 2) = true end).
Proof.
  intros Hx Hn E.
  assert (13 ∉ x :: sdec n) as H13 by (apply sdec_plain; unfold is_digit; lia).
  assert (0 ∉ x :: sdec n) as H0 by (apply sdec_plain; unfold is_digit; lia).
  set (h := x :: sdec n) in *. change (x :: sdec n ++ crlf ++ tail) with (h ++ crlf ++ tail) in E.
  rewrite app_assoc in E. destruct (split_stream _ _ _ _ E) as [(d' & -> & ->)|(r & Er & Hr & ->)].
  - left. exists d'. rewrite <- app_assoc. split; [done|]. split; [done|]. exact (find_chr_app 13 h _ H13 H0).
  - right. assert (Zlen d < Zlen (sdec n) + 3) as Hlt.
    { apply (f_equal length) in Er. rewrite !length_app in Er. subst h. cbn in Er. destruct r; [done|]. cbn in Er. lia. }
    split; [done|]. split; [by exists r|].
    destruct (split_stream d r h crlf (eq_sym Er)) as [(d' & -> & E')|(r' & E' & _ & _)].
    2: { rewrite find_chr_none; [done|]. rewrite E' in H13. intros Hin. apply H13. apply elem_of_app. by left. }
    destruct d' as [|y [|z d']].
    + rewrite app_nil_r. by rewrite find_chr_none.
    + injection E' as <- _. rewrite find_chr_app by done. rewrite length_app. cbn [length]. rewrite Z.gtb_ltb. apply Z.ltb_lt. lia.
    + injection E' as <- <- E'. by destruct d', r.
Qed.

(** ** The loop of [processMultibulkBuffer] *)

(** The bytes still to come of the arguments [left]; the length of the first
    may have been read. *)
Definition bulk_todo (c : client) (left : list (list Z)) (todo : list Z) : Prop :=
  (c_bulklen c = -1 /\ todo = bulks left) \/
  (exists a left', left = a :: left' /\ c_bulklen c = Zlen a /\ todo = a ++ crlf ++ bulks left').

(** A buffer that does not exceed what is accepted for a line, or holds just
    a part of a big argument. *)
Definition fits (c : client) (l : list Z) (pos : Z) : Prop :=
  Zlen l <= PROTO_INLINE_MAX_SIZE \/ (pos = 0 /\ PROTO_MBULK_BIG_ARG <= c_bulklen c /\ Zlen l <= c_bulklen c + 2).

(** The unused bytes of an incomplete request leave room for a portion. *)
Definition stuck (c : client) (d : list Z) : Prop :=
  (c_bulklen c < PROTO_MBULK_BIG_ARG /\ Zlen d < PROTO_INLINE_MAX_SIZE - PROTO_IOBUF_LEN) \/
  (PROTO_MBULK_BIG_ARG <= c_bulklen c /\ Zlen d < c_bulklen c + 2).

Definition quiet (c c' : client) : Prop := c_flags c' = c_flags c /\ c_reply c' = c_reply c.

Definition arguments_result (c : client) (left : list (list Z)) (d todo : list Z) (c' : client) (d' : list Z) : Prop :=
  quiet c c' /\
  ((d = todo ++ d' /\ c_argv c' = c_argv c ++ left /\ c_multibulklen c' = 0) \/
   (exists x todo' left', d = x ++ d' /\ todo = x ++ todo' /\ Zlen d' < Zlen todo' /\ c_argv c' ++ left' = c_argv c ++ left /\
      left' <> [] /\ c_multibulklen c' = Zlen left' /\ bulk_todo c' left' todo' /\ stuck c' d')).

Lemma arguments_result_step c c1 done left d d1 todo todo1 y c' d' :
  arguments_result c1 left d1 todo1 c' d' -> quiet c c1 -> c_argv c1 = c_argv c ++ done -> d = y ++ d1 -> todo = y ++ todo1 ->
  arguments_result c (done ++ left) d todo c' d'.
Proof.
  intros [[Q1 Q2] H] [Q3 Q4] Ea -> ->. split; [split; congruence|]. rewrite Ea in H.
  destruct H as [(-> & H1 & H2)|(x & todo' & left' & -> & -> & H1 & H2 & H3)].
  - left. split; [by rewrite app_assoc|]. split; [by rewrite H1, <- app_assoc|done].
  - right. exists (y ++ x), todo', left'. rewrite <- !app_assoc in *. done.
Qed.

(** The length of an argument. *)
Lemma read_bulklen_stream c l pos d a fut tail : at_pos (c_querybuf c) l pos d -> Zlen l <= PROTO_INLINE_MAX_SIZE ->
  arg_ok a -> d ++ fut = bulk a ++ tail ->
  (exists q l' pos' y d', read_bulklen c pos = Some (Next (set_request (set_querybuf c q) (c_reqtype c) (c_multibulklen c) (Zlen a)) pos') /\
     at_pos q l' pos' d' /\ Zlen l' <= Zlen l /\ d = y ++ d' /\ bulk a = y ++ a ++ crlf) \/
  (read_bulklen c pos = Some (Break c pos) /\ Zlen d < 24 /\ Zlen d < Zlen (bulk a)).
Proof.
  intros Hat Hl [Ha Hlen] E. destruct (read_bulklen_content c l pos d Hat) as (r & Er & H).
  assert (bulk a ++ tail = 36 :: sdec (Zlen a) ++ crlf ++ ((a ++ crlf) ++ tail)) as Eb
    by (unfold bulk; by rewrite <- app_comm_cons, <- !app_assoc). rewrite Eb in E.
  destruct (length_line_split 36 (Zlen a) d fut _ ltac:(auto) ltac:(lia) E) as [(d' & Ed & Ef & Hk)|(Hlt & _ & Hk)].
  - left. rewrite Hk in H. set (n := sdec (Zlen a)) in *.
    assert ((Z.of_nat (S (length n)) >? Zlen d - 2) = false) as E1.
    { rewrite Z.gtb_ltb. apply Z.ltb_ge. rewrite Ed. cbn [length]. rewrite !length_app. cbn. lia. }
    rewrite E1 in H. assert (take (S (length n) - 1) (drop 1 d) = n) as E2.
    { rewrite Ed. cbn [drop]. replace (S (length n) - 1)%nat with (length n) by lia. by rewrite drop_0, take_app_length. }
    rewrite E2 in H. subst n. rewrite number_sdec in H by (unfold_limits; lia).
    assert (default 0 (head d) = 36) as E3 by (by rewrite Ed). rewrite E3 in H. change (negb (36 =? 36)) with false in H. cbv iota in H.
    destruct (Z.ltb_spec (Zlen a) 0); [lia|]. rewrite Z.gtb_ltb in H. destruct (Z.ltb_spec (512 * 1024 * 1024) (Zlen a)); [lia|].
    cbn [orb] in H. destruct H as (q & l' & pos' & -> & Hat' & Hl' & _).
    exists q, l', pos', (36 :: sdec (Zlen a) ++ crlf), d'. split; [done|]. split; [|split; [done|]].
    + assert (drop (S (length (sdec (Zlen a))) + 2) d = d') as <-; [|done]. rewrite Ed.
      replace (S (length (sdec (Zlen a))) + 2)%nat with (length (36 :: sdec (Zlen a) ++ crlf))
        by (cbn [length]; rewrite length_app; cbn; lia).
      replace (36 :: sdec (Zlen a) ++ crlf ++ d') with ((36 :: sdec (Zlen a) ++ crlf) ++ d') by (by rewrite <- app_comm_cons, <- app_assoc).
      apply drop_app_length.
    + unfold bulk. rewrite Ed. by rewrite <- !app_comm_cons, <- !app_assoc.
  - right. pose proof (sdec_length20 (Zlen a) ltac:(lia)). split; [|split; [lia|]].
    + rewrite Er. f_equal. destruct (find_chr 13 d) as [k|]; [by rewrite Hk in H|].
      rewrite Z.gtb_ltb in H. destruct (Z.ltb_spec PROTO_INLINE_MAX_SIZE (Zlen l)); [lia|done].
    + unfold bulk. cbn [length]. rewrite !length_app. cbn. lia.
Qed.

Lemma bulks_cons a left : bulks (a :: left) = bulk a ++ bulks left.
Proof. done. Qed.

(** An argument whose length is known. *)
Lemma read_bulk_stream c l pos d a fut tail : at_pos (c_querybuf c) l pos d -> fits c l pos -> c_bulklen c = Zlen a -> arg_ok a ->
  c_argc c < c_argv_size c -> d ++ fut = (a ++ crlf) ++ tail ->
  (exists q l' pos' d', read_bulk c pos = Some (Next (set_request (set_argv (set_querybuf c q) (c_argv c ++ [a])
      (c_argv_size c) (c_cmd c)) (c_reqtype c) (c_multibulklen c - 1) (-1)) pos') /\
     at_pos q l' pos' d' /\ Zlen l' <= PROTO_INLINE_MAX_SIZE /\ d = (a ++ crlf) ++ d') \/
  (read_bulk c pos = Some (Break c pos) /\ Zlen d < Zlen (a ++ crlf) /\ stuck c d).
Proof.
  intros Hat Hfit Hb [Ha Hlen] Hargs E. destruct (read_bulk_content c l pos d Hat ltac:(lia) Hargs) as (r & Er & H).
  rewrite Hb in H. assert (Zlen (a ++ crlf) = Zlen a + 2) as El by (rewrite length_app; cbn; lia).
  destruct (Z.ltb_spec (Zlen d) (Zlen a + 2)) as [Hlt|Hge].
  - right. subst r. split; [done|]. split; [lia|]. unfold stuck, PROTO_MBULK_BIG_ARG, PROTO_INLINE_MAX_SIZE, PROTO_IOBUF_LEN. lia.
  - left. destruct (split_stream _ _ _ _ E) as [(d' & Ed & _)|(r' & Ed & Hr & _)].
    2: { exfalso. apply (f_equal length) in Ed. rewrite !length_app in Ed. destruct r'; [done|]. cbn in Ed. lia. }
    destruct H as (q & l' & pos' & -> & Hat' & Hl' & Hnil). exists q, l', pos', d'.
    assert (take (Z.to_nat (Zlen a)) d = a) as E1 by (rewrite Ed, <- app_assoc, Nat2Z.id; apply take_app_length).
    assert (drop (Z.to_nat (Zlen a + 2)) d = d') as E2.
    { rewrite Ed. replace (Z.to_nat (Zlen a + 2)) with (length (a ++ crlf)) by lia. apply drop_app_length. }
    rewrite E1 in Er. rewrite E2 in Hat'. split; [done|]. split; [done|]. split; [|done].
    destruct Hfit as [|(-> & Hbig & Hle)]; [lia|]. rewrite Hnil; [done|done|lia|].
    destruct Hat as (_ & _ & _ & Hd). rewrite drop_0 in Hd. subst d. lia.
Qed.

(** What the loop does from a state with enough fuel. *)
Definition loop_stream (fuel : nat) : Prop := forall c l pos d left todo fut tail, at_pos (c_querybuf c) l pos d -> loop_inv c ->
  fits c l pos -> c_multibulklen c = Zlen left -> Forall arg_ok left -> bulk_todo c left todo -> d ++ fut = todo ++ tail ->
  Zlen d < Z.of_nat fuel ->
  exists c' pos' l' d', multibulk_loop fuel c pos = Some (Break c' pos') /\ at_pos (c_querybuf c') l' pos' d' /\
    arguments_result c left d todo c' d'.

(** An iteration from the point where the length of the argument is known. *)
Lemma known_argument_stream fuel c c1 l1 pos1 a left y d1 fut tail : loop_stream fuel -> at_pos (c_querybuf c1) l1 pos1 d1 ->
  loop_inv c1 -> fits c1 l1 pos1 -> quiet c c1 -> c_argv c1 = c_argv c -> c_multibulklen c1 = Zlen (a :: left) ->
  c_bulklen c1 = Zlen a -> Forall arg_ok (a :: left) -> d1 ++ fut = (a ++ crlf) ++ bulks left ++ tail -> Zlen d1 < Z.of_nat (S fuel) ->
  exists c' pos' l' d', (r ← read_bulk c1 pos1; match r with Next c pos => multibulk_loop fuel c pos | r => Some r end)
    = Some (Break c' pos') /\ at_pos (c_querybuf c') l' pos' d' /\
    arguments_result c (a :: left) (y ++ d1) (y ++ (a ++ crlf) ++ bulks left) c' d'.
Proof.
  intros IH Hat Hinv Hfit HQ Ea Em Eb Hargs E Hf. inversion_clear Hargs as [|? ? Ha Hleft].
  pose proof Hinv as [HA HB HC HD]. cbn [length] in Em.
  destruct (read_bulk_stream c1 l1 pos1 d1 a fut (bulks left ++ tail) Hat Hfit Eb Ha ltac:(lia) E)
    as [(q & l2 & pos2 & d2 & -> & Hat2 & Hl2 & ->)|(-> & Hlt & Hst)]; cbn [mbind option_bind].
  - set (c2 := set_request _ _ _ _). rewrite <- app_assoc in E. apply app_inv_head in E.
    destruct (IH c2 l2 pos2 d2 left (bulks left) fut tail Hat2) as (c' & pos' & l' & d' & -> & Hat' & Hres); try done; try (by left).
    + split; cbn; (done || lia || (by left) || (unfold c_argc in *; cbn; rewrite length_app; cbn [length]; lia)).
    + cbn. lia.
    + rewrite !length_app in Hf. cbn in Hf. lia.
    + exists c', pos', l', d'. split; [done|]. split; [done|].
      apply (arguments_result_step c c2 [a] left _ d2 _ (bulks left) (y ++ a ++ crlf) c' d' Hres); [done|by cbn; rewrite Ea|..];
        by rewrite <- !app_assoc.
  - exists c1, pos1, l1, d1. split; [done|]. split; [done|]. split; [done|]. right.
    exists y, ((a ++ crlf) ++ bulks left), (a :: left). split; [done|]. split; [done|]. split; [rewrite length_app; lia|].
    split; [by rewrite Ea|]. split; [done|]. split; [cbn [length]; lia|]. split; [|done].
    right. exists a, left. by rewrite <- app_assoc.
Qed.

Lemma multibulk_loop_stream fuel : loop_stream fuel.
Proof.
  induction fuel as [|fuel IH]; intros c l pos d left todo fut tail Hat Hinv Hfit Hm Hargs Htodo E Hf; [lia|].
  cbn [multibulk_loop]. destruct left as [|a left].
  { rewrite Hm. exists c, pos, l, d. split; [done|]. split; [done|]. split; [done|]. left.
    destruct Htodo as [[_ ->]|(? & ? & ? & _)]; [|done]. rewrite app_nil_r. done. }
  pose proof Hargs as Hargs'. inversion_clear Hargs' as [|? ? Ha _]. destruct (Z.eqb_spec (c_multibulklen c) 0) as [H0|_]; [cbn in Hm; lia|].
  destruct Htodo as [[Hb ->]|(a' & left' & [= <- <-] & Hb & ->)].
  - rewrite Hb. change (-1 =? -1) with true. cbv iota. rewrite bulks_cons in *.
    assert (Zlen l <= PROTO_INLINE_MAX_SIZE) as Hl by (destruct Hfit as [|(_ & H & _)]; [done|unfold PROTO_MBULK_BIG_ARG in H; lia]).
    rewrite <- app_assoc in E.
    destruct (read_bulklen_stream c l pos d a fut (bulks left ++ tail) Hat Hl Ha E)
      as [(q & l1 & pos1 & y & d1 & -> & Hat1 & Hl1 & -> & Eb)|(-> & Hlt & Hlt2)]; cbn [mbind option_bind].
    + rewrite Eb, <- !app_assoc in *. apply app_inv_head in E. rewrite (app_assoc a crlf). rewrite length_app in Hf.
      apply (known_argument_stream fuel c _ l1 pos1 a left y d1 fut tail IH); try done; [|left; lia|by rewrite <- app_assoc|lia].
      destruct Hinv as [HA HB HC HD]. destruct Ha as [_ Ha]. split; cbn; (done || lia || (cbn in Hm; lia)).
    + exists c, pos, l, d. split; [done|]. split; [done|]. split; [done|]. right. exists [], (bulk a ++ bulks left), (a :: left).
      split; [done|]. split; [done|]. split; [rewrite length_app; lia|]. split; [done|]. split; [done|]. split; [done|].
      split; [by left|]. left. unfold PROTO_MBULK_BIG_ARG, PROTO_INLINE_MAX_SIZE, PROTO_IOBUF_LEN. lia.
  - destruct (Z.eqb_spec (c_bulklen c) (-1)); [lia|]. cbn [mbind option_bind]. rewrite app_assoc in *.
    apply (known_argument_stream fuel c c l pos a left [] d fut tail IH); try done. by rewrite <- app_assoc in E.
Qed.

(** ** One request *)

(** The parser is in the middle of [r], of which the bytes [todo] are not yet
    consumed. *)
Definition expects (c : client) (r : request) (todo : list Z) : Prop :=
  (c_multibulklen c = 0 /\ c_bulklen c = -1 /\ c_argv c = [] /\ (c_reqtype c = 0 \/ c_reqtype c = kind r) /\ todo = encode r) \/
  (exists left p, r = Multi (c_argv c ++ left) /\ c_reqtype c = PROTO_REQ_MULTIBULK /\ left <> [] /\
     c_multibulklen c = Zlen left /\ bulk_todo c left todo /\ encode r = p ++ todo).

Definition request_stream (c : client) (r : request) (l todo : list Z) (c' : client) (ok : bool) : Prop :=
  quiet c c' /\ exists l', sds_ok (c_querybuf c') l' /\
  if ok then l = todo ++ l' /\ c_argv c' = command r
  else exists x todo', l = x ++ l' /\ todo = x ++ todo' /\ expects c' r todo' /\ Zlen l' < Zlen todo' /\ stuck c' l'.

(** The loop of a request whose arguments [left] are missing, and the trimming
    of the buffer behind it. *)
Lemma multibulk_rest_stream c c1 l pos d left todo args p y fut tail : at_pos (c_querybuf c1) l pos d -> loop_inv c1 -> fits c1 l pos ->
  c_multibulklen c1 = Zlen left -> left <> [] -> Forall arg_ok left -> bulk_todo c1 left todo -> d ++ fut = todo ++ tail ->
  c_argv c1 ++ left = args -> encode (Multi args) = p ++ todo -> quiet c c1 ->
  exists c' ok,
    (if negb (c_multibulklen c1 >? 0) then None else
     r ← multibulk_loop (S (Z.to_nat (sdslen (c_querybuf c1)))) c1 pos;
     match r with
     | Return c ok => Some (c, ok)
     | Break c pos | Next c pos =>
       c ← (if negb (pos =? 0) then trim_querybuf c pos else Some c);
       Some (c, c_multibulklen c =? 0)
     end) = Some (c', ok) /\ request_stream c (Multi args) (y ++ d) (y ++ todo) c' ok.
Proof.
  intros Hat Hinv Hfit Hm Hne Hargs Htodo E Ea Ep HQ. pose proof Hat as (Hok & Hl & Hp & Hd).
  rewrite Z.gtb_ltb. destruct (Z.ltb_spec 0 (c_multibulklen c1)) as [_|H0]; [|rewrite Hm in H0; destruct left; [done|cbn in H0; lia]].
  cbn [negb]. unfold sdslen. rewrite (ok_len _ _ Hok). assert (Zlen d <= Zlen l) as Hdl by (rewrite <- Hd, length_drop; lia).
  destruct (multibulk_loop_stream (S (Z.to_nat (Zlen l))) c1 l pos d left todo fut tail Hat Hinv Hfit Hm Hargs Htodo E ltac:(lia))
    as (c2 & pos2 & l2 & d2 & E2 & Hat2 & Hres).
  destruct (multibulk_loop_safe (S (Z.to_nat (Zlen l))) c1 l pos d Hat Hinv ltac:(lia)) as (r & E3 & Hsafe).
  rewrite E2 in E3. injection E3 as <-. rewrite E2. cbn [mbind option_bind]. clear E2.
  destruct Hsafe as (_ & _ & _ & _ & Hinv2 & _).
  destruct (trim_at_pos c2 l2 pos2 d2 Hat2) as (q & -> & Hq).
  cbn [mbind option_bind]. eexists _, _. split; [done|]. destruct Hres as [[Q1 Q2] Hres], HQ as [Q3 Q4].
  split; [split; cbn; congruence|]. exists d2. split; [done|]. cbn.
  destruct Hres as [(-> & Hargv & ->)|(x & todo' & left' & -> & -> & Hlt & Hargv & Hne' & Hm2 & Hbt & Hst)].
  - change (0 =? 0) with true. cbv iota. split; [by rewrite app_assoc|]. by rewrite Hargv.
  - destruct (Z.eqb_spec (c_multibulklen c2) 0) as [H0|_]; [destruct left'; [done|cbn in *; lia]|].
    exists (y ++ x), todo'. rewrite <- !app_assoc. split_and!; try done. right. exists left', (p ++ x).
    rewrite <- app_assoc. cbn. rewrite Hargv, Ea. destruct Hinv2 as [HA _ _ _]. done.
Qed.

Lemma fits_length c l pos : fits c l pos -> c_bulklen c <= 512 * 1024 * 1024 -> Zlen l <= 512 * 1024 * 1024 + 2.
Proof. unfold fits, PROTO_INLINE_MAX_SIZE. lia. Qed.

(** The number of arguments. *)
Lemma read_multibulklen_stream c l args fut tail : sds_ok (c_querybuf c) l -> Zlen l <= PROTO_INLINE_MAX_SIZE -> c_argv c = [] ->
  head l = Some 42 -> Zlen args <= 1024 * 1024 -> l ++ fut = encode (Multi args) ++ tail ->
  (exists h d r, encode (Multi args) = h ++ bulks args /\ l = h ++ d /\ read_multibulklen c = Some r /\
     if Zlen args <=? 0 then exists q, r = Return (set_querybuf c q) true /\ sds_ok q d
     else r = Next (set_argv (set_request c (c_reqtype c) (Zlen args) (c_bulklen c)) [] (Zlen args) (c_cmd c)) (Zlen h)) \/
  (read_multibulklen c = Some (Return c false) /\ Zlen l < 24 /\ Zlen l < Zlen (encode (Multi args))).
Proof.
  intros Hok Hmax Hargv Hhd Hcount E. unfold PROTO_INLINE_MAX_SIZE in Hmax.
  destruct (read_multibulklen_content c l Hok ltac:(lia) Hargv Hhd) as (r & Er & H). set (n := sdec (Zlen args)).
  set (h := 42 :: n ++ crlf). assert (length h = S (length n) + 2)%nat as Hh by (subst h; cbn [length]; rewrite length_app; cbn; lia).
  assert (forall z, 42 :: n ++ crlf ++ z = h ++ z) as Eh by (intros z; subst h; by rewrite <- app_comm_cons, <- app_assoc).
  cbn [encode] in *. fold n in E |- *. rewrite Eh, <- app_assoc in E. rewrite <- Eh in E.
  destruct (length_line_split 42 (Zlen args) l fut _ ltac:(auto) ltac:(lia) E) as [(d & Ed & Ef & Hk)|(Hlt & _ & Hk)].
  - fold n in Ed, Hk. left. exists h, d, r. split; [apply Eh|]. split; [by rewrite Ed, Eh|]. split; [done|].
    rewrite Hk in H. assert ((Z.of_nat (S (length n)) >? Zlen l - 2) = false) as E1.
    { rewrite Z.gtb_ltb. apply Z.ltb_ge. rewrite Ed, Eh, length_app, Hh. lia. }
    assert (take (S (length n) - 1) (drop 1 l) = n) as E2.
    { rewrite Ed. cbn [drop]. replace (S (length n) - 1)%nat with (length n) by lia. by rewrite drop_0, take_app_length. }
    subst n. rewrite E1, E2, number_sdec in H by (unfold_limits; lia). rewrite Z.gtb_ltb in H.
    destruct (Z.ltb_spec (1024 * 1024) (Zlen args)); [lia|]. rewrite Eh in Ed. rewrite <- Hh in H.
    by rewrite Ed, drop_app_length in H.
  - right. pose proof (sdec_length20 (Zlen args) ltac:(lia)) as Hn. fold n in Hn, Hlt. split; [|split; [lia|]].
    + rewrite Er. f_equal. destruct (find_chr 13 l) as [k|]; [by rewrite Hk in H|].
      rewrite Z.gtb_ltb in H. unfold PROTO_INLINE_MAX_SIZE in H. destruct (Z.ltb_spec (1024 * 64) (Zlen l)); [lia|done].
    + rewrite Eh, length_app, Hh. lia.
Qed.

Lemma processMultibulkBuffer_stream c l args todo fut tail : parser_inv c l -> expects c (Multi args) todo ->
  c_reqtype c = PROTO_REQ_MULTIBULK -> request_ok (Multi args) -> closing c = false -> fits c l 0 ->
  l ++ fut = todo ++ tail ->
  exists c' ok, processMultibulkBuffer c = Some (c', ok) /\ request_stream c (Multi args) l todo c' ok.
Proof.
  intros Hinv Hexp Ht [Hargs Hcount] Hcl Hfit E. pose proof Hinv as [Hok _ _ Hprog _ _ Hidle]. unfold processMultibulkBuffer.
  destruct Hexp as [(Hm & Hb & Hargv & _ & ->)|(left & p & [= ->] & _ & Hl & Hm & Htodo & Ep)].
  2: { assert (0 < c_multibulklen c) as Hpos by (destruct left; [done|cbn in *; lia]). specialize (Hprog Hpos).
    assert (c_bulklen c <= 512 * 1024 * 1024) as Hbl by (destruct Hprog as [_ _ _ ?]; lia).
    pose proof (fits_length c l 0 Hfit Hbl) as Hlen. destruct (Z.eqb_spec (c_multibulklen c) 0); [lia|]. cbn [mbind option_bind].
    apply (multibulk_rest_stream c c l 0 l left todo _ p [] fut tail); auto; [by apply at_pos_0; [|lia]| |done].
    by apply Forall_app in Hargs as [_ ?]. }
  rewrite Hm. change (0 =? 0) with true. cbv iota. destruct (Hidle Hcl Hm) as [_ Hstar].
  assert (Zlen l <= PROTO_INLINE_MAX_SIZE) as Hmax by (destruct Hfit as [|(_ & Hx & _)]; [done|unfold PROTO_MBULK_BIG_ARG in Hx; lia]).
  destruct (read_multibulklen_stream c l args fut tail Hok Hmax Hargv (Hstar Ht) Hcount E)
    as [(h & d & r & Eh & El & -> & H)|(-> & Hlt & Hlt2)]; cbn [mbind option_bind].
  2: { exists c, false. split; [done|]. split; [done|]. exists l. split; [done|]. exists [], (encode (Multi args)).
    split; [done|]. split; [done|]. split; [left; split_and!; auto|]. split; [done|].
    left. unfold PROTO_MBULK_BIG_ARG, PROTO_INLINE_MAX_SIZE, PROTO_IOBUF_LEN. lia. }
  unfold PROTO_INLINE_MAX_SIZE in Hmax. rewrite Eh, El in *. rewrite length_app in Hmax.
  destruct (Z.leb_spec (Zlen args) 0) as [Hz|Hz].
  - destruct H as (q & -> & Hq). eexists _, _. split; [done|]. split; [done|]. exists d. split; [done|].
    destruct args; [|cbn in Hz; lia]. split; [|done]. by rewrite <- app_assoc.
  - subst r. rewrite <- !app_assoc in E. apply app_inv_head in E.
    apply (multibulk_rest_stream c _ (h ++ d) (Zlen h) d args (bulks args) args h h fut tail); try done; try (by left).
    + split_and!; try done; rewrite ?length_app; try lia. rewrite Nat2Z.id. apply drop_app_length.
    + split; cbn; (done || lia || by left).
    + left. unfold PROTO_INLINE_MAX_SIZE. rewrite length_app. lia.
    + destruct args; [cbn in Hz; lia|done].
Qed.

Lemma processInlineBuffer_stream {A} c (s : server A) l line fut tail : sds_ok (c_querybuf c) l -> expects c (Inline line) (encode (Inline line)) ->
  request_ok (Inline line) -> Zlen l <= PROTO_INLINE_MAX_SIZE -> l ++ fut = encode (Inline line) ++ tail ->
  exists c' ok, processInlineBuffer c s = Some (c', ok) /\ request_stream c (Inline line) l (encode (Inline line)) c' ok.
Proof.
  intros Hok Hexp (_ & H0 & H10 & _ & Hsplit & Hlen) Hmax E. cbn [encode] in *. unfold PROTO_INLINE_MAX_SIZE in Hmax.
  destruct (processInlineBuffer_content c s l Hok ltac:(lia)) as (c' & ok & -> & H). exists c', ok. split; [done|].
  assert (10 ∉ line ++ [13] /\ 0 ∉ line ++ [13]) as [Hn10 Hn0] by (rewrite !not_elem_of_app; set_solver).
  destruct (split_stream _ _ _ _ E) as [(l' & El & _)|(r & El & Hr & _)].
  - assert (l = (line ++ [13]) ++ 10 :: l') as El' by (by rewrite El, <- !app_assoc).
    assert (find_chr 10 l = Some (S (length line))) as Hk
      by (rewrite El', find_chr_app by done; rewrite length_app; f_equal; cbn; lia).
    assert (line_length l (S (length line)) = length line) as Hll.
    { cbn [line_length]. rewrite bool_decide_eq_true_2; [done|]. rewrite El, <- app_assoc, lookup_app_r, Nat.sub_diag by lia. done. }
    rewrite Hk, Hll in H. rewrite El, <- app_assoc, take_app_length in H.
    destruct (arguments line) as [args|] eqn:Ea; [|done]. destruct H as (-> & q & t & size & -> & Hq). split; [done|].
    exists l'. split.
    + cbn. rewrite app_assoc in Hq. replace (length line + 2)%nat with (length (line ++ crlf)) in Hq by (rewrite length_app; cbn; lia).
      by rewrite drop_app_length in Hq.
    + split; [done|]. cbn [command c_argv set_argv]. by rewrite Ea.
  - assert (10 ∉ l) as Hn.
    { assert ((line ++ [13]) ++ [10] = l ++ r) as E1 by (rewrite <- El, <- app_assoc; done).
      destruct (split_stream l r (line ++ [13]) [10] (eq_sym E1)) as [(z & -> & Ez)|(z & Ez & _ & _)].
      - destruct z as [|y z]; [by rewrite app_nil_r|]. injection Ez as <- Ez. by destruct z, r.
      - rewrite Ez in Hn10. by apply not_elem_of_app in Hn10 as [? _]. }
    rewrite find_chr_none in H by done. rewrite Z.gtb_ltb in H. unfold PROTO_INLINE_MAX_SIZE in H.
    destruct (Z.ltb_spec (1024 * 64) (Zlen l)); [lia|]. destruct H as [-> ->]. split; [done|]. exists l. split; [done|].
    exists [], (line ++ crlf). split_and!; try done.
    + rewrite El, length_app. destruct r; [done|cbn [length]; lia].
    + destruct Hexp as [(_ & Hb & _)|(? & ? & ? & _)]; [|done]. left. rewrite Hb. split; [done|].
      apply (f_equal length) in El. rewrite !length_app in El. destruct r; [done|]. cbn in El. lia.
Qed.

(** ** Sequences of requests *)

Lemma expects_nonempty c r todo : expects c r todo -> todo <> [].
Proof.
  intros [(_ & _ & _ & _ & ->)|(left & p & _ & _ & Hne & _ & Hb & _)].
  - destruct r as [|line]; [done|]. cbn. by destruct line.
  - destruct Hb as [[_ ->]|(a & left' & _ & _ & ->)]; [by destruct left|by destruct a].
Qed.

(** A request is a suffix of its encoding. *)
Lemma expects_suffix c r todo : expects c r todo -> exists p, encode r = p ++ todo.
Proof. intros [(_ & _ & _ & _ & ->)|(left & p & _ & _ & _ & _ & _ & E)]; [by exists []|by exists p]. Qed.

Definition fresh (c : client) : Prop := c_multibulklen c = 0 /\ c_bulklen c = -1 /\ c_argv c = [] /\ c_reqtype c = 0.

(** The stream of [reqs] consists of the contents [l] and the future [fut];
    [settled] when no request is complete. *)
Definition pending (c : client) (l fut : list Z) (reqs : list request) : Prop :=
  match reqs with
  | [] => l = [] /\ fut = [] /\ fresh c
  | r :: rs => exists todo, expects c r todo /\ l ++ fut = todo ++ encodes rs /\ fits c l 0
  end.

Definition settled (c : client) (l fut : list Z) (reqs : list request) : Prop :=
  match reqs with
  | [] => l = [] /\ fut = [] /\ fresh c
  | r :: rs => exists todo, expects c r todo /\ l ++ fut = todo ++ encodes rs /\ Zlen l < Zlen todo /\ stuck c l
  end.

Lemma fresh_pending c l fut reqs : fresh c -> l ++ fut = encodes reqs -> Zlen l <= PROTO_INLINE_MAX_SIZE -> pending c l fut reqs.
Proof.
  intros Hf E Hl. destruct reqs as [|r rs]; cbn.
  - by apply app_eq_nil in E as [-> ->].
  - exists (encode r). split; [|split; [done|by left]]. destruct Hf as (? & ? & ? & ?). left. split_and!; auto.
Qed.

Lemma pending_nil c fut reqs : pending c [] fut reqs -> settled c [] fut reqs.
Proof.
  destruct reqs as [|r rs]; [done|]. intros (todo & Hexp & E & _). exists todo. split; [done|]. split; [done|].
  split; [apply expects_nonempty in Hexp; destruct todo; [done|cbn; lia]|].
  unfold stuck, PROTO_MBULK_BIG_ARG, PROTO_INLINE_MAX_SIZE, PROTO_IOBUF_LEN. cbn. lia.
Qed.

(** The rest of the buffer behind a complete request. *)
Lemma fits_rest c r l todo l' : expects c r todo -> fits c l 0 -> l = todo ++ l' -> Zlen l' <= PROTO_INLINE_MAX_SIZE.
Proof.
  intros Hexp [Hl|(_ & Hb & Hl)] ->; rewrite length_app in Hl; [lia|].
  destruct Hexp as [(_ & E & _)|(left & p & _ & _ & _ & _ & [[E _]|(a & left' & _ & E & ->)] & _)].
  1-2: rewrite E in Hb; unfold PROTO_MBULK_BIG_ARG in Hb; lia.
  rewrite !length_app in Hl. cbn in Hl. unfold PROTO_INLINE_MAX_SIZE. lia.
Qed.

(** Commands may run: the client is neither blocked nor closing. *)
Definition able (c : client) : Prop := Z.testbit (c_flags c) 4 = false /\ Z.testbit (c_flags c) 6 = false.

(** The effect of commands that complete: [run] changes the state of the
    application, the client's argument vector, command and flags may change,
    but it is not blocked or closed. *)
Class Executes {A} (processCommand : client -> server A -> option (client * server A * bool))
    (run : list (list Z) -> A -> A) : Prop :=
  executes : forall c s, able c -> exists argv size cmd f,
    processCommand c s = Some (set_flags (set_argv c argv size cmd) f, set_app s (run (c_argv c) (app s)), true) /\
    able (set_flags c f).

Lemma able_reset c : able c -> able (resetClient c).
Proof. unfold able. by rewrite !resetClient_flag by lia. Qed.

Lemma reqtype_stream c l r todo fut tail : parser_inv c l -> l <> [] -> request_ok r -> expects c r todo -> l ++ fut = todo ++ tail ->
  exists c', (if c_reqtype c =? 0 then
      x ← load8 (s_buf (c_querybuf c)) 0;
      Some (set_request c (if x =? 42 then PROTO_REQ_MULTIBULK else PROTO_REQ_INLINE) (c_multibulklen c) (c_bulklen c))
    else Some c) = Some c' /\ parser_inv c' l /\ quiet c c' /\ expects c' r todo /\ c_reqtype c' = kind r /\ c_bulklen c' = c_bulklen c.
Proof.
  intros Hinv Hne Hr Hexp E. destruct (reqtype_inv c l Hinv Hne) as (c' & E' & Hinv' & Hf & _). rewrite E'.
  exists c'. split; [done|]. split; [done|]. revert E'. pose proof (pi_buf _ _ Hinv) as Hok.
  destruct (Z.eqb_spec (c_reqtype c) 0) as [Ht|Ht].
  2: { intros [= <-]. split_and!; try done.
       destruct Hexp as [(_ & _ & _ & [?|?] & _)|(left & p & -> & -> & _)]; done. }
  rewrite (load8_content _ l), at_drop by (done || lia). change (drop (Z.to_nat 0) l) with (drop 0 l). rewrite drop_0.
  destruct l as [|x l]; [done|]. cbn [head default from_option id mbind option_bind]. intros [= <-].
  destruct Hexp as [(Hm & Hb & Ha & _ & ->)|(left & p & _ & E0 & _)]; [|by rewrite Ht in E0].
  assert ((if x =? 42 then PROTO_REQ_MULTIBULK else PROTO_REQ_INLINE) = kind r) as ->.
  { destruct r as [args|line]; cbn in E; [by injection E as -> _|]. destruct Hr as (_ & _ & _ & Hh & _). cbn [kind].
    destruct (Z.eqb_spec x 42) as [->|]; [|done]. destruct line as [|y line]; [discriminate E|]. injection E as <- _. done. }
  split_and!; try done. left. cbn. split_and!; auto.
Qed.

Section Stream.
Context {A : Type} (processCommand : client -> server A -> option (client * server A * bool)).
Context (run : list (list Z) -> A -> A) `{!Executes processCommand run}.

Definition run_all (a : A) (cmds : list (list (list Z))) : A := foldl (fun a cmd => run cmd a) a cmds.

(** One request, with the invariant when it is incomplete. *)
Lemma request_step c (s : server A) l r todo fut tail : parser_inv c l -> expects c r todo -> c_reqtype c = kind r -> request_ok r ->
  closing c = false -> l <> [] -> fits c l 0 -> l ++ fut = todo ++ tail ->
  exists c' ok, (if c_reqtype c =? PROTO_REQ_INLINE then processInlineBuffer c s
    else if c_reqtype c =? PROTO_REQ_MULTIBULK then processMultibulkBuffer c else None) = Some (c', ok) /\
    request_stream c r l todo c' ok /\ request_result c l c' ok.
Proof.
  intros Hinv Hexp Ht Hr Hcl Hne Hfit E.
  assert (c_bulklen c <= 512 * 1024 * 1024) as Hbl.
  { destruct (decide (0 < c_multibulklen c)) as [Hm|Hm]; [destruct (pi_progress _ _ Hinv Hm) as [_ _ _ ?]; lia|].
    rewrite (pi_bulk _ _ Hinv); [lia|]. pose proof (pi_count _ _ Hinv). lia. }
  pose proof (fits_length c l 0 Hfit Hbl) as Hlen. destruct r as [args|line]; cbn [kind] in Ht; rewrite Ht.
  - change (PROTO_REQ_MULTIBULK =? PROTO_REQ_INLINE) with false. cbv iota. rewrite Z.eqb_refl.
    destruct (processMultibulkBuffer_stream c l args todo fut tail Hinv Hexp Ht Hr Hcl Hfit E) as (c' & ok & E1 & Hs).
    destruct (processMultibulkBuffer_safe c l Hinv Ht Hcl Hne ltac:(lia)) as (c'' & ok' & E2 & Hres).
    rewrite E1 in E2. injection E2 as <- <-. eauto.
  - rewrite Z.eqb_refl. assert (todo = encode (Inline line) /\ c_bulklen c = -1) as [-> Hb]
      by (destruct Hexp as [(_ & ? & _ & _ & ?)|(? & ? & ? & _)]; done).
    assert (Zlen l <= PROTO_INLINE_MAX_SIZE) as Hmax by (destruct Hfit as [|(_ & Hx & _)]; [done|unfold PROTO_MBULK_BIG_ARG in Hx; lia]).
    destruct (processInlineBuffer_stream c s l line fut tail (pi_buf _ _ Hinv) Hexp Hr Hmax E) as (c' & ok & E1 & Hs).
    destruct (processInlineBuffer_safe c s l Hinv Ht Hcl Hne ltac:(lia)) as (c'' & ok' & E2 & Hres).
    rewrite E1 in E2. injection E2 as <- <-. eauto.
Qed.

(** The result of processing a buffer: the requests [done] were executed. *)
Definition processed (c : client) (s : server A) (fut : list Z) (reqs : list request) (c' : client) (s' : server A) : Prop :=
  exists l' done rest, parser_inv c' l' /\ able c' /\ c_reply c' = c_reply c /\ reqs = done ++ rest /\
    s' = set_app s (run_all (app s) (commands done)) /\ settled c' l' fut rest.

Lemma set_app_id (s : server A) : set_app s (app s) = s.
Proof. by destruct s. Qed.

Lemma input_loop_stream fuel : forall c s l reqs fut, parser_inv c l -> able c -> clients_paused s = false -> current_client s = true ->
  Forall request_ok reqs -> pending c l fut reqs -> Zlen l < Z.of_nat fuel ->
  exists c' s', input_loop processCommand fuel c s = Some (Some c', s') /\ processed c s fut reqs c' s'.
Proof.
  induction fuel as [|fuel IH]; intros c s l reqs fut Hinv Hable Hpause Hcur Hreqs Hpend Hf; [lia|]. cbn [input_loop].
  unfold sdslen. rewrite (ok_len _ _ (pi_buf _ _ Hinv)). destruct (Z.eqb_spec (Zlen l) 0) as [E0|E0].
  { destruct l; [|cbn in E0; lia]. eexists _, _. split; [done|]. exists [], [], reqs. rewrite set_app_id.
    split_and!; try done. by apply pending_nil. }
  assert (l <> []) as Hne by (by intros ->). destruct reqs as [|r rs]; [by destruct Hpend|].
  destruct Hpend as (todo & Hexp & E & Hfit). inversion_clear Hreqs as [|? ? Hr Hrs].
  assert ((if has (c_flags c) CLIENT_SLAVE then (c, s, false) else clientsArePaused c s) = (c, s, false)) as ->.
  { destruct (has _ _); [done|]. unfold clientsArePaused. by rewrite Hpause. }
  unfold CLIENT_BLOCKED, CLIENT_CLOSE_AFTER_REPLY. rewrite !has_bit by lia. destruct Hable as [H4 H6]. rewrite H4, H6.
  destruct (reqtype_stream c l r todo fut _ Hinv Hne Hr Hexp E) as (c1 & -> & Hinv1 & [Q1 Q2] & Hexp1 & Ht1 & Hb1). cbn [mbind option_bind].
  assert (closing c1 = false) as Hcl by (by rewrite closing_bit, Q1).
  destruct (request_step c1 s l r todo fut _ Hinv1 Hexp1 Ht1 Hr Hcl Hne ltac:(unfold fits in *; by rewrite Hb1) E)
    as (c2 & ok & -> & [[Q3 Q4] (l2 & Hok2 & Hs)] & Hres). cbn [mbind option_bind].
  destruct ok; cbn [negb].
  2: { destruct Hs as (x & todo' & -> & -> & Hexp2 & Hlt & Hst). eexists _, _. split; [done|]. exists l2, [], (r :: rs). rewrite set_app_id.
    destruct Hres as (l3 & _ & Hinv3).
    pose proof (sds_ok_inj _ _ _ (pi_buf _ _ Hinv3) Hok2) as ->.
    split_and!; try (done || congruence).
    - unfold able. by rewrite Q3, Q1.
    - exists todo'. rewrite <- !app_assoc in E. apply app_inv_head in E. done. }
  destruct Hs as [El Hargv]. pose proof (fits_rest c r l todo l2 Hexp Hfit El) as Hmax.
  assert (forall c3 a, c_querybuf c3 = c_querybuf c2 -> able c3 -> c_reply c3 = c_reply c2 ->
    a = run_all (app s) (commands [r]) ->
    exists c' s', input_loop processCommand fuel (resetClient c3) (set_app s a) = Some (Some c', s') /\ processed c s fut (r :: rs) c' s') as Hgo.
  { intros c3 a Hq Hable3 Hr3 ->.
    destruct (IH (resetClient c3) (set_app s (run_all (app s) (commands [r]))) l2 rs fut) as (c' & s' & -> & Hp).
    - apply resetClient_inv. by rewrite Hq.
    - by apply able_reset.
    - done.
    - done.
    - done.
    - apply fresh_pending; [done| |done]. rewrite El, <- app_assoc in E. by apply app_inv_head in E.
    - apply expects_nonempty in Hexp. rewrite El, length_app in Hf. destruct todo; [done|cbn [length] in Hf; lia].
    - eexists _, _. split; [done|]. destruct Hp as (l' & dn & rest & P1 & P2 & P3 & -> & -> & P6).
      exists l', (r :: dn), rest. split_and!; try done; [cbn in P3; congruence|].
      rewrite !commands_cons. cbn [app]. unfold run_all. rewrite app_nil_r, foldl_app. done. }
  unfold c_argc. rewrite Hargv. destruct (Z.eqb_spec (Zlen (command r)) 0) as [Ec|Ec].
  - specialize (Hgo c2 (app s)). rewrite set_app_id in Hgo. apply Hgo; [done|unfold able; by rewrite Q3, Q1|done|].
    rewrite commands_cons, decide_True; [done|]. destruct (command r); [done|cbn in Ec; lia].
  - destruct (executes c2 s) as (argv & size & cmd & f & -> & Hf'); [unfold able; by rewrite Q3, Q1|].
    cbn [mbind option_bind current_client set_app]. rewrite Hcur. cbn [negb]. apply Hgo; try done.
    rewrite Hargv, commands_cons, decide_False; [done|]. intros Hx. by rewrite Hx in Ec.
Qed.

(** ** Portions *)

(** The socket holds [stream] and each [read(2)] returns at most the next of
    [ks] bytes. *)
Fixpoint serve (ks : list Z) (c : client) (s : server A) (stream : list Z) : option (client * server A * list Z) :=
  match ks, stream with
  | [], _ | _, [] => Some (c, s, stream)
  | k :: ks, _ =>
    r ← readQueryFromClient processCommand (fun n => ReadBytes (take (Z.to_nat (Z.min k n)) stream)) c s;
    match r with
    | (Some c', s') => serve ks c' s' (drop (Z.to_nat (Z.min k (readlen c))) stream)
    | (None, _) => None
    end
  end.

(** What holds between two portions. *)
Record between (c : client) (s : server A) (fut : list Z) (reqs : list request) : Prop := {
  bt_state : exists l, parser_inv c l /\ settled c l fut reqs;
  bt_able : able c;
  bt_pause : clients_paused s = false;
  bt_max : client_max_querybuf_len s = 1024 * 1024 * 1024;
  bt_ok : Forall request_ok reqs;
  bt_bytes : Forall is_byte fut }.

Lemma stuck_room c l : parser_inv c l -> stuck c l ->
  1 <= readlen c /\ Zlen l <= 2 ^ 30 /\ forall bs, Zlen bs <= readlen c -> fits c (l ++ bs) 0 /\ Zlen (l ++ bs) <= 1024 * 1024 * 1024.
Proof.
  intros Hinv Hst. destruct (readlen_range c l Hinv) as (Hr & Hbig & Hpos).
  assert (c_bulklen c <= 512 * 1024 * 1024) as Hbl.
  { destruct (decide (0 < c_multibulklen c)) as [Hm|Hm]; [destruct (pi_progress _ _ Hinv Hm) as [_ _ _ ?]; lia|].
    rewrite (pi_bulk _ _ Hinv); [lia|]. pose proof (pi_count _ _ Hinv). lia. }
  unfold stuck, fits, PROTO_INLINE_MAX_SIZE, PROTO_IOBUF_LEN in *.
  split; [apply Hpos; destruct Hst as [[]|[]]; auto|]. split; [destruct Hst as [[]|[]]; lia|].
  intros bs Hbs. rewrite length_app. destruct Hst as [[]|[Hb Hlt]]; [lia|]. specialize (Hbig Hb). lia.
Qed.

(** One portion. *)
Lemma read_portion c s fut reqs k : between c s fut reqs -> 1 <= k -> fut <> [] ->
  exists c' s' done rest, readQueryFromClient processCommand (fun n => ReadBytes (take (Z.to_nat (Z.min k n)) fut)) c s = Some (Some c', s') /\
    between c' s' (drop (Z.to_nat (Z.min k (readlen c))) fut) rest /\ reqs = done ++ rest /\
    app s' = run_all (app s) (commands done) /\ c_reply c' = c_reply c /\ 1 <= readlen c.
Proof.
  intros [(l & Hinv & Hset) Hable Hpause Hmax Hok Hbytes] Hk Hne. destruct reqs as [|r rs]; [by destruct Hset as (_ & -> & _)|].
  destruct Hset as (todo & Hexp & E & Hlt & Hst). destruct (stuck_room c l Hinv Hst) as (Hpos & Hl & Hroom).
  set (bs := take (Z.to_nat (Z.min k (readlen c))) fut). set (fut' := drop (Z.to_nat (Z.min k (readlen c))) fut).
  assert (Zlen bs <= readlen c) as Hbs by (subst bs; rewrite length_take; lia). destruct (Hroom bs Hbs) as [Hfit Hlen].
  assert (bs <> []) as Hbne by (subst bs; destruct fut; [done|]; by destruct (Z.to_nat _) eqn:Ez; [lia|]).
  assert (bs ++ fut' = fut) as Ef by apply take_drop. rewrite <- Ef in Hbytes. apply Forall_app in Hbytes as [Hb1 Hb2].
  destruct (readQueryFromClient_bytes processCommand (fun n => ReadBytes (take (Z.to_nat (Z.min k n)) fut)) c s l bs
    Hinv Hl eq_refl Hbne Hbs Hb1) as (c1 & Hinv1 & Ec1 & ->).
  cbn [client_max_querybuf_len add_input_bytes]. rewrite Hmax, Z.gtb_ltb.
  destruct (Z.ltb_spec (1024 * 1024 * 1024) (Zlen (l ++ bs))); [lia|]. unfold processInputBuffer, sdslen. rewrite (ok_len _ _ (pi_buf _ _ Hinv1)).
  destruct (input_loop_stream (S (S (Z.to_nat (Zlen (l ++ bs))))) c1 (set_current (add_input_bytes s (Zlen bs)) true) (l ++ bs) (r :: rs) fut')
    as (c' & s' & -> & l' & dn & rest & P1 & P2 & P3 & P4 & -> & P6); [done|by rewrite Ec1|done|done|done| |lia|].
  { exists todo. rewrite Ec1. split; [done|]. split; [by rewrite <- app_assoc, Ef|done]. }
  cbn [mbind option_bind]. exists c', (set_current (set_app (set_current (add_input_bytes s (Zlen bs)) true) (run_all (app s) (commands dn))) false), dn, rest.
  split; [done|]. split; [|split_and!; try done; rewrite P3, Ec1; done].
  split; try done; [by exists l'|]. rewrite P4 in Hok. by apply Forall_app in Hok as [_ ?].
Qed.

Lemma serve_stream ks : forall c s fut reqs, between c s fut reqs -> Forall (fun k => 1 <= k) ks ->
  exists c' s' fut' done rest, serve ks c s fut = Some (c', s', fut') /\ between c' s' fut' rest /\ reqs = done ++ rest /\
    app s' = run_all (app s) (commands done) /\ c_reply c' = c_reply c /\ Zlen fut' <= Z.max 0 (Zlen fut - Zlen ks).
Proof.
  induction ks as [|k ks IH]; intros c s fut reqs Hb Hks; cbn [serve].
  { exists c, s, fut, [], reqs. split_and!; (done || cbn; lia). }
  destruct fut as [|x fut]; [exists c, s, [], [], reqs; split_and!; (done || cbn; lia)|].
  inversion_clear Hks as [|? ? Hk Hks']. set (st := x :: fut) in *.
  destruct (read_portion c s st reqs k Hb Hk ltac:(done)) as (c1 & s1 & dn & rest & -> & Hb1 & -> & Happ & Hrep & Hpos).
  cbn [mbind option_bind]. destruct (IH c1 s1 _ rest Hb1 Hks') as (c2 & s2 & fut2 & dn2 & rest2 & -> & Hb2 & -> & Happ2 & Hrep2 & Hlen2).
  exists c2, s2, fut2, (dn ++ dn2), rest2. split; [done|]. split; [done|]. split; [by rewrite app_assoc|].
  split; [|split; [congruence|]].
  - rewrite Happ2, Happ. unfold run_all, commands. by rewrite fmap_app, filter_app, foldl_app.
  - cbn [length] in *. rewrite length_drop in Hlen2. subst st. cbn [length] in *. lia.
Qed.

(** A fresh client before a stream. *)
Lemma between_fresh c s reqs : parser_inv c [] -> fresh c -> able c -> clients_paused s = false ->
  client_max_querybuf_len s = 1024 * 1024 * 1024 -> Forall request_ok reqs -> Forall is_byte (encodes reqs) ->
  between c s (encodes reqs) reqs.
Proof.
  intros Hinv Hf Ha Hp Hm Hok Hb. split; try done. exists []. split; [done|]. apply pending_nil, fresh_pending; [done|done|done].
Qed.

End Stream.

(** The bytes of requests. *)
Lemma encode_bytes r : request_ok r -> Forall is_byte (encode r).
Proof.
  assert (Forall is_byte crlf) as Hc by (repeat constructor; done).
  destruct r as [args|line]; cbn [request_ok encode].
  - intros [Hargs _]. constructor; [done|]. apply Forall_app. split; [apply sdec_bytes|]. apply Forall_app. split; [done|].
    induction Hargs as [|a args [Ha _] _ IH]; [constructor|]. rewrite bulks_cons. apply Forall_app. split; [|done].
    unfold bulk. constructor; [done|]. repeat (apply Forall_app; split); (done || apply sdec_bytes).
  - intros (Hl & _). by apply Forall_app.
Qed.

Lemma encodes_bytes rs : Forall request_ok rs -> Forall is_byte (encodes rs).
Proof.
  induction 1 as [|r rs Hr _ IH]; [constructor|]. apply Forall_app. split; [by apply encode_bytes|done].
Qed.

(** A new client. *)
Lemma createClient_fresh t : exists c, createClient t = Some c /\ parser_inv c [] /\ fresh c /\ able c /\ c_reply c = [].
Proof.
  unfold createClient, sdsempty. destruct (sdsnewlen_spec [] ltac:(constructor) ltac:(done)) as (q & E & Hq).
  cbn [length] in E. change (Z.of_nat 0) with 0 in E. rewrite E. cbn [mbind option_bind]. eexists. split; [done|].
  split; [|done]. apply idle_inv; done.
Qed.
