(* ===== verification/RequestCmds.v ===== *)
(** The theorems about the request parser.

    [record_command] is a command interpreter that records what it is given;
    the witnesses and the examples use it. *)

From S2P Require Import Prelude Sds SdsText Util Request RequestSpec RequestSafe RequestStream.

(** ** A command interpreter that records its commands *)

Abbreviation log := (list (list (list Z))).

Definition record_command (c : client) (s : server log) : option (client * server log * bool) :=
  Some (c, set_app s (app s ++ [c_argv c]), true).

#[export] Instance record_command_law : CommandLaw record_command.
Proof. intros c s. eexists _, _, _. split; [done|]. cbn. auto 10. Qed.

#[export] Instance record_executes : Executes record_command (fun argv log => log ++ [argv]).
Proof.
  intros c s Ha. exists (c_argv c), (c_argv_size c), (c_cmd c), (c_flags c). split; [by destruct c|]. done.
Qed.

Definition idle_server : server log := Server false false 0 0 0 (1024 * 1024 * 1024) 0 [] 0 [].

#[export] Instance arg_ok_dec a : Decision (arg_ok a).
Proof. unfold arg_ok. apply _. Defined.
#[export] Instance request_ok_dec r : Decision (request_ok r).
Proof. destruct r; cbn; apply _. Defined.

(** ** Streams *)

(** C1. Requests are executed once, in order, and as soon as they are
    complete, however the network cuts the stream.  The commands are ones that
    complete ([Executes]: none blocks, closes or pauses, so QUIT or a waiting BLPOP
    is not among them), and clients are not paused.  For any well-formed requests,
    multi bulk or inline (a line of at most 48 kB), and any sizes of the portions
    [read] returns, serving the stream never rejects it; when it stops, the requests [done] were executed (the empty
    ones skipped) and what is unread begins inside the first of the others, so no
    complete request waits.  Enough portions execute the whole stream. *)
Theorem stream_executed {A} processCommand (run : list (list Z) -> A -> A) `{!Executes processCommand run} t s ks reqs :
  clients_paused s = false -> client_max_querybuf_len s = 1024 * 1024 * 1024 -> Forall request_ok reqs ->
  Forall (fun k => 1 <= k) ks ->
  exists c0 c s' fut done rest, createClient t = Some c0 /\
    serve processCommand ks c0 s (encodes reqs) = Some (c, s', fut) /\ reqs = done ++ rest /\
    app s' = run_all run (app s) (commands done) /\ c_reply c = [] /\
    match rest with
    | [] => fut = []
    | r :: rs => exists p q, encode r = p ++ q /\ q <> [] /\ fut = q ++ encodes rs
    end /\
    (Zlen (encodes reqs) <= Zlen ks -> rest = []).
Proof.
  intros Hp Hm Hok Hks. destruct (createClient_fresh t) as (c0 & E0 & Hinv & Hf & Ha & Hr).
  pose proof (between_fresh c0 s reqs Hinv Hf Ha Hp Hm Hok (encodes_bytes _ Hok)) as Hb.
  destruct (serve_stream processCommand run ks c0 s _ reqs Hb Hks) as (c & s' & fut & dn & rest & E & Hb' & Er & Happ & Hrep & Hlen).
  exists c0, c, s', fut, dn, rest. destruct Hb' as [(l & _ & Hset) _ _ _ _ _].
  assert (match rest with [] => fut = [] | r :: rs => exists p q, encode r = p ++ q /\ q <> [] /\ fut = q ++ encodes rs end) as Hfut.
  { destruct rest as [|r rs]; [by destruct Hset as (_ & ? & _)|]. destruct Hset as (todo & Hexp & Es & Hlt & _).
    destruct (expects_suffix _ _ _ Hexp) as (p & Ep). destruct (split_stream l fut todo _ Es) as [(d & -> & _)|(q & -> & Hq & ->)].
    - rewrite length_app in Hlt. lia.
    - exists (p ++ l), q. by rewrite <- app_assoc. }
  split_and!; try done; [congruence|]. intros Hall. destruct rest as [|r rs]; [done|]. exfalso.
  destruct Hfut as (p & q & _ & Hq & ->). rewrite length_app in Hlen. destruct q; [done|]. cbn [length] in Hlen. lia.
Qed.

(** [SET k "\r\n*"], an inline [PING "a b"], an empty request and [GET k], in
    portions of 1 to 5 bytes. *)
Definition sample_requests : list request :=
  [Multi [[83; 69; 84]; [107]; [13; 10; 42]]; Inline [80; 73; 78; 71; 32; 34; 97; 32; 98; 34]; Multi []; Multi [[71; 69; 84]; [107]]].

Definition sample_portions : list Z := concat (replicate 40 [2; 1; 5; 3]).

Lemma stream_executed_witness : exists c0 c s', createClient 0 = Some c0 /\
  serve record_command sample_portions c0 idle_server (encodes sample_requests) = Some (c, s', []) /\
  app s' = [[[83; 69; 84]; [107]; [13; 10; 42]]; [[80; 73; 78; 71]; [97; 32; 98]]; [[71; 69; 84]; [107]]].
Proof.
  destruct (stream_executed record_command (fun argv log => log ++ [argv]) 0 idle_server sample_portions sample_requests)
    as (c0 & c & s' & fut & dn & rest & E0 & E & Er & Happ & _ & Hrest & Hall).
  - reflexivity.
  - reflexivity.
  - apply (bool_decide_unpack _). vm_compute. exact I.
  - apply (bool_decide_unpack _). vm_compute. exact I.
  - rewrite Hall in * by (vm_compute; discriminate). rewrite app_nil_r in Er. subst fut dn. exists c0, c, s'.
    split; [exact E0|]. split; [exact E|]. rewrite Happ. vm_compute. reflexivity.
Defined.

(** ** Arbitrary input *)

(** C5. The parser is safe on any input.  Whatever bytes a connection
    delivers and however, with pauses, resumptions and other changes of the server
    and of the client's flags in between, and with any command interpreter that
    leaves the parser's state alone, every event handler returns: no access leaves
    the query buffer or the argument array, no assertion fails and no loop fails to
    end; the parser's invariant holds and the buffer stays within the limit of 1 GB. *)
Theorem request_parser_safe {A} (processCommand : client -> server A -> option (client * server A * bool)) `{!CommandLaw processCommand}
    t s (es : list (event (A := A))) :
  client_max_querybuf_len s <= 2 ^ 30 -> Forall event_law es ->
  exists c0 oc s', createClient t = Some c0 /\ run_events processCommand c0 s es = Some (oc, s') /\
    (forall c, oc = Some c -> exists l, parser_inv c l /\ Zlen l <= 2 ^ 30).
Proof.
  intros Hm Hes. destruct (createClient_fresh t) as (c0 & E0 & Hinv & _).
  destruct (run_events_safe processCommand es c0 s [] Hinv ltac:(done) Hes Hm) as (oc & s' & E & H).
  by exists c0, oc, s'.
Qed.

(** Garbage, then an attempt to read on. *)
Lemma request_parser_safe_witness : exists c0 oc s', createClient 0 = Some c0 /\
  run_events record_command c0 idle_server
    [Readable (fun n => ReadBytes (take (Z.to_nat n) [42; 49; 13; 10; 36; 45; 13; 10; 0])); Resume; Readable (fun _ => ReadAgain)]
  = Some (oc, s') /\ (forall c, oc = Some c -> exists l, parser_inv c l /\ Zlen l <= 2 ^ 30).
Proof.
  apply (request_parser_safe record_command 0 idle_server).
  - vm_compute. discriminate.
  - constructor; [|constructor; [exact I|constructor; [|constructor]]].
    + intros n bs Hn [= <-]. split; [|apply Forall_take, (bool_decide_unpack _); vm_compute; exact I].
      rewrite length_take. lia.
    + intros n bs _ [=].
Defined.

(** ** Failures *)

(** A line that ends in a newline alone: the byte behind it goes with it. *)
Lemma inline_newline_alone {A} c (s : server A) line y rest args : sds_ok (c_querybuf c) (line ++ 10 :: y :: rest) ->
  Zlen (line ++ 10 :: y :: rest) < 2 ^ 31 - 2 -> 10 ∉ line -> 0 ∉ line -> last line <> Some 13 -> arguments line = Some args ->
  exists c', processInlineBuffer c s = Some (c', true) /\ c_argv c' = filter (fun a => a <> []) args /\ sds_ok (c_querybuf c') rest.
Proof.
  intros Hok Hl H10 H0 H13 Hargs. destruct (processInlineBuffer_content c s _ Hok Hl) as (c' & ok & E & Hc).
  rewrite find_chr_app in Hc by done.
  assert (line_length (line ++ 10 :: y :: rest) (length line) = length line) as En.
  { destruct line as [|x line _] using rev_ind; [done|]. rewrite length_app, Nat.add_1_r. cbn [line_length].
    rewrite <- app_assoc. cbn [List.app]. rewrite list_lookup_middle by done. rewrite bool_decide_eq_false_2; [done|].
    intros [= ->]. by rewrite last_snoc in H13. }
  rewrite En, take_app_length, Hargs in Hc. destruct Hc as (-> & q & u & size & -> & Hq).
  eexists. split; [exact E|]. split; [done|]. cbn [c_querybuf set_argv set_querybuf].
  by rewrite <- drop_drop, drop_app_length in Hq.
Qed.

(** A client of the multi bulk format in the middle of a big argument. *)
Definition in_big_arg (c : client) : Prop :=
  c_reqtype c = PROTO_REQ_MULTIBULK /\ c_multibulklen c <> 0 /\ PROTO_MBULK_BIG_ARG <= c_bulklen c <= 512 * 1024 * 1024.

Lemma readlen_complete c l : in_big_arg c -> sds_ok (c_querybuf c) l -> Zlen l = c_bulklen c + 2 -> readlen c = 0.
Proof.
  intros (Ht & Hm & Hb) Hok Hl. unfold readlen. rewrite Ht, Z.eqb_refl. unfold PROTO_MBULK_BIG_ARG in *.
  destruct (Z.eqb_spec (c_multibulklen c) 0); [done|]. destruct (Z.eqb_spec (c_bulklen c) (-1)); [lia|].
  rewrite Z.geb_leb. destruct (Z.leb_spec (1024 * 32) (c_bulklen c)); [|lia]. cbn [negb andb].
  unfold sdslen. rewrite (ok_len _ _ Hok), (wrapu_id 32), Hl, Z.sub_diag by lia. reflexivity.
Qed.

Lemma paused_input_waits {A} pc c (s : server A) l : sds_ok (c_querybuf c) l -> l <> [] -> clients_paused s = true ->
  mstime s <= clients_pause_end_time s -> has (c_flags c) CLIENT_SLAVE = false ->
  processInputBuffer pc c s = Some (Some c, set_current s false).
Proof.
  intros Hok Hl Hp Ht Hs. unfold processInputBuffer. cbn [input_loop]. unfold sdslen. rewrite (ok_len _ _ Hok).
  destruct (Z.eqb_spec (Zlen l) 0); [by destruct l|]. rewrite Hs. unfold clientsArePaused.
  cbn [clients_paused clients_pause_end_time mstime set_current]. rewrite Hp.
  destruct (Z.ltb_spec (clients_pause_end_time s) (mstime s)); [lia|]. done.
Qed.

Lemma zero_read_frees {A} pc read c (s : server A) l : in_big_arg c -> sds_ok (c_querybuf c) l -> Zlen l = c_bulklen c + 2 ->
  read 0 = ReadBytes [] -> readQueryFromClient pc read c s = Some (None, s).
Proof.
  intros Hc Hok Hl Hread. unfold readQueryFromClient. rewrite (readlen_complete c l Hc Hok Hl). change (u64 0) with 0.
  rewrite Hread. destruct Hc as (_ & _ & Hb).
  assert (forall c', c_querybuf c' = c_querybuf c -> exists q, sdsMakeRoomFor (c_querybuf c') 0 = Some q) as Hroom.
  { intros c' ->. destruct (sdsMakeRoomFor_spec _ l 0 Hok) as (q & E & _); [lia|lia|by exists q]. }
  destruct (_ <? _).
  - destruct (Hroom (set_interaction c (sdslen (c_querybuf c)) (c_lastinteraction c) (c_reploff c)) eq_refl) as (q & ->). done.
  - destruct (Hroom c eq_refl) as (q & ->). done.
Qed.

(** C40. Three failures, in general.  (1) An inline request whose line ends in
    a newline alone is executed with its arguments, and the byte behind the
    newline, which belongs to the next request, is dropped with it.  (2) A
    length line that has not arrived whole makes the parser wait when it is alone
    in the buffer ([d], at most 64 kB); behind enough bytes of the same request
    that were consumed before it, so that the whole buffer [l] is longer than
    64 kB, the same bytes are a protocol error.  (3) When a big argument is
    complete in the buffer while clients are paused, the argument is not
    processed, and the next readable event asks the socket for zero bytes, takes
    the zero [read] then returns for the end of the connection and frees the
    client, whatever the interpreter and whatever else the socket holds. *)
Theorem request_parser_failures {A} (c : client) (s : server A) :
  (forall line y rest args, sds_ok (c_querybuf c) (line ++ 10 :: y :: rest) -> Zlen (line ++ 10 :: y :: rest) < 2 ^ 31 - 2 ->
     10 ∉ line -> 0 ∉ line -> last line <> Some 13 -> arguments line = Some args ->
     exists c', processInlineBuffer c s = Some (c', true) /\ c_argv c' = filter (fun a => a <> []) args /\
       sds_ok (c_querybuf c') rest) /\
  (forall l pos d, at_pos (c_querybuf c) l pos d -> 13 ∉ d -> Zlen d <= PROTO_INLINE_MAX_SIZE < Zlen l ->
     (exists c', read_bulklen c pos = Some (Return c' false) /\ rejected c l too_big_bulk_count 0 c') /\
     (forall c1, sds_ok (c_querybuf c1) d -> read_bulklen c1 0 = Some (Break c1 0))) /\
  (forall l processCommand read, in_big_arg c -> sds_ok (c_querybuf c) l -> Zlen l = c_bulklen c + 2 -> read 0 = ReadBytes [] ->
     (clients_paused s = true -> mstime s <= clients_pause_end_time s -> has (c_flags c) CLIENT_SLAVE = false ->
        processInputBuffer processCommand c s = Some (Some c, set_current s false)) /\
     readlen c = 0 /\ readQueryFromClient processCommand read c s = Some (None, s)).
Proof.
  split_and!.
  - apply inline_newline_alone.
  - intros l pos d Hat H13 Hd. split.
    + destruct (read_bulklen_content c l pos d Hat) as (r & E & Hr). rewrite find_chr_none in Hr by done.
      rewrite Z.gtb_ltb in Hr. destruct (Z.ltb_spec PROTO_INLINE_MAX_SIZE (Zlen l)); [|lia].
      destruct Hr as (c' & -> & Hr). by exists c'.
    + intros c1 Hok. unfold PROTO_INLINE_MAX_SIZE in *.
      destruct (read_bulklen_content c1 d 0 d (at_pos_0 _ _ Hok ltac:(lia))) as (r & -> & Hr). rewrite find_chr_none in Hr by done.
      rewrite Z.gtb_ltb in Hr. unfold PROTO_INLINE_MAX_SIZE in Hr. destruct (Z.ltb_spec (1024 * 64) (Zlen d)); [lia|]. by rewrite Hr.
  - intros l pc read Hc Hok Hl Hread. split_and!.
    + intros Hp Ht Hs. apply (paused_input_waits pc c s l); try done. destruct Hc as (_ & _ & Hb).
      unfold PROTO_MBULK_BIG_ARG in Hb. intros ->. cbn [length] in Hl. lia.
    + by apply (readlen_complete c l).
    + by apply (zero_read_frees pc read c s l).
Qed.

(** A buffer that holds [l], and a client with it. *)
Definition buffer_of (l : list Z) : sds := Sds SDS_TYPE_64 (Zlen l) (Zlen l) ((Some <$> l) ++ [Some 0]).

Lemma buffer_of_ok l : Forall is_byte l -> Zlen l < 2 ^ 31 -> sds_ok (buffer_of l) l.
Proof. intros Hb Hl. constructor; cbn; try done; try lia. exists []. split; [done|cbn; lia]. Qed.

Definition client_at (l : list Z) (reqtype multibulklen bulklen : Z) : client :=
  Client (buffer_of l) 0 [] 8 false reqtype multibulklen bulklen [] 0 0 0 0.

(** "PING" and a newline, 65536 bytes in front of an unfinished length line, and
    a complete big argument. *)
Lemma request_parser_failures_witness :
  (exists c', processInlineBuffer (client_at ([80; 73; 78; 71] ++ 10 :: 80 :: [79; 13; 10]) 1 0 (-1)) idle_server = Some (c', true) /\
     c_argv c' = [[80; 73; 78; 71]] /\ sds_ok (c_querybuf c') [79; 13; 10]) /\
  (exists c', read_bulklen (client_at (replicate (Z.to_nat 65536) 97 ++ [36; 53]) 2 1 (-1)) 65536 = Some (Return c' false) /\
     c_reply c' = [too_big_bulk_count]) /\
  readQueryFromClient record_command (fun n => ReadBytes (take (Z.to_nat n) [42]))
    (client_at (replicate (Z.to_nat 40002) 97) 2 1 40000) idle_server = Some (None, idle_server).
Proof.
  split; [|split].
  - refine (proj1 (request_parser_failures _ idle_server) [80; 73; 78; 71] 80 [79; 13; 10] [[80; 73; 78; 71]] _ _ _ _ _ _).
    + apply buffer_of_ok; [apply (bool_decide_unpack _); vm_compute; exact I|reflexivity].
    + reflexivity.
    + apply (bool_decide_unpack _). vm_compute. exact I.
    + apply (bool_decide_unpack _). vm_compute. exact I.
    + discriminate.
    + vm_compute. reflexivity.
  - destruct (proj1 (proj2 (request_parser_failures (client_at (replicate (Z.to_nat 65536) 97 ++ [36; 53]) 2 1 (-1)) idle_server))
      (replicate (Z.to_nat 65536) 97 ++ [36; 53]) 65536 [36; 53]) as [(c' & E & q & Ec & _) _].
    + split; [|split; [|split]].
      * apply buffer_of_ok; [apply (bool_decide_unpack _); vm_compute; exact I|vm_compute; reflexivity].
      * vm_compute. reflexivity.
      * vm_compute. split; discriminate.
      * vm_compute. reflexivity.
    + apply (bool_decide_unpack _). vm_compute. exact I.
    + vm_compute. split; [discriminate|reflexivity].
    + exists c'. split; [exact E|]. rewrite Ec. reflexivity.
  - apply (proj2 (proj2 (request_parser_failures (client_at (replicate (Z.to_nat 40002) 97) 2 1 40000) idle_server))
      (replicate (Z.to_nat 40002) 97) record_command (fun n => ReadBytes (take (Z.to_nat n) [42]))).
    + split; [reflexivity|]. split; [discriminate|]. vm_compute. split; discriminate.
    + apply buffer_of_ok; [apply (bool_decide_unpack _); vm_compute; exact I|vm_compute; reflexivity].
    + vm_compute. reflexivity.
    + reflexivity.
Defined.

(** *** The three failures from a connection's bytes on *)

(** A client that pauses, and is served again. *)
Definition pause : event (A := log) := Outside (fun f => f) (fun s =>
  Server (current_client s) true 1000 0 (unixtime s) (client_max_querybuf_len s) (stat_net_input_bytes s) (others s)
    (unblocked_clients s) (app s)).
Definition unpaused : event (A := log) := Outside (fun f => f) (fun s =>
  Server (current_client s) false 1000 2000 (unixtime s) (client_max_querybuf_len s) (stat_net_input_bytes s) (others s)
    (unblocked_clients s) (app s)).

(** The socket holds these bytes. *)
Definition available (bs : list Z) : event (A := log) := Readable (fun n => ReadBytes (take (Z.to_nat n) bs)).

(** The portions a paused client is read in. *)
Fixpoint portions (n : nat) (bs : list Z) : list (event (A := log)) :=
  match n with
  | O => []
  | S n => available bs :: portions n (drop (Z.to_nat PROTO_IOBUF_LEN) bs)
  end.

Definition outcome_of (es : list (event (A := log))) : option (option (list protocol_error) * log) :=
  match createClient 0 with
  | Some c =>
    match run_events record_command c idle_server es with
    | Some (oc, s) => Some (c_reply <$> oc, app s)
    | None => None
    end
  | None => None
  end.

(** Two arguments of 32767 bytes and the first byte of a third. *)
Definition wide_request : list Z :=
  let a := replicate (Z.to_nat 32767) 97 in 42 :: 51 :: crlf ++ bulk a ++ bulk a ++ [36].

(** An argument of 32768 bytes, complete while the client is paused. *)
Definition paused_upload : list (event (A := log)) :=
  let a := replicate (Z.to_nat PROTO_MBULK_BIG_ARG) 97 ++ crlf in
  [available (42 :: 49 :: crlf ++ 36 :: sdec PROTO_MBULK_BIG_ARG ++ crlf); pause;
   available a; available (drop (Z.to_nat PROTO_IOBUF_LEN) a); available crlf].

(** A newline alone; a correct request read without and with a pause; a big
    argument that completes during a pause. *)
Example failures_reached :
  outcome_of [available ([80; 73; 78; 71; 10] ++ [80; 73; 78; 71] ++ crlf)] = Some (Some [], [[[80; 73; 78; 71]]; [[73; 78; 71]]]) /\
  outcome_of (portions 5 wide_request) = Some (Some [], []) /\
  outcome_of (pause :: portions 5 wide_request ++ [unpaused; Resume]) = Some (Some [too_big_bulk_count], []) /\
  outcome_of paused_upload = Some (Some [], []) /\
  outcome_of (paused_upload ++ [available [42]]) = Some (None, []).
Proof. vm_compute. auto. Qed.
